(** * Ingestion pipeline of gen-books: a shallow embedding of
    [cmd/gen-books/gen_book.go] and the properties of its book assembly.

    The Go code works on a heap of [Article], [Chapter] and [Book] structs
    reached through pointers, prints to standard output, and can leave a
    function by returning, by panicking or by [os.Exit].  The embedding keeps
    all three: pointers are indices into per-type stores of a [World], and
    every function is a computation in the monad [M] over that world. *)

From stdpp Require Import base option list strings gmap pretty sorting.
From Stdlib Require Import Ascii ZArith Lia.

Local Open Scope Z_scope.
Local Open Scope string_scope.
Local Open Scope list_scope.

(** ** Go values *)

(** A Go [error] built by [fmt.Errorf] is its message; [None] is [nil]. *)
Definition error : Type := string.

(** Pointers are indices into the store of their type; [None] is [nil]. *)
Abbreviation loc := nat.

(** Go's [int] on a 64-bit platform, as a [Z] wrapped into its range. *)
Definition int_min : Z := - 2 ^ 63.
Definition int_max : Z := 2 ^ 63 - 1.
Definition int_wrap (z : Z) : Z := (z + 2 ^ 63) mod 2 ^ 64 - 2 ^ 63.
Definition int_add (a b : Z) : Z := int_wrap (a + b).

(** [len(s)] of a slice, which Go guarantees to fit an [int]. *)
Definition len {A : Type} (l : list A) : Z := Z.of_nat (length l).

(** [strings.HasPrefix] and [strings.Contains], on byte strings. *)
Definition HasPrefix (s prefix : string) : bool := String.prefix prefix s.

Fixpoint Contains (s substr : string) : bool :=
  String.prefix substr s ||
  match s with
  | EmptyString => false
  | String _ s' => Contains s' substr
  end.

(** [strings.Join]. *)
Fixpoint Join (elems : list string) (sep : string) : string :=
  match elems with
  | [] => ""
  | [e] => e
  | e :: rest => e +:+ sep +:+ Join rest sep
  end.

(** The ASCII white space characters of [unicode.IsSpace]:
    tab, line feed, vertical tab, form feed, carriage return and space. *)
Definition IsSpace (c : ascii) : bool :=
  let n := nat_of_ascii c in
  ((9 <=? n)%nat && (n <=? 13)%nat) || (n =? 32)%nat.

Fixpoint has_whitespace (s : string) : bool :=
  match s with
  | EmptyString => false
  | String c s' => IsSpace c || has_whitespace s'
  end.

(** ** The KV document ([kvstore.Doc]) *)

Record KeyValue := mkKV { Key : string; Value : string }.

(** [kvstore.Doc] is a slice of [KeyValue] (see [dumpKV] and
    [genContributorsChapter]); the nil document is the empty list. *)
Definition Doc : Type := list KeyValue.

(** Modelled from the spec: [Doc.GetValue] lives in [pkg/kvstore], which is
    not part of the sources at hand.  Section 4.1: it returns the first
    entry's value for that key or a not-found error. *)
Fixpoint GetValue (doc : Doc) (key : string) : string * option error :=
  match doc with
  | [] => ("", Some ("key '" +:+ key +:+ "' not found"))
  | kv :: rest => if String.eqb (Key kv) key then (Value kv, None) else GetValue rest key
  end.

(** Modelled from the spec: [Doc.GetValueSilent] of [pkg/kvstore].
    Section 4.1: it never fails, substituting the default. *)
Definition GetValueSilent (doc : Doc) (key def : string) : string :=
  match GetValue doc key with
  | (v, None) => v
  | (_, Some _) => def
  end.

(** ** The structs *)

#[local] Set Warnings "-register-all".

Module Article.
(** [type Article struct]; [Siblings] holds copies, hence the recursion. *)
Inductive t : Type := mk {
  ID : string;
  No : Z;
  Chapter : option loc;
  Title : string;
  FileNameBase : string;
  BodyMarkdown : string;
  BodyHTML : string;
  Siblings : list t;
  IsCurrent : bool;
  sourceFilePath : string;
  AnalyticsCode : string
}.

(** The zero value of the struct. *)
Definition zero : t := mk "" 0 None "" "" "" "" [] false "" "".

Definition with_ID (v : string) (a : t) : t :=
  mk v (No a) (Chapter a) (Title a) (FileNameBase a) (BodyMarkdown a) (BodyHTML a)
     (Siblings a) (IsCurrent a) (sourceFilePath a) (AnalyticsCode a).
Definition with_No (v : Z) (a : t) : t :=
  mk (ID a) v (Chapter a) (Title a) (FileNameBase a) (BodyMarkdown a) (BodyHTML a)
     (Siblings a) (IsCurrent a) (sourceFilePath a) (AnalyticsCode a).
Definition with_Chapter (v : option loc) (a : t) : t :=
  mk (ID a) (No a) v (Title a) (FileNameBase a) (BodyMarkdown a) (BodyHTML a)
     (Siblings a) (IsCurrent a) (sourceFilePath a) (AnalyticsCode a).
Definition with_Title (v : string) (a : t) : t :=
  mk (ID a) (No a) (Chapter a) v (FileNameBase a) (BodyMarkdown a) (BodyHTML a)
     (Siblings a) (IsCurrent a) (sourceFilePath a) (AnalyticsCode a).
Definition with_FileNameBase (v : string) (a : t) : t :=
  mk (ID a) (No a) (Chapter a) (Title a) v (BodyMarkdown a) (BodyHTML a)
     (Siblings a) (IsCurrent a) (sourceFilePath a) (AnalyticsCode a).
Definition with_BodyMarkdown (v : string) (a : t) : t :=
  mk (ID a) (No a) (Chapter a) (Title a) (FileNameBase a) v (BodyHTML a)
     (Siblings a) (IsCurrent a) (sourceFilePath a) (AnalyticsCode a).
Definition with_BodyHTML (v : string) (a : t) : t :=
  mk (ID a) (No a) (Chapter a) (Title a) (FileNameBase a) (BodyMarkdown a) v
     (Siblings a) (IsCurrent a) (sourceFilePath a) (AnalyticsCode a).
Definition with_Siblings (v : list t) (a : t) : t :=
  mk (ID a) (No a) (Chapter a) (Title a) (FileNameBase a) (BodyMarkdown a) (BodyHTML a)
     v (IsCurrent a) (sourceFilePath a) (AnalyticsCode a).
Definition with_IsCurrent (v : bool) (a : t) : t :=
  mk (ID a) (No a) (Chapter a) (Title a) (FileNameBase a) (BodyMarkdown a) (BodyHTML a)
     (Siblings a) v (sourceFilePath a) (AnalyticsCode a).
Definition with_sourceFilePath (v : string) (a : t) : t :=
  mk (ID a) (No a) (Chapter a) (Title a) (FileNameBase a) (BodyMarkdown a) (BodyHTML a)
     (Siblings a) (IsCurrent a) v (AnalyticsCode a).
End Article.

Module Chapter.
(** [type Chapter struct]. *)
Record t : Type := mk {
  ID : string;
  Book : option loc;
  ChapterDir : string;
  indexFilePath : string;
  indexDoc : Doc;
  Title : string;
  FileNameBase : string;
  Articles : list loc;
  No : Z;
  AnalyticsCode : string
}.

Definition zero : t := mk "" None "" "" [] "" "" [] 0 "".

Definition with_ID (v : string) (c : t) : t :=
  mk v (Book c) (ChapterDir c) (indexFilePath c) (indexDoc c) (Title c)
     (FileNameBase c) (Articles c) (No c) (AnalyticsCode c).
Definition with_indexFilePath (v : string) (c : t) : t :=
  mk (ID c) (Book c) (ChapterDir c) v (indexDoc c) (Title c)
     (FileNameBase c) (Articles c) (No c) (AnalyticsCode c).
Definition with_indexDoc (v : Doc) (c : t) : t :=
  mk (ID c) (Book c) (ChapterDir c) (indexFilePath c) v (Title c)
     (FileNameBase c) (Articles c) (No c) (AnalyticsCode c).
Definition with_Title (v : string) (c : t) : t :=
  mk (ID c) (Book c) (ChapterDir c) (indexFilePath c) (indexDoc c) v
     (FileNameBase c) (Articles c) (No c) (AnalyticsCode c).
Definition with_FileNameBase (v : string) (c : t) : t :=
  mk (ID c) (Book c) (ChapterDir c) (indexFilePath c) (indexDoc c) (Title c)
     v (Articles c) (No c) (AnalyticsCode c).
Definition with_Articles (v : list loc) (c : t) : t :=
  mk (ID c) (Book c) (ChapterDir c) (indexFilePath c) (indexDoc c) (Title c)
     (FileNameBase c) v (No c) (AnalyticsCode c).
Definition with_No (v : Z) (c : t) : t :=
  mk (ID c) (Book c) (ChapterDir c) (indexFilePath c) (indexDoc c) (Title c)
     (FileNameBase c) (Articles c) v (AnalyticsCode c).
End Chapter.

(** [type SoContributor struct]. *)
Record SoContributor := mkSoContributor {
  soID : Z;
  soURLPart : string;
  soName : string
}.

Module Book.
(** [type Book struct]; the channel and wait group fields are never used
    (parseBook works with locals of its own). *)
Record t : Type := mk {
  Title : string;
  titleSafe : string;
  TitleLong : string;
  FileNameBase : string;
  Chapters : list loc;
  sourceDir : string;
  destDir : string;
  SoContributors : list SoContributor;
  cachedArticlesCount : Z;
  defaultLang : string;
  knownUrls : list string;
  AnalyticsCode : string
}.

Definition with_Chapters (v : list loc) (b : t) : t :=
  mk (Title b) (titleSafe b) (TitleLong b) (FileNameBase b) v (sourceDir b)
     (destDir b) (SoContributors b) (cachedArticlesCount b) (defaultLang b)
     (knownUrls b) (AnalyticsCode b).
Definition with_SoContributors (v : list SoContributor) (b : t) : t :=
  mk (Title b) (titleSafe b) (TitleLong b) (FileNameBase b) (Chapters b) (sourceDir b)
     (destDir b) v (cachedArticlesCount b) (defaultLang b)
     (knownUrls b) (AnalyticsCode b).
Definition with_cachedArticlesCount (v : Z) (b : t) : t :=
  mk (Title b) (titleSafe b) (TitleLong b) (FileNameBase b) (Chapters b) (sourceDir b)
     (destDir b) (SoContributors b) v (defaultLang b)
     (knownUrls b) (AnalyticsCode b).
Definition with_knownUrls (v : list string) (b : t) : t :=
  mk (Title b) (titleSafe b) (TitleLong b) (FileNameBase b) (Chapters b) (sourceDir b)
     (destDir b) (SoContributors b) (cachedArticlesCount b) (defaultLang b)
     v (AnalyticsCode b).
End Book.

(** [os.FileInfo], as far as the code looks at it. *)
Record FileInfo := mkFileInfo {
  fiName : string;
  fiIsDir : bool;
  fiIsRegular : bool
}.

(** ** The world and the monad *)

(** The heap (one store per struct type), what was printed so far, and the
    errors that the soft error mode collected. *)
Record World := mkWorld {
  articles : list Article.t;
  chapters : list Chapter.t;
  books : list Book.t;
  stdout : list string;
  softErrors : list string
}.

Definition emptyWorld : World := mkWorld [] [] [] [] [].

(** How a call ends: it returns, the goroutine panics, or the process exits. *)
Inductive outcome (A : Type) : Type :=
| Ret (a : A)
| Panic (msg : string)
| Exit (code : Z).
Arguments Ret {A} a.
Arguments Panic {A} msg.
Arguments Exit {A} code.

Definition M (A : Type) : Type := World -> outcome A * World.

Definition ret {A} (a : A) : M A := fun w => (Ret a, w).

Definition bind {A B} (m : M A) (k : A -> M B) : M B :=
  fun w =>
    match m w with
    | (Ret a, w') => k a w'
    | (Panic msg, w') => (Panic msg, w')
    | (Exit code, w') => (Exit code, w')
    end.

Global Instance M_ret : MRet M := @ret.
Global Instance M_bind : MBind M := fun A B k m => bind m k.

Definition panic {A} (msg : string) : M A := fun w => (Panic msg, w).
Definition os_Exit {A} (code : Z) : M A := fun w => (Exit code, w).

(** [fmt.Printf], with the format already expanded. *)
Definition Printf (s : string) : M unit :=
  fun w => (Ret tt, mkWorld (articles w) (chapters w) (books w) (stdout w ++ [s]) (softErrors w)).

Definition nilDeref : string :=
  "runtime error: invalid memory address or nil pointer dereference".

(** [&T{...}]: a fresh object at the end of its store. *)
Definition new_article (a : Article.t) : M loc :=
  fun w => (Ret (length (articles w)),
            mkWorld (articles w ++ [a]) (chapters w) (books w) (stdout w) (softErrors w)).
Definition new_chapter (c : Chapter.t) : M loc :=
  fun w => (Ret (length (chapters w)),
            mkWorld (articles w) (chapters w ++ [c]) (books w) (stdout w) (softErrors w)).
Definition new_book (b : Book.t) : M loc :=
  fun w => (Ret (length (books w)),
            mkWorld (articles w) (chapters w) (books w ++ [b]) (stdout w) (softErrors w)).

(** Reading through a pointer. *)
Definition load_article (p : loc) : M Article.t :=
  fun w => match articles w !! p with
           | Some a => (Ret a, w)
           | None => (Panic nilDeref, w)
           end.
Definition load_chapter (p : loc) : M Chapter.t :=
  fun w => match chapters w !! p with
           | Some c => (Ret c, w)
           | None => (Panic nilDeref, w)
           end.
Definition load_book (p : loc) : M Book.t :=
  fun w => match books w !! p with
           | Some b => (Ret b, w)
           | None => (Panic nilDeref, w)
           end.

(** Writing a field through a pointer: [p.f = v]. *)
Definition update_article (p : loc) (f : Article.t -> Article.t) : M unit :=
  fun w => match articles w !! p with
           | Some a => (Ret tt, mkWorld (<[p := f a]> (articles w)) (chapters w) (books w)
                                        (stdout w) (softErrors w))
           | None => (Panic nilDeref, w)
           end.
Definition update_chapter (p : loc) (f : Chapter.t -> Chapter.t) : M unit :=
  fun w => match chapters w !! p with
           | Some c => (Ret tt, mkWorld (articles w) (<[p := f c]> (chapters w)) (books w)
                                        (stdout w) (softErrors w))
           | None => (Panic nilDeref, w)
           end.
Definition update_book (p : loc) (f : Book.t -> Book.t) : M unit :=
  fun w => match books w !! p with
           | Some b => (Ret tt, mkWorld (articles w) (chapters w) (<[p := f b]> (books w))
                                        (stdout w) (softErrors w))
           | None => (Panic nilDeref, w)
           end.

(** ** Collaborators outside [gen_book.go] *)

(** What [gen_book.go] calls but does not define: the packages [pkg/common]
    and [pkg/kvstore], other files of package [main], and the parts of the Go
    library and of the file system that the pipeline reads.  They are
    read-only: none of them touches the heap of the book. *)
Class Collaborators := {
  (* pkg/common *)
  ReadFileAsLines : string -> list string * option error;
  MakeURLSafe : string -> string;
  ShortenString : string -> string;
  (* pkg/kvstore *)
  ParseKVLines : list string -> Doc * option error;
  ParseKVFile : string -> Doc * option error;
  (* package main, other files *)
  extractCodeSnippetsAsMarkdownLines : string -> string -> list string * option error;
  getAlmostMaxProcs : Z;
  softErrorMode : bool;
  soUserIDToNameMap : Z -> string;
  destEssentialDir : string;
  (* Go library and operating system *)
  ReadDir : string -> list FileInfo * option error;
  filepath_Join : list string -> string;
  filepath_Dir : string -> string;
  filepath_Ext : string -> string;
  ToLower : string -> string;
  Atoi : string -> Z * option error;
  PathUnescape : string -> string * option error;
  (* sort.Slice, the less function given on the elements *)
  sort_Slice : list SoContributor -> (SoContributor -> SoContributor -> bool) ->
               list SoContributor;
  timeSince : string
}.

Section Pipeline.
Context `{Collaborators}.

Definition nl : string := String (ascii_of_nat 10) "".

(** [u.PanicIfErr] and [u.PanicIf] of [github.com/kjk/u]. *)
Definition PanicIfErr (err : option error) : M unit :=
  match err with
  | Some e => panic e
  | None => mret tt
  end.

Definition PanicIf (cond : bool) (msg : string) : M unit :=
  if cond then panic msg else mret tt.

(** Modelled from the spec: [maybePanicIfErr] is defined in another file of
    package main.  Sections 7 and 9: an externally configured strict or
    non-strict mode; the strict mode aborts on the error, the non-strict mode
    records it and continues. *)
Definition maybePanicIfErr (err : option error) : M unit :=
  match err with
  | None => mret tt
  | Some e =>
      if softErrorMode
      then fun w => (Ret tt, mkWorld (articles w) (chapters w) (books w) (stdout w)
                                     (softErrors w ++ [e]))
      else panic e
  end.

Definition defTitle : string := "No Title".

Fixpoint dumpKV (doc : Doc) : M unit :=
  match doc with
  | [] => mret tt
  | kv :: rest =>
      Printf ("K: " +:+ Key kv +:+ nl +:+ "V: " +:+ ShortenString (Value kv) +:+ nl);;
      dumpKV rest
  end.

(** The loop of [processFileIncludes]; [res] is the slice built so far. *)
Fixpoint processFileIncludes_loop (dir : string) (lines res : list string)
  : M (list string * option error) :=
  match lines with
  | [] => mret (res, None)
  | line :: rest =>
      if HasPrefix line "@file " then
        let '(lines2, err) := extractCodeSnippetsAsMarkdownLines dir line in
        match err with
        | Some e =>
            Printf ("processFileIncludes: error '" +:+ e +:+ "'" +:+ nl);;
            mret ([], Some e)
        | None => processFileIncludes_loop dir rest (res ++ lines2)
        end
      else processFileIncludes_loop dir rest (res ++ [line])
  end.

Definition processFileIncludes (path : string) : M (list string * option error) :=
  let '(lines, err) := ReadFileAsLines path in
  match err with
  | Some e => mret ([], Some e)
  | None => processFileIncludes_loop (filepath_Dir path) lines []
  end.

Definition paarseKVFileWithIncludes (path : string) : M (Doc * option error) :=
  '(lines, err) ← processFileIncludes path;
  match err with
  | None => mret (ParseKVLines lines)
  | Some _ => mret (ParseKVFile path)
  end.

(** [parseArticle].  The [&Article{}] is not shared before the function
    returns, so the struct is built as a value and enters the heap where the
    pointer is returned.  On the error returns after it was built the struct
    is dropped: nothing can reach it, and the store holds the objects that
    were handed out, not those that were only allocated. *)
Definition parseArticle (path : string) : M (option loc * option error) :=
  '(doc, err) ← paarseKVFileWithIncludes path;
  match err with
  | Some e =>
      Printf ("Error parsing KV file: '" +:+ path +:+ "'" +:+ nl);;
      maybePanicIfErr (Some e);;
      mret (None, Some e)
  | None =>
      let article := Article.with_sourceFilePath path Article.zero in
      let '(id, err) := GetValue doc "Id" in
      let article := Article.with_ID id article in
      match err with
      | Some e =>
          mret (None, Some ("parseArticle('" +:+ path +:+ "'), err: '" +:+ e +:+ "'"))
      | None =>
          if Contains (Article.ID article) " " then
            mret (None, Some ("parseArticle('" +:+ path +:+ "'), res.ID = '" +:+
                              Article.ID article +:+ "' has space in it"))
          else
            let article := Article.with_Title (GetValueSilent doc "Title" defTitle) article in
            (if String.eqb (Article.Title article) defTitle
             then Printf ("parseArticle: no title for " +:+ path +:+ nl)
             else mret tt);;
            let titleSafe := MakeURLSafe (Article.Title article) in
            let article :=
              Article.with_FileNameBase ("a-" +:+ Article.ID article +:+ "-" +:+ titleSafe)
                                        article in
            let '(body, err) := GetValue doc "Body" in
            let article := Article.with_BodyMarkdown body article in
            match err with
            | None => p ← new_article article; mret (Some p, None)
            | Some _ =>
                let '(s, err) := GetValue doc "BodyHtml" in
                let article := Article.with_BodyHTML s article in
                match err with
                | None => p ← new_article article; mret (Some p, None)
                | Some e =>
                    dumpKV doc;;
                    mret (None, Some ("parseArticle('" +:+ path +:+ "'), err: '" +:+ e +:+ "'"))
                end
            end
      end
  end.

(** First loop of [buildArticleSiblings]: the template of copies, each
    stamped with its position; [i] is the index of the head of [arts]. *)
Fixpoint buildArticleSiblings_template (i : nat) (arts : list loc) (siblings : list Article.t)
  : M (list Article.t) :=
  match arts with
  | [] => mret siblings
  | article :: rest =>
      sibling ← load_article article;
      let sibling := Article.with_No (Z.of_nat i + 1) sibling in
      buildArticleSiblings_template (S i) rest (siblings ++ [sibling])
  end.

(** Second loop: a copy of the template per article, with [copy[i]] marked. *)
Fixpoint buildArticleSiblings_attach (i : nat) (arts : list loc) (siblings : list Article.t)
  : M unit :=
  match arts with
  | [] => mret tt
  | article :: rest =>
      let copy := siblings in
      match copy !! i with
      | None => panic "index out of range"
      | Some s =>
          let copy := <[i := Article.with_IsCurrent true s]> copy in
          update_article article (Article.with_Siblings copy);;
          buildArticleSiblings_attach (S i) rest siblings
      end
  end.

Definition buildArticleSiblings (arts : list loc) : M unit :=
  siblings ← buildArticleSiblings_template 0 arts [];
  buildArticleSiblings_attach 0 arts siblings.

(** Dereferencing a pointer that may be nil. *)
Definition deref {A} (load : loc -> M A) (p : option loc) : M A :=
  match p with
  | Some l => load l
  | None => panic nilDeref
  end.

(** The loop of [parseChapter] over the directory entries; [inr] is the
    early [return err]. *)
Fixpoint parseChapter_loop (chapter : loc) (dir : string) (fileInfos : list FileInfo)
    (arts : list loc) : M (list loc + error) :=
  match fileInfos with
  | [] => mret (inl arts)
  | fi :: rest =>
      if fiIsDir fi || negb (fiIsRegular fi) then parseChapter_loop chapter dir rest arts
      else
        let name := fiName fi in
        if negb (String.eqb (ToLower (filepath_Ext name)) ".md")
        then parseChapter_loop chapter dir rest arts
        else if String.eqb (ToLower name) "000-index.md"
        then parseChapter_loop chapter dir rest arts
        else
          let path := filepath_Join [dir; name] in
          '(article, err) ← parseArticle path;
          match err with
          | Some e => mret (inr e)
          | None =>
              match article with
              | None => panic nilDeref
              | Some a =>
                  update_article a (Article.with_Chapter (Some chapter));;
                  update_article a (Article.with_No (len arts + 1));;
                  parseChapter_loop chapter dir rest (arts ++ [a])
              end
          end
  end.

Definition parseChapter (chapter : loc) : M (option error) :=
  c ← load_chapter chapter;
  b ← deref load_book (Chapter.Book c);
  let dir := filepath_Join [Book.sourceDir b; Chapter.ChapterDir c] in
  let path := filepath_Join [dir; "000-index.md"] in
  update_chapter chapter (Chapter.with_indexFilePath path);;
  '(doc, err) ← paarseKVFileWithIncludes path;
  (match err with
   | Some e =>
       Printf ("Error parsing KV file: '" +:+ path +:+ "'" +:+ nl);;
       maybePanicIfErr (Some e)
   | None => mret tt
   end);;
  update_chapter chapter (Chapter.with_indexDoc doc);;
  let '(title, err) := GetValue doc "Title" in
  update_chapter chapter (Chapter.with_Title title);;
  match err with
  | Some e =>
      mret (Some ("parseChapter('" +:+ path +:+ "'), missing Title, err: '" +:+ e +:+ "'"))
  | None =>
      let '(id, err) := GetValue doc "Id" in
      update_chapter chapter (Chapter.with_ID id);;
      match err with
      | Some e =>
          mret (Some ("parseChapter('" +:+ path +:+ "'), missing Id, err: '" +:+ e +:+ "'"))
      | None =>
          if Contains id " " then
            mret (Some ("parseChapter('" +:+ path +:+ "'), chapter.ID = '" +:+ id +:+
                        "' has space in it"))
          else
            let titleSafe := MakeURLSafe title in
            update_chapter chapter
              (Chapter.with_FileNameBase ("ch-" +:+ id +:+ "-" +:+ titleSafe));;
            let '(fileInfos, _) := ReadDir dir in
            r ← parseChapter_loop chapter dir fileInfos [];
            match r with
            | inr e => mret (Some e)
            | inl arts =>
                buildArticleSiblings arts;;
                update_chapter chapter (Chapter.with_Articles arts);;
                mret None
            end
      end
  end.

(** ** Contributors *)

Definition soContributorURL (userID : Z) (userName : string) : string :=
  "https://stackoverflow.com/users/" +:+ pretty userID +:+ "/" +:+ userName.

Fixpoint loadSoContributorsMust_loop (lines : list string) (contributors : list SoContributor)
  : M (list SoContributor) :=
  match lines with
  | [] => mret contributors
  | line :: rest =>
      let '(id, err) := Atoi line in
      PanicIfErr err;;
      let name := soUserIDToNameMap id in
      PanicIf (String.eqb name "") ("no SO contributor for id " +:+ pretty id);;
      if String.eqb name "user_deleted" then loadSoContributorsMust_loop rest contributors
      else
        let '(nameUnescaped, err) := PathUnescape name in
        PanicIfErr err;;
        let c := mkSoContributor id name nameUnescaped in
        loadSoContributorsMust_loop rest (contributors ++ [c])
  end.

Definition loadSoContributorsMust (book : loc) (path : string) : M unit :=
  let '(lines, err) := ReadFileAsLines path in
  PanicIfErr err;;
  contributors ← loadSoContributorsMust_loop lines [];
  let contributors :=
    sort_Slice contributors (fun ci cj => String.ltb (soName ci) (soName cj)) in
  update_book book (Book.with_SoContributors contributors).

Definition genContributorsMarkdown (contributors : list SoContributor) : string :=
  if bool_decide (len contributors = 0) then ""
  else
    let lines :=
      [ "Contributors from [GitHub](https://github.com/essentialbooks/books/graphs/contributors)";
        "";
        "Contributors from Stack Overflow:" ] in
    let lines :=
      foldl (fun (lines : list string) c =>
               lines ++ ["* [" +:+ soName c +:+ "](" +:+
                         soContributorURL (soID c) (soName c) +:+ ")"])
            lines contributors in
    Join lines nl.

Definition genContributorsChapter (book : loc) : M loc :=
  b ← load_book book;
  let md := genContributorsMarkdown (Book.SoContributors b) in
  let doc : Doc := [] ++ [mkKV "Body" md] in
  new_chapter (Chapter.mk "" (Some book) "" "" doc "Contributors" "ch-contributors" [] 999 "").

(** ** Counting articles *)

Fixpoint ArticlesCount_loop (chs : list loc) (n : Z) : M Z :=
  match chs with
  | [] => mret n
  | ch :: rest =>
      c ← load_chapter ch;
      ArticlesCount_loop rest (int_add n (len (Chapter.Articles c)))
  end.

Definition ArticlesCount (b : loc) : M Z :=
  bk ← load_book b;
  if negb (Z.eqb (Book.cachedArticlesCount bk) 0) then mret (Book.cachedArticlesCount bk)
  else
    n ← ArticlesCount_loop (Book.Chapters bk) 0;
    let n := int_add n (len (Book.Chapters bk)) in
    update_book b (Book.with_cachedArticlesCount n);;
    mret n.

(** ** Identifier validation *)

(** The inner loop of [ensureUniqueIds], over the articles of one chapter. *)
Fixpoint ensureUniqueIds_articles (arts : list loc) (articleIds : gmap string loc)
    (urls : list string) : M (gmap string loc * list string) :=
  match arts with
  | [] => mret (articleIds, urls)
  | a :: rest =>
      art ← load_article a;
      match articleIds !! Article.ID art with
      | Some a2 =>
          art2 ← load_article a2;
          let err := "Duplicate article id: '" +:+ Article.ID art +:+ "', in: " +:+
                     Article.sourceFilePath art +:+ " and " +:+ Article.sourceFilePath art2 in
          maybePanicIfErr (Some err);;
          ensureUniqueIds_articles rest articleIds urls
      | None =>
          ensureUniqueIds_articles rest (<[Article.ID art := a]> articleIds)
                                   (urls ++ [Article.FileNameBase art])
      end
  end.

(** The outer loop, over the chapters of the book. *)
Fixpoint ensureUniqueIds_chapters (chs : list loc) (chapterIds articleIds : gmap string loc)
    (urls : list string) : M (list string) :=
  match chs with
  | [] => mret urls
  | c :: rest =>
      ch ← load_chapter c;
      match chapterIds !! Chapter.ID ch with
      | Some chap =>
          ch2 ← load_chapter chap;
          Printf ("Duplicate chapter id '" +:+ Chapter.ID ch +:+ "' in:" +:+ nl);;
          Printf ("Chapter '" +:+ Chapter.Title ch +:+ "', file: '" +:+
                  Chapter.indexFilePath ch +:+ "'" +:+ nl);;
          Printf ("Chapter '" +:+ Chapter.Title ch2 +:+ "', file: '" +:+
                  Chapter.indexFilePath ch2 +:+ "'" +:+ nl);;
          os_Exit 1
      | None =>
          let chapterIds := <[Chapter.ID ch := c]> chapterIds in
          let urls := urls ++ [Chapter.FileNameBase ch] in
          '(articleIds, urls) ← ensureUniqueIds_articles (Chapter.Articles ch) articleIds urls;
          ensureUniqueIds_chapters rest chapterIds articleIds urls
      end
  end.

Definition ensureUniqueIds (book : loc) : M unit :=
  b ← load_book book;
  urls ← ensureUniqueIds_chapters (Book.Chapters b) ∅ ∅ [];
  update_book book (Book.with_knownUrls urls).

(** ** parseBook *)

(** [for i, ch := range chapters { ch.No = i + 1 }] *)
Fixpoint number_chapters (i : nat) (chs : list loc) : M unit :=
  match chs with
  | [] => mret tt
  | ch :: rest =>
      update_chapter ch (Chapter.with_No (Z.of_nat i + 1));;
      number_chapters (S i) rest
  end.

(** What parseBook does once [wg.Wait()] has returned. *)
Definition parseBook_finish (bookName : string) (book : loc) (chs : list loc)
    (err2 : option error) : M (option loc * option error) :=
  ch ← genContributorsChapter book;
  let chs := chs ++ [ch] in
  number_chapters 0 chs;;
  update_book book (Book.with_Chapters chs);;
  ensureUniqueIds book;;
  n ← ArticlesCount book;
  Printf ("Book '" +:+ bookName +:+ "' " +:+ pretty (len chs) +:+ " chapters, " +:+
          pretty n +:+ " articles, finished parsing in " +:+ timeSince +:+ nl);;
  mret (Some book, err2).

(** The orchestrator and the goroutines it starts share the channel [sem],
    the wait group [wg] and the variables [err] and [err2].  parseBook is
    therefore a transition system: one thread for the orchestrator, one per
    started goroutine, each step one statement of its thread.  The call
    [parseChapter(chap)] is one step: it writes only to its own chapter and
    to articles it allocates. *)

(** Where a goroutine [go func(chap *Chapter) {...}(ch)] stands. *)
Inductive WorkerPC : Type :=
| WCall       (* before  err = parseChapter(chap) *)
| WCheck      (* before  if err != nil *)
| WAssign     (* before  err2 = err *)
| WRelease    (* before  <-sem *)
| WDone       (* before  wg.Done() *)
| WFinished.

Global Instance WorkerPC_eq_dec : EqDecision WorkerPC.
Proof. solve_decision. Defined.

Record Worker := mkWorker { wchap : loc; wpc : WorkerPC }.

(** Where the orchestrator stands. *)
Inductive MainPC : Type :=
| MStart                       (* entering parseBook *)
| MLoop                        (* at the head of  for _, fi := range fileInfos *)
| MSend (ch : loc)             (* before  sem <- true *)
| MSpawn (ch : loc)            (* before  wg.Add(1); go func ... *)
| MWait                        (* at  wg.Wait() *)
| MPost                        (* past the barrier *)
| MReturned (book : option loc) (err : option error).

Inductive Process : Type :=
| Running
| Panicked (msg : string)
| Exited (code : Z).

Record PB := mkPB {
  world : World;
  process : Process;
  main : MainPC;
  bookName : string;
  book : loc;
  srcDir : string;
  fileInfos : list FileInfo;   (* entries the range loop has still to visit *)
  chaptersVar : list loc;      (* the local slice [chapters] *)
  nProcs : Z;                  (* capacity of [sem] *)
  sem : Z;                     (* values waiting in [sem] *)
  wg : Z;                      (* counter of the wait group *)
  err : option error;
  err2 : option error;
  workers : list Worker
}.

Definition set_world (v : World) (s : PB) : PB :=
  mkPB v (process s) (main s) (bookName s) (book s) (srcDir s) (fileInfos s) (chaptersVar s)
       (nProcs s) (sem s) (wg s) (err s) (err2 s) (workers s).
Definition set_process (v : Process) (s : PB) : PB :=
  mkPB (world s) v (main s) (bookName s) (book s) (srcDir s) (fileInfos s) (chaptersVar s)
       (nProcs s) (sem s) (wg s) (err s) (err2 s) (workers s).
Definition set_main (v : MainPC) (s : PB) : PB :=
  mkPB (world s) (process s) v (bookName s) (book s) (srcDir s) (fileInfos s) (chaptersVar s)
       (nProcs s) (sem s) (wg s) (err s) (err2 s) (workers s).
Definition set_fileInfos (v : list FileInfo) (s : PB) : PB :=
  mkPB (world s) (process s) (main s) (bookName s) (book s) (srcDir s) v (chaptersVar s)
       (nProcs s) (sem s) (wg s) (err s) (err2 s) (workers s).
Definition set_chaptersVar (v : list loc) (s : PB) : PB :=
  mkPB (world s) (process s) (main s) (bookName s) (book s) (srcDir s) (fileInfos s) v
       (nProcs s) (sem s) (wg s) (err s) (err2 s) (workers s).
Definition set_sem (v : Z) (s : PB) : PB :=
  mkPB (world s) (process s) (main s) (bookName s) (book s) (srcDir s) (fileInfos s) (chaptersVar s)
       (nProcs s) v (wg s) (err s) (err2 s) (workers s).
Definition set_wg (v : Z) (s : PB) : PB :=
  mkPB (world s) (process s) (main s) (bookName s) (book s) (srcDir s) (fileInfos s) (chaptersVar s)
       (nProcs s) (sem s) v (err s) (err2 s) (workers s).
Definition set_err (v : option error) (s : PB) : PB :=
  mkPB (world s) (process s) (main s) (bookName s) (book s) (srcDir s) (fileInfos s) (chaptersVar s)
       (nProcs s) (sem s) (wg s) v (err2 s) (workers s).
Definition set_err2 (v : option error) (s : PB) : PB :=
  mkPB (world s) (process s) (main s) (bookName s) (book s) (srcDir s) (fileInfos s) (chaptersVar s)
       (nProcs s) (sem s) (wg s) (err s) v (workers s).
Definition set_workers (v : list Worker) (s : PB) : PB :=
  mkPB (world s) (process s) (main s) (bookName s) (book s) (srcDir s) (fileInfos s) (chaptersVar s)
       (nProcs s) (sem s) (wg s) (err s) (err2 s) v.

Definition set_wpc (i : nat) (pc : WorkerPC) (s : PB) : PB :=
  set_workers (alter (fun wk => mkWorker (wchap wk) pc) i (workers s)) s.

(** Runs a piece of sequential code on the world of the state; a panic or an
    exit ends the process. *)
Definition exec {A} (m : M A) (s : PB) (k : A -> PB -> PB) : PB :=
  match m (world s) with
  | (Ret a, w) => k a (set_world w s)
  | (Panic msg, w) => set_process (Panicked msg) (set_world w s)
  | (Exit code, w) => set_process (Exited code) (set_world w s)
  end.

(** parseBook up to the range loop. *)
Definition parseBook_start (s : PB) : PB :=
  let bookNameSafe := MakeURLSafe (bookName s) in
  let dir := filepath_Join ["books"; bookNameSafe] in
  let bk := Book.mk (bookName s) bookNameSafe ("Essential " +:+ bookName s) bookNameSafe []
                    dir (filepath_Join [destEssentialDir; bookNameSafe]) [] 0 "" [] "" in
  exec (Printf ("Parsing book " +:+ bookName s +:+ nl);; new_book bk) s
    (fun b s =>
       let '(fis, e) := ReadDir dir in
       let s := mkPB (world s) (process s) (main s) (bookName s) b dir fis []
                     (nProcs s) (sem s) (wg s) e (err2 s) (workers s) in
       match e with
       | Some _ => set_main (MReturned None e) s
       | None =>
           let n := getAlmostMaxProcs in
           if Z.ltb n 0 then set_process (Panicked "makechan: size out of range") s
           else
             mkPB (world s) (process s) MLoop (bookName s) (book s) (srcDir s) (fileInfos s)
                  [] n 0 0 (err s) None []
       end).

(** One iteration of the range loop, up to the send on [sem] for a
    directory. *)
Definition parseBook_entry (fi : FileInfo) (s : PB) : PB :=
  if fiIsDir fi then
    exec (new_chapter (Chapter.mk "" (Some (book s)) (fiName fi) "" [] "" "" [] 0 "")) s
      (fun ch s => set_main (MSend ch) (set_chaptersVar (chaptersVar s ++ [ch]) s))
  else
    let name := ToLower (fiName fi) in
    if String.eqb name "toc.txt" then s
    else if String.eqb name "so_contributors.txt" then
      let path := filepath_Join [srcDir s; fiName fi] in
      exec (loadSoContributorsMust (book s) path) s (fun _ s => s)
    else
      set_main (MReturned None (Some ("Unexpected file at top-level: '" +:+ fiName fi +:+ "'"))) s.

Definition main_step (s : PB) : option PB :=
  match main s with
  | MStart => Some (parseBook_start s)
  | MLoop =>
      match fileInfos s with
      | [] => Some (set_main MWait s)
      | fi :: rest => Some (parseBook_entry fi (set_fileInfos rest s))
      end
  | MSend ch =>
      (* a send on a buffered channel blocks while the buffer is full *)
      if Z.ltb (sem s) (nProcs s) then Some (set_main (MSpawn ch) (set_sem (sem s + 1) s)) else None
  | MSpawn ch =>
      Some (set_main MLoop (set_workers (workers s ++ [mkWorker ch WCall]) (set_wg (wg s + 1) s)))
  | MWait =>
      (* wg.Wait() blocks until the counter is zero *)
      if Z.eqb (wg s) 0 then Some (set_main MPost s) else None
  | MPost =>
      Some (exec (parseBook_finish (bookName s) (book s) (chaptersVar s) (err2 s)) s
              (fun r s => set_main (MReturned (fst r) (snd r)) s))
  | MReturned _ _ => None
  end.

Definition worker_step (i : nat) (s : PB) : option PB :=
  match workers s !! i with
  | None => None
  | Some wk =>
      match wpc wk with
      | WCall =>
          Some (exec (parseChapter (wchap wk)) s (fun e s => set_err e (set_wpc i WCheck s)))
      | WCheck =>
          Some (set_wpc i (match err s with Some _ => WAssign | None => WRelease end) s)
      | WAssign =>
          Some (set_err2 (err s) (set_wpc i WRelease s))
      | WRelease =>
          (* a receive blocks while the buffer is empty *)
          if Z.ltb 0 (sem s) then Some (set_sem (sem s - 1) (set_wpc i WDone s)) else None
      | WDone =>
          if Z.ltb (wg s - 1) 0
          then Some (set_process (Panicked "sync: negative WaitGroup counter") s)
          else Some (set_wg (wg s - 1) (set_wpc i WFinished s))
      | WFinished => None
      end
  end.

(** Thread [0] is the orchestrator and thread [S i] the [i]-th goroutine
    started.  [None]: the thread cannot move (it is blocked or has finished,
    or the process has ended). *)
Definition step (t : nat) (s : PB) : option PB :=
  match process s with
  | Running =>
      match t with
      | O => main_step s
      | S i => worker_step i s
      end
  | _ => None
  end.

(** A schedule names the thread that moves next; a thread that cannot move
    is passed over. *)
Definition run (sched : list nat) (s : PB) : PB :=
  foldl (fun s t => default s (step t s)) s sched.

Definition parseBook_init (bookName : string) (w : World) : PB :=
  mkPB w Running MStart bookName 0%nat "" [] [] 0 0 0 None None [].

(** [parseBook(bookName)] under a schedule. *)
Definition parseBook (bookName : string) (sched : list nat) (w : World) : PB :=
  run sched (parseBook_init bookName w).

(** Counting the goroutines whose position satisfies [P]. *)
Fixpoint count_pc (P : WorkerPC -> bool) (ws : list Worker) : Z :=
  match ws with
  | [] => 0
  | wk :: rest => (if P (wpc wk) then 1 else 0) + count_pc P rest
  end.

Definition is_calling (pc : WorkerPC) : bool :=
  match pc with WCall => true | _ => false end.

(** A goroutine holds a slot of [sem] from its start to its receive. *)
Definition holds_slot (pc : WorkerPC) : bool :=
  match pc with WCall | WCheck | WAssign | WRelease => true | _ => false end.

Definition is_unfinished (pc : WorkerPC) : bool :=
  match pc with WFinished => false | _ => true end.

(** The [parseChapter] calls in flight, and the goroutines not yet done. *)
Definition in_flight (s : PB) : Z := count_pc is_calling (workers s).
Definition unfinished (s : PB) : Z := count_pc is_unfinished (workers s).

End Pipeline.

(** ** Links and destinations

    The methods of [Article], [Chapter] and [Book] that the templates call to
    build URLs and that the generator calls to find the file to write.  The
    receiver is passed as the struct it points to: the sibling copies on
    which the templates call these methods live inside a slice, not in the
    article store.  A nil [Chapter] or [Book] pointer on the way panics. *)

Section Links.
Context `{Collaborators}.

Definition fullURLBase : string := "https://www.programming-books.io".

(** [func (a *Article) Book() *Book] *)
Definition Article_Book (a : Article.t) : M (option loc) :=
  chap ← deref load_chapter (Article.Chapter a);
  mret (Chapter.Book chap).

(** [func (a *Article) URL() string] *)
Definition Article_URL (a : Article.t) : M string :=
  chap ← deref load_chapter (Article.Chapter a);
  book ← deref load_book (Chapter.Book chap);
  mret ("/essential/" +:+ Book.FileNameBase book +:+ "/" +:+ Article.FileNameBase a).

(** [func (a *Article) CanonnicalURL() string] *)
Definition Article_CanonnicalURL (a : Article.t) : M string :=
  url ← Article_URL a;
  mret (fullURLBase +:+ url).

(** [func (a *Article) destFilePath() string] *)
Definition Article_destFilePath (a : Article.t) : M string :=
  b ← Article_Book a;
  book ← deref load_book b;
  mret (filepath_Join [destEssentialDir; Book.FileNameBase book;
                       Article.FileNameBase a +:+ ".html"]).

(** [func (c *Chapter) URL() string] *)
Definition Chapter_URL (c : Chapter.t) : M string :=
  book ← deref load_book (Chapter.Book c);
  mret ("/essential/" +:+ Book.FileNameBase book +:+ "/" +:+ Chapter.FileNameBase c).

(** [func (c *Chapter) CanonnicalURL() string] *)
Definition Chapter_CanonnicalURL (c : Chapter.t) : M string :=
  url ← Chapter_URL c;
  mret (fullURLBase +:+ url).

(** [func (c *Chapter) destFilePath() string] *)
Definition Chapter_destFilePath (c : Chapter.t) : M string :=
  book ← deref load_book (Chapter.Book c);
  mret (filepath_Join [destEssentialDir; Book.FileNameBase book;
                       Chapter.FileNameBase c +:+ ".html"]).

(** [func (b *Book) ContributorCount() int] and [ChaptersCount]. *)
Definition Book_ContributorCount (b : Book.t) : Z := len (Book.SoContributors b).
Definition Book_ChaptersCount (b : Book.t) : Z := len (Book.Chapters b).

(** [func (b *Book) URL() string] *)
Definition Book_URL (b : Book.t) : string := "/essential/" +:+ Book.titleSafe b +:+ "/".

(** [func (b *Book) ContributorsURL() string] *)
Definition Book_ContributorsURL (b : Book.t) : string := Book_URL b +:+ "/ch-contributors".

(** [func (b *Book) CanonnicalURL() string] *)
Definition Book_CanonnicalURL (b : Book.t) : string := fullURLBase +:+ Book_URL b.

(** [func (b *Book) ShareOnTwitterText() string] *)
Definition Book_ShareOnTwitterText (b : Book.t) : string :=
  String (ascii_of_nat 34) "Essential " +:+ Book.Title b +:+
  String (ascii_of_nat 34) " - a free programming book".

(** [func (b *Book) TocSearchJSURL() string] *)
Definition Book_TocSearchJSURL (b : Book.t) : string := Book_URL b +:+ "/toc_search.js".

End Links.

(** ** Rendering to files

    The functions of [gen_book.go] that load the templates and write the
    pages.  They work on more than the heap: the five template variables of
    the package, and the file system and the template library, whose calls
    are recorded in the order in which they are made. *)

(** The [data interface{}] that a template is executed on. *)
Inductive Data : Type :=
| DNil
| DIndex (Books : list loc) (GitHubText GitHubURL : string)
| DBook (b : loc)
| DChapter (c : loc)
| DArticle (a : loc).

(** The calls that leave [gen_book.go]. *)
Inductive Event : Type :=
| EMkdirAll (dir : string)
| EParseFiles (path : string)
| ECreate (path : string)
| EExecute (path : string) (output : string)
| EClose (path : string)
| EFatalf (msg : string).

Global Instance Event_eq_dec : EqDecision Event.
Proof. solve_decision. Defined.

(** What the template library, the file system and the other files of
    package main answer. *)
Class Renderers := {
  Template : Type;
  (* template.ParseFiles *)
  ParseFiles : string -> option Template * option error;
  (* Template.Execute, on the data and the heap it reads: what it writes to
     the file, its error, and the books on which the template calls
     ArticlesCount, in the order of the calls *)
  Execute : Template -> Data -> World -> string * option error * list loc;
  MkdirAll : string -> option error;
  Create : string -> option error;
  getDefaultLangForBook : string -> string;
  markdownToHTML : string -> string -> string
}.

Section Rendering.
Context `{Collaborators} `{Renderers}.

(** The package variables [indexTmpl] ... [aboutTmpl], the heap, and the
    calls made so far. *)
Record Site := mkSite {
  heap : World;
  indexTmpl : option Template;
  bookIndexTmpl : option Template;
  chapterTmpl : option Template;
  articleTmpl : option Template;
  aboutTmpl : option Template;
  events : list Event
}.

Definition R (A : Type) : Type := Site -> outcome A * Site.

Definition R_ret {A} (a : A) : R A := fun s => (Ret a, s).

Definition R_bind {A B} (m : R A) (k : A -> R B) : R B :=
  fun s =>
    match m s with
    | (Ret a, s') => k a s'
    | (Panic msg, s') => (Panic msg, s')
    | (Exit code, s') => (Exit code, s')
    end.

Global Instance R_mret : MRet R := @R_ret.
Global Instance R_mbind : MBind R := fun A B k m => R_bind m k.

(** Code that works on the heap only. *)
Definition lift {A} (m : M A) : R A :=
  fun s =>
    let '(o, w) := m (heap s) in
    (o, mkSite w (indexTmpl s) (bookIndexTmpl s) (chapterTmpl s) (articleTmpl s)
               (aboutTmpl s) (events s)).

Definition emit (e : Event) : R unit :=
  fun s => (Ret tt, mkSite (heap s) (indexTmpl s) (bookIndexTmpl s) (chapterTmpl s)
                           (articleTmpl s) (aboutTmpl s) (events s ++ [e])).

Definition R_panic {A} (msg : string) : R A := fun s => (Panic msg, s).
Definition R_exit {A} (code : Z) : R A := fun s => (Exit code, s).

Definition R_PanicIfErr (err : option error) : R unit :=
  match err with
  | Some e => R_panic e
  | None => mret tt
  end.

(** The [**template.Template] that [loadTemplateMust] picks: one of the five
    package variables. *)
Inductive TemplateRef : Type :=
| RefIndex | RefBookIndex | RefChapter | RefArticle | RefAbout.

Global Instance TemplateRef_eq_dec : EqDecision TemplateRef.
Proof. solve_decision. Defined.

(** [*ref] and [*ref = t]. *)
Definition read_ref (ref : TemplateRef) (s : Site) : option Template :=
  match ref with
  | RefIndex => indexTmpl s
  | RefBookIndex => bookIndexTmpl s
  | RefChapter => chapterTmpl s
  | RefArticle => articleTmpl s
  | RefAbout => aboutTmpl s
  end.

Definition store_ref (ref : TemplateRef) (t : option Template) (s : Site) : Site :=
  match ref with
  | RefIndex => mkSite (heap s) t (bookIndexTmpl s) (chapterTmpl s) (articleTmpl s)
                       (aboutTmpl s) (events s)
  | RefBookIndex => mkSite (heap s) (indexTmpl s) t (chapterTmpl s) (articleTmpl s)
                           (aboutTmpl s) (events s)
  | RefChapter => mkSite (heap s) (indexTmpl s) (bookIndexTmpl s) t (articleTmpl s)
                         (aboutTmpl s) (events s)
  | RefArticle => mkSite (heap s) (indexTmpl s) (bookIndexTmpl s) (chapterTmpl s) t
                         (aboutTmpl s) (events s)
  | RefAbout => mkSite (heap s) (indexTmpl s) (bookIndexTmpl s) (chapterTmpl s)
                       (articleTmpl s) t (events s)
  end.

Definition write_ref (ref : TemplateRef) (t : option Template) : R unit :=
  fun s => (Ret tt, store_ref ref t s).

Definition createDirForFileMust (path : string) : R unit :=
  let dir := filepath_Dir path in
  emit (EMkdirAll dir);;
  R_PanicIfErr (MkdirAll dir).

Definition tmplPath (name : string) : string := filepath_Join ["books_html"; name].

Definition loadTemplateHelperMust (name : string) (ref : TemplateRef)
  : R (option Template) :=
  fun s =>
    match read_ref ref s with
    | Some res => (Ret (Some res), s)
    | None =>
        (let path := tmplPath name in
         emit (EParseFiles path);;
         let '(t, err) := ParseFiles path in
         R_PanicIfErr err;;
         write_ref ref t;;
         mret t) s
    end.

(** The [switch] of [loadTemplateMust]; [None] is its [default] case. *)
Definition template_ref (name : string) : option TemplateRef :=
  if String.eqb name "index.tmpl.html" then Some RefIndex
  else if String.eqb name "book_index.tmpl.html" then Some RefBookIndex
  else if String.eqb name "chapter.tmpl.html" then Some RefChapter
  else if String.eqb name "article.tmpl.html" then Some RefArticle
  else if String.eqb name "about.tmpl.html" then Some RefAbout
  else None.

Definition loadTemplateMust (name : string) : R (option Template) :=
  match template_ref name with
  | Some ref => loadTemplateHelperMust name ref
  | None =>
      (* log.Fatalf prints and calls os.Exit(1) *)
      emit (EFatalf ("unknown template '" +:+ name +:+ "'" +:+ nl));;
      R_exit 1
  end.

(** What executing a template does to the heap.  A template reads fields and
    calls exported methods of the data and of what the data points to; of
    the methods in [gen_book.go] only [Book.ArticlesCount] writes, to
    [cachedArticlesCount].  The template library recovers a panic inside a
    method and hands it back as the error of [Execute], so after each call
    the heap is as the call left it and the run goes on. *)
Fixpoint count_articles (books : list loc) : M unit :=
  fun w =>
    match books with
    | [] => (Ret tt, w)
    | b :: rest => count_articles rest (snd (ArticlesCount b w))
    end.

(** [execTemplateToFileSilentMust]; the deferred [f.Close()] runs when the
    function returns and when it panics. *)
Definition execTemplateToFileSilentMust (name : string) (data : Data) (path : string)
  : R unit :=
  createDirForFileMust path;;
  tmpl ← loadTemplateMust name;
  emit (ECreate path);;
  R_PanicIfErr (Create path);;
  match tmpl with
  | None => emit (EClose path);; R_panic nilDeref
  | Some t =>
      w ← (fun s => (Ret (heap s), s));
      let '(output, err, counted) := Execute t data w in
      lift (count_articles counted);;
      emit (EExecute path output);;
      emit (EClose path);;
      R_PanicIfErr err
  end.

Definition execTemplateToFileMust (name : string) (data : Data) (path : string) : R unit :=
  lift (Printf (path +:+ nl));;
  execTemplateToFileSilentMust name data path.

Definition gitHubBaseURL : string := "https://github.com/kjk/programming-books".

Definition genIndex (books : list loc) : R unit :=
  let d := DIndex books "GitHub" gitHubBaseURL in
  let path := filepath_Join ["books_html"; "index.html"] in
  execTemplateToFileMust "index.tmpl.html" d path.

Definition genAbout : R unit :=
  let path := filepath_Join ["books_html"; "about.html"] in
  execTemplateToFileMust "about.tmpl.html" DNil path.

Definition genBookArticle (article : loc) : R unit :=
  a ← lift (load_article article);
  (if String.eqb (Article.BodyHTML a) "" then
     b ← lift (Article_Book a);
     book ← lift (deref load_book b);
     let defLang := getDefaultLangForBook (Book.Title book) in
     let html := markdownToHTML (Article.BodyMarkdown a) defLang in
     lift (update_article article (Article.with_BodyHTML html))
   else mret tt);;
  a ← lift (load_article article);
  path ← lift (Article_destFilePath a);
  execTemplateToFileSilentMust "article.tmpl.html" (DArticle article) path.

Fixpoint genBookChapter_loop (arts : list loc) : R unit :=
  match arts with
  | [] => mret tt
  | article :: rest => genBookArticle article;; genBookChapter_loop rest
  end.

Definition genBookChapter (chapter : loc) : R unit :=
  c ← lift (load_chapter chapter);
  genBookChapter_loop (Chapter.Articles c);;
  c ← lift (load_chapter chapter);
  path ← lift (Chapter_destFilePath c);
  execTemplateToFileSilentMust "chapter.tmpl.html" (DChapter chapter) path.

End Rendering.

(** ** A small book on a small file system

    A concrete instance of the collaborators, used to run the pipeline:
    files are given by their lines, the tokenizer reads [Key: value] lines
    and adds any other line to the value of the entry before it. *)
Module Demo.

Definition files : list (string * list string) :=
  [ ("books/go/010-intro/000-index.md", ["Title: Intro"; "Id: 1"]);
    ("books/go/010-intro/010-hello.md", ["Id: 42"; "Title: Intro"; "Body: hello"]);
    ("books/go/010-intro/020-world.MD", ["Id: 43"; "Title: World"; "BodyHtml: <p>w</p>"]);
    ("books/go/020-flags/000-index.md", ["Title: Flags"; "Id: 2"]);
    ("books/go/020-flags/010-parse.md", ["Id: 44"; "Title: Parse"; "Body: see"; "@file x.go"]);
    ("books/go/020-flags/x.go", ["package main"; "func main() {}"]);
    ("books/go/so_contributors.txt", ["7"]);
    ("books/bad/010-a/000-index.md", ["Title: A"; "Id: 1"]);
    ("books/bad/010-a/010-x.md", ["Title: no id"; "Body: b"]);
    ("books/bad/020-b/000-index.md", ["Title: B"; "Id: 2"]);
    ("books/untitled/010-a/000-index.md", ["Id: 1"]);
    ("books/twins/010-a/000-index.md", ["Title: A"; "Id: 1"]);
    ("books/twins/010-a/010-x.md", ["Id: 7"; "Title: X"; "Body: x"]);
    ("books/twins/010-a/020-y.md", ["Id: 7"; "Title: Y"; "Body: y"]);
    ("books/twins/020-b/000-index.md", ["Title: B"; "Id: 1"]);
    ("books/pair/010-a/000-index.md", ["Title: A"; "Id: 1"]);
    ("books/pair/010-a/010-x.md", ["Id: 7"; "Title: X"; "Body: x"]);
    ("books/pair/010-a/020-y.md", ["Id: 7"; "Title: Y"; "Body: y"]);
    ("books/pair/020-b/000-index.md", ["Title: B"; "Id: 2"]);
    ("books/pair/020-b/010-z.md", ["Id: 8"; "Title: Z"; "Body: z"]);
    ("books/tab/010-a/000-index.md", ["Title: A"; "Id: 1"]);
    ("books/tab/010-a/010-x.md",
     ["Id: 4" +:+ String (ascii_of_nat 9) "2"; "Title: X"; "Body: x"]);
    ("books/sp/010-a b/000-index.md", ["Title: A"; "Id: 1 2"]);
    ("books/sp/010-a b/010-x.md", ["Id: 4 2"; "Title: X"; "Body: x"]);
    ("books/inc/010-a/000-index.md", ["Title: A"; "Id: 1"]);
    ("books/inc/010-a/010-x.md", ["Id: 5"; "Title: X"; "Body: see"; "@file missing.go"]) ].

Definition dirs : list (string * list FileInfo) :=
  [ ("books/go", [mkFileInfo "010-intro" true false; mkFileInfo "020-flags" true false;
                  mkFileInfo "so_contributors.txt" false true;
                  mkFileInfo "toc.txt" false true]);
    ("books/go/010-intro", [mkFileInfo "000-index.md" false true;
                            mkFileInfo "010-hello.md" false true;
                            mkFileInfo "020-world.MD" false true;
                            mkFileInfo "notes.txt" false true]);
    ("books/go/020-flags", [mkFileInfo "000-index.md" false true;
                            mkFileInfo "010-parse.md" false true;
                            mkFileInfo "x.go" false true]);
    ("books/bad", [mkFileInfo "010-a" true false; mkFileInfo "020-b" true false]);
    ("books/bad/010-a", [mkFileInfo "000-index.md" false true;
                         mkFileInfo "010-x.md" false true]);
    ("books/bad/020-b", [mkFileInfo "000-index.md" false true]);
    ("books/untitled", [mkFileInfo "010-a" true false]);
    ("books/untitled/010-a", [mkFileInfo "000-index.md" false true]);
    ("books/twins", [mkFileInfo "010-a" true false; mkFileInfo "020-b" true false]);
    ("books/twins/010-a", [mkFileInfo "000-index.md" false true;
                           mkFileInfo "010-x.md" false true;
                           mkFileInfo "020-y.md" false true]);
    ("books/twins/020-b", [mkFileInfo "000-index.md" false true]);
    ("books/pair", [mkFileInfo "010-a" true false; mkFileInfo "020-b" true false]);
    ("books/pair/010-a", [mkFileInfo "000-index.md" false true;
                          mkFileInfo "010-x.md" false true;
                          mkFileInfo "020-y.md" false true]);
    ("books/pair/020-b", [mkFileInfo "000-index.md" false true;
                          mkFileInfo "010-z.md" false true]);
    ("books/tab", [mkFileInfo "010-a" true false]);
    ("books/tab/010-a", [mkFileInfo "000-index.md" false true;
                         mkFileInfo "010-x.md" false true]);
    ("books/inc", [mkFileInfo "010-a" true false]);
    ("books/inc/010-a", [mkFileInfo "000-index.md" false true;
                         mkFileInfo "010-x.md" false true]) ].

Fixpoint assoc {A} (k : string) (l : list (string * A)) : option A :=
  match l with
  | [] => None
  | (k', v) :: rest => if String.eqb k' k then Some v else assoc k rest
  end.

Definition readLines (path : string) : list string * option error :=
  match assoc path files with
  | Some ls => (ls, None)
  | None => ([], Some ("open " +:+ path +:+ ": no such file or directory"))
  end.

Definition readDir (path : string) : list FileInfo * option error :=
  match assoc path dirs with
  | Some fis => (fis, None)
  | None => ([], Some ("open " +:+ path +:+ ": no such file or directory"))
  end.

Definition lowerChar (c : ascii) : ascii :=
  let n := nat_of_ascii c in
  if ((65 <=? n)%nat && (n <=? 90)%nat) then ascii_of_nat (n + 32) else c.

Fixpoint mapString (f : ascii -> ascii) (s : string) : string :=
  match s with
  | EmptyString => EmptyString
  | String c s' => String (f c) (mapString f s')
  end.

Definition toLower : string -> string := mapString lowerChar.

Definition slug (s : string) : string :=
  mapString (fun c => if IsSpace c then "-"%char else lowerChar c) s.

(** The position after the last occurrence of [c] in [s], if any. *)
Fixpoint lastIndex (c : ascii) (s : string) (i : nat) (found : option nat) : option nat :=
  match s with
  | EmptyString => found
  | String c' s' => lastIndex c s' (S i) (if Ascii.eqb c c' then Some i else found)
  end.

Definition dirOf (path : string) : string :=
  match lastIndex "/"%char path 0 None with
  | Some i => String.substring 0 i path
  | None => "."
  end.

Definition extOf (name : string) : string :=
  match lastIndex "."%char name 0 None with
  | Some i => String.substring i (String.length name - i) name
  | None => ""
  end.

Definition join (elems : list string) : string := Join elems "/".

(** [Key: value] starts an entry, any other line continues the last one. *)
Fixpoint tokenize (lines : list string) (doc : Doc) : Doc :=
  match lines with
  | [] => doc
  | line :: rest =>
      match String.index 0 ": " line with
      | Some i =>
          tokenize rest
            (doc ++ [mkKV (String.substring 0 i line)
                          (String.substring (i + 2) (String.length line - (i + 2)) line)])
      | None =>
          match reverse doc with
          | [] => tokenize rest doc
          | kv :: before =>
              tokenize rest
                (reverse before ++
                 [mkKV (Key kv) (Value kv +:+ String (ascii_of_nat 10) "" +:+ line)])
          end
      end
  end.

Definition parseLines (lines : list string) : Doc * option error := (tokenize lines [], None).

Definition parseFile (path : string) : Doc * option error :=
  match readLines path with
  | (ls, None) => parseLines ls
  | (_, Some e) => ([], Some e)
  end.

(** [@file name] stands for the lines of [dir/name]. *)
Definition snippet (dir line : string) : list string * option error :=
  readLines (join [dir; String.substring 6 (String.length line - 6) line]).

Definition atoi (s : string) : Z * option error :=
  if String.eqb s "7" then (7, None) else (0, Some ("strconv.Atoi: parsing " +:+ s)).

Definition names (id : Z) : string := if Z.eqb id 7 then "ann" else "".

(** [sort.Slice] as a merge sort: no element is followed by one that is
    less. *)
Definition sortSlice {A} (l : list A) (less : A -> A -> bool) : list A :=
  @merge_sort A (fun a b => less b a = false) (fun a b => bool_eq_dec (less b a) false) l.

Definition env (soft : bool) (n : Z) : Collaborators :=
  {| ReadFileAsLines := readLines;
     MakeURLSafe := slug;
     ShortenString := fun s => s;
     ParseKVLines := parseLines;
     ParseKVFile := parseFile;
     extractCodeSnippetsAsMarkdownLines := snippet;
     getAlmostMaxProcs := n;
     softErrorMode := soft;
     soUserIDToNameMap := names;
     destEssentialDir := "www/essential";
     ReadDir := readDir;
     filepath_Join := join;
     filepath_Dir := dirOf;
     filepath_Ext := extOf;
     ToLower := toLower;
     Atoi := atoi;
     PathUnescape := fun s => (s, None);
     sort_Slice := sortSlice;
     timeSince := "1ms" |}.

(** Hand-made heaps: a book of two chapters, the first with two articles
    that share the ID [7]; the chapters share the ID [1] in [twins_heap] and
    have distinct IDs in [pair_heap]. *)
Definition article_x : Article.t :=
  Article.mk "7" 1 (Some 0%nat) "X" "a-7-x" "x" "" [] false "books/twins/010-a/010-x.md" "".
Definition article_y : Article.t :=
  Article.mk "7" 2 (Some 0%nat) "Y" "a-7-y" "y" "" [] false "books/twins/010-a/020-y.md" "".
Definition chapter_a : Chapter.t :=
  Chapter.mk "1" (Some 0%nat) "010-a" "books/twins/010-a/000-index.md" [] "A" "ch-1-a"
             [0%nat; 1%nat] 1 "".
Definition chapter_b (id : string) : Chapter.t :=
  Chapter.mk id (Some 0%nat) "020-b" "books/twins/020-b/000-index.md" [] "B"
             ("ch-" +:+ id +:+ "-b") [] 2 "".
Definition book_twins : Book.t :=
  Book.mk "twins" "twins" "Essential twins" "twins" [0%nat; 1%nat] "books/twins"
          "www/essential/twins" [] 0 "" [] "".
Definition twins_heap : World :=
  mkWorld [article_x; article_y] [chapter_a; chapter_b "1"] [book_twins] [] [].
Definition pair_heap : World :=
  mkWorld [article_x; article_y] [chapter_a; chapter_b "2"] [book_twins] [] [].

(** The heap as parseBook has it when it starts the goroutine of the first
    chapter of the book [go]. *)
Definition intro_heap : World :=
  mkWorld []
          [Chapter.mk "" (Some 0%nat) "010-intro" "" [] "" "" [] 0 ""]
          [Book.mk "go" "go" "Essential go" "go" [] "books/go" "www/essential/go" [] 0 "" [] ""]
          [] [].

(** The heap when the goroutine of the chapter [010-a b] of the book [sp]
    starts; the ID in its index file has a space. *)
Definition sp_heap : World :=
  mkWorld []
          [Chapter.mk "" (Some 0%nat) "010-a b" "" [] "" "" [] 0 ""]
          [Book.mk "sp" "sp" "Essential sp" "sp" [] "books/sp" "www/essential/sp" [] 0 "" [] ""]
          [] [].

(** Soft error mode and strict mode, with a pool of two. *)
Definition soft : Collaborators := env true 2.
Definition strict : Collaborators := env false 2.

(** Schedules: the orchestrator first, then the goroutines one after the
    other; and one that lets two goroutines run their first statements in
    turn. *)
Definition in_turn : list nat :=
  repeat 0%nat 12 ++ repeat 1%nat 6 ++ repeat 2%nat 6 ++ repeat 0%nat 4.
Definition interleaved : list nat :=
  repeat 0%nat 8 ++ [1; 2; 1; 1; 2; 2; 1; 2]%nat ++ repeat 0%nat 4.

End Demo.

(** ** More of the small file system: pages

    A template library and a file system for the generator, a file without
    a title, and the heaps on which single chapters are parsed. *)
Module DemoSite.

(** An article file with an ID and a body but no title, and a list of three
    contributors, the second of them deleted. *)
Definition files : list (string * list string) :=
  Demo.files ++ [ ("books/go/010-intro/030-untitled.md", ["Id: 45"; "Body: b"]);
                  ("books/go/so_more.txt", ["7"; "9"; "8"]) ].

Definition readLines (path : string) : list string * option error :=
  match Demo.assoc path files with
  | Some ls => (ls, None)
  | None => ([], Some ("open " +:+ path +:+ ": no such file or directory"))
  end.

Definition parseFile (path : string) : Doc * option error :=
  match readLines path with
  | (ls, None) => Demo.parseLines ls
  | (_, Some e) => ([], Some e)
  end.

Definition snippet (dir line : string) : list string * option error :=
  readLines (Demo.join [dir; String.substring 6 (String.length line - 6) line]).

Definition atoi (s : string) : Z * option error :=
  if String.eqb s "7" then (7, None)
  else if String.eqb s "8" then (8, None)
  else if String.eqb s "9" then (9, None)
  else (0, Some ("strconv.Atoi: parsing " +:+ s)).

Definition names (id : Z) : string :=
  if Z.eqb id 7 then "zoe"
  else if Z.eqb id 8 then "ann"
  else if Z.eqb id 9 then "user_deleted"
  else "".

(** The collaborators of [Demo.soft], on the larger set of files and with
    three users. *)
Definition env : Collaborators :=
  {| ReadFileAsLines := readLines;
     MakeURLSafe := Demo.slug;
     ShortenString := fun s => s;
     ParseKVLines := Demo.parseLines;
     ParseKVFile := parseFile;
     extractCodeSnippetsAsMarkdownLines := snippet;
     getAlmostMaxProcs := 2;
     softErrorMode := true;
     soUserIDToNameMap := names;
     destEssentialDir := "www/essential";
     ReadDir := Demo.readDir;
     filepath_Join := Demo.join;
     filepath_Dir := Demo.dirOf;
     filepath_Ext := Demo.extOf;
     ToLower := Demo.toLower;
     Atoi := atoi;
     PathUnescape := fun s => (s, None);
     sort_Slice := Demo.sortSlice;
     timeSince := "1ms" |}.

(** The heap when the goroutine of the only chapter of the book [untitled]
    starts, and when that of the second chapter of the book [bad] starts. *)
Definition untitled_heap : World :=
  mkWorld []
          [Chapter.mk "" (Some 0%nat) "010-a" "" [] "" "" [] 0 ""]
          [Book.mk "untitled" "untitled" "Essential untitled" "untitled" []
                   "books/untitled" "www/essential/untitled" [] 0 "" [] ""]
          [] [].

Definition bad_heap : World :=
  mkWorld []
          [Chapter.mk "" (Some 0%nat) "020-b" "" [] "" "" [] 0 ""]
          [Book.mk "bad" "bad" "Essential bad" "bad" [] "books/bad" "www/essential/bad"
                   [] 0 "" [] ""]
          [] [].

(** A book of two chapters and one article, all IDs distinct. *)
Definition chapter_one : Chapter.t :=
  Chapter.mk "1" (Some 0%nat) "010-a" "books/twins/010-a/000-index.md" [] "A" "ch-1-a"
             [0%nat] 1 "".

Definition clean_heap : World :=
  mkWorld [Demo.article_x] [chapter_one; Demo.chapter_b "2"] [Demo.book_twins] [] [].

Definition clean_view : list (Chapter.t * list Article.t) :=
  [(chapter_one, [Demo.article_x]); (Demo.chapter_b "2", [])].

(** The templates on disk: the one of the about page is missing. *)
Definition templates : list (string * string) :=
  [ ("books_html/index.tmpl.html", "index");
    ("books_html/book_index.tmpl.html", "book");
    ("books_html/chapter.tmpl.html", "chapter");
    ("books_html/article.tmpl.html", "article") ].

Definition parseFiles (path : string) : option string * option error :=
  match Demo.assoc path templates with
  | Some t => (Some t, None)
  | None => (None, Some ("open " +:+ path +:+ ": no such file or directory"))
  end.

(** The book that the chapter template asks for its number of articles. *)
Definition book_of_chapter (w : World) (c : loc) : list loc :=
  match chapters w !! c with
  | Some ch => match Chapter.Book ch with Some b => [b] | None => [] end
  | None => []
  end.

(** Executing a template writes its name and, for an article, the HTML of
    the article; the template of a chapter calls [ArticlesCount] on the book
    of the chapter. *)
Definition execute (t : string) (d : Data) (w : World)
  : string * option error * list loc :=
  match d with
  | DArticle a =>
      match articles w !! a with
      | Some art => (t +:+ ":" +:+ Article.BodyHTML art, None, [])
      | None => (t, Some "nil pointer evaluating *Article", [])
      end
  | DChapter c => (t, None, book_of_chapter w c)
  | _ => (t, None, [])
  end.

Definition renderers : Renderers :=
  {| Template := string;
     ParseFiles := parseFiles;
     Execute := execute;
     MkdirAll := fun _ => None;
     Create := fun _ => None;
     getDefaultLangForBook := fun title => title;
     markdownToHTML := fun md lang => "<p>" +:+ md +:+ "</p>" |}.

End DemoSite.



(** * Specification side

    The notions in which the properties of the pipeline are stated: what a
    run prints, what it leaves in the heap, and the invariants of the loops. *)

Section Specification.
Context `{Collaborators}.

(** *** Include expansion *)

Definition add_stdout (out : list string) (w : World) : World :=
  mkWorld (articles w) (chapters w) (books w) (stdout w ++ out) (softErrors w).

Definition add_article (a : Article.t) (w : World) : World :=
  mkWorld (articles w ++ [a]) (chapters w) (books w) (stdout w) (softErrors w).

(** What the spec says one line turns into: an include directive is replaced
    by the extracted lines, any other line stays. *)
Definition expand_line (dir line : string) : list string :=
  if HasPrefix line "@file " then fst (extractCodeSnippetsAsMarkdownLines dir line)
  else [line].

(** The error of the first include directive that cannot be resolved. *)
Fixpoint include_error (dir : string) (lines : list string) : option error :=
  match lines with
  | [] => None
  | line :: rest =>
      if HasPrefix line "@file " then
        match snd (extractCodeSnippetsAsMarkdownLines dir line) with
        | Some e => Some e
        | None => include_error dir rest
        end
      else include_error dir rest
  end.

(** Expansion succeeds when the file can be read and every directive in it
    can be resolved. *)
Definition expansion_error (path : string) : option error :=
  match ReadFileAsLines path with
  | (_, Some e) => Some e
  | (lines, None) => include_error (filepath_Dir path) lines
  end.

Definition expanded_lines (path : string) : list string :=
  flat_map (expand_line (filepath_Dir path)) (fst (ReadFileAsLines path)).

(** What [processFileIncludes] prints. *)
Definition include_diagnostics (path : string) : list string :=
  match ReadFileAsLines path with
  | (_, Some _) => []
  | (lines, None) =>
      match include_error (filepath_Dir path) lines with
      | Some e => ["processFileIncludes: error '" +:+ e +:+ "'" +:+ nl]
      | None => []
      end
  end.

(** *** Counting articles *)

(** The number of articles that chapter pointer [ch] owns in world [w]. *)
Definition chapter_size (w : World) (ch : loc) : Z :=
  match chapters w !! ch with
  | Some c => len (Chapter.Articles c)
  | None => 0
  end.

(** What the spec calls the article count of a chapter list: all owned
    articles, plus one per chapter for its index file. *)
Definition articles_total (w : World) (chs : list loc) : Z :=
  foldr Z.add 0 (map (chapter_size w) chs) + len chs.

Definition set_books (bs : list Book.t) (w : World) : World :=
  mkWorld (articles w) (chapters w) bs (stdout w) (softErrors w).

(** *** Articles *)

(** The document that [paarseKVFileWithIncludes] hands back. *)
Definition parsed_doc (path : string) : Doc * option error :=
  match expansion_error path with
  | None => ParseKVLines (expanded_lines path)
  | Some _ => ParseKVFile path
  end.

(** What [dumpKV] prints for a document. *)
Definition dump_lines (doc : Doc) : list string :=
  map (fun kv => "K: " +:+ Key kv +:+ nl +:+ "V: " +:+ ShortenString (Value kv) +:+ nl) doc.

(** The article that [parseArticle] builds from its fields. *)
Definition article_of (path id title body html : string) : Article.t :=
  Article.mk id 0 None title ("a-" +:+ id +:+ "-" +:+ MakeURLSafe title) body html
             [] false path "".

Definition title_diagnostics (path title : string) : list string :=
  if String.eqb title defTitle then ["parseArticle: no title for " +:+ path +:+ nl] else [].

(** *** Sibling lists *)

(** ** Sibling lists *)
(** The template of [buildArticleSiblings]: copies stamped from [i] on. *)
Fixpoint template_of (i : nat) (vals : list Article.t) : list Article.t :=
  match vals with
  | [] => []
  | a :: rest => Article.with_No (Z.of_nat i + 1) a :: template_of (S i) rest
  end.

(** Worlds that differ in their articles only, none added or removed. *)
Definition same_but_articles (w w' : World) : Prop :=
  chapters w' = chapters w /\ books w' = books w /\
  stdout w' = stdout w /\ softErrors w' = softErrors w /\
  length (articles w') = length (articles w).

(** What [buildArticleSiblings] establishes for the article at position [i]
    of [arts], whose value was [a]: its sibling list has one entry per
    article, only entry [i] is current, and that entry is the copy of [a]. *)
Definition siblings_ok (arts : list loc) (i : nat) (a a' : Article.t) : Prop :=
  a' = Article.with_Siblings (Article.Siblings a') a /\
  length (Article.Siblings a') = length arts /\
  (forall j s, Article.Siblings a' !! j = Some s ->
               Article.IsCurrent s = bool_decide (j = i)) /\
  Article.Siblings a' !! i =
    Some (Article.with_IsCurrent true (Article.with_No (Z.of_nat i + 1) a)).

(** *** The loop over the files of a chapter *)

(** ** Chapters *)
(** A freshly parsed article is not current and has no space in its ID. *)
Definition fresh_article (a : Article.t) : Prop :=
  Article.IsCurrent a = false /\ Contains (Article.ID a) " " = false.

(** The files of a chapter directory that [parseChapter] reads as articles:
    the regular files with extension [.md], whatever its case, the index
    file apart; and their paths, in the order of the listing. *)
Definition is_article_file (fi : FileInfo) : bool :=
  negb (fiIsDir fi || negb (fiIsRegular fi)) &&
  String.eqb (ToLower (filepath_Ext (fiName fi))) ".md" &&
  negb (String.eqb (ToLower (fiName fi)) "000-index.md").

Definition article_files (dir : string) (fis : list FileInfo) : list string :=
  map (fun fi => filepath_Join [dir; fiName fi]) (List.filter is_article_file fis).

(** The articles gathered so far by the loop of [parseChapter]: distinct,
    allocated at or after [n0], numbered from one in list order, owned by
    [chapter], fresh, and read from [paths], one after the other. *)
Definition gathered (n0 : nat) (w : World) (chapter : loc) (arts : list loc)
    (paths : list string) : Prop :=
  NoDup arts /\
  length paths = length arts /\
  forall k p, arts !! k = Some p ->
    (n0 <= p)%nat /\
    exists a, articles w !! p = Some a /\
              Article.No a = Z.of_nat k + 1 /\
              Article.Chapter a = Some chapter /\
              fresh_article a /\
              paths !! k = Some (Article.sourceFilePath a).

(** What a run of code may do to the heap while a chapter is parsed: it may
    add articles and write to those at or after [n0]. *)
Definition grows (n0 : nat) (w w' : World) : Prop :=
  chapters w' = chapters w /\ books w' = books w /\
  (length (articles w) <= length (articles w'))%nat /\
  (forall p, (p < n0)%nat -> articles w' !! p = articles w !! p).

(** *** Frames of a chapter parse *)

(** The fields of a chapter that parsing never writes, and its articles. *)
Definition keeps (c0 c1 : Chapter.t) : Prop :=
  Chapter.ChapterDir c1 = Chapter.ChapterDir c0 /\
  Chapter.Book c1 = Chapter.Book c0 /\
  Chapter.No c1 = Chapter.No c0 /\
  Chapter.Articles c1 = Chapter.Articles c0.

Definition keeps_id (c0 c1 : Chapter.t) : Prop :=
  keeps c0 c1 /\ Chapter.ID c1 = Chapter.ID c0.

(** A run that touches no article and no book, and of the chapters only
    [chapter], whose fields it changes within [keep]. *)
Definition quiet (keep : Chapter.t -> Chapter.t -> Prop) (chapter : loc) (w w' : World) : Prop :=
  articles w' = articles w /\ books w' = books w /\
  length (chapters w') = length (chapters w) /\
  (forall c', c' <> chapter -> chapters w' !! c' = chapters w !! c') /\
  (forall c0, chapters w !! chapter = Some c0 ->
              exists c1, chapters w' !! chapter = Some c1 /\ keep c0 c1).

(** What a successfully parsed chapter owns: distinct articles, one per
    path of [paths] and in that order, numbered from one in list order,
    owned by the chapter, without a space in their ID, and each with a
    sibling list as long as the article list whose only current entry is its
    own, a copy of the article itself. *)
Definition built (w : World) (chapter : loc) (arts : list loc) (paths : list string) : Prop :=
  NoDup arts /\
  length paths = length arts /\
  forall i p, arts !! i = Some p ->
    exists a, articles w !! p = Some a /\
      Article.No a = Z.of_nat i + 1 /\
      Article.Chapter a = Some chapter /\
      Contains (Article.ID a) " " = false /\
      paths !! i = Some (Article.sourceFilePath a) /\
      length (Article.Siblings a) = length arts /\
      (forall j s, Article.Siblings a !! j = Some s ->
                   Article.IsCurrent s = bool_decide (j = i)) /\
      (exists s, Article.Siblings a !! i = Some s /\
                 Article.ID s = Article.ID a /\
                 Article.No s = Article.No a /\
                 Article.sourceFilePath s = Article.sourceFilePath a).

(** *** parseChapter *)

(** The paths of the article files of a chapter, as its directory lists
    them. *)
Definition chapter_files (w : World) (c : Chapter.t) : list string :=
  match Chapter.Book c with
  | Some b =>
      match books w !! b with
      | Some bk =>
          let dir := filepath_Join [Book.sourceDir bk; Chapter.ChapterDir c] in
          article_files dir (fst (ReadDir dir))
      | None => []
      end
  | None => []
  end.

(** What one call of [parseChapter] does to the heap, however it ends: books
    and other chapters stay, articles that existed stay, and the chapter
    keeps its directory, book and number; its article list is either the one
    it had or one newly built from the article files of its directory, and
    after a call that returns no error it is a newly built one and the
    chapter ID has no space. *)
Definition parseChapter_post (chapter : loc) (w : World) (r : outcome (option error))
    (w' : World) : Prop :=
  books w' = books w /\
  length (chapters w') = length (chapters w) /\
  (forall c', c' <> chapter -> chapters w' !! c' = chapters w !! c') /\
  (length (articles w) <= length (articles w'))%nat /\
  (forall p, (p < length (articles w))%nat -> articles w' !! p = articles w !! p) /\
  (forall c0, chapters w !! chapter = Some c0 ->
     exists c1, chapters w' !! chapter = Some c1 /\
       Chapter.ChapterDir c1 = Chapter.ChapterDir c0 /\
       Chapter.Book c1 = Chapter.Book c0 /\
       Chapter.No c1 = Chapter.No c0 /\
       (Chapter.Articles c1 = Chapter.Articles c0 \/
        built w' chapter (Chapter.Articles c1) (chapter_files w c0))) /\
  (r = Ret None ->
     exists c1 paths, chapters w' !! chapter = Some c1 /\
                built w' chapter (Chapter.Articles c1) paths /\
                Contains (Chapter.ID c1) " " = false).

(** *** The space check *)

Definition put_chapter (chapter : loc) (c : Chapter.t) (w : World) : World :=
  mkWorld (articles w) (<[chapter := c]> (chapters w)) (books w) (stdout w) (softErrors w).

(** *** The identifier registry *)

(** ** Identifier validation *)
(** The first element of [seen] whose identifier is [id]. *)
Fixpoint holder {A} (key : A -> string) (seen : list A) (id : string) : option A :=
  match seen with
  | [] => None
  | x :: rest => if String.eqb (key x) id then Some x else holder key rest id
  end.

(** The map of identifiers seen so far agrees with the list of objects seen
    so far: each identifier is mapped to a pointer to its first holder. *)
Definition registry {A} (key : A -> string) (heap : list A) (ids : gmap string loc)
    (seen : list A) : Prop :=
  forall id,
    match ids !! id with
    | Some p => exists x, heap !! p = Some x /\ holder key seen id = Some x
    | None => holder key seen id = None
    end.

Definition dup_error (a a2 : Article.t) : string :=
  "Duplicate article id: '" +:+ Article.ID a +:+ "', in: " +:+
  Article.sourceFilePath a +:+ " and " +:+ Article.sourceFilePath a2.

(** The slugs that a run of articles adds to the manifest, [prev] being the
    articles of the book before them: an article counts when no article
    before it has its ID. *)
Fixpoint fresh_slugs (prev avals : list Article.t) : list string :=
  match avals with
  | [] => []
  | v :: rest =>
      match holder Article.ID prev (Article.ID v) with
      | Some _ => fresh_slugs (prev ++ [v]) rest
      | None => Article.FileNameBase v :: fresh_slugs (prev ++ [v]) rest
      end
  end.

(** The errors for the articles whose ID an earlier article has. *)
Fixpoint dup_errors (prev avals : list Article.t) : list string :=
  match avals with
  | [] => []
  | v :: rest =>
      match holder Article.ID prev (Article.ID v) with
      | Some v2 => dup_error v v2 :: dup_errors (prev ++ [v]) rest
      | None => dup_errors (prev ++ [v]) rest
      end
  end.

Definition add_softErrors (errs : list string) (w : World) : World :=
  mkWorld (articles w) (chapters w) (books w) (stdout w) (softErrors w ++ errs).

(** The mode decides what a list of errors does to a run: in soft mode they
    are all recorded, in strict mode the first one panics. *)
Definition errors_pass (errs : list string) : bool :=
  softErrorMode || bool_decide (errs = []).

(** *** Validation as a verdict *)

(** A book as identifier validation sees it: the chapters in order, each
    with its articles in order. *)
Definition book_view (w : World) (chs : list loc) (view : list (Chapter.t * list Article.t))
  : Prop :=
  Forall2 (fun p cv =>
             chapters w !! p = Some (fst cv) /\
             Forall2 (fun q a => articles w !! q = Some a) (Chapter.Articles (fst cv)) (snd cv))
          chs view.

(** How validation ends when no error makes it panic: the book is valid,
    with its manifest, or two chapters collide; in both cases with the
    errors for duplicate articles met on the way. *)
Inductive verdict : Type :=
| Valid (urls errs : list string)
| DupChapter (c c2 : Chapter.t) (errs : list string).

Definition verdict_errors (v : verdict) : list string :=
  match v with
  | Valid _ errs => errs
  | DupChapter _ _ errs => errs
  end.

Fixpoint validate (seen : list Chapter.t) (prev : list Article.t)
    (view : list (Chapter.t * list Article.t)) : verdict :=
  match view with
  | [] => Valid [] []
  | (c, avals) :: rest =>
      match holder Chapter.ID seen (Chapter.ID c) with
      | Some c2 => DupChapter c c2 []
      | None =>
          match validate (seen ++ [c]) (prev ++ avals) rest with
          | Valid urls errs =>
              Valid (Chapter.FileNameBase c :: fresh_slugs prev avals ++ urls)
                    (dup_errors prev avals ++ errs)
          | DupChapter x y errs => DupChapter x y (dup_errors prev avals ++ errs)
          end
      end
  end.

(** What [ensureUniqueIds] prints before it exits. *)
Definition collision_lines (c c2 : Chapter.t) : list string :=
  [ "Duplicate chapter id '" +:+ Chapter.ID c +:+ "' in:" +:+ nl;
    "Chapter '" +:+ Chapter.Title c +:+ "', file: '" +:+ Chapter.indexFilePath c +:+ "'" +:+ nl;
    "Chapter '" +:+ Chapter.Title c2 +:+ "', file: '" +:+ Chapter.indexFilePath c2 +:+ "'" +:+ nl ].

(** The run that a verdict stands for, the URLs so far being [urls]. *)
Definition verdict_run (urls : list string) (v : verdict) (w : World)
  : outcome (list string) * World :=
  if errors_pass (verdict_errors v) then
    match v with
    | Valid u errs => (Ret (urls ++ u), add_softErrors errs w)
    | DupChapter c c2 errs =>
        (Exit 1, add_stdout (collision_lines c c2) (add_softErrors errs w))
    end
  else (Panic (hd "" (verdict_errors v)), w).

(** *** The manifest *)

(** The URL manifest of a valid book: chapter by chapter, the slug of the
    chapter and then the slugs of those of its articles whose ID no earlier
    article of the book has. *)
Fixpoint manifest (prev : list Article.t) (view : list (Chapter.t * list Article.t))
  : list string :=
  match view with
  | [] => []
  | (c, avals) :: rest =>
      Chapter.FileNameBase c :: fresh_slugs prev avals ++ manifest (prev ++ avals) rest
  end.

(** One error per article whose ID an earlier article of the book has. *)
Fixpoint article_errors (prev : list Article.t) (view : list (Chapter.t * list Article.t))
  : list string :=
  match view with
  | [] => []
  | (_, avals) :: rest => dup_errors prev avals ++ article_errors (prev ++ avals) rest
  end.

Definition chapter_ids (view : list (Chapter.t * list Article.t)) : list string :=
  map (fun cv => Chapter.ID (fst cv)) view.

(** *** The worker pool *)

(** The slots of [sem] in use are those of the goroutines that hold one,
    plus the one the orchestrator has taken for the goroutine it is about to
    start; the wait group counts the goroutines that are not done. *)
Definition sync_inv (s : PB) : Prop :=
  sem s = count_pc holds_slot (workers s) +
          (match main s with MSpawn _ => 1 | _ => 0 end) /\
  sem s <= nProcs s /\
  wg s = count_pc is_unfinished (workers s) /\
  (nProcs s = 0 \/ nProcs s = getAlmostMaxProcs).

(** *** After the barrier *)

(** ** Frames of the steps after the barrier *)
(** Runs that leave articles and chapters alone and, in the books, keep the
    chapter list and the source directory of every book. *)
Definition books_only (w w' : World) : Prop :=
  articles w' = articles w /\ chapters w' = chapters w /\
  length (books w') = length (books w) /\
  forall b bk, books w !! b = Some bk ->
    exists bk', books w' !! b = Some bk' /\
                Book.Chapters bk' = Book.Chapters bk /\
                Book.sourceDir bk' = Book.sourceDir bk.

(** Chapters that agree in every field but the number. *)
Definition renumbered (c c' : Chapter.t) : Prop := c' = Chapter.with_No (Chapter.No c') c.

(** *** The assembled book *)

(** ** The assembled book *)
(** The articles of a chapter are numbered from one in list order. *)
Definition numbered (w : World) (c : Chapter.t) : Prop :=
  forall k p, Chapter.Articles c !! k = Some p ->
    exists a, articles w !! p = Some a /\ Article.No a = Z.of_nat k + 1.

(** The articles of a chapter were read from [paths], one per path and in
    the same order. *)
Definition sourced (w : World) (c : Chapter.t) (paths : list string) : Prop :=
  length paths = length (Chapter.Articles c) /\
  forall k p, Chapter.Articles c !! k = Some p ->
    exists a, articles w !! p = Some a /\ paths !! k = Some (Article.sourceFilePath a).

(** A chapter either has no article (its directory has none, or it could not
    be read or parsed) or has one article per article file of directory
    [dir], in the order in which [ReadDir] lists them. *)
Definition listed (w : World) (dir : string) (c : Chapter.t) : Prop :=
  Chapter.Articles c = [] \/ sourced w c (article_files dir (fst (ReadDir dir))).

(** Book [book] is on the heap and is read from directory [src]. *)
Definition book_at (w : World) (book : loc) (src : string) : Prop :=
  exists bk, books w !! book = Some bk /\ Book.sourceDir bk = src.

(** Chapter [ch] is the chapter of directory entry [fi] of the book. *)
Definition chapter_of_dir (w : World) (book : loc) (src : string) (ch : loc)
    (fi : FileInfo) : Prop :=
  exists c, chapters w !! ch = Some c /\ Chapter.ChapterDir c = fiName fi /\
    Chapter.Book c = Some book /\ numbered w c /\
    listed w (filepath_Join [src; fiName fi]) c.

(** A run keeps the book and the chapters of its directories. *)
Definition heap_kept (book : loc) (src : string) (w w' : World) : Prop :=
  book_at w book src ->
  book_at w' book src /\
  forall x fi, chapter_of_dir w book src x fi -> chapter_of_dir w' book src x fi.

(** What parseBook hands back: one chapter per directory of the listing, in
    the order of the listing, then the contributors chapter, which has no
    file and no article; chapters numbered from one in that order; the
    articles of each numbered from one, and read from the article files of
    the chapter's directory in the order of its listing. *)
Definition assembled (bn : string) (w : World) (b : loc) : Prop :=
  exists bk, books w !! b = Some bk /\
    let src := filepath_Join ["books"; MakeURLSafe bn] in
    let dirs := List.filter fiIsDir (fst (ReadDir src)) in
    length (Book.Chapters bk) = S (length dirs) /\
    forall i ch, Book.Chapters bk !! i = Some ch ->
      exists c, chapters w !! ch = Some c /\
        Chapter.No c = Z.of_nat i + 1 /\
        numbered w c /\
        match dirs !! i with
        | Some fi => Chapter.ChapterDir c = fiName fi /\
                     listed w (filepath_Join [src; fiName fi]) c
        | None => Chapter.Title c = "Contributors" /\ Chapter.indexFilePath c = "" /\
                  Chapter.Articles c = []
        end.

(** *** The invariant of parseBook *)

(** The chapter for which the orchestrator is about to start a goroutine. *)
Definition pending_chapter (pc : MainPC) : list loc :=
  match pc with
  | MSend ch | MSpawn ch => [ch]
  | _ => []
  end.

(** While the range loop runs: the chapters created so far are those of the
    directories among the entries visited so far, in order, and each has its
    goroutine, or is about to get it. *)
Definition dispatched (bn : string) (s : PB) : Prop :=
  bookName s = bn /\
  srcDir s = filepath_Join ["books"; MakeURLSafe bn] /\
  NoDup (chaptersVar s) /\
  map wchap (workers s) ++ pending_chapter (main s) = chaptersVar s /\
  book_at (world s) (book s) (srcDir s) /\
  exists visited,
    fst (ReadDir (srcDir s)) = visited ++ fileInfos s /\
    Forall2 (chapter_of_dir (world s) (book s) (srcDir s)) (chaptersVar s)
      (List.filter fiIsDir visited).

Definition book_inv (bn : string) (s : PB) : Prop :=
  sync_inv s /\
  match main s with
  | MStart => bookName s = bn
  | MReturned None _ => True
  | MReturned (Some b) _ => unfinished s = 0 /\ assembled bn (world s) b
  | MPost => process s = Running -> unfinished s = 0 /\ fileInfos s = [] /\ dispatched bn s
  | MWait => process s = Running -> fileInfos s = [] /\ dispatched bn s
  | _ => process s = Running -> dispatched bn s
  end.

(** *** Preservation *)

Definition inv_body (bn : string) (s : PB) : Prop :=
  match main s with
  | MStart => bookName s = bn
  | MReturned None _ => True
  | MReturned (Some b) _ => unfinished s = 0 /\ assembled bn (world s) b
  | MPost => process s = Running -> unfinished s = 0 /\ fileInfos s = [] /\ dispatched bn s
  | MWait => process s = Running -> fileInfos s = [] /\ dispatched bn s
  | _ => process s = Running -> dispatched bn s
  end.

(** *** Progress of parseBook *)

(** Once the orchestrator has made the channel, its capacity is the
    CPU-derived count. *)
Definition pool_made (s : PB) : Prop :=
  match main s with
  | MStart | MReturned None _ => True
  | _ => nProcs s = getAlmostMaxProcs
  end.

(** The call has ended: parseBook has returned, or the process is gone. *)
Definition halted (s : PB) : Prop :=
  process s <> Running \/ exists b e, main s = MReturned b e.

(** *** Termination of parseBook *)

(** The statements a goroutine has still to run. *)
Definition pc_left (pc : WorkerPC) : nat :=
  match pc with
  | WCall => 5 | WCheck => 4 | WAssign => 3 | WRelease => 2 | WDone => 1 | WFinished => 0
  end.

Fixpoint workers_left (ws : list Worker) : nat :=
  match ws with
  | [] => 0
  | wk :: rest => pc_left (wpc wk) + workers_left rest
  end.

(** A bound on the moves the orchestrator and the goroutines it has still to
    start can make: eight per directory entry not yet visited. *)
Definition main_left (s : PB) : nat :=
  match main s with
  | MStart =>
      8 * length (fst (ReadDir (filepath_Join ["books"; MakeURLSafe (bookName s)]))) + 4
  | MLoop => 8 * length (fileInfos s) + 3
  | MSend _ => 8 * length (fileInfos s) + 10
  | MSpawn _ => 8 * length (fileInfos s) + 9
  | MWait => 2
  | MPost => 1
  | MReturned _ _ => 0
  end.

Definition moves_left (s : PB) : nat :=
  match process s with
  | Running => main_left s + workers_left (workers s)
  | _ => 0
  end.

(** The moves that a schedule makes from a state: the entries that name a
    thread which can move. *)
Fixpoint moves (sched : list nat) (s : PB) : nat :=
  match sched with
  | [] => 0
  | t :: rest =>
      match step t s with
      | Some s' => S (moves rest s')
      | None => moves rest s
      end
  end.

(** *** What parseBook needs to return a book *)

(** The entries that the range loop of parseBook accepts at the top level of
    a book: directories, and the files [toc.txt] and [so_contributors.txt],
    whatever the case of their letters. *)
Definition allowed_entry (fi : FileInfo) : bool :=
  fiIsDir fi ||
  String.eqb (ToLower (fiName fi)) "toc.txt" ||
  String.eqb (ToLower (fiName fi)) "so_contributors.txt".

(** The listing of the directory of book [bn] and the error of reading it. *)
Definition book_listing (bn : string) : list FileInfo * option error :=
  ReadDir (filepath_Join ["books"; MakeURLSafe bn]).

(** While parseBook has not given up, the listing was read without error and
    the entries that the loop has passed were all accepted. *)
Definition visited_inv (bn : string) (s : PB) : Prop :=
  match main s with
  | MStart => bookName s = bn
  | MReturned None _ => True
  | pc =>
      snd (book_listing bn) = None /\
      exists visited,
        fst (book_listing bn) = visited ++ fileInfos s /\
        forallb allowed_entry visited = true /\
        match pc with
        | MWait | MPost | MReturned _ _ => fileInfos s = []
        | _ => True
        end
  end.

(** *** Validation of a book without duplicates *)

(** The articles of a book, chapter after chapter. *)
Definition book_articles (view : list (Chapter.t * list Article.t)) : list Article.t :=
  concat (map snd view).

(** The slugs of a book in reading order: each chapter, then its articles. *)
Definition all_slugs (view : list (Chapter.t * list Article.t)) : list string :=
  concat (map (fun cv => Chapter.FileNameBase (fst cv) :: map Article.FileNameBase (snd cv))
              view).

(** *** What parseArticle returns *)

(** An article as [parseArticle] hands it over: read from [path], with the
    file name base derived from ID and title, an ID without a space, and not
    yet part of a chapter. *)
Definition parsed_article (path : string) (a : Article.t) : Prop :=
  Article.sourceFilePath a = path /\
  Article.FileNameBase a =
    "a-" +:+ Article.ID a +:+ "-" +:+ MakeURLSafe (Article.Title a) /\
  Contains (Article.ID a) " " = false /\
  Article.No a = 0 /\ Article.Chapter a = None /\
  Article.Siblings a = [] /\ Article.IsCurrent a = false.

(** What [parseArticle] prints and records when the file cannot be read or
    tokenized. *)
Definition unreadable_world (path : string) (e : error) (w : World) : World :=
  mkWorld (articles w) (chapters w) (books w)
          (stdout w ++ include_diagnostics path ++
           ["Error parsing KV file: '" +:+ path +:+ "'" +:+ nl])
          (softErrors w ++ (if softErrorMode then [e] else [])).

(** *** How parseChapter ends *)

(** The directory and the index file of a chapter of book [bk]. *)
Definition chapter_dir (bk : Book.t) (c : Chapter.t) : string :=
  filepath_Join [Book.sourceDir bk; Chapter.ChapterDir c].

Definition index_path (bk : Book.t) (c : Chapter.t) : string :=
  filepath_Join [chapter_dir bk c; "000-index.md"].

(** The chapter as the successive writes of [parseChapter] leave it: after
    the index file was read and the title taken from it, after the ID was
    taken, and after the file name base was derived. *)
Definition titled (bk : Book.t) (c : Chapter.t) : Chapter.t :=
  let path := index_path bk c in
  let doc := fst (parsed_doc path) in
  Chapter.with_Title (fst (GetValue doc "Title"))
    (Chapter.with_indexDoc doc (Chapter.with_indexFilePath path c)).

Definition identified (bk : Book.t) (c : Chapter.t) : Chapter.t :=
  Chapter.with_ID (fst (GetValue (fst (parsed_doc (index_path bk c))) "Id")) (titled bk c).

Definition named (bk : Book.t) (c : Chapter.t) : Chapter.t :=
  let c3 := identified bk c in
  Chapter.with_FileNameBase
    ("ch-" +:+ Chapter.ID c3 +:+ "-" +:+ MakeURLSafe (Chapter.Title c3)) c3.

(** Articles are only added: those of [w] are still there in [w']. *)
Definition articles_kept (w w' : World) : Prop :=
  (length (articles w) <= length (articles w'))%nat /\
  forall p, (p < length (articles w))%nat -> articles w' !! p = articles w !! p.

(** The error on which [maybePanicIfErr] panics when the index file cannot
    be read or tokenized: there is one in strict mode only. *)
Definition index_panic (path : string) : option error :=
  match snd (parsed_doc path) with
  | Some e => if softErrorMode then None else Some e
  | None => None
  end.

(** The ways in which [parseChapter] ends on a chapter [c] of book [bk],
    read off its code from top to bottom: what it returns and what it
    leaves in the chapter. *)
Definition parseChapter_ends (chapter : loc) (c : Chapter.t) (bk : Book.t) (w : World)
    (r : outcome (option error)) (w' : World) : Prop :=
  let path := index_path bk c in
  let dir := chapter_dir bk c in
  let doc := fst (parsed_doc path) in
  match index_panic path with
  | Some e =>
      r = Panic e /\ articles w' = articles w /\
      chapters w' = <[chapter := Chapter.with_indexFilePath path c]> (chapters w)
  | None =>
      match GetValue doc "Title" with
      | (_, Some e) =>
          r = Ret (Some ("parseChapter('" +:+ path +:+ "'), missing Title, err: '" +:+ e +:+ "'")) /\
          articles w' = articles w /\
          chapters w' = <[chapter := titled bk c]> (chapters w)
      | (_, None) =>
          match GetValue doc "Id" with
          | (_, Some e) =>
              r = Ret (Some ("parseChapter('" +:+ path +:+ "'), missing Id, err: '" +:+ e +:+ "'")) /\
              articles w' = articles w /\
              chapters w' = <[chapter := identified bk c]> (chapters w)
          | (id, None) =>
              if Contains id " " then
                r = Ret (Some ("parseChapter('" +:+ path +:+ "'), chapter.ID = '" +:+ id +:+
                               "' has space in it")) /\
                articles w' = articles w /\
                chapters w' = <[chapter := identified bk c]> (chapters w)
              else
                articles_kept w w' /\
                ((r <> Ret None /\ chapters w' = <[chapter := named bk c]> (chapters w) /\
                  article_files dir (fst (ReadDir dir)) <> []) \/
                 (r = Ret None /\
                  exists arts,
                    chapters w' = <[chapter := Chapter.with_Articles arts (named bk c)]>
                                    (chapters w) /\
                    built w' chapter arts (article_files dir (fst (ReadDir dir)))))
          end
      end
  end.

(** *** Sibling copies, plain files and contributors *)

(** The sibling at position [j] in the list of the article at position [i]:
    the copy of article [b], stamped with its position, and marked when it
    is the article's own. *)
Definition sibling_copy (i j : nat) (b : Article.t) : Article.t :=
  Article.with_IsCurrent (if bool_decide (j = i) then true else Article.IsCurrent b)
    (Article.with_No (Z.of_nat j + 1) b).

(** The name that the table of Stack Overflow users has for the ID on a
    line. *)
Definition line_name (line : string) : string := soUserIDToNameMap (fst (Atoi line)).

(** A line of [so_contributors.txt] that [loadSoContributorsMust] accepts:
    a number whose user is in the table and whose name can be unescaped. *)
Definition good_line (line : string) : Prop :=
  snd (Atoi line) = None /\ line_name line <> "" /\
  (line_name line <> "user_deleted" -> snd (PathUnescape (line_name line)) = None).

(** The contributor that a line stands for. *)
Definition contributor_of (line : string) : SoContributor :=
  mkSoContributor (fst (Atoi line)) (line_name line) (fst (PathUnescape (line_name line))).

Definition is_listed (line : string) : bool :=
  negb (String.eqb (line_name line) "user_deleted").

(** The less function that [loadSoContributorsMust] gives to [sort.Slice]:
    [contributors[i].Name < contributors[j].Name]. *)
Definition by_name (ci cj : SoContributor) : bool := String.ltb (soName ci) (soName cj).

(** In the order of their names: no contributor is followed by one whose
    name is smaller. *)
Definition name_sorted (cs : list SoContributor) : Prop :=
  StronglySorted (fun a b => String.ltb (soName b) (soName a) = false) cs.

(** What the Go library promises of [sort.Slice] with this less function:
    the slice keeps its elements and ends up in the order of the names.  The
    sort is not stable, so the order of two contributors of the same name
    is not fixed. *)
Definition sorts_by_name : Prop :=
  forall l, sort_Slice l by_name ≡ₚ l /\ name_sorted (sort_Slice l by_name).

(** The bullet of a contributor in the markdown of the Contributors chapter;
    the link is built from the unescaped name. *)
Definition contributor_bullet (c : SoContributor) : string :=
  "* [" +:+ soName c +:+ "](" +:+ soContributorURL (soID c) (soName c) +:+ ")".

(** ** The notions of the generator *)

Section PageSpecification.
Context `{Renderers}.

(** *** Templates and files *)

(** The paths that [template.ParseFiles] was called on, in order. *)
Definition parsed_paths (evs : list Event) : list string :=
  omap (fun e => match e with EParseFiles p => Some p | _ => None end) evs.

(** The template name that selects a package variable. *)
Definition ref_name (ref : TemplateRef) : string :=
  match ref with
  | RefIndex => "index.tmpl.html"
  | RefBookIndex => "book_index.tmpl.html"
  | RefChapter => "chapter.tmpl.html"
  | RefArticle => "article.tmpl.html"
  | RefAbout => "about.tmpl.html"
  end.

Definition all_refs : list TemplateRef :=
  [RefIndex; RefBookIndex; RefChapter; RefArticle; RefAbout].

(** A run of page jobs, each a template name, the data and the path of the
    file to write. *)
Fixpoint renders (jobs : list (string * Data * string)) : R unit :=
  match jobs with
  | [] => mret tt
  | (name, data, path) :: rest =>
      execTemplateToFileSilentMust name data path;; renders rest
  end.

(** The site when the generator starts: no template loaded, nothing done. *)
Definition fresh_site (w : World) : Site := mkSite w None None None None None [].

(** No template file was parsed twice, and the file of a template variable
    that is still nil was not parsed at all. *)
Definition cache_inv (s : Site) : Prop :=
  NoDup (parsed_paths (events s)) /\
  (forall ref, read_ref ref s = None ->
     tmplPath (ref_name ref) ∉ parsed_paths (events s)) /\
  (forall p, p ∈ parsed_paths (events s) -> p ∈ map (fun r => tmplPath (ref_name r)) all_refs).

(** The site with more calls recorded. *)
Definition add_events (evs : list Event) (s : Site) : Site :=
  mkSite (heap s) (indexTmpl s) (bookIndexTmpl s) (chapterTmpl s) (articleTmpl s)
         (aboutTmpl s) (events s ++ evs).

(** The site with another heap. *)
Definition with_heap (w : World) (s : Site) : Site :=
  mkSite w (indexTmpl s) (bookIndexTmpl s) (chapterTmpl s) (articleTmpl s) (aboutTmpl s)
         (events s).

(** The books are those of before, each with some article count in its
    cache and otherwise as it was. *)
Definition books_cached (bs bs' : list Book.t) : Prop :=
  Forall2 (fun bk bk' => exists n, bk' = Book.with_cachedArticlesCount n bk) bs bs'.

(** Between two heaps nothing but the article counts cached in books has
    changed. *)
Definition caches_only (w w' : World) : Prop :=
  articles w' = articles w /\ chapters w' = chapters w /\
  stdout w' = stdout w /\ softErrors w' = softErrors w /\
  books_cached (books w) (books w').

(** The stages of [execTemplateToFileSilentMust] as one expression. *)
Definition page_run (name : string) (data : Data) (path : string) (s : Site)
  : outcome unit * Site :=
  let s0 := add_events [EMkdirAll (filepath_Dir path)] s in
  match MkdirAll (filepath_Dir path) with
  | Some e => (Panic e, s0)
  | None =>
      match loadTemplateMust name s0 with
      | (Panic msg, s1) => (Panic msg, s1)
      | (Exit code, s1) => (Exit code, s1)
      | (Ret tmpl, s1) =>
          let s2 := add_events [ECreate path] s1 in
          match Create path with
          | Some e => (Panic e, s2)
          | None =>
              match tmpl with
              | None => (Panic nilDeref, add_events [EClose path] s2)
              | Some t =>
                  let '(output, err, counted) := Execute t data (heap s2) in
                  (match err with Some e => Panic e | None => Ret tt end,
                   add_events [EExecute path output; EClose path]
                     (with_heap (snd (count_articles counted (heap s2))) s2))
              end
          end
      end
  end.

(** *** Rendering an article *)

(** What [genBookArticle] does on the heap before it writes the page: it
    renders the body when there is no HTML yet, and finds the destination. *)
Definition render_body (article : loc) : M string :=
  a ← load_article article;
  (if String.eqb (Article.BodyHTML a) "" then
     b ← Article_Book a;
     book ← deref load_book b;
     update_article article
       (Article.with_BodyHTML
          (markdownToHTML (Article.BodyMarkdown a) (getDefaultLangForBook (Book.Title book))))
   else mret tt);;
  a ← load_article article;
  Article_destFilePath a.

(** What the heap part of [genBookArticle] does to an article. *)
Definition body_rendered (article : loc) (a : Article.t) (w : World) (r : outcome string)
    (w' : World) : Prop :=
  chapters w' = chapters w /\
  books w' = books w /\
  (forall p, p <> article -> articles w' !! p = articles w !! p) /\
  exists a', articles w' !! article = Some a' /\
    a' = Article.with_BodyHTML (Article.BodyHTML a') a /\
    (Article.BodyHTML a <> "" -> a' = a) /\
    (Article.BodyHTML a = "" -> (exists path, r = Ret path) ->
     exists ch c b bk,
       Article.Chapter a = Some ch /\ chapters w !! ch = Some c /\
       Chapter.Book c = Some b /\ books w !! b = Some bk /\
       Article.BodyHTML a' =
         markdownToHTML (Article.BodyMarkdown a) (getDefaultLangForBook (Book.Title bk))).

(** *** The pages of a chapter *)

(** The files that [os.Create] was called on, in order. *)
Definition created_files (evs : list Event) : list string :=
  omap (fun e => match e with ECreate p => Some p | _ => None end) evs.

(** Between two heaps nothing has changed but the [BodyHTML] of articles
    and the article counts cached in books. *)
Definition bodies_only (w w' : World) : Prop :=
  chapters w' = chapters w /\ books_cached (books w) (books w') /\
  length (articles w') = length (articles w) /\
  forall p a, articles w !! p = Some a ->
    exists a', articles w' !! p = Some a' /\
               a' = Article.with_BodyHTML (Article.BodyHTML a') a.

End PageSpecification.

End Specification.

(** The views of the hand-made heaps. *)

Definition twins_view : list (Chapter.t * list Article.t) :=
  [(Demo.chapter_a, [Demo.article_x; Demo.article_y]); (Demo.chapter_b "1", [])].
Definition pair_view : list (Chapter.t * list Article.t) :=
  [(Demo.chapter_a, [Demo.article_x; Demo.article_y]); (Demo.chapter_b "2", [])].

(** * Proofs *)

Section Proofs.
Context `{Collaborators}.

(** *** Include expansion *)

Ltac unfold_M :=
  unfold mbind, M_bind, bind, mret, M_ret, ret, panic, os_Exit in *.

Lemma add_stdout_nil w : add_stdout [] w = w.
Proof. destruct w; unfold add_stdout; simpl. now rewrite app_nil_r. Qed.

Lemma add_stdout_app o1 o2 w : add_stdout o2 (add_stdout o1 w) = add_stdout (o1 ++ o2) w.
Proof. unfold add_stdout; simpl. now rewrite app_assoc. Qed.

Lemma processFileIncludes_loop_run dir lines : forall res w,
  processFileIncludes_loop dir lines res w =
  match include_error dir lines with
  | None => (Ret (res ++ flat_map (expand_line dir) lines, None), w)
  | Some e => (Ret ([], Some e),
               add_stdout ["processFileIncludes: error '" +:+ e +:+ "'" +:+ nl] w)
  end.
Proof.
  induction lines as [|line rest IH]; intros res w; simpl.
  - now rewrite app_nil_r.
  - unfold expand_line at 1.
    destruct (HasPrefix line "@file ").
    + destruct (extractCodeSnippetsAsMarkdownLines dir line) as [lines2 [e|]]; simpl.
      * reflexivity.
      * rewrite IH. destruct (include_error dir rest); [reflexivity|].
        now rewrite <- app_assoc.
    + rewrite IH. destruct (include_error dir rest); [reflexivity|].
      now rewrite <- app_assoc.
Qed.

Lemma processFileIncludes_run path w :
  processFileIncludes path w =
  (Ret (match expansion_error path with
        | None => (expanded_lines path, None)
        | Some e => ([], Some e)
        end),
   add_stdout (include_diagnostics path) w).
Proof.
  unfold processFileIncludes, expansion_error, expanded_lines, include_diagnostics.
  destruct (ReadFileAsLines path) as [lines [e|]]; simpl.
  - unfold_M. now rewrite add_stdout_nil.
  - rewrite processFileIncludes_loop_run.
    destruct (include_error (filepath_Dir path) lines); [reflexivity|].
    now rewrite add_stdout_nil.
Qed.

(** C4. When the file is read and every [@file] line in it is resolved, the
    tokenizer gets the lines of the file with each directive line replaced,
    in place and in order, by the lines extracted for it; when reading or any
    directive fails, the tokenizer is run on the original path instead, so
    that nothing is expanded. *)
Theorem paarseKVFileWithIncludes_fallback (path : string) (w : World) :
  paarseKVFileWithIncludes path w =
  (Ret (match expansion_error path with
        | None => ParseKVLines (expanded_lines path)
        | Some _ => ParseKVFile path
        end),
   add_stdout (include_diagnostics path) w).
Proof.
  unfold paarseKVFileWithIncludes. unfold_M.
  rewrite processFileIncludes_run.
  destruct (expansion_error path); reflexivity.
Qed.

(** *** Counting articles *)

Lemma int_wrap_id (z : Z) : int_min <= z <= int_max -> int_wrap z = z.
Proof.
  unfold int_min, int_max, int_wrap. intros Hz.
  rewrite Z.mod_small; lia.
Qed.

Lemma len_nonneg {A} (l : list A) : 0 <= len l.
Proof. unfold len. lia. Qed.

Lemma chapter_size_nonneg w ch : 0 <= chapter_size w ch.
Proof. unfold chapter_size. destruct (chapters w !! ch); [apply len_nonneg | lia]. Qed.

Lemma sizes_nonneg w chs : 0 <= foldr Z.add 0 (map (chapter_size w) chs).
Proof.
  induction chs as [|ch chs IH]; simpl; [lia|].
  pose proof (chapter_size_nonneg w ch). lia.
Qed.

Lemma ArticlesCount_loop_sum (chs : list loc) : forall (w : World) (n : Z),
  Forall (fun ch => is_Some (chapters w !! ch)) chs ->
  0 <= n ->
  n + foldr Z.add 0 (map (chapter_size w) chs) <= int_max ->
  ArticlesCount_loop chs n w = (Ret (n + foldr Z.add 0 (map (chapter_size w) chs)), w).
Proof.
  induction chs as [|ch chs IH]; intros w n Hall Hn Hmax; simpl.
  - unfold_M. f_equal. f_equal. lia.
  - inversion Hall as [|? ? [c Hc] Hall']; subst.
    pose proof (sizes_nonneg w chs) as Hs.
    pose proof (chapter_size_nonneg w ch) as Hc0.
    simpl in Hmax.
    unfold_M. unfold load_chapter at 1. rewrite Hc.
    assert (Hsz : chapter_size w ch = len (Chapter.Articles c))
      by (unfold chapter_size; now rewrite Hc).
    unfold int_add. rewrite int_wrap_id by (unfold int_min; lia).
    rewrite IH by (auto; lia).
    f_equal. f_equal. lia.
Qed.

(** C10. [Book.ArticlesCount] returns the number of owned articles of all
    chapters plus the number of chapters, and memoizes it: with an empty
    cache (the value [0]) it computes the total and stores it in the book;
    with a non-empty cache it returns the cached value whatever the chapter
    list has become.  A total of [0] leaves the cache empty, so the next call
    computes again.  The total is the one of Go's [int], so it is assumed to
    fit. *)
Theorem ArticlesCount_memoized (b : loc) (w : World) (bk : Book.t) :
  books w !! b = Some bk ->
  Book.cachedArticlesCount bk = 0 ->
  Forall (fun ch => is_Some (chapters w !! ch)) (Book.Chapters bk) ->
  articles_total w (Book.Chapters bk) <= int_max ->
  let n := articles_total w (Book.Chapters bk) in
  let w1 := set_books (<[b := Book.with_cachedArticlesCount n bk]> (books w)) w in
  ArticlesCount b w = (Ret n, w1) /\
  (forall (w2 : World) (bk2 : Book.t),
      books w2 !! b = Some bk2 ->
      Book.cachedArticlesCount bk2 = n ->
      n <> 0 ->
      ArticlesCount b w2 = (Ret n, w2)) /\
  (n = 0 -> w1 = w).
Proof.
  intros Hb Hc Hall Hmax n w1.
  assert (Hfirst : ArticlesCount b w = (Ret n, w1)).
  { unfold ArticlesCount. unfold_M. unfold load_book. rewrite Hb, Hc. simpl.
    unfold articles_total in *.
    pose proof (sizes_nonneg w (Book.Chapters bk)) as Hs.
    pose proof (len_nonneg (Book.Chapters bk)) as Hl.
    rewrite ArticlesCount_loop_sum by (auto; lia).
    unfold update_book. rewrite Hb. unfold int_add.
    rewrite Z.add_0_l, int_wrap_id by (unfold int_min; lia). reflexivity. }
  split; [exact Hfirst|]. split.
  - intros w2 bk2 Hb2 Hc2 Hn.
    unfold ArticlesCount. unfold_M. unfold load_book. rewrite Hb2, Hc2.
    destruct (Z.eqb_spec n 0); [contradiction|]. reflexivity.
  - intros Hn. unfold w1, set_books. rewrite Hn.
    assert (Hbk : Book.with_cachedArticlesCount 0 bk = bk)
      by (destruct bk; simpl in *; now subst).
    rewrite Hbk, list_insert_id by exact Hb. now destruct w.
Qed.

(** *** Articles *)

Lemma paarseKVFileWithIncludes_run (path : string) (w : World) :
  paarseKVFileWithIncludes path w =
  (Ret (parsed_doc path), add_stdout (include_diagnostics path) w).
Proof.
  unfold paarseKVFileWithIncludes, parsed_doc. unfold_M.
  rewrite processFileIncludes_run.
  destruct (expansion_error path); reflexivity.
Qed.

Lemma dumpKV_run (doc : Doc) : forall w, dumpKV doc w = (Ret tt, add_stdout (dump_lines doc) w).
Proof.
  induction doc as [|kv rest IH]; intros w; simpl.
  - unfold_M. now rewrite add_stdout_nil.
  - unfold_M. unfold Printf at 1. rewrite IH.
    f_equal. unfold add_stdout; simpl. now rewrite <- app_assoc.
Qed.

(** [parseArticle] on a document that was parsed and has a usable [Id]. *)
Lemma parseArticle_run (path : string) (w : World) (doc : Doc) (id : string) :
  parsed_doc path = (doc, None) ->
  GetValue doc "Id" = (id, None) ->
  Contains id " " = false ->
  let title := GetValueSilent doc "Title" defTitle in
  let w1 := add_stdout (include_diagnostics path ++ title_diagnostics path title) w in
  parseArticle path w =
  match GetValue doc "Body", GetValue doc "BodyHtml" with
  | (body, None), _ =>
      (Ret (Some (length (articles w)), None), add_article (article_of path id title body "") w1)
  | (body, Some _), (html, None) =>
      (Ret (Some (length (articles w)), None), add_article (article_of path id title body html) w1)
  | (_, Some _), (_, Some e) =>
      (Ret (None, Some ("parseArticle('" +:+ path +:+ "'), err: '" +:+ e +:+ "'")),
       add_stdout (dump_lines doc) w1)
  end.
Proof.
  intros Hdoc Hid Hsp title w1.
  unfold parseArticle. unfold_M.
  rewrite paarseKVFileWithIncludes_run, Hdoc, Hid. simpl. rewrite Hsp.
  fold title.
  assert (Hprint : (if String.eqb title defTitle
                    then Printf ("parseArticle: no title for " +:+ path +:+ nl)
                    else (fun w => (Ret tt, w)))
                     (add_stdout (include_diagnostics path) w) = (Ret tt, w1)).
  { unfold w1, title_diagnostics. destruct (String.eqb title defTitle).
    - unfold Printf. now rewrite <- add_stdout_app.
    - now rewrite app_nil_r. }
  rewrite Hprint.
  destruct (GetValue doc "Body") as [body [eb|]]; simpl.
  - destruct (GetValue doc "BodyHtml") as [html [eh|]]; simpl.
    + now rewrite dumpKV_run.
    + reflexivity.
  - reflexivity.
Qed.

(** The space check of [parseArticle]. *)
Lemma parseArticle_space (path : string) (w : World) (doc : Doc) (id : string) :
  parsed_doc path = (doc, None) ->
  GetValue doc "Id" = (id, None) ->
  Contains id " " = true ->
  parseArticle path w =
  (Ret (None, Some ("parseArticle('" +:+ path +:+ "'), res.ID = '" +:+ id +:+
                    "' has space in it")),
   add_stdout (include_diagnostics path) w).
Proof.
  intros Hdoc Hid Hsp. unfold parseArticle. unfold_M.
  rewrite paarseKVFileWithIncludes_run, Hdoc, Hid. simpl. now rewrite Hsp.
Qed.

(** C5. A document with the entries [Id=42], [Title=Intro], [Body=hello]
    parses to an article with that ID, title and markdown body and, the slug
    of the title being [intro], the file name base [a-42-intro]: the base is
    ["a-" + ID + "-" + slug(Title)]. *)
Theorem parseArticle_example (path : string) (w : World) :
  parsed_doc path = ([mkKV "Id" "42"; mkKV "Title" "Intro"; mkKV "Body" "hello"], None) ->
  MakeURLSafe "Intro" = "intro" ->
  exists (a : Article.t),
    parseArticle path w =
      (Ret (Some (length (articles w)), None),
       add_article a (add_stdout (include_diagnostics path) w)) /\
    Article.ID a = "42" /\
    Article.Title a = "Intro" /\
    Article.BodyMarkdown a = "hello" /\
    Article.FileNameBase a = "a-42-intro" /\
    Article.FileNameBase a = "a-" +:+ Article.ID a +:+ "-" +:+ MakeURLSafe (Article.Title a).
Proof.
  intros Hdoc Hslug.
  exists (article_of path "42" "Intro" "hello" "").
  split.
  - rewrite (parseArticle_run path w _ "42" Hdoc); [|reflexivity|reflexivity].
    simpl. now rewrite app_nil_r.
  - simpl. rewrite Hslug. repeat split; reflexivity.
Qed.

(** C6. With a parsed document and a usable [Id], the body comes from [Body]
    when that field is present; otherwise from [BodyHtml], taken as it is,
    when that one is present; with neither, the whole document is dumped to
    the output and an error is returned instead of an article. *)
Theorem parseArticle_body (path : string) (w : World) (doc : Doc) (id : string) :
  parsed_doc path = (doc, None) ->
  GetValue doc "Id" = (id, None) ->
  Contains id " " = false ->
  exists (r : option loc * option error) (w' : World),
    parseArticle path w = (Ret r, w') /\
    match GetValue doc "Body", GetValue doc "BodyHtml" with
    | (body, None), _ =>
        exists p a, r = (Some p, None) /\ articles w' !! p = Some a /\
                    Article.BodyMarkdown a = body /\ Article.BodyHTML a = ""
    | (_, Some _), (html, None) =>
        exists p a, r = (Some p, None) /\ articles w' !! p = Some a /\
                    Article.BodyHTML a = html
    | (_, Some _), (_, Some e) =>
        r = (None, Some ("parseArticle('" +:+ path +:+ "'), err: '" +:+ e +:+ "'")) /\
        articles w' = articles w /\
        exists out, stdout w' = stdout w ++ out ++ dump_lines doc
    end.
Proof.
  intros Hdoc Hid Hsp.
  pose proof (parseArticle_run path w doc id Hdoc Hid Hsp) as Hrun. simpl in Hrun.
  destruct (GetValue doc "Body") as [body [eb|]].
  - destruct (GetValue doc "BodyHtml") as [html [eh|]].
    + eexists _, _. split; [exact Hrun|]. simpl.
      split; [reflexivity|]. split; [reflexivity|].
      eexists. now rewrite <- app_assoc.
    + eexists _, _. split; [exact Hrun|].
      eexists _, _. split; [reflexivity|]. simpl.
      rewrite lookup_app_r by lia. rewrite Nat.sub_diag. simpl. auto.
  - eexists _, _. split; [exact Hrun|].
    eexists _, _. split; [reflexivity|]. simpl.
    rewrite lookup_app_r by lia. rewrite Nat.sub_diag. simpl. auto.
Qed.

(** *** Sibling lists *)

Lemma template_of_length vals : forall i, length (template_of i vals) = length vals.
Proof. induction vals as [|a rest IH]; intros i; simpl; [reflexivity | now rewrite IH]. Qed.

Lemma template_of_lookup vals : forall i k,
  template_of i vals !! k = Article.with_No (Z.of_nat (i + k) + 1) <$> vals !! k.
Proof.
  induction vals as [|a rest IH]; intros i k; [reflexivity|].
  destruct k as [|k]; simpl.
  - now rewrite Nat.add_0_r.
  - rewrite IH. now replace (S i + k)%nat with (i + S k)%nat by lia.
Qed.

Lemma buildArticleSiblings_template_run (arts : list loc) (vals : list Article.t) (w : World) :
  Forall2 (fun p a => articles w !! p = Some a) arts vals ->
  forall i acc,
    buildArticleSiblings_template i arts acc w = (Ret (acc ++ template_of i vals), w).
Proof.
  induction 1 as [|p a arts vals Hp _ IH]; intros i acc; simpl.
  - unfold_M. now rewrite app_nil_r.
  - unfold_M. unfold load_article at 1. rewrite Hp.
    rewrite IH. now rewrite <- app_assoc.
Qed.

Lemma buildArticleSiblings_attach_run (arts : list loc) : forall (i0 : nat) (w : World)
    (sib : list Article.t),
  NoDup arts ->
  Forall (fun p => is_Some (articles w !! p)) arts ->
  (i0 + length arts <= length sib)%nat ->
  exists w',
    buildArticleSiblings_attach i0 arts sib w = (Ret tt, w') /\
    same_but_articles w w' /\
    (forall p, p ∉ arts -> articles w' !! p = articles w !! p) /\
    (forall k p, arts !! k = Some p ->
       exists a s, articles w !! p = Some a /\ sib !! (i0 + k)%nat = Some s /\
                   articles w' !! p =
                   Some (Article.with_Siblings
                           (<[(i0 + k)%nat := Article.with_IsCurrent true s]> sib) a)).
Proof.
  induction arts as [|p rest IH]; intros i0 w sib Hnd Hval Hlen.
  - exists w. simpl. unfold_M. repeat split; auto. intros k p Hk. discriminate.
  - simpl in Hlen. inversion Hnd as [|? ? Hnotin Hnd']; subst.
    inversion Hval as [|? ? [a Ha] Hval']; subst.
    destruct (lookup_lt_is_Some_2 sib i0) as [s Hs]; [lia|].
    simpl. rewrite Hs. unfold_M. unfold update_article at 1. rewrite Ha.
    set (w1 := mkWorld _ _ _ _ _).
    assert (Hother : forall q, q <> p -> articles w1 !! q = articles w !! q).
    { intros q Hq. unfold w1; simpl. now rewrite list_lookup_insert_ne. }
    assert (Hself : articles w1 !! p =
                    Some (Article.with_Siblings (<[i0 := Article.with_IsCurrent true s]> sib) a)).
    { unfold w1; simpl. apply list_lookup_insert_eq. now apply lookup_lt_Some in Ha. }
    destruct (IH (S i0) w1 sib Hnd') as (w' & Hrun & Hsame & Hout & Hin).
    { eapply Forall_impl; [exact Hval'|]. intros q [b Hb].
      destruct (decide (q = p)) as [->|Hne]; [rewrite Hself; eauto|].
      rewrite Hother by exact Hne. eauto. }
    { lia. }
    exists w'. split; [exact Hrun|]. split; [|split].
    + destruct Hsame as (Hc & Hb & Ho & He & Hl). unfold same_but_articles.
      rewrite Hc, Hb, Ho, He, Hl. unfold w1; simpl. rewrite length_insert. auto.
    + intros q Hq. rewrite Hout by set_solver. apply Hother. set_solver.
    + intros k q Hk. destruct k as [|k]; simpl in Hk.
      * inversion Hk; subst q. exists a, s. rewrite Nat.add_0_r.
        split; [exact Ha|]. split; [exact Hs|]. now rewrite Hout.
      * destruct (Hin k q Hk) as (b & t & Hb & Ht & Hq).
        assert (q <> p) by (intros ->; apply Hnotin; eapply list_elem_of_lookup_2; eauto).
        exists b, t. rewrite <- Hother by assumption.
        replace (i0 + S k)%nat with (S i0 + k)%nat by lia. auto.
Qed.

Lemma buildArticleSiblings_run (arts : list loc) (vals : list Article.t) (w : World) :
  NoDup arts ->
  Forall2 (fun p a => articles w !! p = Some a) arts vals ->
  Forall (fun a => Article.IsCurrent a = false) vals ->
  exists w',
    buildArticleSiblings arts w = (Ret tt, w') /\
    same_but_articles w w' /\
    (forall p, p ∉ arts -> articles w' !! p = articles w !! p) /\
    (forall i p a, arts !! i = Some p -> vals !! i = Some a ->
       exists a', articles w' !! p = Some a' /\ siblings_ok arts i a a').
Proof.
  intros Hnd Hvals Hcur.
  unfold buildArticleSiblings. unfold_M.
  rewrite (buildArticleSiblings_template_run arts vals w Hvals). simpl.
  pose proof (Forall2_length _ _ _ Hvals) as Hlen.
  destruct (buildArticleSiblings_attach_run arts 0 w (template_of 0 vals) Hnd)
    as (w' & Hrun & Hsame & Hout & Hin).
  { apply Forall_forall. intros p Hp. apply list_elem_of_lookup in Hp as [k Hk].
    destruct (Forall2_lookup_l _ _ _ _ _ Hvals Hk) as (a & _ & Ha). eauto. }
  { rewrite template_of_length. lia. }
  exists w'. split; [exact Hrun|]. split; [exact Hsame|]. split; [exact Hout|].
  intros i p a Hi Ha.
  destruct (Hin i p Hi) as (a0 & s & Ha0 & Hs & Hp). simpl in Hs, Hp.
  destruct (Forall2_lookup_l _ _ _ _ _ Hvals Hi) as (a1 & Ha1 & Hpa).
  assert (a1 = a) by congruence. subst a1.
  assert (a0 = a) by congruence. subst a0.
  rewrite template_of_lookup, Ha in Hs. simpl in Hs. inversion Hs; subst s.
  eexists. split; [exact Hp|]. unfold siblings_ok; simpl.
  split; [reflexivity|]. split; [|split].
  - rewrite length_insert, template_of_length. lia.
  - intros j s Hj. destruct (decide (j = i)) as [->|Hne].
    + rewrite list_lookup_insert_eq in Hj
        by (rewrite template_of_length; apply lookup_lt_Some in Ha; lia).
      inversion Hj; subst s. simpl. now rewrite bool_decide_eq_true_2.
    + rewrite list_lookup_insert_ne in Hj by congruence.
      rewrite template_of_lookup in Hj.
      destruct (vals !! j) as [b|] eqn:Hb; [|discriminate]. simpl in Hj.
      inversion Hj; subst s. simpl.
      rewrite bool_decide_eq_false_2 by exact Hne.
      eapply Forall_lookup_1 in Hcur; [exact Hcur | exact Hb].
  - apply list_lookup_insert_eq. rewrite template_of_length.
    apply lookup_lt_Some in Ha. lia.
Qed.

(** *** The loop over the files of a chapter *)

(** [parseArticle] leaves chapters and books alone, and either leaves the
    articles alone too or adds the article it returns. *)
Lemma parseArticle_frame (path : string) (w : World) r (w' : World) :
  parseArticle path w = (r, w') ->
  chapters w' = chapters w /\ books w' = books w /\
  ((articles w' = articles w /\ forall p, r <> Ret (Some p, None)) \/
   (exists a, r = Ret (Some (length (articles w)), None) /\
              articles w' = articles w ++ [a] /\ fresh_article a /\
              Article.sourceFilePath a = path)).
Proof.
  intros Hrun.
  destruct (parsed_doc path) as [doc [e|]] eqn:Hdoc.
  - unfold parseArticle in Hrun. unfold_M.
    rewrite paarseKVFileWithIncludes_run, Hdoc in Hrun.
    unfold Printf, maybePanicIfErr in Hrun. unfold_M.
    destruct softErrorMode; simpl in Hrun; inversion Hrun; subst; simpl;
      (split; [reflexivity|]; split; [reflexivity|]; left; split; [reflexivity|congruence]).
  - destruct (GetValue doc "Id") as [id [e|]] eqn:Hid.
    { unfold parseArticle in Hrun. unfold_M.
      rewrite paarseKVFileWithIncludes_run, Hdoc, Hid in Hrun.
      inversion Hrun; subst; simpl.
      split; [reflexivity|]; split; [reflexivity|]; left; split; [reflexivity|congruence]. }
    destruct (Contains id " ") eqn:Hsp.
    { rewrite (parseArticle_space path w doc id Hdoc Hid Hsp) in Hrun.
      inversion Hrun; subst; simpl.
      split; [reflexivity|]; split; [reflexivity|]; left; split; [reflexivity|congruence]. }
    rewrite (parseArticle_run path w doc id Hdoc Hid Hsp) in Hrun.
    destruct (GetValue doc "Body") as [body [eb|]].
    + destruct (GetValue doc "BodyHtml") as [html [eh|]].
      * inversion Hrun; subst; simpl.
        split; [reflexivity|]; split; [reflexivity|]; left; split; [reflexivity|congruence].
      * inversion Hrun; subst; simpl.
        split; [reflexivity|]; split; [reflexivity|]. right.
        eexists. split; [reflexivity|]. split; [reflexivity|].
        split; [split; [reflexivity|exact Hsp]|reflexivity].
    + inversion Hrun; subst; simpl.
      split; [reflexivity|]; split; [reflexivity|]. right.
      eexists. split; [reflexivity|]. split; [reflexivity|].
      split; [split; [reflexivity|exact Hsp]|reflexivity].
Qed.

Lemma grows_refl n0 w : grows n0 w w.
Proof. unfold grows. auto. Qed.

Lemma grows_trans n0 w1 w2 w3 : grows n0 w1 w2 -> grows n0 w2 w3 -> grows n0 w1 w3.
Proof.
  intros (Hc1 & Hb1 & Hl1 & Ho1) (Hc2 & Hb2 & Hl2 & Ho2). unfold grows.
  split; [congruence|]. split; [congruence|]. split; [lia|].
  intros p Hp. rewrite Ho2, Ho1; auto.
Qed.

Lemma article_files_skip dir fi rest :
  is_article_file fi = false -> article_files dir (fi :: rest) = article_files dir rest.
Proof. intros Hf. unfold article_files. simpl. now rewrite Hf. Qed.

Lemma article_files_take dir fi rest :
  is_article_file fi = true ->
  article_files dir (fi :: rest) = filepath_Join [dir; fiName fi] :: article_files dir rest.
Proof. intros Hf. unfold article_files. simpl. now rewrite Hf. Qed.

Lemma parseChapter_loop_spec (chapter : loc) (dir : string) (n0 : nat)
    (fis : list FileInfo) : forall (arts : list loc) (paths : list string) (w : World) r
                                   (w' : World),
  (n0 <= length (articles w))%nat ->
  gathered n0 w chapter arts paths ->
  parseChapter_loop chapter dir fis arts w = (r, w') ->
  grows n0 w w' /\
  forall arts', r = Ret (inl arts') ->
                gathered n0 w' chapter arts' (paths ++ article_files dir fis).
Proof.
  induction fis as [|fi rest IH]; intros arts paths w r w' Hn0 Hg Hrun; simpl in Hrun.
  - unfold_M. inversion Hrun; subst. split; [apply grows_refl|].
    intros arts' Heq. inversion Heq; subst.
    unfold article_files. simpl. now rewrite app_nil_r.
  - destruct (fiIsDir fi || negb (fiIsRegular fi)) eqn:E1.
    { rewrite article_files_skip by (unfold is_article_file; now rewrite E1).
      eapply IH; eauto. }
    destruct (String.eqb (ToLower (filepath_Ext (fiName fi))) ".md") eqn:E2; simpl in Hrun;
      [|rewrite article_files_skip by (unfold is_article_file; now rewrite E1, E2);
        eapply IH; eauto].
    destruct (String.eqb (ToLower (fiName fi)) "000-index.md") eqn:E3.
    { rewrite article_files_skip by (unfold is_article_file; now rewrite E1, E2, E3).
      eapply IH; eauto. }
    rewrite article_files_take by (unfold is_article_file; now rewrite E1, E2, E3).
    unfold_M.
    destruct (parseArticle (filepath_Join [dir; fiName fi]) w) as [[[art err]|msg|code] w1] eqn:Hpa;
      pose proof (parseArticle_frame _ _ _ _ Hpa) as (Hc & Hb & Hcases).
    2,3: inversion Hrun; subst; split; [|discriminate];
         unfold grows; (split; [exact Hc|]); (split; [exact Hb|]);
         destruct Hcases as [[Ha _]|(a & _ & Ha & _)]; rewrite Ha;
         try rewrite length_app; (split; [simpl; lia|]); intros p Hp;
         try (rewrite lookup_app_l by lia); reflexivity.
    assert (Hg1 : grows n0 w w1).
    { unfold grows. split; [exact Hc|]. split; [exact Hb|].
      destruct Hcases as [[Ha _]|(a & _ & Ha & _)]; rewrite Ha;
        try rewrite length_app; (split; [simpl; lia|]); intros p Hp;
        try (rewrite lookup_app_l by lia); reflexivity. }
    destruct err as [e|].
    { inversion Hrun; subst. split; [exact Hg1|]. discriminate. }
    destruct art as [a|]; [|inversion Hrun; subst; split; [exact Hg1|discriminate]].
    destruct Hcases as [[_ Hno]|(v & Hr & Ha & Hfresh & Hsrc)];
      [exfalso; eapply Hno; reflexivity|].
    inversion Hr; subst a. clear Hr.
    set (p := length (articles w)) in *.
    assert (Hp1 : articles w1 !! p = Some v).
    { rewrite Ha. rewrite lookup_app_r by (unfold p; lia).
      unfold p. now rewrite Nat.sub_diag. }
    unfold update_article at 1 in Hrun. rewrite Hp1 in Hrun.
    set (w2 := mkWorld _ _ _ _ _) in Hrun.
    assert (Hp2 : articles w2 !! p = Some (Article.with_Chapter (Some chapter) v)).
    { unfold w2; simpl. apply list_lookup_insert_eq. now apply lookup_lt_Some in Hp1. }
    unfold update_article at 1 in Hrun. rewrite Hp2 in Hrun.
    set (w3 := mkWorld _ _ _ _ _) in Hrun.
    set (v3 := Article.with_No (len arts + 1) (Article.with_Chapter (Some chapter) v)) in *.
    assert (Hp3 : articles w3 !! p = Some v3).
    { unfold w3; simpl. apply list_lookup_insert_eq. now apply lookup_lt_Some in Hp2. }
    assert (Hq3 : forall q, q <> p -> articles w3 !! q = articles w1 !! q).
    { intros q Hq. unfold w3, w2; simpl. now rewrite !list_lookup_insert_ne by congruence. }
    assert (Hl3 : length (articles w3) = length (articles w1)).
    { unfold w3, w2; simpl. now rewrite !length_insert. }
    assert (Hg3 : grows n0 w w3).
    { destruct Hg1 as (? & ? & Hl & Ho). unfold grows.
      split; [assumption|]. split; [assumption|]. split; [lia|].
      intros q Hq. rewrite Hq3 by (unfold p; lia). now apply Ho. }
    assert (Hn3 : (n0 <= length (articles w3))%nat).
    { rewrite Hl3, Ha, length_app. lia. }
    destruct (IH (arts ++ [p]) (paths ++ [filepath_Join [dir; fiName fi]]) w3 r w')
      as [Hg' Hres]; [exact Hn3| |exact Hrun|].
    + destruct Hg as (Hnd & Hlen & Hall). split; [|split].
      * apply NoDup_app. split; [exact Hnd|]. split; [|apply NoDup_singleton].
        intros q Hq Hq'. apply list_elem_of_singleton in Hq'. subst q.
        apply list_elem_of_lookup in Hq as [k Hk].
        destruct (Hall k p Hk) as (_ & b & Hb' & _).
        apply lookup_lt_Some in Hb'. unfold p in Hb'. lia.
      * rewrite !length_app. simpl. lia.
      * intros k q Hk. apply lookup_app_Some in Hk as [Hk|[Hk1 Hk2]].
        -- destruct (Hall k q Hk) as (Hge & b & Hb' & Hno & Hch & Hfr & Hpath).
           split; [exact Hge|]. exists b.
           assert (q < p)%nat by (apply lookup_lt_Some in Hb'; exact Hb').
           split; [rewrite Hq3 by lia; rewrite Ha;
                   now rewrite lookup_app_l by (fold p; lia)|].
           split; [exact Hno|]. split; [exact Hch|]. split; [exact Hfr|].
           rewrite lookup_app_l; [exact Hpath|]. now apply lookup_lt_Some in Hpath.
        -- apply list_lookup_singleton_Some in Hk2 as [Hk0 Hq]. subst q.
           split; [unfold p; lia|]. exists v3. split; [exact Hp3|].
           unfold v3; simpl. split; [unfold len; lia|]. split; [reflexivity|].
           split; [exact Hfresh|].
           rewrite lookup_app_r by lia.
           replace (k - length paths)%nat with 0%nat by lia. simpl. now rewrite Hsrc.
    + split; [eapply grows_trans; [exact Hg3|exact Hg']|].
      intros arts' Hr. specialize (Hres arts' Hr).
      now rewrite <- app_assoc in Hres.
Qed.

(** *** Frames of a chapter parse *)

Lemma keeps_refl c : keeps c c.
Proof. unfold keeps. auto. Qed.

Lemma keeps_trans c0 c1 c2 : keeps c0 c1 -> keeps c1 c2 -> keeps c0 c2.
Proof. unfold keeps. intros (?&?&?&?) (?&?&?&?). repeat split; congruence. Qed.

Lemma keeps_id_keeps c0 c1 : keeps_id c0 c1 -> keeps c0 c1.
Proof. now intros [? _]. Qed.

Lemma quiet_refl keep chapter w : (forall c, keep c c) -> quiet keep chapter w w.
Proof. intros Hk. unfold quiet. repeat split; auto. intros c0 Hc0. eauto. Qed.

Lemma quiet_trans keep chapter w1 w2 w3 :
  (forall c0 c1 c2, keep c0 c1 -> keep c1 c2 -> keep c0 c2) ->
  quiet keep chapter w1 w2 -> quiet keep chapter w2 w3 -> quiet keep chapter w1 w3.
Proof.
  intros Hk (Ha1 & Hb1 & Hl1 & Ho1 & Hs1) (Ha2 & Hb2 & Hl2 & Ho2 & Hs2). unfold quiet.
  split; [congruence|]. split; [congruence|]. split; [congruence|]. split.
  - intros c' Hc'. rewrite Ho2, Ho1; auto.
  - intros c0 Hc0. destruct (Hs1 c0 Hc0) as (c1 & Hc1 & Hk1).
    destruct (Hs2 c1 Hc1) as (c2 & Hc2 & Hk2). eauto.
Qed.

Lemma quiet_weaken (keep keep' : Chapter.t -> Chapter.t -> Prop) chapter w w' :
  (forall c0 c1, keep c0 c1 -> keep' c0 c1) ->
  quiet keep chapter w w' -> quiet keep' chapter w w'.
Proof.
  intros Hk (Ha & Hb & Hl & Ho & Hs). unfold quiet. repeat split; auto.
  intros c0 Hc0. destruct (Hs c0 Hc0) as (c1 & Hc1 & Hk1). eauto.
Qed.

Lemma update_chapter_inv (chapter : loc) f (w : World) r (w' : World) :
  update_chapter chapter f w = (r, w') ->
  (exists c, chapters w !! chapter = Some c /\ r = Ret tt /\
             chapters w' = <[chapter := f c]> (chapters w) /\
             chapters w' !! chapter = Some (f c) /\
             articles w' = articles w /\ books w' = books w) \/
  (chapters w !! chapter = None /\ r = Panic nilDeref /\ w' = w).
Proof.
  unfold update_chapter. destruct (chapters w !! chapter) as [c|] eqn:Hc; intros Hrun;
    inversion Hrun; subst; simpl.
  - left. exists c. repeat split; auto.
    apply list_lookup_insert_eq. now apply lookup_lt_Some in Hc.
  - right. auto.
Qed.

Lemma update_chapter_quiet (keep : Chapter.t -> Chapter.t -> Prop) chapter f w r w' :
  (forall c, keep c c) ->
  (forall c, keep c (f c)) ->
  update_chapter chapter f w = (r, w') ->
  quiet keep chapter w w'.
Proof.
  intros Hrefl Hf Hrun.
  destruct (update_chapter_inv _ _ _ _ _ Hrun)
    as [(c & Hc & _ & Hch & Hself & Ha & Hb)|(_ & _ & ->)];
    [|now apply quiet_refl].
  unfold quiet. split; [exact Ha|]. split; [exact Hb|]. split; [|split].
  - rewrite Hch. apply length_insert.
  - intros c' Hc'. rewrite Hch. now apply list_lookup_insert_ne.
  - intros c0 Hc0. assert (c0 = c) by congruence. subst c0. eauto.
Qed.

Lemma add_stdout_quiet keep chapter out w :
  (forall c, keep c c) -> quiet keep chapter w (add_stdout out w).
Proof. intros Hk. unfold quiet; simpl. repeat split; auto. intros c0 Hc0. eauto. Qed.

Lemma maybePanicIfErr_quiet keep chapter e w r w' :
  (forall c, keep c c) ->
  maybePanicIfErr e w = (r, w') -> quiet keep chapter w w'.
Proof.
  intros Hk Hrun. unfold maybePanicIfErr in Hrun. unfold_M.
  destruct e as [e|]; [destruct softErrorMode|]; inversion Hrun; subst;
    unfold quiet; simpl; repeat split; auto; intros c0 Hc0; eauto.
Qed.

Lemma gathered_values n0 w chapter arts paths :
  gathered n0 w chapter arts paths ->
  exists vals, Forall2 (fun p a => articles w !! p = Some a) arts vals /\
               Forall (fun a => Article.IsCurrent a = false) vals.
Proof.
  intros (_ & _ & Hall).
  assert (Hall' : forall k p, arts !! k = Some p ->
            exists a, articles w !! p = Some a /\ Article.IsCurrent a = false).
  { intros k p Hk. destruct (Hall k p Hk) as (_ & a & Ha & _ & _ & [Hc _] & _). eauto. }
  clear Hall. induction arts as [|p rest IH].
  - exists []. split; constructor.
  - destruct (Hall' 0%nat p eq_refl) as (a & Ha & Hc).
    destruct IH as (vals & Hv & Hcur).
    { intros k q Hk. apply (Hall' (S k) q Hk). }
    exists (a :: vals). split; constructor; auto.
Qed.

Lemma gathered_built n0 w w' chapter arts paths :
  gathered n0 w chapter arts paths ->
  (forall vals, Forall2 (fun p a => articles w !! p = Some a) arts vals ->
     forall i p a, arts !! i = Some p -> vals !! i = Some a ->
       exists a', articles w' !! p = Some a' /\ siblings_ok arts i a a') ->
  built w' chapter arts paths.
Proof.
  intros Hg Hsib. destruct (gathered_values _ _ _ _ _ Hg) as (vals & Hvals & _).
  destruct Hg as (Hnd & Hlen & Hall). split; [exact Hnd|]. split; [exact Hlen|].
  intros i p Hi.
  destruct (Hall i p Hi) as (_ & a & Ha & Hno & Hch & [_ Hsp] & Hpath).
  destruct (Forall2_lookup_l _ _ _ _ _ Hvals Hi) as (a1 & Ha1 & Hpa).
  assert (a1 = a) by congruence. subst a1.
  destruct (Hsib vals Hvals i p a Hi Ha1) as (a' & Ha' & Heq & Hlen' & Hcur & Hself).
  exists a'. split; [exact Ha'|].
  rewrite Heq. simpl. repeat split; auto.
  eexists. split; [exact Hself|]. simpl. auto.
Qed.

(** *** parseChapter *)

Lemma quiet_post chapter w r w' :
  quiet keeps chapter w w' -> r <> Ret None -> parseChapter_post chapter w r w'.
Proof.
  intros (Ha & Hb & Hl & Ho & Hs) Hr. unfold parseChapter_post.
  split; [exact Hb|]. split; [exact Hl|]. split; [exact Ho|].
  rewrite Ha. split; [lia|]. split; [reflexivity|]. split; [|intros E; contradiction].
  intros c0 Hc0. destruct (Hs c0 Hc0) as (c1 & Hc1 & Hd & Hbk & Hn & Har).
  exists c1. repeat split; auto.
Qed.

Lemma assemble_post chapter w wa wb r :
  quiet keeps chapter w wa ->
  books wb = books wa ->
  chapters wb = chapters wa ->
  (length (articles wa) <= length (articles wb))%nat ->
  (forall p, (p < length (articles wa))%nat -> articles wb !! p = articles wa !! p) ->
  r <> Ret None ->
  parseChapter_post chapter w r wb.
Proof.
  intros (Ha & Hb & Hl & Ho & Hs) Hb' Hc' Hl' Ho' Hr. unfold parseChapter_post.
  rewrite Hb', Hc', <- Ha.
  split; [exact Hb|]. split; [exact Hl|]. split; [exact Ho|].
  split; [exact Hl'|]. split; [exact Ho'|]. split; [|intros E; contradiction].
  intros c0 Hc0. destruct (Hs c0 Hc0) as (c1 & Hc1 & Hd & Hbk & Hn & Har).
  exists c1. repeat split; auto.
Qed.

Lemma log_error_quiet keep chapter (s : string) (e : error) w o w' :
  (forall c, keep c c) ->
  (let (o0, w0) := Printf s w in
   match o0 with
   | Ret _ => maybePanicIfErr (Some e) w0
   | Panic msg => (Panic msg, w0)
   | Exit code => (Exit code, w0)
   end) = (o, w') ->
  quiet keep chapter w w'.
Proof.
  intros Hk Hrun. unfold Printf in Hrun.
  apply (maybePanicIfErr_quiet keep chapter) in Hrun; [|exact Hk].
  destruct Hrun as (Ha & Hb & Hl & Ho & Hs). unfold quiet. simpl in *.
  repeat split; auto.
Qed.

Ltac keeps_field := intros ?; unfold keeps_id, keeps; simpl; auto.

Ltac quiet_done Hq :=
  match goal with
  | Hrun : _ = (_, _) |- _ =>
      inversion Hrun; subst; apply quiet_post; [exact Hq | discriminate]
  end.

(** One field write of [parseChapter]: names the next state and extends the
    chain of quiet steps. *)
Ltac chapter_write Hrun Hq o wn Hq' :=
  match type of Hrun with
  | context [update_chapter ?ch ?f ?w0] =>
      let E := fresh "E" in
      destruct (update_chapter ch f w0) as [o wn] eqn:E;
      pose proof (update_chapter_quiet keeps ch f w0 o wn keeps_refl
                    ltac:(keeps_field) E) as Hq';
      apply (quiet_trans _ _ _ _ _ keeps_trans Hq) in Hq';
      destruct o; [|quiet_done Hq'|quiet_done Hq']
  end.

Lemma parseChapter_spec (chapter : loc) (w : World) r (w' : World) :
  parseChapter chapter w = (r, w') -> parseChapter_post chapter w r w'.
Proof.
  intros Hrun. unfold parseChapter in Hrun. unfold_M.
  pose proof (quiet_refl keeps chapter w keeps_refl) as Hq0.
  unfold load_chapter at 1 in Hrun.
  destruct (chapters w !! chapter) as [c|] eqn:Hc; [|quiet_done Hq0].
  unfold deref, load_book in Hrun.
  destruct (Chapter.Book c) as [b|] eqn:HB; [|quiet_done Hq0].
  destruct (books w !! b) as [bk|] eqn:HBk; [|quiet_done Hq0].
  set (dir := filepath_Join [Book.sourceDir bk; Chapter.ChapterDir c]) in *.
  set (path := filepath_Join [dir; "000-index.md"]) in *.
  chapter_write Hrun Hq0 o1 w1 Hq1.
  rewrite paarseKVFileWithIncludes_run in Hrun.
  destruct (parsed_doc path) as [doc err].
  pose proof (add_stdout_quiet keeps chapter (include_diagnostics path) w1 keeps_refl) as Hq2.
  apply (quiet_trans _ _ _ _ _ keeps_trans Hq1) in Hq2.
  set (w2 := add_stdout (include_diagnostics path) w1) in *.
  match type of Hrun with
  | context [?m w2] =>
      lazymatch m with
      | match err with Some _ => _ | None => _ end =>
          destruct (m w2) as [o3 w3] eqn:E3
      end
  end.
  assert (Hq3 : quiet keeps chapter w w3).
  { apply (quiet_trans _ _ _ _ _ keeps_trans Hq2).
    destruct err as [e|].
    - eapply log_error_quiet; [exact keeps_refl | exact E3].
    - inversion E3; subst. apply quiet_refl, keeps_refl. }
  clear E3. destruct o3; [|quiet_done Hq3|quiet_done Hq3].
  chapter_write Hrun Hq3 o4 w4 Hq4.
  destruct (GetValue doc "Title") as [title errT].
  chapter_write Hrun Hq4 o5 w5 Hq5.
  destruct errT as [e|]; [quiet_done Hq5|].
  destruct (GetValue doc "Id") as [id errI].
  destruct (update_chapter chapter (Chapter.with_ID id) w5) as [o6 w6] eqn:E6.
  pose proof (update_chapter_quiet keeps chapter (Chapter.with_ID id) w5 o6 w6 keeps_refl
                ltac:(keeps_field) E6) as Hq6.
  apply (quiet_trans _ _ _ _ _ keeps_trans Hq5) in Hq6.
  destruct o6; [|quiet_done Hq6|quiet_done Hq6].
  destruct (update_chapter_inv _ _ _ _ _ E6)
    as [(c5 & _ & _ & _ & Hself6 & _)|(_ & Habs & _)]; [|discriminate].
  destruct errI as [e|]; [quiet_done Hq6|].
  destruct (Contains id " ") eqn:Hsp; [quiet_done Hq6|].
  destruct (update_chapter chapter
              (Chapter.with_FileNameBase ("ch-" +:+ id +:+ "-" +:+ MakeURLSafe title)) w6)
    as [o7 w7] eqn:E7.
  pose proof (update_chapter_quiet keeps_id chapter
                (Chapter.with_FileNameBase ("ch-" +:+ id +:+ "-" +:+ MakeURLSafe title))
                w6 o7 w7 ltac:(keeps_field) ltac:(keeps_field) E7) as Hq7.
  destruct (proj2 (proj2 (proj2 (proj2 Hq7))) _ Hself6) as (c7 & Hc7 & _ & Hid7).
  simpl in Hid7.
  apply (quiet_weaken _ keeps _ _ _ keeps_id_keeps) in Hq7.
  apply (quiet_trans _ _ _ _ _ keeps_trans Hq6) in Hq7.
  destruct o7; [|quiet_done Hq7|quiet_done Hq7]. clear E6 E7.
  destruct (ReadDir dir) as [fis errD] eqn:HRd.
  assert (Hfiles : chapter_files w c = article_files dir fis).
  { unfold chapter_files. rewrite HB, HBk. fold dir. now rewrite HRd. }
  destruct (parseChapter_loop chapter dir fis [] w7) as [o8 w8] eqn:E8.
  apply (parseChapter_loop_spec chapter dir (length (articles w7)) fis [] []) in E8;
    [|lia|split; [constructor|split; [reflexivity|intros k p Hk; discriminate]]].
  destruct E8 as [(Hc8 & Hb8 & Hl8 & Ho8) Hg8].
  destruct o8 as [[arts|e]|msg|code];
    try (inversion Hrun; subst;
         apply (assemble_post chapter w w7 _ _ Hq7 Hb8 Hc8 Hl8 Ho8); discriminate).
  specialize (Hg8 arts eq_refl). simpl in Hg8.
  destruct (gathered_values _ _ _ _ _ Hg8) as (vals & Hvals & Hcur).
  destruct (buildArticleSiblings_run arts vals w8 (proj1 Hg8) Hvals Hcur)
    as (w9 & Hrun9 & (Hc9 & Hb9 & _ & _ & Hl9) & Hout9 & Hin9).
  rewrite Hrun9 in Hrun.
  assert (Ho9 : forall p, (p < length (articles w7))%nat ->
                          articles w9 !! p = articles w7 !! p).
  { intros p Hp. rewrite Hout9; [now apply Ho8|].
    intros Hin. apply list_elem_of_lookup in Hin as [k Hk].
    destruct (proj2 (proj2 Hg8) k p Hk) as [Hge _]. lia. }
  destruct (update_chapter chapter (Chapter.with_Articles arts) w9) as [o10 w10] eqn:E10.
  destruct (update_chapter_inv _ _ _ _ _ E10)
    as [(c9 & Hc9' & -> & Hch10 & Hself10 & Ha10 & Hb10)|(_ & -> & ->)].
  2: { inversion Hrun; subst.
       apply (assemble_post chapter w w7 _ _ Hq7); try congruence; try lia; exact Ho9. }
  inversion Hrun; subst r w'. clear Hrun.
  assert (c9 = c7) by congruence. subst c9.
  assert (Hbuilt : built w10 chapter arts (article_files dir fis)).
  { apply (gathered_built _ w8 w10 chapter arts _ Hg8).
    intros vals' Hvals' i p v Hi Hv. rewrite Ha10.
    assert (vals' = vals).
    { apply list_eq. intros k.
      destruct (arts !! k) as [q|] eqn:Hq.
      - destruct (Forall2_lookup_l _ _ _ _ _ Hvals Hq) as (x & Hx & Hqx).
        destruct (Forall2_lookup_l _ _ _ _ _ Hvals' Hq) as (y & Hy & Hqy).
        congruence.
      - apply lookup_ge_None in Hq.
        rewrite !(proj2 (lookup_ge_None _ _));
          [reflexivity|rewrite <- (Forall2_length _ _ _ Hvals); exact Hq
          |rewrite <- (Forall2_length _ _ _ Hvals'); exact Hq]. }
    subst vals'. eapply Hin9; eauto. }
  destruct Hq7 as (Ha7 & Hb7 & Hl7 & Ho7 & Hs7).
  unfold parseChapter_post.
  split; [congruence|]. split; [rewrite Hch10, length_insert; congruence|].
  split; [intros c' Hc'; rewrite Hch10, list_lookup_insert_ne by congruence;
          rewrite Hc9, Hc8; now apply Ho7|].
  split; [rewrite Ha10, Hl9, <- Ha7; exact Hl8|].
  split; [intros p Hp; rewrite Ha10, <- Ha7; apply Ho9; now rewrite Ha7|].
  split.
  - intros c0 Hc0. destruct (Hs7 c0 Hc0) as (c7' & Hc7' & Hd & Hbk & Hn & Har).
    assert (c7' = c7) by congruence. subst c7'.
    assert (c0 = c) by congruence. subst c0.
    eexists. split; [exact Hself10|]. simpl.
    split; [exact Hd|]. split; [exact Hbk|]. split; [exact Hn|].
    right. rewrite Hfiles. exact Hbuilt.
  - intros _. eexists _, _. split; [exact Hself10|]. simpl. split; [exact Hbuilt|].
    rewrite Hid7. exact Hsp.
Qed.

(** *** The space check *)

Lemma update_chapter_run (chapter : loc) f (w : World) (c : Chapter.t) :
  chapters w !! chapter = Some c ->
  update_chapter chapter f w = (Ret tt, put_chapter chapter (f c) w) /\
  chapters (put_chapter chapter (f c) w) !! chapter = Some (f c).
Proof.
  intros Hc. unfold update_chapter. rewrite Hc. split; [reflexivity|].
  simpl. apply list_lookup_insert_eq. now apply lookup_lt_Some in Hc.
Qed.

(** The space check of [parseChapter]: with the index document parsed (or,
    in soft mode, whatever the parser left), a title and an ID, an ID with a
    space in it makes the call return an error. *)
Lemma parseChapter_space (chapter : loc) (w : World) (c : Chapter.t) (b : loc) (bk : Book.t)
    (doc : Doc) (err : option error) (title id : string) :
  chapters w !! chapter = Some c ->
  Chapter.Book c = Some b ->
  books w !! b = Some bk ->
  let path := filepath_Join [filepath_Join [Book.sourceDir bk; Chapter.ChapterDir c];
                             "000-index.md"] in
  parsed_doc path = (doc, err) ->
  err = None \/ softErrorMode = true ->
  GetValue doc "Title" = (title, None) ->
  GetValue doc "Id" = (id, None) ->
  Contains id " " = true ->
  exists w',
    parseChapter chapter w =
    (Ret (Some ("parseChapter('" +:+ path +:+ "'), chapter.ID = '" +:+ id +:+
                "' has space in it")), w').
Proof.
  intros Hc Hb Hbk path Hdoc Hmode Htitle Hid Hsp.
  unfold parseChapter. unfold_M.
  unfold load_chapter at 1. rewrite Hc. unfold deref. rewrite Hb.
  unfold load_book. rewrite Hbk. fold path.
  destruct (update_chapter_run chapter (Chapter.with_indexFilePath path) w c Hc) as [E1 H1].
  rewrite E1. rewrite paarseKVFileWithIncludes_run, Hdoc.
  set (w2 := add_stdout _ _).
  assert (H2 : chapters w2 !! chapter = Some (Chapter.with_indexFilePath path c)) by exact H1.
  clearbody w2. clear E1 H1.
  assert (Htail : forall w3,
             chapters w3 !! chapter = Some (Chapter.with_indexFilePath path c) ->
             exists o w4, update_chapter chapter (Chapter.with_indexDoc doc) w3 = (Ret o, w4) /\
               exists o' w5, update_chapter chapter (Chapter.with_Title title) w4 = (Ret o', w5) /\
                 exists o'' w6, update_chapter chapter (Chapter.with_ID id) w5 = (Ret o'', w6)).
  { intros w3 H3.
    destruct (update_chapter_run chapter (Chapter.with_indexDoc doc) w3 _ H3) as [E4 H4].
    destruct (update_chapter_run chapter (Chapter.with_Title title) _ _ H4) as [E5 H5].
    destruct (update_chapter_run chapter (Chapter.with_ID id) _ _ H5) as [E6 H6].
    eauto 10. }
  destruct err as [e|].
  - destruct Hmode as [Hn|Hsoft]; [discriminate|].
    unfold Printf at 1, maybePanicIfErr at 1. rewrite Hsoft.
    match goal with
    | |- context [update_chapter chapter (Chapter.with_indexDoc doc) ?w3] =>
        destruct (Htail w3 H2) as (o & w4 & E4 & o' & w5 & E5 & o'' & w6 & E6)
    end.
    rewrite E4, Htitle, E5, Hid, E6, Hsp. eexists. reflexivity.
  - destruct (Htail w2 H2) as (o & w4 & E4 & o' & w5 & E5 & o'' & w6 & E6).
    rewrite E4, Htitle, E5, Hid, E6, Hsp. eexists. reflexivity.
Qed.

(** C7, as the code has it.  The check is for the space character: a parsed
    article or chapter whose ID contains a space is rejected with an error,
    so that after a call of [parseChapter] that returns no error neither the
    ID of the chapter nor the ID of any of its articles contains a space. *)
Theorem space_in_ID_rejected :
  (forall (path : string) (w : World) (doc : Doc) (id : string),
      parsed_doc path = (doc, None) ->
      GetValue doc "Id" = (id, None) ->
      Contains id " " = true ->
      parseArticle path w =
      (Ret (None, Some ("parseArticle('" +:+ path +:+ "'), res.ID = '" +:+ id +:+
                        "' has space in it")),
       add_stdout (include_diagnostics path) w)) /\
  (forall (chapter : loc) (w : World) (c : Chapter.t) (b : loc) (bk : Book.t)
          (doc : Doc) (err : option error) (title id : string),
      chapters w !! chapter = Some c ->
      Chapter.Book c = Some b ->
      books w !! b = Some bk ->
      let path := filepath_Join [filepath_Join [Book.sourceDir bk; Chapter.ChapterDir c];
                                 "000-index.md"] in
      parsed_doc path = (doc, err) ->
      err = None \/ softErrorMode = true ->
      GetValue doc "Title" = (title, None) ->
      GetValue doc "Id" = (id, None) ->
      Contains id " " = true ->
      exists w',
        parseChapter chapter w =
        (Ret (Some ("parseChapter('" +:+ path +:+ "'), chapter.ID = '" +:+ id +:+
                    "' has space in it")), w')) /\
  (forall (chapter : loc) (w w' : World),
      parseChapter chapter w = (Ret None, w') ->
      exists c, chapters w' !! chapter = Some c /\
        Contains (Chapter.ID c) " " = false /\
        forall i p, Chapter.Articles c !! i = Some p ->
          exists a, articles w' !! p = Some a /\ Contains (Article.ID a) " " = false).
Proof.
  split; [exact parseArticle_space|]. split; [exact parseChapter_space|].
  intros chapter w w' Hrun.
  destruct (parseChapter_spec chapter w _ w' Hrun) as (_ & _ & _ & _ & _ & _ & Hok).
  destruct (Hok eq_refl) as (c & paths & Hc & Hbuilt & Hsp).
  exists c. split; [exact Hc|]. split; [exact Hsp|].
  intros i p Hi. destruct (proj2 (proj2 Hbuilt) i p Hi) as (a & Ha & _ & _ & Hida & _). eauto.
Qed.

(** C1. After a call of [parseChapter] that returns no error, every article
    of the chapter has a sibling list with one entry per article of the
    chapter, exactly one of which is current: the one at the position of the
    article itself, which is a copy of it (same ID, number and source). *)
Theorem siblings_mark_self (chapter : loc) (w w' : World) :
  parseChapter chapter w = (Ret None, w') ->
  exists c, chapters w' !! chapter = Some c /\
    forall i p, Chapter.Articles c !! i = Some p ->
      exists a, articles w' !! p = Some a /\
        length (Article.Siblings a) = length (Chapter.Articles c) /\
        (forall j s, Article.Siblings a !! j = Some s ->
                     Article.IsCurrent s = bool_decide (j = i)) /\
        (exists s, Article.Siblings a !! i = Some s /\
                   Article.IsCurrent s = true /\
                   Article.ID s = Article.ID a /\
                   Article.No s = Article.No a /\
                   Article.sourceFilePath s = Article.sourceFilePath a).
Proof.
  intros Hrun.
  destruct (parseChapter_spec chapter w _ w' Hrun) as (_ & _ & _ & _ & _ & _ & Hok).
  destruct (Hok eq_refl) as (c & paths & Hc & Hbuilt & _).
  exists c. split; [exact Hc|].
  intros i p Hi.
  destruct (proj2 (proj2 Hbuilt) i p Hi)
    as (a & Ha & _ & _ & _ & _ & Hlen & Hcur & s & Hs & Hid & Hno & Hsrc).
  exists a. split; [exact Ha|]. split; [exact Hlen|]. split; [exact Hcur|].
  exists s. split; [exact Hs|]. split; [|auto].
  rewrite (Hcur i s Hs). now apply bool_decide_eq_true_2.
Qed.

(** *** The identifier registry *)

Lemma holder_app {A} (key : A -> string) (l1 l2 : list A) (id : string) :
  holder key (l1 ++ l2) id =
  match holder key l1 id with
  | Some x => Some x
  | None => holder key l2 id
  end.
Proof.
  induction l1 as [|x l1 IH]; simpl; [reflexivity|].
  destruct (String.eqb (key x) id); [reflexivity | exact IH].
Qed.

Lemma holder_Some {A} (key : A -> string) (seen : list A) (id : string) (x : A) :
  holder key seen id = Some x ->
  exists i, seen !! i = Some x /\ key x = id.
Proof.
  induction seen as [|y rest IH]; simpl; [discriminate|].
  destruct (String.eqb_spec (key y) id) as [Heq|Hne].
  - intros Hx. inversion Hx; subst. exists 0%nat. auto.
  - intros Hx. destruct (IH Hx) as (i & Hi & Hk). exists (S i). auto.
Qed.

Lemma holder_None {A} (key : A -> string) (seen : list A) (id : string) :
  holder key seen id = None <-> id ∉ map key seen.
Proof.
  induction seen as [|y rest IH]; simpl.
  - split; [intros _; apply not_elem_of_nil | reflexivity].
  - destruct (String.eqb_spec (key y) id) as [Heq|Hne].
    + split; [discriminate|]. intros Hn. exfalso. apply Hn. subst. apply list_elem_of_here.
    + rewrite IH. rewrite not_elem_of_cons. split; [auto | now intros [_ ?]].
Qed.

Lemma registry_empty {A} (key : A -> string) (heap : list A) : registry key heap ∅ [].
Proof. intros id. now rewrite lookup_empty. Qed.

Lemma registry_insert {A} (key : A -> string) (heap : list A) ids seen (p : loc) (x : A) :
  registry key heap ids seen ->
  heap !! p = Some x ->
  ids !! key x = None ->
  registry key heap (<[key x := p]> ids) (seen ++ [x]).
Proof.
  intros Hreg Hp Hnone id. specialize (Hreg id). rewrite holder_app.
  destruct (decide (key x = id)) as [Heq|Hne].
  - subst id. rewrite lookup_insert_eq. rewrite Hnone in Hreg. rewrite Hreg.
    simpl. rewrite String.eqb_refl. eauto.
  - rewrite lookup_insert_ne by exact Hne.
    destruct (ids !! id) as [q|].
    + destruct Hreg as (y & Hq & Hy). rewrite Hy. eauto.
    + rewrite Hreg. simpl. destruct (String.eqb_spec (key x) id); [contradiction|reflexivity].
Qed.

Lemma registry_skip {A} (key : A -> string) (heap : list A) ids seen (x : A) :
  registry key heap ids seen ->
  is_Some (ids !! key x) ->
  registry key heap ids (seen ++ [x]).
Proof.
  intros Hreg [q Hq] id. pose proof (Hreg id) as Hid. rewrite holder_app.
  destruct (ids !! id) as [p|] eqn:Hp.
  - destruct Hid as (y & Hy & Hh). rewrite Hh. eauto.
  - rewrite Hid. simpl. destruct (String.eqb_spec (key x) id) as [Heq|Hne]; [|reflexivity].
    subst id. congruence.
Qed.

Lemma add_softErrors_nil w : add_softErrors [] w = w.
Proof. destruct w; unfold add_softErrors; simpl. now rewrite app_nil_r. Qed.

Lemma errors_pass_cons e errs :
  errors_pass (e :: errs) = softErrorMode.
Proof.
  unfold errors_pass. rewrite bool_decide_eq_false_2 by discriminate. apply orb_false_r.
Qed.

Lemma errors_pass_nil : errors_pass [] = true.
Proof. unfold errors_pass. rewrite bool_decide_eq_true_2 by reflexivity. apply orb_true_r. Qed.

Lemma ensureUniqueIds_articles_run (arts : list loc) : forall (avals prev : list Article.t)
    (ids : gmap string loc) (urls : list string) (w : World),
  Forall2 (fun p a => articles w !! p = Some a) arts avals ->
  registry Article.ID (articles w) ids prev ->
  exists ids',
    (errors_pass (dup_errors prev avals) = true ->
     registry Article.ID (articles w) ids' (prev ++ avals)) /\
    ensureUniqueIds_articles arts ids urls w =
    if errors_pass (dup_errors prev avals)
    then (Ret (ids', urls ++ fresh_slugs prev avals), add_softErrors (dup_errors prev avals) w)
    else (Panic (hd "" (dup_errors prev avals)), w).
Proof.
  induction arts as [|p arts IH]; intros avals prev ids urls w Hvals Hreg.
  - inversion Hvals; subst. exists ids. rewrite !app_nil_r. split; [intros _; exact Hreg|].
    cbn [ensureUniqueIds_articles dup_errors fresh_slugs]. rewrite errors_pass_nil.
    unfold_M. now rewrite add_softErrors_nil.
  - inversion Hvals as [|? v ? avals' Hp Hvals']; subst.
    cbn [ensureUniqueIds_articles dup_errors fresh_slugs].
    unfold_M. unfold load_article at 1. rewrite Hp.
    pose proof (Hreg (Article.ID v)) as Hid.
    destruct (ids !! Article.ID v) as [p2|] eqn:Hlook.
    + destruct Hid as (v2 & Hp2 & Hh). rewrite Hh.
      unfold load_article at 1. rewrite Hp2.
      fold (dup_error v v2).
      rewrite errors_pass_cons. unfold maybePanicIfErr.
      destruct softErrorMode eqn:Hsoft.
      * destruct (IH avals' (prev ++ [v]) ids urls
                    (add_softErrors [dup_error v v2] w)) as (ids' & Hreg' & Hrun).
        { exact Hvals'. }
        { apply registry_skip; [exact Hreg|]. rewrite Hlook. eauto. }
        exists ids'. rewrite <- app_assoc in Hreg'. split.
        { intros _. apply Hreg'. unfold errors_pass. now rewrite Hsoft. }
        unfold add_softErrors at 1 in Hrun. cbn [articles chapters books stdout softErrors] in Hrun.
        eapply eq_trans; [exact Hrun|].
        unfold errors_pass. rewrite Hsoft. cbn [orb].
        unfold add_softErrors; cbn [articles chapters books stdout softErrors hd].
        now rewrite <- app_assoc.
      * exists ids. split; [discriminate|reflexivity].
    + rewrite Hid.
      destruct (IH avals' (prev ++ [v]) (<[Article.ID v := p]> ids)
                  (urls ++ [Article.FileNameBase v]) w) as (ids' & Hreg' & Hrun).
      { exact Hvals'. }
      { apply registry_insert; assumption. }
      exists ids'. rewrite <- app_assoc in Hreg'. split; [exact Hreg'|].
      rewrite Hrun. rewrite <- app_assoc. reflexivity.
Qed.

(** *** Validation as a verdict *)

Lemma errors_pass_app e1 e2 :
  errors_pass (e1 ++ e2) = errors_pass e1 && errors_pass e2.
Proof.
  unfold errors_pass. destruct softErrorMode; [reflexivity|]. simpl.
  destruct e1 as [|x e1]; simpl.
  - reflexivity.
  - reflexivity || (rewrite !bool_decide_eq_false_2 by discriminate; reflexivity).
Qed.

Lemma errors_pass_false_hd e1 e2 :
  errors_pass e1 = false -> hd "" (e1 ++ e2) = hd "" e1.
Proof.
  destruct e1; [|reflexivity]. rewrite errors_pass_nil. discriminate.
Qed.

Lemma errors_pass_strict e :
  errors_pass e = true -> softErrorMode = false -> e = [].
Proof.
  unfold errors_pass. intros Hp Hs. rewrite Hs in Hp. simpl in Hp.
  now apply bool_decide_eq_true_1 in Hp.
Qed.

Lemma add_softErrors_app e1 e2 w :
  add_softErrors e2 (add_softErrors e1 w) = add_softErrors (e1 ++ e2) w.
Proof. unfold add_softErrors; simpl. now rewrite app_assoc. Qed.

Lemma ensureUniqueIds_chapters_run (chs : list loc) :
  forall (view : list (Chapter.t * list Article.t)) (seen : list Chapter.t)
         (prev : list Article.t) (cids aids : gmap string loc) (urls : list string) (w : World),
  book_view w chs view ->
  registry Chapter.ID (chapters w) cids seen ->
  registry Article.ID (articles w) aids prev ->
  ensureUniqueIds_chapters chs cids aids urls w = verdict_run urls (validate seen prev view) w.
Proof.
  induction chs as [|p chs IH]; intros view seen prev cids aids urls w Hview Hc Ha.
  - inversion Hview; subst. cbn [ensureUniqueIds_chapters validate].
    unfold verdict_run. cbn [verdict_errors]. rewrite errors_pass_nil.
    unfold_M. now rewrite add_softErrors_nil, app_nil_r.
  - inversion Hview as [|? [c avals] ? view' [Hp Havals] Hview']; subst.
    cbn [fst snd] in *.
    cbn [ensureUniqueIds_chapters validate]. unfold_M.
    unfold load_chapter at 1. rewrite Hp.
    pose proof (Hc (Chapter.ID c)) as Hid.
    destruct (cids !! Chapter.ID c) as [p2|] eqn:Hlook.
    + destruct Hid as (c2 & Hp2 & Hh). rewrite Hh.
      unfold load_chapter at 1. rewrite Hp2.
      unfold verdict_run. cbn [verdict_errors]. rewrite errors_pass_nil.
      unfold Printf, os_Exit. cbn [articles chapters books stdout softErrors].
      rewrite add_softErrors_nil. unfold add_stdout, collision_lines.
      rewrite <- !app_assoc. reflexivity.
    + rewrite Hid.
      destruct (ensureUniqueIds_articles_run (Chapter.Articles c) avals prev aids
                  (urls ++ [Chapter.FileNameBase c]) w Havals Ha) as (aids' & Ha' & Hrun).
      rewrite Hrun. clear Hrun.
      set (e1 := dup_errors prev avals) in *.
      destruct (errors_pass e1) eqn:Hpass.
      * rewrite (IH view' (seen ++ [c]) (prev ++ avals)); cycle 1.
        { exact Hview'. }
        { apply registry_insert; assumption. }
        { apply Ha'. reflexivity. }
        unfold verdict_run.
        destruct (validate (seen ++ [c]) (prev ++ avals) view') as [u e|x y e];
          cbn [verdict_errors]; rewrite errors_pass_app, Hpass; cbn [andb];
          destruct (errors_pass e) eqn:Hpe.
        -- rewrite add_softErrors_app. now rewrite <- !app_assoc.
        -- f_equal.
           ++ destruct e1; [reflexivity|]. rewrite errors_pass_cons in Hpass.
              unfold errors_pass in Hpe. rewrite Hpass in Hpe. discriminate.
           ++ destruct e1; [apply add_softErrors_nil|]. rewrite errors_pass_cons in Hpass.
              unfold errors_pass in Hpe. rewrite Hpass in Hpe. discriminate.
        -- now rewrite add_softErrors_app.
        -- f_equal.
           ++ destruct e1; [reflexivity|]. rewrite errors_pass_cons in Hpass.
              unfold errors_pass in Hpe. rewrite Hpass in Hpe. discriminate.
           ++ destruct e1; [apply add_softErrors_nil|]. rewrite errors_pass_cons in Hpass.
              unfold errors_pass in Hpe. rewrite Hpass in Hpe. discriminate.
      * unfold verdict_run.
        destruct (validate (seen ++ [c]) (prev ++ avals) view') as [u e|x y e];
          cbn [verdict_errors]; rewrite errors_pass_app, Hpass; cbn [andb];
          now rewrite errors_pass_false_hd.
Qed.

(** The whole of [ensureUniqueIds] on a book whose pointers are valid. *)
Lemma ensureUniqueIds_run (book : loc) (w : World) (bk : Book.t)
    (view : list (Chapter.t * list Article.t)) :
  books w !! book = Some bk ->
  book_view w (Book.Chapters bk) view ->
  ensureUniqueIds book w =
  let v := validate [] [] view in
  if errors_pass (verdict_errors v) then
    match v with
    | Valid urls errs =>
        (Ret tt, mkWorld (articles w) (chapters w)
                         (<[book := Book.with_knownUrls urls bk]> (books w))
                         (stdout w) (softErrors w ++ errs))
    | DupChapter c c2 errs =>
        (Exit 1, add_stdout (collision_lines c c2) (add_softErrors errs w))
    end
  else (Panic (hd "" (verdict_errors v)), w).
Proof.
  intros Hb Hview. unfold ensureUniqueIds. unfold_M.
  unfold load_book. rewrite Hb.
  rewrite (ensureUniqueIds_chapters_run _ view [] [] ∅ ∅ [] w Hview
             (registry_empty _ _) (registry_empty _ _)).
  unfold verdict_run. cbv zeta.
  destruct (errors_pass (verdict_errors (validate [] [] view))); [|reflexivity].
  destruct (validate [] [] view) as [u e|x y e]; [|reflexivity].
  unfold update_book. cbn [articles chapters books stdout softErrors add_softErrors].
  rewrite Hb. reflexivity.
Qed.

(** *** The manifest *)

Lemma fresh_or_duplicate (avals : list Article.t) : forall prev,
  (length (fresh_slugs prev avals) + length (dup_errors prev avals) = length avals)%nat.
Proof.
  induction avals as [|v rest IH]; intros prev; simpl; [reflexivity|].
  destruct (holder Article.ID prev (Article.ID v)); simpl; rewrite <- (IH (prev ++ [v])); lia.
Qed.

Lemma validate_unique (view : list (Chapter.t * list Article.t)) : forall seen prev,
  NoDup (map Chapter.ID seen ++ chapter_ids view) ->
  validate seen prev view = Valid (manifest prev view) (article_errors prev view).
Proof.
  induction view as [|[c avals] rest IH]; intros seen prev Hnd; simpl; [reflexivity|].
  simpl in Hnd. apply NoDup_app in Hnd as (Hseen & Hdisj & Hrest).
  assert (Hnone : holder Chapter.ID seen (Chapter.ID c) = None).
  { apply holder_None. intros Hin. apply (Hdisj _ Hin). apply list_elem_of_here. }
  rewrite Hnone. rewrite IH; [reflexivity|].
  rewrite map_app. simpl. rewrite <- app_assoc. simpl.
  apply NoDup_app. split; [exact Hseen|]. split; [|exact Hrest].
  exact Hdisj.
Qed.

(** No error is recorded as long as the article IDs are distinct, and only
    then. *)
Lemma dup_errors_nil (avals : list Article.t) : forall prev,
  NoDup (map Article.ID prev) ->
  dup_errors prev avals = [] <-> NoDup (map Article.ID (prev ++ avals)).
Proof.
  induction avals as [|v rest IH]; intros prev Hprev; simpl.
  - rewrite app_nil_r. split; auto.
  - replace (prev ++ v :: rest) with ((prev ++ [v]) ++ rest) by now rewrite <- app_assoc.
    destruct (holder Article.ID prev (Article.ID v)) as [v2|] eqn:Hh.
    + split; [discriminate|]. intros Hnd. exfalso.
      destruct (holder_Some _ _ _ _ Hh) as (i & Hi & Hk).
      rewrite map_app in Hnd. apply NoDup_app in Hnd as (Hnd & _).
      rewrite map_app in Hnd. apply NoDup_app in Hnd as (_ & Hdisj & _).
      apply (Hdisj (Article.ID v)).
      * rewrite <- Hk. apply list_elem_of_fmap_2. eapply list_elem_of_lookup_2; eauto.
      * simpl. apply list_elem_of_here.
    + apply holder_None in Hh. apply IH.
      rewrite map_app. simpl. apply NoDup_app. split; [exact Hprev|].
      split; [|apply NoDup_singleton].
      intros id Hin Hin'. apply list_elem_of_singleton in Hin'. subst id. contradiction.
Qed.

Lemma article_errors_nil (view : list (Chapter.t * list Article.t)) : forall prev,
  NoDup (map Article.ID prev) ->
  article_errors prev view = [] <-> NoDup (map Article.ID (prev ++ concat (map snd view))).
Proof.
  induction view as [|[c avals] rest IH]; intros prev Hprev; simpl.
  - rewrite app_nil_r. split; auto.
  - rewrite app_assoc. split.
    + intros Herrs. apply app_eq_nil in Herrs as [Hd Hr].
      pose proof (proj1 (dup_errors_nil avals prev Hprev) Hd) as Hnd.
      exact (proj1 (IH (prev ++ avals) Hnd) Hr).
    + intros Hnd.
      assert (Hd : NoDup (map Article.ID (prev ++ avals))).
      { rewrite map_app in Hnd. now apply NoDup_app in Hnd as (Hnd & _). }
      rewrite (proj2 (dup_errors_nil avals prev Hprev) Hd).
      now rewrite (proj2 (IH (prev ++ avals) Hd) Hnd).
Qed.

(** The first chapter whose ID an earlier chapter has ends the validation,
    with the article errors of the chapters before it. *)
Lemma validate_first_collision (view : list (Chapter.t * list Article.t)) : forall seen prev,
  NoDup (map Chapter.ID seen) ->
  ~ NoDup (map Chapter.ID seen ++ chapter_ids view) ->
  exists c c2 j avals,
    validate seen prev view = DupChapter c c2 (article_errors prev (take j view)) /\
    Chapter.ID c2 = Chapter.ID c /\
    view !! j = Some (c, avals) /\
    NoDup (map Chapter.ID seen ++ chapter_ids (take j view)) /\
    (c2 ∈ seen \/ exists i avals2, (i < j)%nat /\ view !! i = Some (c2, avals2)).
Proof.
  induction view as [|[c avals] rest IH]; intros seen prev Hseen Hdup.
  - exfalso. apply Hdup. unfold chapter_ids. simpl. now rewrite app_nil_r.
  - simpl. destruct (holder Chapter.ID seen (Chapter.ID c)) as [c2|] eqn:Hh.
    + destruct (holder_Some _ _ _ _ Hh) as (i & Hi & Hk).
      exists c, c2, 0%nat, avals. split; [reflexivity|]. split; [exact Hk|].
      split; [reflexivity|]. split; [simpl; now rewrite app_nil_r|].
      left. eapply list_elem_of_lookup_2; eauto.
    + apply holder_None in Hh.
      destruct (IH (seen ++ [c]) (prev ++ avals))
        as (x & y & j & av & Hv & Hid & Hj & Hfirst & Hy).
      { rewrite map_app. simpl. apply NoDup_app. split; [exact Hseen|].
        split; [|apply NoDup_singleton].
        intros id Hin Hin'. apply list_elem_of_singleton in Hin'. subst id. contradiction. }
      { intros Hnd. apply Hdup. simpl.
        rewrite map_app in Hnd. simpl in Hnd. now rewrite <- app_assoc in Hnd. }
      rewrite Hv. exists x, y, (S j), av.
      split; [reflexivity|]. split; [exact Hid|]. split; [exact Hj|]. split.
      { simpl. rewrite map_app in Hfirst. simpl in Hfirst.
        now rewrite <- app_assoc in Hfirst. }
      destruct Hy as [Hin|(i & av2 & Hi & Hlook)].
      * apply elem_of_app in Hin as [Hin|Hin]; [left; exact Hin|].
        apply list_elem_of_singleton in Hin. subst y.
        right. exists 0%nat, avals. split; [lia|reflexivity].
      * right. exists (S i), av2. split; [lia|exact Hlook].
Qed.

(** C2, as the code has it.  When two chapters of the book have the same ID,
    [ensureUniqueIds] never returns.  It stops at the first chapter [j] whose
    ID an earlier chapter [i] has.  In soft mode, and in strict mode when the
    articles of the chapters before [j] have distinct IDs, it prints the ID
    and then title and index file of chapter [j] and of chapter [i], and
    exits with status 1, having recorded the errors for the duplicate
    articles met before.  In strict mode with an article before chapter [j]
    whose ID was already seen, [maybePanicIfErr] panics on the first such
    article and nothing is printed. *)
Theorem ensureUniqueIds_duplicate_chapter (book : loc) (w : World) (bk : Book.t)
    (view : list (Chapter.t * list Article.t)) :
  books w !! book = Some bk ->
  book_view w (Book.Chapters bk) view ->
  ~ NoDup (chapter_ids view) ->
  exists (i j : nat) (c c2 : Chapter.t) (avals avals2 : list Article.t),
    (i < j)%nat /\ view !! i = Some (c2, avals2) /\ view !! j = Some (c, avals) /\
    Chapter.ID c2 = Chapter.ID c /\
    NoDup (chapter_ids (take j view)) /\
    let errs := article_errors [] (take j view) in
    (errs = [] <-> NoDup (map Article.ID (concat (map snd (take j view))))) /\
    (softErrorMode = true \/ errs = [] ->
     ensureUniqueIds book w =
       (Exit 1, add_stdout (collision_lines c c2) (add_softErrors errs w))) /\
    (softErrorMode = false ->
     forall e rest, errs = e :: rest -> ensureUniqueIds book w = (Panic e, w)).
Proof.
  intros Hb Hview Hdup.
  destruct (validate_first_collision view [] [] (NoDup_nil_2) Hdup)
    as (c & c2 & j & avals & Hv & Hid & Hj & Hfirst & [Hin|(i & avals2 & Hi & Hlook)]).
  { now apply not_elem_of_nil in Hin. }
  exists i, j, c, c2, avals, avals2.
  split; [exact Hi|]. split; [exact Hlook|]. split; [exact Hj|]. split; [exact Hid|].
  split; [exact Hfirst|]. cbv zeta.
  split; [apply (article_errors_nil (take j view) []), NoDup_nil_2|].
  rewrite (ensureUniqueIds_run book w bk view Hb Hview). cbv zeta. rewrite Hv.
  cbn [verdict_errors]. split.
  - intros Hpass.
    assert (Hp : errors_pass (article_errors [] (take j view)) = true).
    { unfold errors_pass. destruct Hpass as [-> | ->]; [reflexivity|].
      rewrite bool_decide_eq_true_2 by reflexivity. apply orb_true_r. }
    now rewrite Hp.
  - intros Hstrict e rest Herrs. rewrite Herrs, errors_pass_cons, Hstrict. reflexivity.
Qed.

(** C3, as the code has it.  In soft error mode, on a book whose chapter IDs
    are distinct, [ensureUniqueIds] returns: it records one error per article
    whose ID an earlier article has and goes on, it changes no chapter and no
    article, and it stores as manifest the slugs, in order, of every chapter
    and of every article whose ID is new. *)
Theorem ensureUniqueIds_duplicate_article (book : loc) (w : World) (bk : Book.t)
    (view : list (Chapter.t * list Article.t)) :
  softErrorMode = true ->
  books w !! book = Some bk ->
  book_view w (Book.Chapters bk) view ->
  NoDup (chapter_ids view) ->
  ensureUniqueIds book w =
  (Ret tt,
   mkWorld (articles w) (chapters w)
           (<[book := Book.with_knownUrls (manifest [] view) bk]> (books w))
           (stdout w)
           (softErrors w ++ article_errors [] view)).
Proof.
  intros Hsoft Hb Hview Hnd.
  rewrite (ensureUniqueIds_run book w bk view Hb Hview). cbv zeta.
  rewrite (validate_unique view [] [] Hnd). cbn [verdict_errors].
  unfold errors_pass. rewrite Hsoft. reflexivity.
Qed.

(** *** The worker pool *)

(** ** The worker pool and the barrier *)
Lemma count_pc_app P ws1 ws2 : count_pc P (ws1 ++ ws2) = count_pc P ws1 + count_pc P ws2.
Proof. induction ws1 as [|wk ws1 IH]; simpl; [reflexivity | rewrite IH; lia]. Qed.

Lemma count_pc_nonneg P ws : 0 <= count_pc P ws.
Proof. induction ws as [|wk ws IH]; simpl; [lia | destruct (P (wpc wk)); lia]. Qed.

Lemma count_pc_alter P (pc : WorkerPC) ws : forall i wk,
  ws !! i = Some wk ->
  count_pc P (alter (fun wk => mkWorker (wchap wk) pc) i ws) =
  count_pc P ws - (if P (wpc wk) then 1 else 0) + (if P pc then 1 else 0).
Proof.
  unfold alter.
  induction ws as [|x ws IH]; intros i wk Hi; [discriminate|].
  destruct i as [|i]; simpl in *.
  - inversion Hi; subst. lia.
  - rewrite (IH i wk Hi). lia.
Qed.

Lemma count_pc_le P Q ws :
  (forall pc, P pc = true -> Q pc = true) -> count_pc P ws <= count_pc Q ws.
Proof.
  intros HPQ. induction ws as [|wk ws IH]; simpl; [lia|].
  destruct (P (wpc wk)) eqn:HP; [rewrite (HPQ _ HP); lia|].
  destruct (Q (wpc wk)); lia.
Qed.

Lemma count_pc_zero P ws i wk :
  count_pc P ws = 0 -> ws !! i = Some wk -> P (wpc wk) = false.
Proof.
  revert i. induction ws as [|x ws IH]; intros i Hz Hi; [discriminate|].
  simpl in Hz. pose proof (count_pc_nonneg P ws).
  destruct i as [|i]; simpl in Hi.
  - inversion Hi; subst. destruct (P (wpc wk)); [lia|reflexivity].
  - apply (IH i); [destruct (P (wpc x)); lia | exact Hi].
Qed.

Lemma exec_cases {A} (P : PB -> Prop) (m : M A) (s : PB) (k : A -> PB -> PB) :
  (forall a w, P (k a (set_world w s))) ->
  (forall p w, P (set_process p (set_world w s))) ->
  P (exec m s k).
Proof.
  intros Hret Hend. unfold exec. destruct (m (world s)) as [[a|msg|code] w]; auto.
Qed.

Lemma sync_inv_init bookName w : sync_inv (parseBook_init bookName w).
Proof. unfold sync_inv; simpl. repeat split; auto; lia. Qed.

Ltac sync_done :=
  unfold sync_inv; simpl;
  try (match goal with Hm : main _ = _ |- _ => rewrite Hm end);
  repeat split; auto; try lia.

Lemma sync_inv_step (t : nat) (s s' : PB) :
  sync_inv s -> step t s = Some s' -> sync_inv s'.
Proof.
  intros (Hsem & Hcap & Hwg & Hn) Hstep. unfold step in Hstep.
  destruct (process s); [|discriminate|discriminate].
  destruct t as [|i].
  - unfold main_step in Hstep. destruct (main s) as [| |ch|ch| | |b e] eqn:Hmain.
    + inversion Hstep; subst s'. unfold parseBook_start.
      apply exec_cases; [|intros p w; sync_done].
      intros b w. destruct (ReadDir _) as [fis [e|]]; [sync_done|].
      destruct (Z.ltb_spec getAlmostMaxProcs 0); sync_done.
    + destruct (fileInfos s) as [|fi rest]; inversion Hstep; subst s'; [sync_done|].
      unfold parseBook_entry. destruct (fiIsDir fi).
      * apply exec_cases; intros; sync_done.
      * destruct (String.eqb _ "toc.txt"); [sync_done|].
        destruct (String.eqb _ "so_contributors.txt"); [|sync_done].
        apply exec_cases; intros; sync_done.
    + destruct (Z.ltb_spec (sem s) (nProcs s)); inversion Hstep; subst s'. sync_done.
    + inversion Hstep; subst s'. unfold sync_inv; simpl.
      rewrite !count_pc_app. simpl. repeat split; auto; lia.
    + destruct (Z.eqb_spec (wg s) 0); inversion Hstep; subst s'. sync_done.
    + inversion Hstep; subst s'. apply exec_cases; intros; sync_done.
    + discriminate.
  - unfold worker_step in Hstep.
    destruct (workers s !! i) as [wk|] eqn:Hwk; [|discriminate].
    destruct (wpc wk) eqn:Hpc.
    + inversion Hstep; subst s'.
      apply exec_cases; [|intros p w; sync_done].
      intros e w. unfold sync_inv. simpl.
      rewrite !(count_pc_alter _ _ _ _ _ Hwk), Hpc. simpl. repeat split; auto; lia.
    + inversion Hstep; subst s'. unfold sync_inv. simpl.
      rewrite !(count_pc_alter _ _ _ _ _ Hwk), Hpc.
      destruct (err s); simpl; repeat split; auto; lia.
    + inversion Hstep; subst s'. unfold sync_inv. simpl.
      rewrite !(count_pc_alter _ _ _ _ _ Hwk), Hpc. simpl. repeat split; auto; lia.
    + destruct (Z.ltb_spec 0 (sem s)); inversion Hstep; subst s'.
      unfold sync_inv. simpl.
      rewrite !(count_pc_alter _ _ _ _ _ Hwk), Hpc. simpl. repeat split; auto; lia.
    + destruct (Z.ltb_spec (wg s - 1) 0); inversion Hstep; subst s'; [sync_done|].
      unfold sync_inv. simpl.
      rewrite !(count_pc_alter _ _ _ _ _ Hwk), Hpc. simpl. repeat split; auto; lia.
    + discriminate.
Qed.

Lemma sync_inv_run (sched : list nat) : forall s, sync_inv s -> sync_inv (run sched s).
Proof.
  induction sched as [|t sched IH]; intros s Hs; [exact Hs|].
  unfold run. simpl. apply IH.
  destruct (step t s) as [s'|] eqn:Hstep; simpl; [eapply sync_inv_step; eauto | exact Hs].
Qed.

(** The pool bound: under every schedule and at every moment, the number of
    [parseChapter] calls in flight is at most the capacity of the channel,
    which is the CPU-derived count once parseBook has read it. *)
Lemma pool_bound (bookName : string) (sched : list nat) (w : World) :
  let s := parseBook bookName sched w in
  in_flight s <= nProcs s /\ (nProcs s = 0 \/ nProcs s = getAlmostMaxProcs).
Proof.
  intros s.
  destruct (sync_inv_run sched _ (sync_inv_init bookName w)) as (Hsem & Hcap & _ & Hn).
  fold (parseBook bookName sched w) in *. fold s in Hsem, Hcap, Hn.
  split; [|exact Hn].
  unfold in_flight.
  pose proof (count_pc_le is_calling holds_slot (workers s)) as Hle.
  assert (count_pc is_calling (workers s) <= count_pc holds_slot (workers s)).
  { apply Hle. intros [] Hp; try discriminate; reflexivity. }
  destruct (main s); lia.
Qed.

(** *** After the barrier *)

Lemma books_only_refl w : books_only w w.
Proof. unfold books_only. repeat split; eauto. Qed.

Lemma books_only_trans w1 w2 w3 : books_only w1 w2 -> books_only w2 w3 -> books_only w1 w3.
Proof.
  intros (Ha1 & Hc1 & Hl1 & Hb1) (Ha2 & Hc2 & Hl2 & Hb2). unfold books_only.
  split; [congruence|]. split; [congruence|]. split; [congruence|].
  intros b bk Hb. destruct (Hb1 b bk Hb) as (bk1 & Hbk1 & Hch1 & Hs1).
  destruct (Hb2 b bk1 Hbk1) as (bk2 & Hbk2 & Hch2 & Hs2). exists bk2.
  split; [exact Hbk2|]. split; congruence.
Qed.

Lemma update_book_books_only (b : loc) f (w : World) r (w' : World) :
  (forall bk, Book.Chapters (f bk) = Book.Chapters bk) ->
  (forall bk, Book.sourceDir (f bk) = Book.sourceDir bk) ->
  update_book b f w = (r, w') -> books_only w w'.
Proof.
  intros Hf Hg Hrun. unfold update_book in Hrun.
  destruct (books w !! b) as [bk|] eqn:Hb; inversion Hrun; subst; [|apply books_only_refl].
  unfold books_only; simpl. split; [reflexivity|]. split; [reflexivity|].
  split; [apply length_insert|].
  intros b' bk' Hb'. destruct (decide (b' = b)) as [->|Hne].
  - assert (bk' = bk) by congruence. subst bk'.
    exists (f bk). split; [|split; [apply Hf|apply Hg]].
    apply list_lookup_insert_eq. now apply lookup_lt_Some in Hb.
  - exists bk'. split; [|split; reflexivity]. now rewrite list_lookup_insert_ne.
Qed.

Lemma Printf_books_only s w r w' : Printf s w = (r, w') -> books_only w w'.
Proof.
  unfold Printf. intros Hrun; inversion Hrun; subst.
  unfold books_only; simpl. repeat split; eauto.
Qed.

Lemma maybePanicIfErr_books_only e w r w' :
  maybePanicIfErr e w = (r, w') -> books_only w w'.
Proof.
  unfold maybePanicIfErr. unfold_M.
  destruct e as [e|]; [destruct softErrorMode|]; intros Hrun; inversion Hrun; subst;
    unfold books_only; simpl; repeat split; eauto.
Qed.

Lemma ensureUniqueIds_articles_frame (arts : list loc) : forall ids urls w r w',
  ensureUniqueIds_articles arts ids urls w = (r, w') -> books_only w w' /\ books w' = books w.
Proof.
  induction arts as [|p arts IH]; intros ids urls w r w' Hrun;
    cbn [ensureUniqueIds_articles] in Hrun; unfold_M.
  - inversion Hrun; subst. split; [apply books_only_refl|reflexivity].
  - unfold load_article at 1 in Hrun.
    destruct (articles w !! p) as [a|];
      [|inversion Hrun; subst; split; [apply books_only_refl|reflexivity]].
    destruct (ids !! Article.ID a) as [p2|]; [|eapply IH; exact Hrun].
    unfold load_article at 1 in Hrun.
    destruct (articles w !! p2) as [a2|];
      [|inversion Hrun; subst; split; [apply books_only_refl|reflexivity]].
    unfold maybePanicIfErr in Hrun. unfold_M.
    destruct softErrorMode;
      [|inversion Hrun; subst; split; [apply books_only_refl|reflexivity]].
    apply IH in Hrun. destruct Hrun as [(Ha & Hc & Hl & Hb) Hbooks]. simpl in *.
    split; [|exact Hbooks]. unfold books_only. repeat split; auto.
Qed.

Lemma ensureUniqueIds_chapters_frame (chs : list loc) : forall cids aids urls w r w',
  ensureUniqueIds_chapters chs cids aids urls w = (r, w') ->
  books_only w w' /\ books w' = books w.
Proof.
  induction chs as [|p chs IH]; intros cids aids urls w r w' Hrun;
    cbn [ensureUniqueIds_chapters] in Hrun; unfold_M.
  - inversion Hrun; subst. split; [apply books_only_refl|reflexivity].
  - unfold load_chapter at 1 in Hrun.
    destruct (chapters w !! p) as [c|];
      [|inversion Hrun; subst; split; [apply books_only_refl|reflexivity]].
    destruct (cids !! Chapter.ID c) as [p2|].
    + unfold load_chapter at 1 in Hrun.
      destruct (chapters w !! p2) as [c2|];
        [|inversion Hrun; subst; split; [apply books_only_refl|reflexivity]].
      unfold Printf in Hrun. inversion Hrun; subst. unfold books_only; simpl.
      split; [|reflexivity]. repeat split; eauto.
    + destruct (ensureUniqueIds_articles (Chapter.Articles c) aids
                  (urls ++ [Chapter.FileNameBase c]) w) as [[[aids' urls']|msg|code] w1] eqn:E;
        apply ensureUniqueIds_articles_frame in E; destruct E as [E1 E2].
      * apply IH in Hrun. destruct Hrun as [Hr1 Hr2].
        split; [eapply books_only_trans; eauto|congruence].
      * inversion Hrun; subst. auto.
      * inversion Hrun; subst. auto.
Qed.

Lemma ensureUniqueIds_frame (book : loc) w r w' :
  ensureUniqueIds book w = (r, w') -> books_only w w'.
Proof.
  unfold ensureUniqueIds. unfold_M. unfold load_book.
  destruct (books w !! book) as [bk|];
    [|intros Hrun; inversion Hrun; subst; apply books_only_refl].
  destruct (ensureUniqueIds_chapters (Book.Chapters bk) ∅ ∅ [] w) as [[urls|msg|code] w1] eqn:E;
    apply ensureUniqueIds_chapters_frame in E; destruct E as [E1 E2]; intros Hrun.
  - eapply books_only_trans; [exact E1|].
    eapply update_book_books_only; [| |exact Hrun]; reflexivity.
  - inversion Hrun; subst. exact E1.
  - inversion Hrun; subst. exact E1.
Qed.

Lemma ArticlesCount_loop_frame (chs : list loc) : forall n w r w',
  ArticlesCount_loop chs n w = (r, w') -> w' = w.
Proof.
  induction chs as [|ch chs IH]; intros n w r w' Hrun; simpl in Hrun; unfold_M.
  - now inversion Hrun.
  - unfold load_chapter at 1 in Hrun.
    destruct (chapters w !! ch); [eapply IH; exact Hrun | now inversion Hrun].
Qed.

Lemma ArticlesCount_frame (b : loc) w r w' :
  ArticlesCount b w = (r, w') -> books_only w w'.
Proof.
  unfold ArticlesCount. unfold_M. unfold load_book.
  destruct (books w !! b) as [bk|];
    [|intros Hrun; inversion Hrun; subst; apply books_only_refl].
  destruct (negb (Z.eqb (Book.cachedArticlesCount bk) 0));
    [intros Hrun; inversion Hrun; subst; apply books_only_refl|].
  destruct (ArticlesCount_loop (Book.Chapters bk) 0 w) as [[n|msg|code] w1] eqn:E;
    apply ArticlesCount_loop_frame in E; subst w1; intros Hrun.
  - destruct (update_book b _ w) as [o w2] eqn:E2.
    apply update_book_books_only in E2; [|reflexivity|reflexivity].
    destruct o; inversion Hrun; subst; exact E2.
  - inversion Hrun; subst; apply books_only_refl.
  - inversion Hrun; subst; apply books_only_refl.
Qed.

Lemma loadSoContributorsMust_loop_frame (lines : list string) : forall cs w r w',
  loadSoContributorsMust_loop lines cs w = (r, w') -> w' = w.
Proof.
  induction lines as [|line lines IH]; intros cs w r w' Hrun; simpl in Hrun; unfold_M.
  - now inversion Hrun.
  - destruct (Atoi line) as [id [e|]]; simpl in Hrun; [now inversion Hrun|].
    unfold PanicIf in Hrun. unfold_M.
    destruct (String.eqb (soUserIDToNameMap id) ""); [now inversion Hrun|].
    destruct (String.eqb (soUserIDToNameMap id) "user_deleted"); [eapply IH; exact Hrun|].
    destruct (PathUnescape (soUserIDToNameMap id)) as [name [e|]]; simpl in Hrun;
      [now inversion Hrun|].
    eapply IH; exact Hrun.
Qed.

Lemma loadSoContributorsMust_frame (book : loc) path w r w' :
  loadSoContributorsMust book path w = (r, w') -> books_only w w'.
Proof.
  unfold loadSoContributorsMust. destruct (ReadFileAsLines path) as [lines [e|]];
    unfold_M; simpl; intros Hrun.
  - inversion Hrun; subst; apply books_only_refl.
  - destruct (loadSoContributorsMust_loop lines [] w) as [[cs|msg|code] w1] eqn:E;
      apply loadSoContributorsMust_loop_frame in E; subst w1.
    + eapply update_book_books_only; [| |exact Hrun]; reflexivity.
    + inversion Hrun; subst; apply books_only_refl.
    + inversion Hrun; subst; apply books_only_refl.
Qed.

Lemma renumbered_refl c : renumbered c c.
Proof. unfold renumbered. now destruct c. Qed.

Lemma renumbered_trans c1 c2 c3 : renumbered c1 c2 -> renumbered c2 c3 -> renumbered c1 c3.
Proof. unfold renumbered. intros H1 H2. rewrite H2, H1. reflexivity. Qed.

Lemma number_chapters_spec (chs : list loc) : forall (i : nat) w r w',
  number_chapters i chs w = (r, w') ->
  articles w' = articles w /\ books w' = books w /\
  length (chapters w') = length (chapters w) /\
  (forall x c, chapters w !! x = Some c ->
     exists c', chapters w' !! x = Some c' /\ renumbered c c' /\
                (x ∉ chs -> c' = c)) /\
  (r = Ret tt -> NoDup chs ->
   forall k x, chs !! k = Some x ->
     exists c', chapters w' !! x = Some c' /\ Chapter.No c' = Z.of_nat (i + k) + 1).
Proof.
  induction chs as [|ch chs IH]; intros i w r w' Hrun; simpl in Hrun; unfold_M.
  - inversion Hrun; subst. repeat split; auto.
    + intros x c Hx. exists c. split; [exact Hx|]. split; [apply renumbered_refl|auto].
    + intros _ _ k x Hk. discriminate.
  - destruct (update_chapter ch (Chapter.with_No (Z.of_nat i + 1)) w) as [o w1] eqn:E.
    destruct (update_chapter_inv _ _ _ _ _ E)
      as [(c0 & Hc0 & -> & Hch1 & Hself1 & Ha1 & Hb1)|(Hnone & -> & ->)].
    2: { inversion Hrun; subst. repeat split; auto.
         - intros x c Hx. exists c. split; [exact Hx|]. split; [apply renumbered_refl|auto].
         - discriminate. }
    destruct (IH (S i) w1 r w' Hrun) as (Ha & Hb & Hl & Hall & Hnum).
    split; [congruence|]. split; [congruence|].
    split; [rewrite Hl, Hch1; apply length_insert|]. split.
    + intros x c Hx. destruct (decide (x = ch)) as [->|Hne].
      * assert (c = c0) by congruence. subst c.
        destruct (Hall ch _ Hself1) as (c' & Hc' & Hren & Hsame).
        exists c'. split; [exact Hc'|]. split.
        -- eapply renumbered_trans; [|exact Hren]. unfold renumbered. reflexivity.
        -- intros Hnotin. exfalso. apply Hnotin. apply list_elem_of_here.
      * assert (Hx1 : chapters w1 !! x = Some c)
          by (rewrite Hch1, list_lookup_insert_ne by congruence; exact Hx).
        destruct (Hall x c Hx1) as (c' & Hc' & Hren & Hsame).
        exists c'. split; [exact Hc'|]. split; [exact Hren|].
        intros Hnotin. apply Hsame. intros Hin. apply Hnotin. now apply list_elem_of_further.
    + intros Hr Hnd k x Hk. inversion Hnd as [|? ? Hnotin Hnd']; subst.
      destruct k as [|k]; simpl in Hk.
      * inversion Hk; subst x.
        destruct (Hall ch _ Hself1) as (c' & Hc' & _ & Hsame).
        exists c'. split; [exact Hc'|]. rewrite (Hsame Hnotin). simpl.
        now rewrite Nat.add_0_r.
      * destruct (Hnum eq_refl Hnd' k x Hk) as (c' & Hc' & Hno).
        exists c'. split; [exact Hc'|]. rewrite Hno. f_equal. lia.
Qed.

(** *** The assembled book *)

Lemma listed_frame w w' dir c c' :
  Chapter.Articles c' = Chapter.Articles c ->
  (forall p a, articles w !! p = Some a -> articles w' !! p = Some a) ->
  listed w dir c -> listed w' dir c'.
Proof.
  intros Harts Hkeep [Hnil|[Hlen Hsrc]]; [left; congruence|]. right. split.
  - rewrite Harts. exact Hlen.
  - intros k p Hk. rewrite Harts in Hk. destruct (Hsrc k p Hk) as (a & Ha & Hp).
    exists a. split; [now apply Hkeep|exact Hp].
Qed.

Lemma heap_kept_refl book src w : heap_kept book src w w.
Proof. intros Hb. split; [exact Hb|auto]. Qed.

Lemma chapter_of_dir_parseChapter ch w r w' book src x fi :
  parseChapter_post ch w r w' -> book_at w book src ->
  chapter_of_dir w book src x fi -> chapter_of_dir w' book src x fi.
Proof.
  intros (Hb & Hl & Ho & Hal & Hao & Hself & _) (bk & Hbk & Hsrc)
         (c & Hc & Hd & Hbook & Hnum & Hlist).
  assert (Hold : forall p a, articles w !! p = Some a -> articles w' !! p = Some a).
  { intros p a Ha. rewrite Hao; [exact Ha|]. now apply lookup_lt_Some in Ha. }
  assert (Hkeep : numbered w' c).
  { intros k p Hk. destruct (Hnum k p Hk) as (a & Ha & Hno).
    exists a. split; [|exact Hno]. now apply Hold. }
  destruct (decide (x = ch)) as [->|Hne].
  - destruct (Hself c Hc) as (c1 & Hc1 & Hd1 & Hb1 & _ & [Hsame|Hbuilt]).
    + exists c1. split; [exact Hc1|]. split; [congruence|]. split; [congruence|]. split.
      * intros k p Hk. rewrite Hsame in Hk. now apply Hkeep.
      * eapply listed_frame; [exact Hsame|exact Hold|exact Hlist].
    + exists c1. split; [exact Hc1|]. split; [congruence|]. split; [congruence|].
      assert (Hfiles : chapter_files w c =
                article_files (filepath_Join [src; fiName fi])
                  (fst (ReadDir (filepath_Join [src; fiName fi])))).
      { unfold chapter_files. rewrite Hbook, Hbk, Hsrc, Hd. reflexivity. }
      rewrite Hfiles in Hbuilt. destruct Hbuilt as (_ & Hlen & Hall). split.
      * intros k p Hk. destruct (Hall k p Hk) as (a & Ha & Hno & _). eauto.
      * right. split; [exact Hlen|]. intros k p Hk.
        destruct (Hall k p Hk) as (a & Ha & _ & _ & _ & Hp & _). eauto.
  - exists c. split; [rewrite Ho by exact Hne; exact Hc|]. split; [exact Hd|].
    split; [exact Hbook|]. split; [exact Hkeep|].
    eapply listed_frame; [reflexivity|exact Hold|exact Hlist].
Qed.

Lemma heap_kept_parseChapter ch w r w' book src :
  parseChapter_post ch w r w' -> heap_kept book src w w'.
Proof.
  intros Hpost Hb. split.
  - destruct Hb as (bk & Hbk & Hsrc). exists bk.
    destruct Hpost as (Hbooks & _). rewrite Hbooks. auto.
  - intros x fi. now apply (chapter_of_dir_parseChapter ch w r w').
Qed.

Lemma chapter_of_dir_books_only w w' book src x fi :
  books_only w w' -> chapter_of_dir w book src x fi -> chapter_of_dir w' book src x fi.
Proof.
  intros (Ha & Hc & _) (c & Hx & Hd & Hbook & Hnum & Hlist). exists c. rewrite Hc.
  split; [exact Hx|]. split; [exact Hd|]. split; [exact Hbook|]. split.
  - intros k p Hk. rewrite Ha. now apply Hnum.
  - eapply listed_frame; [reflexivity| |exact Hlist]. intros p a. now rewrite Ha.
Qed.

Lemma heap_kept_books_only w w' book src : books_only w w' -> heap_kept book src w w'.
Proof.
  intros Hbo (bk & Hbk & Hsrc). split.
  - destruct Hbo as (_ & _ & _ & Hb). destruct (Hb book bk Hbk) as (bk' & Hbk' & _ & Hs).
    exists bk'. split; [exact Hbk'|congruence].
  - intros x fi. now apply chapter_of_dir_books_only.
Qed.

Lemma parseBook_finish_spec (bn : string) (book : loc) (chs : list loc) (e2 : option error)
    (dirs : list FileInfo) (src : string) (w : World) r (w' : World) :
  parseBook_finish bn book chs e2 w = (Ret r, w') ->
  NoDup chs ->
  Forall2 (chapter_of_dir w book src) chs dirs ->
  r = (Some book, e2) /\
  exists bk, books w' !! book = Some bk /\
    length (Book.Chapters bk) = S (length dirs) /\
    forall i ch, Book.Chapters bk !! i = Some ch ->
      exists c, chapters w' !! ch = Some c /\
        Chapter.No c = Z.of_nat i + 1 /\
        numbered w' c /\
        match dirs !! i with
        | Some fi => Chapter.ChapterDir c = fiName fi /\
                     listed w' (filepath_Join [src; fiName fi]) c
        | None => Chapter.Title c = "Contributors" /\ Chapter.indexFilePath c = "" /\
                  Chapter.Articles c = []
        end.
Proof.
  intros Hrun Hnd Hdirs. unfold parseBook_finish, genContributorsChapter in Hrun. unfold_M.
  unfold load_book at 1 in Hrun.
  destruct (books w !! book) as [bk0|] eqn:Hbk0; [|discriminate].
  unfold new_chapter at 1 in Hrun.
  set (cc := Chapter.mk _ _ _ _ _ _ _ _ _ _) in Hrun.
  set (w1 := mkWorld _ _ _ _ _) in Hrun.
  set (ch := length (chapters w)) in *.
  set (chs' := chs ++ [ch]) in *.
  destruct (number_chapters 0 chs' w1) as [o2 w2] eqn:E2.
  destruct (number_chapters_spec chs' 0 w1 o2 w2 E2) as (Ha2 & Hb2 & Hl2 & Hall2 & Hnum2).
  destruct o2 as [[]| |]; [|discriminate|discriminate].
  destruct (update_book book (Book.with_Chapters chs') w2) as [o3 w3] eqn:E3.
  assert (Hbk2 : books w2 !! book = Some bk0) by (rewrite Hb2; exact Hbk0).
  unfold update_book in E3. rewrite Hbk2 in E3. inversion E3; subst o3 w3. clear E3.
  set (w3 := mkWorld _ _ _ _ _) in Hrun.
  destruct (ensureUniqueIds book w3) as [o4 w4] eqn:E4.
  apply ensureUniqueIds_frame in E4.
  destruct o4 as [[]| |]; [|discriminate|discriminate].
  destruct (ArticlesCount book w4) as [o5 w5] eqn:E5.
  apply ArticlesCount_frame in E5.
  destruct o5 as [n| |]; [|discriminate|discriminate].
  unfold Printf in Hrun. inversion Hrun; subst r w'. clear Hrun.
  split; [reflexivity|].
  pose proof (books_only_trans _ _ _ E4 E5) as (Ha & Hc & _ & Hb).
  destruct (Hb book (Book.with_Chapters chs' bk0)) as (bk & Hbk & Hchs & _).
  { unfold w3; simpl. apply list_lookup_insert_eq. now apply lookup_lt_Some in Hbk2. }
  simpl in Hchs.
  pose proof (Forall2_length _ _ _ Hdirs) as Hlen.
  assert (Hvalid : forall x, x ∈ chs -> (x < ch)%nat).
  { intros x Hx. apply list_elem_of_lookup in Hx as [k Hk].
    destruct (Forall2_lookup_l _ _ _ _ _ Hdirs Hk) as (fi & _ & (c & Hc' & _)).
    now apply lookup_lt_Some in Hc'. }
  assert (Hnd' : NoDup chs').
  { apply NoDup_app. split; [exact Hnd|]. split; [|apply NoDup_singleton].
    intros x Hx Hx'. apply list_elem_of_singleton in Hx'. subst x.
    apply Hvalid in Hx. lia. }
  exists bk. simpl. split; [exact Hbk|]. rewrite Hchs.
  split; [unfold chs'; rewrite length_app; simpl; lia|].
  intros i x Hi.
  destruct (Hnum2 eq_refl Hnd' i x Hi) as (c' & Hc' & Hno).
  exists c'. rewrite Hc. split; [exact Hc'|]. split; [exact Hno|].
  unfold chs' in Hi. apply lookup_app_Some in Hi as [Hi|[Hi1 Hi2]].
  - destruct (Forall2_lookup_l _ _ _ _ _ Hdirs Hi) as (fi & Hfi & (c & Hx & Hd & _ & Hnumb & Hlist)).
    assert (Hx1 : chapters w1 !! x = Some c)
      by (unfold w1; simpl; rewrite lookup_app_l by (now apply lookup_lt_Some in Hx); exact Hx).
    destruct (Hall2 x c Hx1) as (c'' & Hc'' & Hren & _).
    assert (c'' = c') by congruence. subst c''.
    assert (Harts : articles w5 = articles w)
      by (rewrite Ha; simpl; rewrite Ha2; reflexivity).
    rewrite Hfi. rewrite Hren. simpl. split; [|split; [exact Hd|]].
    + intros k p Hk. rewrite Harts. now apply Hnumb.
    + eapply (listed_frame w _ _ c); [reflexivity| |exact Hlist].
      intros p a. rewrite Harts. auto.
  - apply list_lookup_singleton_Some in Hi2 as [Hi0 Hx]. subst x.
    assert (Hx1 : chapters w1 !! ch = Some cc).
    { unfold w1; simpl. rewrite lookup_app_r by (unfold ch; lia).
      unfold ch. now rewrite Nat.sub_diag. }
    destruct (Hall2 ch cc Hx1) as (c'' & Hc'' & Hren & _).
    assert (c'' = c') by congruence. subst c''.
    rewrite (proj2 (lookup_ge_None _ _)) by lia.
    rewrite Hren. simpl. split; [|auto].
    intros k p Hk. discriminate.
Qed.

(** *** The invariant of parseBook *)

Lemma exec_inv {A} (P : PB -> Prop) (m : M A) (s : PB) (k : A -> PB -> PB) :
  (forall a w, m (world s) = (Ret a, w) -> P (k a (set_world w s))) ->
  (forall p w, p <> Running -> P (set_process p (set_world w s))) ->
  P (exec m s k).
Proof.
  intros Hret Hend. unfold exec. destruct (m (world s)) as [[a|msg|code] w] eqn:E.
  - now apply Hret.
  - apply Hend. discriminate.
  - apply Hend. discriminate.
Qed.

Lemma map_wchap_alter pc i ws :
  map wchap (alter (fun wk => mkWorker (wchap wk) pc) i ws) = map wchap ws.
Proof.
  unfold alter. revert i. induction ws as [|wk ws IH]; intros i; [reflexivity|].
  destruct i as [|i]; simpl; [reflexivity | now rewrite IH].
Qed.

(** A move that changes neither the loop variables nor the thread of any
    chapter keeps [dispatched], as long as the world keeps each chapter. *)
Lemma dispatched_ext bn s s' :
  dispatched bn s ->
  bookName s' = bookName s -> srcDir s' = srcDir s -> book s' = book s ->
  chaptersVar s' = chaptersVar s -> fileInfos s' = fileInfos s ->
  map wchap (workers s') ++ pending_chapter (main s') =
    map wchap (workers s) ++ pending_chapter (main s) ->
  heap_kept (book s) (srcDir s) (world s) (world s') ->
  dispatched bn s'.
Proof.
  intros (Hbn & Hsrc & Hnd & Hw & Hbk & visited & Hv & Hall) Eb Es Ek Ec Ef Ew Hworld.
  destruct (Hworld Hbk) as [Hbk' Hkept].
  unfold dispatched. rewrite Eb, Es, Ek, Ec, Ef, Ew.
  repeat split; auto. exists visited. split; [exact Hv|].
  eapply Forall2_impl; [exact Hall|]. exact Hkept.
Qed.

(** Moving on to the next entry, which is not a directory. *)
Lemma dispatched_skip bn s s' fi rest :
  dispatched bn s ->
  fileInfos s = fi :: rest -> fiIsDir fi = false ->
  bookName s' = bookName s -> srcDir s' = srcDir s -> book s' = book s ->
  chaptersVar s' = chaptersVar s -> fileInfos s' = rest ->
  map wchap (workers s') ++ pending_chapter (main s') =
    map wchap (workers s) ++ pending_chapter (main s) ->
  heap_kept (book s) (srcDir s) (world s) (world s') ->
  dispatched bn s'.
Proof.
  intros (Hbn & Hsrc & Hnd & Hw & Hbk & visited & Hv & Hall) Hfi Hdir Eb Es Ek Ec Ef Ew Hworld.
  destruct (Hworld Hbk) as [Hbk' Hkept].
  unfold dispatched. rewrite Eb, Es, Ek, Ec, Ef, Ew.
  repeat split; auto. exists (visited ++ [fi]).
  split; [rewrite Hv, Hfi, <- app_assoc; reflexivity|].
  rewrite List.filter_app. simpl. rewrite Hdir, app_nil_r.
  eapply Forall2_impl; [exact Hall|]. exact Hkept.
Qed.

Lemma book_inv_init bn w : book_inv bn (parseBook_init bn w).
Proof. split; [apply sync_inv_init | reflexivity]. Qed.

(** *** Preservation *)

Lemma inv_body_worker bn s s' :
  inv_body bn s ->
  unfinished s <> 0 ->
  main s' = main s -> bookName s' = bookName s -> srcDir s' = srcDir s ->
  book s' = book s ->
  chaptersVar s' = chaptersVar s -> fileInfos s' = fileInfos s ->
  map wchap (workers s') = map wchap (workers s) ->
  (process s' = Running -> process s = Running) ->
  (process s' = Running -> heap_kept (book s) (srcDir s) (world s) (world s')) ->
  inv_body bn s'.
Proof.
  intros Hbody Hunf Em Eb Es Ek Ec Ef Ew Hp Hworld.
  assert (Hd : process s' = Running -> dispatched bn s -> dispatched bn s').
  { intros Hr D. eapply dispatched_ext; eauto. now rewrite Em, Ew. }
  unfold inv_body in *. rewrite Em.
  destruct (main s) as [| |ch|ch| | |[b|] e].
  - congruence.
  - intros Hr. apply Hd, Hbody, Hp, Hr. exact Hr.
  - intros Hr. apply Hd, Hbody, Hp, Hr. exact Hr.
  - intros Hr. apply Hd, Hbody, Hp, Hr. exact Hr.
  - intros Hr. destruct (Hbody (Hp Hr)) as [Hf D]. split; [congruence|auto].
  - intros Hr. destruct (Hbody (Hp Hr)) as [Hz _]. contradiction.
  - destruct Hbody as [Hz _]. contradiction.
  - exact I.
Qed.

Lemma worker_step_body bn (i : nat) (s s' : PB) :
  inv_body bn s -> worker_step i s = Some s' -> inv_body bn s'.
Proof.
  intros Hbody Hstep. unfold worker_step in Hstep.
  destruct (workers s !! i) as [wk|] eqn:Hwk; [|discriminate].
  assert (Hunf : wpc wk <> WFinished -> unfinished s <> 0).
  { intros Hpc Hz. pose proof (count_pc_zero _ _ _ _ Hz Hwk) as Hf.
    destruct (wpc wk); simpl in Hf; congruence. }
  destruct (wpc wk) eqn:Hpc.
  - inversion Hstep; subst s'. apply exec_inv.
    + intros e w E. apply parseChapter_spec in E.
      apply (inv_body_worker bn s); simpl; auto using heap_kept_refl;
      try (apply Hunf; discriminate).
      * apply map_wchap_alter.
      * intros _. exact (heap_kept_parseChapter _ _ _ _ _ _ E).
    + intros p w Hp.
      apply (inv_body_worker bn s); simpl; auto using heap_kept_refl;
      try (apply Hunf; discriminate);
        intros Hr; contradiction.
  - inversion Hstep; subst s'.
    apply (inv_body_worker bn s); simpl; auto using heap_kept_refl;
      try (apply Hunf; discriminate).
    apply map_wchap_alter.
  - inversion Hstep; subst s'.
    apply (inv_body_worker bn s); simpl; auto using heap_kept_refl;
      try (apply Hunf; discriminate).
    apply map_wchap_alter.
  - destruct (Z.ltb 0 (sem s)); inversion Hstep; subst s'.
    apply (inv_body_worker bn s); simpl; auto using heap_kept_refl;
      try (apply Hunf; discriminate).
    apply map_wchap_alter.
  - destruct (Z.ltb (wg s - 1) 0); inversion Hstep; subst s'.
    + apply (inv_body_worker bn s); simpl; auto using heap_kept_refl;
      try (apply Hunf; discriminate);
        intros Hr; discriminate.
    + apply (inv_body_worker bn s); simpl; auto using heap_kept_refl;
      try (apply Hunf; discriminate).
      apply map_wchap_alter.
  - discriminate.
Qed.

Lemma main_step_body bn (s s' : PB) :
  process s = Running -> sync_inv s ->
  inv_body bn s -> main_step s = Some s' -> inv_body bn s'.
Proof.
  intros Hrun Hsync Hbody Hstep. unfold main_step in Hstep.
  unfold inv_body in Hbody.
  destruct (main s) as [| |ch|ch| | |b e] eqn:Hmain.
  - (* the prologue *)
    inversion Hstep; subst s'. unfold parseBook_start. apply exec_inv.
    + intros b w E. destruct (ReadDir _) as [fis [e|]] eqn:Hrd; [exact I|].
      destruct (Z.ltb getAlmostMaxProcs 0).
      * unfold inv_body; simpl. rewrite Hmain. exact Hbody.
      * unfold inv_body; simpl. intros _. unfold dispatched; simpl.
        split; [exact Hbody|]. split; [now rewrite Hbody|]. split; [constructor|].
        split; [reflexivity|]. split.
        { unfold_M. unfold Printf, new_book in E. simpl in E. inversion E; subst b w.
          eexists. simpl.
          split; [rewrite lookup_app_r by lia; rewrite Nat.sub_diag; reflexivity|].
          simpl. now rewrite Hbody. }
        exists []. rewrite Hrd. split; [reflexivity|constructor].
    + intros p w Hp. unfold inv_body; simpl. rewrite Hmain. exact Hbody.
  - (* the range loop *)
    specialize (Hbody Hrun).
    destruct (fileInfos s) as [|fi rest] eqn:Hfis; inversion Hstep; subst s'.
    { unfold inv_body; simpl. intros _. split; [exact Hfis|].
      eapply dispatched_ext; eauto using heap_kept_refl; simpl; now rewrite Hmain. }
    unfold parseBook_entry. destruct (fiIsDir fi) eqn:Hdir.
    + apply exec_inv; [|intros p w Hp; unfold inv_body; simpl; rewrite Hmain;
                        intros Hr; contradiction].
      intros ch w E. unfold new_chapter in E. simpl in E. inversion E; subst ch w. clear E.
      unfold inv_body; simpl. intros _.
      destruct Hbody as (Hbn & Hsrc & Hnd & Hw & Hbk & visited & Hv & Hall).
      rewrite Hmain in Hw. simpl in Hw. rewrite app_nil_r in Hw.
      unfold dispatched; simpl.
      split; [exact Hbn|]. split; [exact Hsrc|]. split; [|split; [|split]].
      * apply NoDup_app. split; [exact Hnd|]. split; [|apply NoDup_singleton].
        intros x Hx Hx'. apply list_elem_of_singleton in Hx'. subst x.
        apply list_elem_of_lookup in Hx as [k Hk].
        destruct (Forall2_lookup_l _ _ _ _ _ Hall Hk) as (fi' & _ & (c & Hc & _)).
        apply lookup_lt_Some in Hc. lia.
      * now rewrite Hw.
      * exact Hbk.
      * exists (visited ++ [fi]). split; [rewrite Hv, Hfis, <- app_assoc; reflexivity|].
        rewrite List.filter_app. simpl. rewrite Hdir.
        apply Forall2_app.
        -- eapply Forall2_impl; [exact Hall|].
           intros x fi' (c & Hc & Hd & Hrest). exists c. simpl.
           split; [rewrite lookup_app_l by (now apply lookup_lt_Some in Hc); exact Hc|].
           split; [exact Hd|exact Hrest].
        -- constructor; [|constructor]. eexists. simpl.
           split; [rewrite lookup_app_r by lia; rewrite Nat.sub_diag; reflexivity|].
           split; [reflexivity|]. split; [reflexivity|].
           split; [intros k p Hk; discriminate|left; reflexivity].
    + destruct (String.eqb (ToLower (fiName fi)) "toc.txt").
      { unfold inv_body; simpl. rewrite Hmain. intros _.
        eapply (dispatched_skip bn s); eauto using heap_kept_refl; simpl; now rewrite Hmain. }
      destruct (String.eqb (ToLower (fiName fi)) "so_contributors.txt").
      * apply exec_inv; [|intros p w Hp; unfold inv_body; simpl; rewrite Hmain;
                          intros Hr; contradiction].
        intros [] w E. simpl in E. apply loadSoContributorsMust_frame in E.
        unfold inv_body; simpl. rewrite Hmain. intros _.
        eapply (dispatched_skip bn s); eauto using heap_kept_refl; simpl; try (now rewrite Hmain).
        now apply heap_kept_books_only.
      * exact I.
  - (* sem <- true *)
    specialize (Hbody Hrun).
    destruct (Z.ltb (sem s) (nProcs s)); inversion Hstep; subst s'.
    unfold inv_body; simpl. intros _.
    eapply dispatched_ext; eauto using heap_kept_refl; simpl; now rewrite Hmain.
  - (* wg.Add(1); go ... *)
    specialize (Hbody Hrun). inversion Hstep; subst s'.
    unfold inv_body; simpl. intros _.
    eapply dispatched_ext; eauto using heap_kept_refl; simpl; rewrite Hmain; simpl;
      now rewrite map_app, app_nil_r.
  - (* wg.Wait() *)
    destruct (Hbody Hrun) as [Hf D].
    destruct (Z.eqb_spec (wg s) 0) as [Hz|]; inversion Hstep; subst s'.
    unfold inv_body; simpl. intros _. split; [|split; [exact Hf|]].
    + unfold unfinished; simpl. destruct Hsync as (_ & _ & Hwg & _). now rewrite <- Hwg.
    + eapply dispatched_ext; eauto using heap_kept_refl; simpl; now rewrite Hmain.
  - (* past the barrier *)
    destruct (Hbody Hrun) as (Hz & Hf & Hbn & Hsrc & Hnd & Hw & _ & visited & Hv & Hall).
    inversion Hstep; subst s'. apply exec_inv.
    + intros r w E.
      rewrite Hf, app_nil_r in Hv.
      destruct (parseBook_finish_spec _ _ _ _ _ _ _ _ _ E Hnd Hall)
        as (-> & bk & Hbk & Hlen & Hchs).
      unfold inv_body; simpl. split; [exact Hz|].
      exists bk. split; [exact Hbk|]. cbv zeta.
      rewrite <- Hsrc, Hv. split; [exact Hlen|exact Hchs].
    + intros p w Hp. unfold inv_body; simpl. rewrite Hmain. intros Hr. contradiction.
  - discriminate.
Qed.

Lemma book_inv_step bn (t : nat) (s s' : PB) :
  book_inv bn s -> step t s = Some s' -> book_inv bn s'.
Proof.
  intros [Hsync Hbody] Hstep. split; [eapply sync_inv_step; eauto|].
  fold (inv_body bn s) in Hbody. fold (inv_body bn s').
  unfold step in Hstep. destruct (process s) eqn:Hp; [|discriminate|discriminate].
  destruct t as [|i].
  - eapply main_step_body; eauto.
  - eapply worker_step_body; eauto.
Qed.

Lemma book_inv_run bn (sched : list nat) : forall s, book_inv bn s -> book_inv bn (run sched s).
Proof.
  induction sched as [|t sched IH]; intros s Hs; [exact Hs|].
  unfold run. simpl. apply IH.
  destruct (step t s) as [s'|] eqn:Hstep; simpl; [eapply book_inv_step; eauto | exact Hs].
Qed.

(** C8. Whatever the schedule, when parseBook returns a book, its chapters
    are one per directory of the listing, in the order of the listing,
    followed by the contributors chapter, which comes from no file; the
    chapters are numbered [1..len(Chapters)] in that order, and the articles
    of each chapter [1..len(Articles)] in the order of its list, which, when
    the chapter has articles, is the order in which the listing of the
    chapter's directory gives their files. *)
Theorem parseBook_numbering (bookName : string) (sched : list nat) (w : World)
    (b : loc) (e : option error) :
  main (parseBook bookName sched w) = MReturned (Some b) e ->
  let w' := world (parseBook bookName sched w) in
  let src := filepath_Join ["books"; MakeURLSafe bookName] in
  let dirs := List.filter fiIsDir (fst (ReadDir src)) in
  exists bk, books w' !! b = Some bk /\
    length (Book.Chapters bk) = S (length dirs) /\
    forall i ch, Book.Chapters bk !! i = Some ch ->
      exists c, chapters w' !! ch = Some c /\
        Chapter.No c = Z.of_nat i + 1 /\
        (forall k p, Chapter.Articles c !! k = Some p ->
           exists a, articles w' !! p = Some a /\ Article.No a = Z.of_nat k + 1) /\
        match dirs !! i with
        | Some fi =>
            Chapter.ChapterDir c = fiName fi /\
            let dir := filepath_Join [src; fiName fi] in
            let files := article_files dir (fst (ReadDir dir)) in
            (Chapter.Articles c = [] \/
             length files = length (Chapter.Articles c) /\
             forall k p, Chapter.Articles c !! k = Some p ->
               exists a, articles w' !! p = Some a /\
                         files !! k = Some (Article.sourceFilePath a))
        | None => Chapter.Title c = "Contributors" /\ Chapter.indexFilePath c = "" /\
                  Chapter.Articles c = []
        end.
Proof.
  intros Hmain w' src dirs.
  destruct (book_inv_run bookName sched _ (book_inv_init bookName w)) as [_ Hbody].
  fold (parseBook bookName sched w) in Hbody. rewrite Hmain in Hbody.
  destruct Hbody as [_ Hasm]. exact Hasm.
Qed.

(** The barrier: under every schedule, once the orchestrator is past
    [wg.Wait()], every directory entry has been visited, every chapter
    created has its goroutine, and every goroutine is done. *)
Lemma barrier (bookName : string) (sched : list nat) (w : World) :
  let s := parseBook bookName sched w in
  main s = MPost -> process s = Running ->
  unfinished s = 0 /\ fileInfos s = [] /\ map wchap (workers s) = chaptersVar s.
Proof.
  intros s Hmain Hrun.
  destruct (book_inv_run bookName sched _ (book_inv_init bookName w)) as [_ Hbody].
  fold (parseBook bookName sched w) in Hbody. fold s in Hbody. rewrite Hmain in Hbody.
  destruct (Hbody Hrun) as (Hz & Hf & _ & _ & _ & Hw & _).
  rewrite Hmain in Hw. simpl in Hw. rewrite app_nil_r in Hw. auto.
Qed.

(** *** Progress of parseBook *)

Lemma pool_made_init bookName w : pool_made (parseBook_init bookName w).
Proof. exact I. Qed.

Lemma pool_made_step (t : nat) (s s' : PB) :
  pool_made s -> step t s = Some s' -> pool_made s'.
Proof.
  intros Hp Hstep. unfold step in Hstep.
  destruct (process s); [|discriminate|discriminate].
  unfold pool_made in *. destruct t as [|i].
  - unfold main_step in Hstep. destruct (main s) as [| |ch|ch| | |b e] eqn:Hmain.
    + inversion Hstep; subst s'. unfold parseBook_start.
      apply exec_cases; [|intros p w; simpl; now rewrite Hmain].
      intros b w. destruct (ReadDir _) as [fis [e|]]; [exact I|].
      destruct (Z.ltb getAlmostMaxProcs 0); simpl; [now rewrite Hmain|reflexivity].
    + destruct (fileInfos s) as [|fi rest]; inversion Hstep; subst s'; [exact Hp|].
      unfold parseBook_entry. destruct (fiIsDir fi).
      * apply exec_cases; intros; simpl; try rewrite Hmain; exact Hp.
      * destruct (String.eqb _ "toc.txt"); [simpl; now rewrite Hmain|].
        destruct (String.eqb _ "so_contributors.txt"); [|exact I].
        apply exec_cases; intros; simpl; rewrite Hmain; exact Hp.
    + destruct (Z.ltb (sem s) (nProcs s)); inversion Hstep; subst s'. exact Hp.
    + inversion Hstep; subst s'. exact Hp.
    + destruct (Z.eqb (wg s) 0); inversion Hstep; subst s'. exact Hp.
    + inversion Hstep; subst s'.
      apply exec_cases; [|intros p w; simpl; now rewrite Hmain].
      intros [[b|] e] w; simpl; [exact Hp|exact I].
    + discriminate.
  - unfold worker_step in Hstep.
    destruct (workers s !! i) as [wk|]; [|discriminate].
    destruct (wpc wk).
    + inversion Hstep; subst s'. apply exec_cases; intros; simpl; exact Hp.
    + inversion Hstep; subst s'. exact Hp.
    + inversion Hstep; subst s'. exact Hp.
    + destruct (Z.ltb 0 (sem s)); inversion Hstep; subst s'. exact Hp.
    + destruct (Z.ltb (wg s - 1) 0); inversion Hstep; subst s'; exact Hp.
    + discriminate.
Qed.

Lemma pool_made_run (sched : list nat) : forall s, pool_made s -> pool_made (run sched s).
Proof.
  induction sched as [|t sched IH]; intros s Hs; [exact Hs|].
  unfold run. simpl. apply IH.
  destruct (step t s) as [s'|] eqn:Hstep; simpl; [eapply pool_made_step; eauto | exact Hs].
Qed.

Lemma count_pc_pos P ws :
  0 < count_pc P ws -> exists i wk, ws !! i = Some wk /\ P (wpc wk) = true.
Proof.
  induction ws as [|x ws IH]; simpl; [lia|]. intros Hpos.
  destruct (P (wpc x)) eqn:HP.
  - exists 0%nat, x. split; [reflexivity|exact HP].
  - destruct IH as (i & wk & Hi & Hwk); [lia|]. exists (S i), wk. split; [exact Hi|exact Hwk].
Qed.

Lemma count_pc_member P ws i wk :
  ws !! i = Some wk -> P (wpc wk) = true -> 0 < count_pc P ws.
Proof.
  revert i. induction ws as [|x ws IH]; intros i Hi HP; [discriminate|].
  simpl. pose proof (count_pc_nonneg P ws). destruct i as [|i]; simpl in Hi.
  - inversion Hi; subst. rewrite HP. lia.
  - specialize (IH i Hi HP). destruct (P (wpc x)); lia.
Qed.

(** A goroutine that is not done can make its next move, provided the
    channel holds a value when it is about to receive. *)
Lemma worker_can_move (s : PB) (i : nat) (wk : Worker) :
  process s = Running -> workers s !! i = Some wk -> wpc wk <> WFinished ->
  (wpc wk = WRelease -> 0 < sem s) ->
  exists s', step (S i) s = Some s'.
Proof.
  intros Hrun Hwk Hpc Hsem. unfold step. rewrite Hrun. unfold worker_step. rewrite Hwk.
  destruct (wpc wk) eqn:E; try (eexists; reflexivity).
  - destruct (Z.ltb_spec 0 (sem s)); [eexists; reflexivity|]. specialize (Hsem eq_refl). lia.
  - destruct (Z.ltb (wg s - 1) 0); eexists; reflexivity.
  - contradiction.
Qed.

(** X1. Under every schedule and at every moment, the number of
    [parseChapter] calls in flight is at most the number of values in the
    channel [sem], which is at most the CPU-derived pool size (or zero,
    before the channel is made). *)
Theorem parseBook_pool_bound (bookName : string) (sched : list nat) (w : World) :
  let s := parseBook bookName sched w in
  in_flight s <= sem s /\ sem s <= Z.max 0 getAlmostMaxProcs.
Proof.
  intros s.
  destruct (sync_inv_run sched _ (sync_inv_init bookName w)) as (Hsem & Hcap & _ & Hn).
  fold (parseBook bookName sched w) in *. fold s in Hsem, Hcap, Hn.
  unfold in_flight.
  assert (count_pc is_calling (workers s) <= count_pc holds_slot (workers s)).
  { apply count_pc_le. intros [] Hp; try discriminate; reflexivity. }
  split; [destruct (main s); lia|lia].
Qed.

(** X2. When parseBook returns a book, under whatever schedule, every
    goroutine it started has run to its end: none is unfinished, the channel
    is empty and the wait group is at zero. *)
Theorem parseBook_returns_after_join (bookName : string) (sched : list nat) (w : World)
    (b : loc) (e : option error) :
  let s := parseBook bookName sched w in
  main s = MReturned (Some b) e ->
  unfinished s = 0 /\ in_flight s = 0 /\ sem s = 0 /\ wg s = 0 /\
  forall i wk, workers s !! i = Some wk -> wpc wk = WFinished.
Proof.
  intros s Hmain.
  destruct (book_inv_run bookName sched _ (book_inv_init bookName w)) as [Hsync Hbody].
  fold (parseBook bookName sched w) in Hsync, Hbody. fold s in Hsync, Hbody.
  rewrite Hmain in Hbody. destruct Hbody as [Hz _].
  destruct Hsync as (Hsem & _ & Hwg & _). rewrite Hmain in Hsem.
  unfold unfinished in Hz.
  assert (Hslots : count_pc holds_slot (workers s) <= count_pc is_unfinished (workers s)).
  { apply count_pc_le. intros [] Hp; try discriminate; reflexivity. }
  assert (Hcalls : count_pc is_calling (workers s) <= count_pc holds_slot (workers s)).
  { apply count_pc_le. intros [] Hp; try discriminate; reflexivity. }
  pose proof (count_pc_nonneg holds_slot (workers s)).
  pose proof (count_pc_nonneg is_calling (workers s)).
  split; [exact Hz|]. split; [unfold in_flight; lia|]. split; [lia|]. split; [lia|].
  intros i wk Hwk. pose proof (count_pc_zero _ _ _ _ Hz Hwk) as Hf.
  destruct (wpc wk); simpl in Hf; congruence.
Qed.

(** A state in which the call has not ended has a thread that can move,
    when the pool has at least one slot and the counters are in step with
    the goroutines. *)
Lemma live_can_move (s : PB) :
  1 <= getAlmostMaxProcs -> sync_inv s -> pool_made s ->
  ~ halted s -> exists t s', step t s = Some s'.
Proof.
  intros Hn (Hsem & Hcap & Hwg & _) Hpool Hlive.
  assert (Hrun : process s = Running).
  { destruct (process s) eqn:E; [reflexivity| |]; exfalso; apply Hlive; left;
      rewrite E; discriminate. }
  assert (Hnot : forall b e, main s <> MReturned b e).
  { intros b e E. apply Hlive. right. eauto. }
  unfold pool_made in Hpool.
  assert (Hmain : is_Some (main_step s) -> exists t s', step t s = Some s').
  { intros [s' E]. exists 0%nat, s'. unfold step. now rewrite Hrun. }
  assert (Hslots : count_pc holds_slot (workers s) <= count_pc is_unfinished (workers s)).
  { apply count_pc_le. intros [] Hp; try discriminate; reflexivity. }
  destruct (main s) as [| |ch|ch| | |b e] eqn:Em.
  - apply Hmain. unfold main_step. rewrite Em. eexists; reflexivity.
  - apply Hmain. unfold main_step. rewrite Em. destruct (fileInfos s); eexists; reflexivity.
  - destruct (Z.ltb_spec (sem s) (nProcs s)) as [Hlt|Hge].
    + apply Hmain. unfold main_step. rewrite Em.
      destruct (Z.ltb_spec (sem s) (nProcs s)); [eexists; reflexivity|lia].
    + destruct (count_pc_pos holds_slot (workers s)) as (i & wk & Hwk & Hpc); [lia|].
      destruct (worker_can_move s i wk Hrun Hwk) as [s' Hs'].
      * intros E. rewrite E in Hpc. discriminate.
      * intros _. lia.
      * eauto.
  - apply Hmain. unfold main_step. rewrite Em. eexists; reflexivity.
  - destruct (Z.eqb_spec (wg s) 0) as [Hz|Hnz].
    + apply Hmain. unfold main_step. rewrite Em.
      destruct (Z.eqb_spec (wg s) 0); [eexists; reflexivity|contradiction].
    + pose proof (count_pc_nonneg is_unfinished (workers s)).
      destruct (count_pc_pos is_unfinished (workers s)) as (i & wk & Hwk & Hpc); [lia|].
      destruct (worker_can_move s i wk Hrun Hwk) as [s' Hs'].
      * intros E. rewrite E in Hpc. discriminate.
      * intros E.
        assert (0 < count_pc holds_slot (workers s)); [|lia].
        apply (count_pc_member _ _ i wk Hwk). now rewrite E.
      * eauto.
  - apply Hmain. unfold main_step. rewrite Em. eexists; reflexivity.
  - exfalso. now apply (Hnot b e).
Qed.

(** X3. With a pool of at least one slot parseBook cannot deadlock: under
    every schedule, as long as the process runs and parseBook has not
    returned, some thread can move.  The orchestrator blocked on a full
    channel is released by a goroutine that holds a slot, the orchestrator
    blocked in [wg.Wait()] by a goroutine that is not done. *)
Theorem parseBook_no_deadlock (bookName : string) (sched : list nat) (w : World) :
  1 <= getAlmostMaxProcs ->
  let s := parseBook bookName sched w in
  ~ halted s -> exists t s', step t s = Some s'.
Proof.
  intros Hn s Hlive. apply live_can_move; [exact Hn| | |exact Hlive].
  - apply sync_inv_run, sync_inv_init.
  - apply pool_made_run, pool_made_init.
Qed.

(** *** Termination of parseBook *)

Lemma workers_left_app ws1 ws2 :
  workers_left (ws1 ++ ws2) = (workers_left ws1 + workers_left ws2)%nat.
Proof. induction ws1 as [|wk ws1 IH]; simpl; [reflexivity | rewrite IH; lia]. Qed.

Lemma workers_left_alter (pc : WorkerPC) ws : forall i wk,
  ws !! i = Some wk -> (pc_left pc < pc_left (wpc wk))%nat ->
  (workers_left (alter (fun wk => mkWorker (wchap wk) pc) i ws) < workers_left ws)%nat.
Proof.
  unfold alter.
  induction ws as [|x ws IH]; intros i wk Hi Hlt; [discriminate|].
  destruct i as [|i]; simpl in *.
  - inversion Hi; subst. lia.
  - specialize (IH i wk Hi Hlt). lia.
Qed.

Lemma moves_left_exec {A} (m : M A) (s : PB) (k : A -> PB -> PB) (n : nat) :
  (0 < n)%nat ->
  (forall a w, (moves_left (k a (set_world w s)) < n)%nat) ->
  (moves_left (exec m s k) < n)%nat.
Proof.
  intros Hn Hk. unfold exec. destruct (m (world s)) as [[a|msg|code] w]; [apply Hk| |];
    unfold moves_left; simpl; exact Hn.
Qed.

Lemma step_moves_left (t : nat) (s s' : PB) :
  step t s = Some s' -> (moves_left s' < moves_left s)%nat.
Proof.
  intros Hstep. unfold step in Hstep.
  destruct (process s) eqn:Hrun; [|discriminate|discriminate].
  unfold moves_left at 2. rewrite Hrun. unfold main_left.
  destruct t as [|i].
  - unfold main_step in Hstep. destruct (main s) as [| |ch|ch| | |b e] eqn:Hmain.
    + inversion Hstep; subst s'. unfold parseBook_start.
      apply moves_left_exec; [lia|]. intros b w.
      destruct (ReadDir _) as [fis [e|]] eqn:Hrd.
      * unfold moves_left, main_left; simpl. rewrite Hrun. simpl. lia.
      * destruct (Z.ltb getAlmostMaxProcs 0).
        -- unfold moves_left; simpl. lia.
        -- unfold moves_left, main_left; simpl. rewrite Hrun. simpl. lia.
    + destruct (fileInfos s) as [|fi rest] eqn:Hfis; inversion Hstep; subst s'.
      { unfold moves_left, main_left; simpl. rewrite Hrun. simpl. lia. }
      unfold parseBook_entry. destruct (fiIsDir fi).
      * apply moves_left_exec; [simpl; lia|]. intros c w.
        unfold moves_left, main_left; simpl. rewrite Hrun. simpl. lia.
      * destruct (String.eqb _ "toc.txt").
        { unfold moves_left, main_left; simpl. rewrite Hrun, Hmain. simpl. lia. }
        destruct (String.eqb _ "so_contributors.txt").
        -- apply moves_left_exec; [simpl; lia|]. intros c w.
           unfold moves_left, main_left; simpl. rewrite Hrun, Hmain. simpl. lia.
        -- unfold moves_left, main_left; simpl. rewrite Hrun. simpl. lia.
    + destruct (Z.ltb (sem s) (nProcs s)); inversion Hstep; subst s'.
      unfold moves_left, main_left; simpl. rewrite Hrun. lia.
    + inversion Hstep; subst s'.
      unfold moves_left, main_left; simpl. rewrite Hrun, workers_left_app. simpl. lia.
    + destruct (Z.eqb (wg s) 0); inversion Hstep; subst s'.
      unfold moves_left, main_left; simpl. rewrite Hrun. lia.
    + inversion Hstep; subst s'. apply moves_left_exec; [lia|]. intros r w.
      unfold moves_left, main_left; simpl. rewrite Hrun. lia.
    + discriminate.
  - unfold worker_step in Hstep.
    destruct (workers s !! i) as [wk|] eqn:Hwk; [|discriminate].
    assert (Hdown : forall pc, (pc_left pc < pc_left (wpc wk))%nat ->
              (moves_left (set_wpc i pc s) < main_left s + workers_left (workers s))%nat).
    { intros pc Hlt. unfold moves_left, main_left; simpl. rewrite Hrun.
      pose proof (workers_left_alter pc _ _ _ Hwk Hlt). unfold main_left. lia. }
    unfold main_left in Hdown.
    destruct (wpc wk) eqn:Hpc.
    + inversion Hstep; subst s'.
      pose proof (Hdown WCheck ltac:(simpl; lia)) as Hd.
      apply moves_left_exec; [lia|]. intros e w.
      unfold moves_left, main_left in *; simpl in *. rewrite Hrun in *. exact Hd.
    + inversion Hstep; subst s'. apply Hdown. destruct (err s); simpl; lia.
    + inversion Hstep; subst s'.
      pose proof (Hdown WRelease ltac:(simpl; lia)) as Hd.
      unfold moves_left, main_left in *; simpl in *. rewrite Hrun in *. exact Hd.
    + destruct (Z.ltb 0 (sem s)); inversion Hstep; subst s'.
      pose proof (Hdown WDone ltac:(simpl; lia)) as Hd.
      unfold moves_left, main_left in *; simpl in *. rewrite Hrun in *. exact Hd.
    + pose proof (Hdown WFinished ltac:(simpl; lia)) as Hd.
      destruct (Z.ltb (wg s - 1) 0); inversion Hstep; subst s'.
      * unfold moves_left; simpl. unfold moves_left in Hd. simpl in Hd. lia.
      * unfold moves_left, main_left in *; simpl in *. rewrite Hrun in *. exact Hd.
    + discriminate.
Qed.

Lemma moves_bound (sched : list nat) : forall s, (moves sched s <= moves_left s)%nat.
Proof.
  induction sched as [|t sched IH]; intros s; simpl; [lia|].
  destruct (step t s) as [s'|] eqn:Hstep; [|apply IH].
  pose proof (step_moves_left _ _ _ Hstep). specialize (IH s'). lia.
Qed.

Lemma run_app (sched more : list nat) (s : PB) :
  run (sched ++ more) s = run more (run sched s).
Proof. unfold run. apply foldl_app. Qed.

Lemma moves_left_run (sched : list nat) : forall s,
  (moves_left (run sched s) <= moves_left s)%nat.
Proof.
  induction sched as [|t sched IH]; intros s; [unfold run; simpl; lia|].
  unfold run. simpl. destruct (step t s) as [s'|] eqn:Hstep; simpl.
  - pose proof (step_moves_left _ _ _ Hstep). specialize (IH s'). unfold run in IH. lia.
  - apply IH.
Qed.

Lemma classic_halted (s : PB) : halted s \/ ~ halted s.
Proof.
  unfold halted. destruct (process s) eqn:Hp.
  - destruct (main s) as [| |ch|ch| | |b e] eqn:Hm;
      try (right; intros [Hn|(b' & e' & E)]; [now apply Hn|discriminate]).
    left. right. eauto.
  - left. left. discriminate.
  - left. left. discriminate.
Qed.

(** From a state that keeps the invariants of the counters, a run that lets
    threads move as long as one can reaches the end of the call. *)
Lemma can_finish (n : nat) : forall s,
  1 <= getAlmostMaxProcs -> sync_inv s -> pool_made s -> (moves_left s <= n)%nat ->
  exists more, (length more <= n)%nat /\ halted (run more s).
Proof.
  induction n as [|n IH]; intros s Hn Hsync Hpool Hleft.
  - exists []. split; [simpl; lia|]. simpl.
    destruct (classic_halted s) as [Hh|Hlive]; [exact Hh|].
    destruct (live_can_move s Hn Hsync Hpool Hlive) as (t & s' & Hstep).
    pose proof (step_moves_left _ _ _ Hstep). lia.
  - destruct (classic_halted s) as [Hh|Hlive]; [exists []; split; [simpl; lia|exact Hh]|].
    destruct (live_can_move s Hn Hsync Hpool Hlive) as (t & s' & Hstep).
    pose proof (step_moves_left _ _ _ Hstep) as Hlt.
    destruct (IH s' Hn) as (more & Hlen & Hh);
      [eapply sync_inv_step; eauto | eapply pool_made_step; eauto | lia |].
    exists (t :: more). split; [simpl; lia|].
    unfold run. simpl. rewrite Hstep. exact Hh.
Qed.

(** X4. Under every schedule parseBook makes at most [8 * n + 4] moves, [n]
    being the number of entries of the book directory: each entry costs the
    orchestrator at most three moves and the goroutine of a directory five.
    No schedule can keep the call going for ever. *)
Theorem parseBook_moves_bounded (bookName : string) (sched : list nat) (w : World) :
  (moves sched (parseBook_init bookName w) <=
   8 * length (fst (ReadDir (filepath_Join ["books"; MakeURLSafe bookName]))) + 4)%nat.
Proof.
  pose proof (moves_bound sched (parseBook_init bookName w)) as Hle.
  unfold moves_left, main_left in Hle. simpl in Hle. lia.
Qed.

(** X5. With a pool of at least one slot, whatever has happened so far
    parseBook can still finish: every schedule has an extension, of at most
    [8 * n + 4] entries, after which parseBook has returned or the process
    has ended by a panic or an exit. *)
Theorem parseBook_can_finish (bookName : string) (sched : list nat) (w : World) :
  1 <= getAlmostMaxProcs ->
  exists more,
    (length more <=
     8 * length (fst (ReadDir (filepath_Join ["books"; MakeURLSafe bookName]))) + 4)%nat /\
    halted (parseBook bookName (sched ++ more) w).
Proof.
  intros Hn. unfold parseBook.
  destruct (can_finish
              (8 * length (fst (ReadDir (filepath_Join ["books"; MakeURLSafe bookName]))) + 4)
              (run sched (parseBook_init bookName w)) Hn)
    as (more & Hlen & Hh).
  - apply sync_inv_run, sync_inv_init.
  - apply pool_made_run, pool_made_init.
  - pose proof (moves_left_run sched (parseBook_init bookName w)) as Hle.
    unfold moves_left at 2 in Hle. unfold main_left in Hle. simpl in Hle. lia.
  - exists more. split; [exact Hlen|]. rewrite run_app. exact Hh.
Qed.

(** *** What parseBook needs to return a book *)

Lemma visited_inv_init bn w : visited_inv bn (parseBook_init bn w).
Proof. reflexivity. Qed.

Lemma visited_inv_step bn (t : nat) (s s' : PB) :
  visited_inv bn s -> step t s = Some s' -> visited_inv bn s'.
Proof.
  intros Hinv Hstep. unfold step in Hstep.
  destruct (process s); [|discriminate|discriminate].
  unfold visited_inv in *. destruct t as [|i].
  - unfold main_step in Hstep. destruct (main s) as [| |ch|ch| | |b e] eqn:Hmain.
    + inversion Hstep; subst s'. unfold parseBook_start.
      apply exec_cases; [|intros p w; simpl; now rewrite Hmain].
      intros b w. unfold book_listing. rewrite Hinv.
      destruct (ReadDir _) as [fis [e|]] eqn:Hrd; [exact I|].
      destruct (Z.ltb getAlmostMaxProcs 0); simpl; [now rewrite Hmain|].
      split; [reflexivity|]. exists []. auto.
    + destruct Hinv as (Hok & visited & Hv & Hall & _).
      destruct (fileInfos s) as [|fi rest] eqn:Hfis; inversion Hstep; subst s'.
      { simpl. split; [exact Hok|]. exists visited. rewrite Hfis. auto. }
      assert (Hnext : allowed_entry fi = true ->
                exists visited', (book_listing bn).1 = visited' ++ rest /\
                  forallb allowed_entry visited' = true /\ True).
      { intros Hfi. exists (visited ++ [fi]). rewrite <- app_assoc. split; [exact Hv|].
        rewrite forallb_app, Hall. simpl. now rewrite Hfi. }
      unfold parseBook_entry, allowed_entry in *. destruct (fiIsDir fi).
      * apply exec_cases; intros; simpl; try rewrite Hmain; auto.
      * destruct (String.eqb _ "toc.txt"); [simpl; rewrite Hmain; auto|].
        destruct (String.eqb _ "so_contributors.txt"); [|exact I].
        apply exec_cases; intros; simpl; rewrite Hmain; auto.
    + destruct Hinv as (Hok & visited & Hv & Hall & _).
      destruct (Z.ltb (sem s) (nProcs s)); inversion Hstep; subst s'. simpl. eauto.
    + destruct Hinv as (Hok & visited & Hv & Hall & _).
      inversion Hstep; subst s'. simpl. eauto.
    + destruct (Z.eqb (wg s) 0); inversion Hstep; subst s'. exact Hinv.
    + inversion Hstep; subst s'.
      apply exec_cases; [|intros p w; simpl; now rewrite Hmain].
      intros [[b|] e] w; simpl; [exact Hinv|exact I].
    + discriminate.
  - unfold worker_step in Hstep.
    destruct (workers s !! i) as [wk|]; [|discriminate].
    destruct (wpc wk).
    + inversion Hstep; subst s'. apply exec_cases; intros; simpl; exact Hinv.
    + inversion Hstep; subst s'. exact Hinv.
    + inversion Hstep; subst s'. exact Hinv.
    + destruct (Z.ltb 0 (sem s)); inversion Hstep; subst s'. exact Hinv.
    + destruct (Z.ltb (wg s - 1) 0); inversion Hstep; subst s'; exact Hinv.
    + discriminate.
Qed.

Lemma visited_inv_run bn (sched : list nat) : forall s,
  visited_inv bn s -> visited_inv bn (run sched s).
Proof.
  induction sched as [|t sched IH]; intros s Hs; [exact Hs|].
  unfold run. simpl. apply IH.
  destruct (step t s) as [s'|] eqn:Hstep; simpl; [eapply visited_inv_step; eauto | exact Hs].
Qed.

(** A state in which parseBook has returned and no goroutine was started
    stays as it is. *)
Lemma run_returned (sched : list nat) (s : PB) (b : option loc) (e : option error) :
  main s = MReturned b e -> workers s = [] -> run sched s = s.
Proof.
  intros Hmain Hws. induction sched as [|t sched IH]; [reflexivity|].
  unfold run. simpl. replace (step t s) with (@None PB); [exact IH|].
  unfold step. destruct (process s); [|reflexivity|reflexivity].
  destruct t as [|i]; [unfold main_step; now rewrite Hmain|].
  unfold worker_step. now rewrite Hws.
Qed.

(** X6. Under no schedule does parseBook return a book unless the directory
    of the book could be listed and every entry of the listing is a
    directory or one of the files [toc.txt] and [so_contributors.txt]: any
    other file at the top level makes it return without a book. *)
Theorem parseBook_book_needs_clean_listing (bookName : string) (sched : list nat)
    (w : World) (b : loc) (e : option error) :
  main (parseBook bookName sched w) = MReturned (Some b) e ->
  snd (book_listing bookName) = None /\
  forallb allowed_entry (fst (book_listing bookName)) = true.
Proof.
  intros Hmain.
  pose proof (visited_inv_run bookName sched _ (visited_inv_init bookName w)) as Hinv.
  fold (parseBook bookName sched w) in Hinv. unfold visited_inv in Hinv.
  rewrite Hmain in Hinv. destruct Hinv as (Hok & visited & Hv & Hall & Hnil).
  rewrite Hnil, app_nil_r in Hv. rewrite Hv. auto.
Qed.

(** X7. When the directory of the book cannot be listed, parseBook returns
    no book and the error of [ioutil.ReadDir] as soon as the orchestrator
    runs: it has printed its first line and allocated the [Book], and it has
    created no chapter, parsed nothing and started no goroutine. *)
Theorem parseBook_unreadable_dir (bookName : string) (sched : list nat) (w : World)
    (e : error) :
  snd (book_listing bookName) = Some e ->
  In 0%nat sched ->
  let s := parseBook bookName sched w in
  main s = MReturned None (Some e) /\
  process s = Running /\
  workers s = [] /\
  chapters (world s) = chapters w /\
  articles (world s) = articles w /\
  stdout (world s) = stdout w ++ ["Parsing book " +:+ bookName +:+ nl] /\
  length (books (world s)) = S (length (books w)).
Proof.
  intros Herr Hin s. unfold book_listing in Herr.
  set (s1 := parseBook_start (parseBook_init bookName w)).
  assert (Hs1 : main s1 = MReturned None (Some e) /\ process s1 = Running /\
                workers s1 = [] /\ chapters (world s1) = chapters w /\
                articles (world s1) = articles w /\
                stdout (world s1) = stdout w ++ ["Parsing book " +:+ bookName +:+ nl] /\
                length (books (world s1)) = S (length (books w))).
  { unfold s1, parseBook_start, exec. simpl.
    destruct (ReadDir _) as [fis [e'|]]; simpl in Herr; [|discriminate].
    inversion Herr; subst e'. simpl. rewrite length_app. simpl.
    repeat split; auto; lia. }
  assert (Hrun : s = s1); [|rewrite Hrun; exact Hs1].
  unfold s, parseBook. clear s. induction sched as [|t sched IH]; [destruct Hin|].
  unfold run. simpl. destruct t as [|i].
  - change (step 0 (parseBook_init bookName w)) with (Some s1). simpl.
    destruct Hs1 as (Hm & _ & Hws & _). apply (run_returned sched s1 _ _ Hm Hws).
  - change (step (S i) (parseBook_init bookName w)) with (@None PB). simpl.
    apply IH. destruct Hin as [Hin|Hin]; [discriminate|exact Hin].
Qed.

(** *** Validation of a book without duplicates *)

Lemma unique_articles_fresh (avals : list Article.t) : forall prev,
  NoDup (map Article.ID (prev ++ avals)) ->
  fresh_slugs prev avals = map Article.FileNameBase avals /\ dup_errors prev avals = [].
Proof.
  induction avals as [|v rest IH]; intros prev Hnd; simpl; [auto|].
  assert (Hnone : holder Article.ID prev (Article.ID v) = None).
  { apply holder_None. intros Hin. rewrite map_app in Hnd.
    apply NoDup_app in Hnd as (_ & Hdisj & _). apply (Hdisj _ Hin). simpl.
    apply list_elem_of_here. }
  rewrite Hnone. destruct (IH (prev ++ [v])) as [Hs He].
  { rewrite <- app_assoc. exact Hnd. }
  rewrite Hs, He. auto.
Qed.

Lemma unique_articles_manifest (view : list (Chapter.t * list Article.t)) : forall prev,
  NoDup (map Article.ID (prev ++ book_articles view)) ->
  manifest prev view = all_slugs view /\ article_errors prev view = [].
Proof.
  induction view as [|[c avals] rest IH]; intros prev Hnd; simpl; [auto|].
  unfold book_articles in Hnd. simpl in Hnd. rewrite app_assoc in Hnd.
  destruct (IH (prev ++ avals) Hnd) as [Hm He].
  destruct (unique_articles_fresh avals prev) as [Hs Hd].
  { rewrite map_app in Hnd. apply NoDup_app in Hnd as (Hnd & _). exact Hnd. }
  rewrite Hm, He, Hs, Hd. auto.
Qed.

Lemma all_slugs_length (view : list (Chapter.t * list Article.t)) :
  length (all_slugs view) = (length view + length (book_articles view))%nat.
Proof.
  unfold all_slugs, book_articles. induction view as [|[c avals] rest IH]; simpl; [reflexivity|].
  rewrite !length_app, length_map, IH. lia.
Qed.

(** X8. On a book whose chapter IDs are pairwise distinct and whose article
    IDs are pairwise distinct, [ensureUniqueIds] returns in strict mode as
    in soft mode: it prints nothing, records no error, changes no chapter
    and no article, and stores as [knownUrls] the [FileNameBase] of every
    chapter and every article in reading order, one entry per chapter and
    per article.  Only the IDs are compared: two entries of [knownUrls] may
    be the same slug. *)
Theorem ensureUniqueIds_valid_book (book : loc) (w : World) (bk : Book.t)
    (view : list (Chapter.t * list Article.t)) :
  books w !! book = Some bk ->
  book_view w (Book.Chapters bk) view ->
  NoDup (chapter_ids view) ->
  NoDup (map Article.ID (book_articles view)) ->
  ensureUniqueIds book w =
    (Ret tt,
     mkWorld (articles w) (chapters w)
             (<[book := Book.with_knownUrls (all_slugs view) bk]> (books w))
             (stdout w) (softErrors w)) /\
  length (all_slugs view) = (length (Book.Chapters bk) + length (book_articles view))%nat.
Proof.
  intros Hb Hview Hch Harts. split.
  - rewrite (ensureUniqueIds_run book w bk view Hb Hview). cbv zeta.
    rewrite (validate_unique view [] [] Hch). cbn [verdict_errors].
    destruct (unique_articles_manifest view [] Harts) as [Hm He].
    rewrite Hm, He, errors_pass_nil, app_nil_r. reflexivity.
  - rewrite all_slugs_length. now rewrite (Forall2_length _ _ _ Hview).
Qed.

(** *** What parseArticle returns *)

Lemma parsed_article_of path id title body html :
  Contains id " " = false -> parsed_article path (article_of path id title body html).
Proof. intros Hsp. unfold parsed_article, article_of. simpl. repeat split; auto. Qed.

(** X9. Whenever [parseArticle] returns, it returns either an article and no
    error or an error and no article, never both and never neither.  A
    returned article is a new object, the last of the store; it records its
    source path, its ID has no space, its [FileNameBase] is ["a-" + ID + "-" +
    MakeURLSafe(Title)], and it has no number, chapter or siblings yet.
    However the call returns, the articles, chapters and books that existed
    are as they were. *)
Theorem parseArticle_article_or_error (path : string) (w w' : World)
    (p : option loc) (e : option error) :
  parseArticle path w = (Ret (p, e), w') ->
  chapters w' = chapters w /\ books w' = books w /\
  (forall q a, articles w !! q = Some a -> articles w' !! q = Some a) /\
  match p, e with
  | Some q, None =>
      q = length (articles w) /\
      exists a, articles w' = articles w ++ [a] /\ parsed_article path a
  | None, Some _ => True
  | _, _ => False
  end.
Proof.
  intros Hrun.
  assert (Hkeep : forall a0 q a, articles w !! q = Some a ->
                                 (articles w ++ [a0]) !! q = Some a).
  { intros a0 q a Hq. now apply lookup_app_l_Some. }
  destruct (parsed_doc path) as [doc [e0|]] eqn:Hdoc.
  - unfold parseArticle in Hrun. unfold_M.
    rewrite paarseKVFileWithIncludes_run, Hdoc in Hrun.
    unfold Printf, maybePanicIfErr in Hrun. unfold_M.
    destruct softErrorMode; simpl in Hrun; inversion Hrun; subst; simpl; auto.
  - destruct (GetValue doc "Id") as [id [e0|]] eqn:Hid.
    { unfold parseArticle in Hrun. unfold_M.
      rewrite paarseKVFileWithIncludes_run, Hdoc, Hid in Hrun.
      inversion Hrun; subst; simpl. auto. }
    destruct (Contains id " ") eqn:Hsp.
    { rewrite (parseArticle_space path w doc id Hdoc Hid Hsp) in Hrun.
      inversion Hrun; subst; simpl. auto. }
    rewrite (parseArticle_run path w doc id Hdoc Hid Hsp) in Hrun.
    destruct (GetValue doc "Body") as [body [eb|]].
    + destruct (GetValue doc "BodyHtml") as [html [eh|]].
      * inversion Hrun; subst; simpl. auto.
      * inversion Hrun; subst; simpl. split; [reflexivity|]. split; [reflexivity|].
        split; [apply Hkeep|]. split; [reflexivity|]. eexists. split; [reflexivity|].
        now apply parsed_article_of.
    + inversion Hrun; subst; simpl. split; [reflexivity|]. split; [reflexivity|].
      split; [apply Hkeep|]. split; [reflexivity|]. eexists. split; [reflexivity|].
      now apply parsed_article_of.
Qed.

(** X10. A file that cannot be read or tokenized: [parseArticle] prints
    [Error parsing KV file: '<path>'] after the diagnostics of the include
    expansion; then, in strict mode, it panics with the error, and in soft
    mode it records the error and also returns it, without an article.  The
    heap is not touched. *)
Theorem parseArticle_unreadable (path : string) (w : World) (doc : Doc) (e : error) :
  parsed_doc path = (doc, Some e) ->
  parseArticle path w =
    ((if softErrorMode then Ret (None, Some e) else Panic e), unreadable_world path e w).
Proof.
  intros Hdoc. unfold parseArticle. unfold_M.
  rewrite paarseKVFileWithIncludes_run, Hdoc.
  unfold Printf, maybePanicIfErr, unreadable_world. unfold_M.
  destruct softErrorMode; simpl; rewrite <- ?app_assoc, ?app_nil_r; reflexivity.
Qed.

(** X11. A document without an [Id] entry: [parseArticle] returns the error
    [parseArticle('<path>'), err: '<the error of GetValue>'] and no article.
    It looks at no other field: beyond the diagnostics of the include
    expansion nothing is printed, so the document is not dumped and there is
    no title warning, whatever else the document lacks.  The error is
    returned only, not recorded as a soft error, and the articles, chapters
    and books that existed are as they were. *)
Theorem parseArticle_missing_id (path : string) (w : World) (doc : Doc) (v : string)
    (e : error) :
  parsed_doc path = (doc, None) ->
  GetValue doc "Id" = (v, Some e) ->
  exists w',
    parseArticle path w =
      (Ret (None, Some ("parseArticle('" +:+ path +:+ "'), err: '" +:+ e +:+ "'")), w') /\
    stdout w' = stdout w ++ include_diagnostics path /\
    softErrors w' = softErrors w /\
    chapters w' = chapters w /\ books w' = books w /\
    (forall q a, articles w !! q = Some a -> articles w' !! q = Some a).
Proof.
  intros Hdoc Hid. unfold parseArticle. unfold_M.
  rewrite paarseKVFileWithIncludes_run, Hdoc, Hid.
  eexists. split; [reflexivity|]. simpl. auto.
Qed.

(** A key that is missing makes [GetValueSilent] answer the default. *)
Lemma GetValueSilent_missing (doc : Doc) (key def v : string) (e : error) :
  GetValue doc key = (v, Some e) -> GetValueSilent doc key def = def.
Proof. intros Hmiss. unfold GetValueSilent. now rewrite Hmiss. Qed.

(** X12. When the title that [GetValueSilent] finds is the default [No
    Title], which is the case of a document without a [Title] entry and also
    of one whose [Title] entry reads [No Title], an article is still
    returned: it has that title, its file name base is derived from it, and
    the warning [parseArticle: no title for <path>] is printed. *)
Theorem parseArticle_default_title (path : string) (w : World) (doc : Doc)
    (id body : string) :
  parsed_doc path = (doc, None) ->
  GetValue doc "Id" = (id, None) ->
  Contains id " " = false ->
  GetValueSilent doc "Title" defTitle = "No Title" ->
  GetValue doc "Body" = (body, None) ->
  parseArticle path w =
    (Ret (Some (length (articles w)), None),
     add_article
       (Article.mk id 0 None "No Title" ("a-" +:+ id +:+ "-" +:+ MakeURLSafe "No Title")
                   body "" [] false path "")
       (add_stdout (include_diagnostics path ++
                    ["parseArticle: no title for " +:+ path +:+ nl]) w)).
Proof.
  intros Hdoc Hid Hsp Htitle Hbody.
  rewrite (parseArticle_run path w doc id Hdoc Hid Hsp). rewrite Hbody, Htitle.
  reflexivity.
Qed.

(** *** How parseChapter ends *)

Lemma update_chapter_step (chapter : loc) f (w : World) (c : Chapter.t) :
  chapters w !! chapter = Some c ->
  exists w', update_chapter chapter f w = (Ret tt, w') /\
    chapters w' = <[chapter := f c]> (chapters w) /\
    articles w' = articles w /\ books w' = books w.
Proof.
  intros Hc. unfold update_chapter. rewrite Hc. eexists. split; [reflexivity|]. simpl. auto.
Qed.

Lemma insert_again {A} (l : list A) (i : nat) (x y : A) :
  <[i := y]> (<[i := x]> l) = <[i := y]> l.
Proof. apply list_insert_insert_eq. Qed.

Lemma lookup_inserted {A} (l : list A) (i : nat) (x y : A) :
  l !! i = Some x -> <[i := y]> l !! i = Some y.
Proof. intros Hl. apply list_lookup_insert_eq. now apply lookup_lt_Some in Hl. Qed.

(** A listing without article files is passed over by the loop. *)
Lemma parseChapter_loop_no_files (chapter : loc) (dir : string) (fis : list FileInfo)
    (arts : list loc) (w : World) :
  article_files dir fis = [] ->
  parseChapter_loop chapter dir fis arts w = (Ret (inl arts), w).
Proof.
  unfold article_files. induction fis as [|fi rest IH]; intros Hnil; simpl; [reflexivity|].
  simpl in Hnil. unfold is_article_file in Hnil at 1.
  destruct (fiIsDir fi || negb (fiIsRegular fi)); [apply IH; exact Hnil|].
  destruct (String.eqb (ToLower (filepath_Ext (fiName fi))) ".md"); simpl in *;
    [|apply IH; exact Hnil].
  destruct (String.eqb (ToLower (fiName fi)) "000-index.md"); simpl in *;
    [apply IH; exact Hnil|discriminate].
Qed.

(** One write to the chapter, the chapter being the one of [Hk] after the
    writes so far. *)
Ltac chapter_step Hrun Hk f wn :=
  let E := fresh "E" in
  match type of Hrun with
  | context [update_chapter ?ch f ?w0] =>
      destruct (update_chapter_step ch f w0 _ Hk) as (wn & E & ? & ? & ?);
      rewrite E in Hrun; clear E
  end.

Lemma parseChapter_tree (chapter : loc) (w : World) r (w' : World) (c : Chapter.t)
    (b : loc) (bk : Book.t) :
  chapters w !! chapter = Some c ->
  Chapter.Book c = Some b ->
  books w !! b = Some bk ->
  parseChapter chapter w = (r, w') ->
  books w' = books w /\ parseChapter_ends chapter c bk w r w'.
Proof.
  intros Hc HB HBk Hrun. unfold parseChapter in Hrun. unfold_M.
  unfold load_chapter at 1 in Hrun. rewrite Hc in Hrun.
  unfold deref, load_book in Hrun. rewrite HB, HBk in Hrun.
  unfold parseChapter_ends, named, identified, titled, index_panic. cbv zeta.
  unfold index_path, chapter_dir.
  set (dir := filepath_Join [Book.sourceDir bk; Chapter.ChapterDir c]) in *.
  set (path := filepath_Join [dir; "000-index.md"]) in *.
  chapter_step Hrun Hc (Chapter.with_indexFilePath path) w1.
  rewrite paarseKVFileWithIncludes_run in Hrun.
  destruct (parsed_doc path) as [doc err]. cbn [fst snd].
  set (w2 := add_stdout (include_diagnostics path) w1) in *.
  match type of Hrun with
  | context [?m w2] =>
      lazymatch m with
      | match err with Some _ => _ | None => _ end =>
          destruct (m w2) as [o3 w3] eqn:E3
      end
  end.
  assert (H3 : chapters w3 = chapters w1 /\ articles w3 = articles w1 /\
               books w3 = books w1 /\
               match err, softErrorMode with
               | Some e, false => o3 = Panic e
               | _, _ => o3 = Ret tt
               end).
  { destruct err as [e|].
    - unfold Printf, maybePanicIfErr in E3. unfold_M.
      destruct softErrorMode; inversion E3; subst; simpl; auto.
    - inversion E3; subst; simpl. destruct softErrorMode; auto. }
  clear E3. destruct H3 as (Hch3 & Ha3 & Hb3 & Ho3).
  assert (Hk1 : chapters w3 !! chapter = Some (Chapter.with_indexFilePath path c)).
  { rewrite Hch3. replace (chapters w1) with
      (<[chapter := Chapter.with_indexFilePath path c]> (chapters w)) by (symmetry; assumption).
    eapply lookup_inserted; eauto. }
  assert (Hstop : (exists e, err = Some e /\ softErrorMode = false /\ o3 = Panic e) \/
                  (o3 = Ret tt /\ match err, softErrorMode with
                                  | Some _, false => False | _, _ => True end)).
  { destruct err as [e|]; [destruct softErrorMode|]; eauto. }
  destruct Hstop as [(e & -> & Hstrict & ->)|[-> Hgo]].
  { cbn [snd]. rewrite Hstrict. inversion Hrun; subst r w'.
    split; [congruence|]. split; [reflexivity|]. split; congruence. }
  assert (Hgoal : forall P : Prop, P ->
            match match err with
                  | Some e => if softErrorMode then None else Some e
                  | None => None
                  end with
            | Some e =>
                r = Panic e /\ articles w' = articles w /\
                chapters w' = <[chapter := Chapter.with_indexFilePath path c]> (chapters w)
            | None => P
            end).
  { intros P HP. destruct err as [e|]; [destruct softErrorMode|]; auto. contradiction. }
  clear Ho3 Hgo.
  chapter_step Hrun Hk1 (Chapter.with_indexDoc doc) w4.
  assert (Hk4 : chapters w4 !! chapter =
                Some (Chapter.with_indexDoc doc (Chapter.with_indexFilePath path c))).
  { replace (chapters w4) with
      (<[chapter := Chapter.with_indexDoc doc (Chapter.with_indexFilePath path c)]>
         (chapters w3)) by (symmetry; assumption).
    eapply lookup_inserted; eauto. }
  destruct (GetValue doc "Title") as [title errT] eqn:HT. cbn [fst snd].
  chapter_step Hrun Hk4 (Chapter.with_Title title) w5.
  set (c5 := Chapter.with_Title title
               (Chapter.with_indexDoc doc (Chapter.with_indexFilePath path c))) in *.
  assert (Hw5 : chapters w5 = <[chapter := c5]> (chapters w) /\
                articles w5 = articles w /\ books w5 = books w).
  { split; [|split; congruence].
    replace (chapters w5) with (<[chapter := c5]> (chapters w4)) by (symmetry; assumption).
    replace (chapters w4) with
      (<[chapter := Chapter.with_indexDoc doc (Chapter.with_indexFilePath path c)]>
         (chapters w3)) by (symmetry; assumption).
    rewrite Hch3.
    replace (chapters w1) with
      (<[chapter := Chapter.with_indexFilePath path c]> (chapters w)) by (symmetry; assumption).
    now rewrite !insert_again. }
  destruct Hw5 as (Hch5 & Ha5 & Hb5).
  assert (Hk5 : chapters w5 !! chapter = Some c5).
  { rewrite Hch5. eapply lookup_inserted; eauto. }
  destruct errT as [e|].
  { inversion Hrun; subst r w'. split; [exact Hb5|]. apply Hgoal. auto. }
  destruct (GetValue doc "Id") as [id errI] eqn:HI. cbn [fst snd].
  chapter_step Hrun Hk5 (Chapter.with_ID id) w6.
  set (c6 := Chapter.with_ID id c5) in *.
  assert (Hw6 : chapters w6 = <[chapter := c6]> (chapters w) /\
                articles w6 = articles w /\ books w6 = books w).
  { split; [|split; congruence].
    replace (chapters w6) with (<[chapter := c6]> (chapters w5)) by (symmetry; assumption).
    rewrite Hch5. now rewrite insert_again. }
  destruct Hw6 as (Hch6 & Ha6 & Hb6).
  assert (Hk6 : chapters w6 !! chapter = Some c6).
  { rewrite Hch6. eapply lookup_inserted; eauto. }
  destruct errI as [e|].
  { inversion Hrun; subst r w'. split; [exact Hb6|]. apply Hgoal. auto. }
  destruct (Contains id " ") eqn:Hsp.
  { inversion Hrun; subst r w'. split; [exact Hb6|]. apply Hgoal. auto. }
  simpl (Chapter.ID c6). simpl (Chapter.Title c6).
  chapter_step Hrun Hk6
    (Chapter.with_FileNameBase ("ch-" +:+ id +:+ "-" +:+ MakeURLSafe title)) w7.
  set (c7 := Chapter.with_FileNameBase ("ch-" +:+ id +:+ "-" +:+ MakeURLSafe title) c6) in *.
  assert (Hw7 : chapters w7 = <[chapter := c7]> (chapters w) /\
                articles w7 = articles w /\ books w7 = books w).
  { split; [|split; congruence].
    replace (chapters w7) with (<[chapter := c7]> (chapters w6)) by (symmetry; assumption).
    rewrite Hch6. now rewrite insert_again. }
  destruct Hw7 as (Hch7 & Ha7 & Hb7).
  assert (Hk7 : chapters w7 !! chapter = Some c7).
  { rewrite Hch7. eapply lookup_inserted; eauto. }
  destruct (ReadDir dir) as [fis errD] eqn:HRd. cbn [fst].
  destruct (parseChapter_loop chapter dir fis [] w7) as [o8 w8] eqn:E8.
  assert (Hfiles : o8 <> Ret (inl []) -> article_files dir fis <> []).
  { intros Hne Hnil. rewrite (parseChapter_loop_no_files _ _ _ _ _ Hnil) in E8.
    inversion E8; subst. now apply Hne. }
  apply (parseChapter_loop_spec chapter dir (length (articles w7)) fis [] []) in E8;
    [|lia|split; [constructor|split; [reflexivity|intros k p Hk; discriminate]]].
  destruct E8 as [(Hc8 & Hb8 & Hl8 & Ho8) Hg8].
  assert (Hkept8 : articles_kept w w8).
  { unfold articles_kept. rewrite <- Ha7. split; [exact Hl8|]. exact Ho8. }
  destruct o8 as [[arts|e]|msg|code];
    try (inversion Hrun; subst r w'; split; [congruence|]; apply Hgoal;
         split; [exact Hkept8|]; left; split; [discriminate|]; split; [congruence|];
         apply Hfiles; discriminate).
  specialize (Hg8 arts eq_refl). simpl in Hg8.
  destruct (gathered_values _ _ _ _ _ Hg8) as (vals & Hvals & Hcur).
  destruct (buildArticleSiblings_run arts vals w8 (proj1 Hg8) Hvals Hcur)
    as (w9 & Hrun9 & (Hc9 & Hb9 & _ & _ & Hl9) & Hout9 & Hin9).
  rewrite Hrun9 in Hrun.
  assert (Hk9 : chapters w9 !! chapter = Some c7) by congruence.
  chapter_step Hrun Hk9 (Chapter.with_Articles arts) w10.
  inversion Hrun; subst r w'. clear Hrun.
  assert (Hbuilt : built w10 chapter arts (article_files dir fis)).
  { apply (gathered_built _ w8 w10 chapter arts _ Hg8).
    intros vals' Hvals' i p v Hi Hv.
    replace (articles w10) with (articles w9) by (symmetry; assumption).
    assert (vals' = vals).
    { apply list_eq. intros k.
      destruct (arts !! k) as [q|] eqn:Hq.
      - destruct (Forall2_lookup_l _ _ _ _ _ Hvals Hq) as (x & Hx & Hqx).
        destruct (Forall2_lookup_l _ _ _ _ _ Hvals' Hq) as (y & Hy & Hqy).
        congruence.
      - apply lookup_ge_None in Hq.
        rewrite !(proj2 (lookup_ge_None _ _));
          [reflexivity|rewrite <- (Forall2_length _ _ _ Hvals); exact Hq
          |rewrite <- (Forall2_length _ _ _ Hvals'); exact Hq]. }
    subst vals'. eapply Hin9; eauto. }
  split; [congruence|]. apply Hgoal. split.
  - unfold articles_kept.
    replace (articles w10) with (articles w9) by (symmetry; assumption).
    rewrite Hl9. destruct Hkept8 as [Hl Ho]. split; [exact Hl|].
    intros p Hp. rewrite Hout9; [now apply Ho|].
    intros Hin. apply list_elem_of_lookup in Hin as [k Hk].
    destruct (proj2 (proj2 Hg8) k p Hk) as [Hge _]. rewrite Ha7 in Hge. lia.
  - right. split; [reflexivity|]. exists arts. split; [|exact Hbuilt].
    replace (chapters w10) with (<[chapter := Chapter.with_Articles arts c7]> (chapters w9))
      by (symmetry; assumption).
    rewrite Hc9, Hc8, Hch7. now rewrite insert_again.
Qed.

(** X13. [parseChapter] is all or nothing for the article list: however the
    call ends short of returning [nil] (an error or a panic), the chapter
    still has the article list, directory, book and number it had before,
    the other chapters and the books are as before, and no article that
    existed has changed.  Articles parsed before the failure stay on the
    heap but belong to no chapter's list. *)
Theorem parseChapter_all_or_nothing (chapter : loc) (w w' : World)
    (r : outcome (option error)) (c0 : Chapter.t) :
  parseChapter chapter w = (r, w') ->
  chapters w !! chapter = Some c0 ->
  r <> Ret None ->
  (exists c1, chapters w' !! chapter = Some c1 /\
     Chapter.Articles c1 = Chapter.Articles c0 /\
     Chapter.ChapterDir c1 = Chapter.ChapterDir c0 /\
     Chapter.Book c1 = Chapter.Book c0 /\
     Chapter.No c1 = Chapter.No c0) /\
  (forall x, x <> chapter -> chapters w' !! x = chapters w !! x) /\
  books w' = books w /\
  articles_kept w w'.
Proof.
  intros Hrun Hc Hfail.
  assert (Hput : forall c1,
            chapters w' = <[chapter := c1]> (chapters w) ->
            Chapter.Articles c1 = Chapter.Articles c0 ->
            Chapter.ChapterDir c1 = Chapter.ChapterDir c0 ->
            Chapter.Book c1 = Chapter.Book c0 ->
            Chapter.No c1 = Chapter.No c0 ->
            (exists c1, chapters w' !! chapter = Some c1 /\
               Chapter.Articles c1 = Chapter.Articles c0 /\
               Chapter.ChapterDir c1 = Chapter.ChapterDir c0 /\
               Chapter.Book c1 = Chapter.Book c0 /\
               Chapter.No c1 = Chapter.No c0) /\
            (forall x, x <> chapter -> chapters w' !! x = chapters w !! x)).
  { intros c1 Hch Ha Hd Hb Hn. split.
    - exists c1. rewrite Hch. split; [eapply lookup_inserted; eauto|]. auto.
    - intros x Hx. rewrite Hch. apply list_lookup_insert_ne. congruence. }
  assert (Hstay : w' = w ->
            (exists c1, chapters w' !! chapter = Some c1 /\
               Chapter.Articles c1 = Chapter.Articles c0 /\
               Chapter.ChapterDir c1 = Chapter.ChapterDir c0 /\
               Chapter.Book c1 = Chapter.Book c0 /\
               Chapter.No c1 = Chapter.No c0) /\
            (forall x, x <> chapter -> chapters w' !! x = chapters w !! x) /\
            books w' = books w /\ articles_kept w w').
  { intros ->. split; [eauto 10|]. split; [auto|]. split; [auto|]. split; [lia|auto]. }
  destruct (Chapter.Book c0) as [b|] eqn:HB.
  2: { apply Hstay. unfold parseChapter in Hrun. unfold_M. unfold load_chapter at 1 in Hrun.
       rewrite Hc in Hrun. unfold deref in Hrun. rewrite HB in Hrun.
       now inversion Hrun. }
  destruct (books w !! b) as [bk|] eqn:HBk.
  2: { apply Hstay. unfold parseChapter in Hrun. unfold_M. unfold load_chapter at 1 in Hrun.
       rewrite Hc in Hrun. unfold deref, load_book in Hrun. rewrite HB, HBk in Hrun.
       now inversion Hrun. }
  clear Hstay.
  destruct (parseChapter_tree chapter w r w' c0 b bk Hc HB HBk Hrun) as [Hbooks Hends].
  assert (Hquiet : forall c1,
            articles w' = articles w ->
            chapters w' = <[chapter := c1]> (chapters w) ->
            Chapter.Articles c1 = Chapter.Articles c0 ->
            Chapter.ChapterDir c1 = Chapter.ChapterDir c0 ->
            Chapter.Book c1 = Some b ->
            Chapter.No c1 = Chapter.No c0 ->
            (exists c1, chapters w' !! chapter = Some c1 /\
               Chapter.Articles c1 = Chapter.Articles c0 /\
               Chapter.ChapterDir c1 = Chapter.ChapterDir c0 /\
               Chapter.Book c1 = Some b /\
               Chapter.No c1 = Chapter.No c0) /\
            (forall x, x <> chapter -> chapters w' !! x = chapters w !! x) /\
            books w' = books w /\ articles_kept w w').
  { intros c1 Ha Hch H1 H2 H3 H4. destruct (Hput c1 Hch H1 H2 H3 H4) as [Hself Hothers].
    split; [exact Hself|]. split; [exact Hothers|]. split; [exact Hbooks|].
    unfold articles_kept. rewrite Ha. split; [lia|auto]. }
  unfold parseChapter_ends in Hends. cbv zeta in Hends.
  destruct (index_panic (index_path bk c0)) as [e|].
  { destruct Hends as (_ & Ha & Hch). now apply (Hquiet _ Ha Hch). }
  destruct (GetValue _ "Title") as [title [eT|]].
  { destruct Hends as (_ & Ha & Hch). now apply (Hquiet _ Ha Hch). }
  destruct (GetValue _ "Id") as [id [eI|]].
  { destruct Hends as (_ & Ha & Hch). now apply (Hquiet _ Ha Hch). }
  destruct (Contains id " ").
  { destruct Hends as (_ & Ha & Hch). now apply (Hquiet _ Ha Hch). }
  destruct Hends as [Hkept [(_ & Hch & _)|(Hr & _)]]; [|contradiction].
  destruct (Hput _ Hch) as [Hself Hothers]; auto.
Qed.

Ltac chapter_fields :=
  unfold Chapter.with_Articles, Chapter.with_FileNameBase, Chapter.with_ID,
    Chapter.with_Title, Chapter.with_indexDoc, Chapter.with_indexFilePath;
  cbn [Chapter.ID Chapter.Book Chapter.ChapterDir Chapter.indexFilePath Chapter.indexDoc
       Chapter.Title Chapter.FileNameBase Chapter.Articles Chapter.No
       Chapter.AnalyticsCode fst snd].

(** The chapter that a call of [parseChapter] returning [nil] leaves. *)
Lemma parseChapter_filled (chapter : loc) (w w' : World) :
  parseChapter chapter w = (Ret None, w') ->
  exists (c : Chapter.t) (b : loc) (bk : Book.t) (doc : Doc) (title id : string)
         (arts : list loc),
    chapters w !! chapter = Some c /\ Chapter.Book c = Some b /\ books w !! b = Some bk /\
    fst (parsed_doc (index_path bk c)) = doc /\
    GetValue doc "Title" = (title, None) /\
    GetValue doc "Id" = (id, None) /\
    Contains id " " = false /\
    chapters w' !! chapter =
      Some (Chapter.mk id (Some b) (Chapter.ChapterDir c) (index_path bk c) doc title
                       ("ch-" +:+ id +:+ "-" +:+ MakeURLSafe title) arts
                       (Chapter.No c) (Chapter.AnalyticsCode c)) /\
    books w' = books w /\
    built w' chapter arts (article_files (chapter_dir bk c) (fst (ReadDir (chapter_dir bk c)))).
Proof.
  intros Hrun.
  destruct (chapters w !! chapter) as [c|] eqn:Hc.
  2: { unfold parseChapter in Hrun. unfold_M. unfold load_chapter at 1 in Hrun.
       rewrite Hc in Hrun. discriminate. }
  destruct (Chapter.Book c) as [b|] eqn:HB.
  2: { unfold parseChapter in Hrun. unfold_M. unfold load_chapter at 1 in Hrun.
       rewrite Hc in Hrun. unfold deref in Hrun. rewrite HB in Hrun. discriminate. }
  destruct (books w !! b) as [bk|] eqn:HBk.
  2: { unfold parseChapter in Hrun. unfold_M. unfold load_chapter at 1 in Hrun.
       rewrite Hc in Hrun. unfold deref, load_book in Hrun. rewrite HB, HBk in Hrun.
       discriminate. }
  destruct (parseChapter_tree chapter w _ w' c b bk Hc HB HBk Hrun) as [Hbooks Hends].
  unfold parseChapter_ends in Hends. cbv zeta in Hends.
  destruct (index_panic (index_path bk c)) as [e|];
    [destruct Hends as (Hr & _); discriminate|].
  unfold named, identified, titled in Hends. cbv zeta in Hends.
  destruct (GetValue _ "Title") as [title [eT|]] eqn:HT;
    [destruct Hends as (Hr & _); discriminate|].
  destruct (GetValue _ "Id") as [id [eI|]] eqn:HI;
    [destruct Hends as (Hr & _); discriminate|].
  destruct (Contains id " ") eqn:Hsp; [destruct Hends as (Hr & _); discriminate|].
  destruct Hends as [_ [(Hr & _)|(_ & arts & Hch & Hbuilt)]]; [now contradiction Hr|].
  exists c, b, bk, (fst (parsed_doc (index_path bk c))), title, id, arts.
  split; [reflexivity|]. split; [exact HB|]. split; [exact HBk|].
  split; [reflexivity|]. split; [exact HT|]. split; [exact HI|]. split; [exact Hsp|].
  split; [|split; [exact Hbooks|exact Hbuilt]].
  rewrite Hch. erewrite lookup_inserted by exact Hc. chapter_fields.
  rewrite HB. reflexivity.
Qed.

(** X14. A call of [parseChapter] that returns [nil] has filled the chapter
    from its index file [<book dir>/<chapter dir>/000-index.md]: the
    document is stored, title and ID are the values of its [Title] and [Id]
    entries, the ID has no space, and the file name base is
    ["ch-" + ID + "-" + MakeURLSafe(Title)]; directory, book and number are
    as before; and the chapter owns one article per article file of its
    directory. *)
Theorem parseChapter_success (chapter : loc) (w w' : World) :
  parseChapter chapter w = (Ret None, w') ->
  exists (c : Chapter.t) (b : loc) (bk : Book.t) (doc : Doc) (title id : string)
         (arts : list loc),
    chapters w !! chapter = Some c /\ Chapter.Book c = Some b /\ books w !! b = Some bk /\
    fst (parsed_doc (index_path bk c)) = doc /\
    GetValue doc "Title" = (title, None) /\
    GetValue doc "Id" = (id, None) /\
    Contains id " " = false /\
    chapters w' !! chapter =
      Some (Chapter.mk id (Some b) (Chapter.ChapterDir c) (index_path bk c) doc title
                       ("ch-" +:+ id +:+ "-" +:+ MakeURLSafe title) arts
                       (Chapter.No c) (Chapter.AnalyticsCode c)) /\
    length arts =
      length (article_files (chapter_dir bk c) (fst (ReadDir (chapter_dir bk c)))).
Proof.
  intros Hrun.
  destruct (parseChapter_filled chapter w w' Hrun)
    as (c & b & bk & doc & title & id & arts & Hc & HB & HBk & Hdoc & HT & HI & Hsp & Hch &
        _ & Hbuilt).
  exists c, b, bk, doc, title, id, arts. repeat (split; [assumption|]).
  symmetry. exact (proj1 (proj2 Hbuilt)).
Qed.

(** X15. An index file without a [Title] entry: when reading it did not
    panic, [parseChapter] returns the error [parseChapter('<index path>'),
    missing Title, err: ...] before it looks at the [Id] entry or at the
    directory.  The chapter has got its index path and document, and as
    title what [GetValue] answered; its ID, file name base and article list
    are as before, so that a chapter made by parseBook keeps the empty ID;
    no article is allocated. *)
Theorem parseChapter_missing_title (chapter : loc) (w : World) (c : Chapter.t) (b : loc)
    (bk : Book.t) (v : string) (e : error) :
  chapters w !! chapter = Some c ->
  Chapter.Book c = Some b ->
  books w !! b = Some bk ->
  index_panic (index_path bk c) = None ->
  GetValue (fst (parsed_doc (index_path bk c))) "Title" = (v, Some e) ->
  exists w',
    parseChapter chapter w =
      (Ret (Some ("parseChapter('" +:+ index_path bk c +:+ "'), missing Title, err: '" +:+
                  e +:+ "'")), w') /\
    chapters w' !! chapter =
      Some (Chapter.mk (Chapter.ID c) (Some b) (Chapter.ChapterDir c) (index_path bk c)
                       (fst (parsed_doc (index_path bk c))) v (Chapter.FileNameBase c)
                       (Chapter.Articles c) (Chapter.No c) (Chapter.AnalyticsCode c)) /\
    articles w' = articles w /\ books w' = books w.
Proof.
  intros Hc HB HBk Hgo HT.
  destruct (parseChapter chapter w) as [r w'] eqn:Hrun. exists w'.
  destruct (parseChapter_tree chapter w r w' c b bk Hc HB HBk Hrun) as [Hbooks Hends].
  unfold parseChapter_ends in Hends. cbv zeta in Hends.
  rewrite Hgo, HT in Hends. destruct Hends as (-> & Ha & Hch).
  split; [reflexivity|]. split; [|auto].
  rewrite Hch. erewrite lookup_inserted by exact Hc.
  unfold titled. cbv zeta. rewrite HT. chapter_fields. rewrite HB. reflexivity.
Qed.

(** X16. The error of [ioutil.ReadDir] on the chapter directory is never
    looked at.  When the listing that comes back holds no article file, as
    it does when the directory cannot be read, and the index file gave a
    title and an ID without space, [parseChapter] returns [nil] and the
    chapter has an empty article list. *)
Theorem parseChapter_no_article_files (chapter : loc) (w : World) (c : Chapter.t) (b : loc)
    (bk : Book.t) (title id : string) :
  chapters w !! chapter = Some c ->
  Chapter.Book c = Some b ->
  books w !! b = Some bk ->
  index_panic (index_path bk c) = None ->
  GetValue (fst (parsed_doc (index_path bk c))) "Title" = (title, None) ->
  GetValue (fst (parsed_doc (index_path bk c))) "Id" = (id, None) ->
  Contains id " " = false ->
  article_files (chapter_dir bk c) (fst (ReadDir (chapter_dir bk c))) = [] ->
  exists w',
    parseChapter chapter w = (Ret None, w') /\
    exists c1, chapters w' !! chapter = Some c1 /\
      Chapter.Articles c1 = [] /\ Chapter.ID c1 = id /\ Chapter.Title c1 = title.
Proof.
  intros Hc HB HBk Hgo HT HI Hsp Hnone.
  destruct (parseChapter chapter w) as [r w'] eqn:Hrun. exists w'.
  destruct (parseChapter_tree chapter w r w' c b bk Hc HB HBk Hrun) as [Hbooks Hends].
  unfold parseChapter_ends in Hends. cbv zeta in Hends.
  rewrite Hgo, HT, HI, Hsp in Hends.
  destruct Hends as [_ [(_ & _ & Hfiles)|(-> & arts & Hch & Hbuilt)]]; [contradiction|].
  split; [reflexivity|].
  eexists. split; [rewrite Hch; eapply lookup_inserted; exact Hc|].
  destruct Hbuilt as (_ & Hlen & _). rewrite Hnone in Hlen.
  destruct arts; [|discriminate].
  unfold named, identified, titled. cbv zeta. rewrite HT, HI. chapter_fields. auto.
Qed.

(** *** Sibling copies, plain files and contributors *)

(** The sibling lists that [buildArticleSiblings] attaches. *)
Lemma buildArticleSiblings_copies_run (arts : list loc) (vals : list Article.t) (w : World) :
  NoDup arts ->
  Forall2 (fun p a => articles w !! p = Some a) arts vals ->
  exists w',
    buildArticleSiblings arts w = (Ret tt, w') /\
    same_but_articles w w' /\
    (forall p, p ∉ arts -> articles w' !! p = articles w !! p) /\
    (forall i p a, arts !! i = Some p -> vals !! i = Some a ->
       exists sibs,
         articles w' !! p = Some (Article.with_Siblings sibs a) /\
         length sibs = length arts /\
         forall j b, vals !! j = Some b -> sibs !! j = Some (sibling_copy i j b)).
Proof.
  intros Hnd Hvals.
  unfold buildArticleSiblings. unfold_M.
  rewrite (buildArticleSiblings_template_run arts vals w Hvals). simpl.
  pose proof (Forall2_length _ _ _ Hvals) as Hlen.
  destruct (buildArticleSiblings_attach_run arts 0 w (template_of 0 vals) Hnd)
    as (w' & Hrun & Hsame & Hout & Hin).
  { apply Forall_forall. intros p Hp. apply list_elem_of_lookup in Hp as [k Hk].
    destruct (Forall2_lookup_l _ _ _ _ _ Hvals Hk) as (a & _ & Ha). eauto. }
  { rewrite template_of_length. lia. }
  exists w'. split; [exact Hrun|]. split; [exact Hsame|]. split; [exact Hout|].
  intros i p a Hi Ha.
  destruct (Hin i p Hi) as (a0 & s & Ha0 & Hs & Hp). simpl in Hs, Hp.
  destruct (Forall2_lookup_l _ _ _ _ _ Hvals Hi) as (a1 & Ha1 & Hpa).
  assert (a1 = a) by congruence. subst a1.
  assert (a0 = a) by congruence. subst a0.
  rewrite template_of_lookup, Ha in Hs. simpl in Hs. inversion Hs; subst s.
  eexists. split; [exact Hp|]. split.
  - rewrite length_insert, template_of_length. lia.
  - intros j b Hb. unfold sibling_copy. destruct (decide (j = i)) as [->|Hne].
    + rewrite list_lookup_insert_eq
        by (rewrite template_of_length; apply lookup_lt_Some in Ha; lia).
      assert (b = a) by congruence. subst b.
      now rewrite bool_decide_eq_true_2.
    + rewrite list_lookup_insert_ne by congruence.
      rewrite template_of_lookup, Hb. simpl.
      rewrite bool_decide_eq_false_2 by exact Hne.
      now destruct b.
Qed.

(** X17. [buildArticleSiblings] on distinct articles gives each of them a
    list with one entry per article of the list, in the order of the list:
    entry [j] is a copy of article [j] as it was before the call (so with the
    sibling list it had then), with [No = j + 1]; only the article's own
    entry is changed further, to [IsCurrent = true].  The article itself is
    changed in its [Siblings] field only, and nothing else in the heap is
    touched. *)
Theorem buildArticleSiblings_copies (arts : list loc) (vals : list Article.t) (w : World) :
  NoDup arts ->
  Forall2 (fun p a => articles w !! p = Some a) arts vals ->
  exists w',
    buildArticleSiblings arts w = (Ret tt, w') /\
    same_but_articles w w' /\
    (forall p, p ∉ arts -> articles w' !! p = articles w !! p) /\
    (forall i p a, arts !! i = Some p -> vals !! i = Some a ->
       exists sibs,
         articles w' !! p = Some (Article.with_Siblings sibs a) /\
         length sibs = length arts /\
         forall j b, vals !! j = Some b -> sibs !! j = Some (sibling_copy i j b)).
Proof. apply buildArticleSiblings_copies_run. Qed.

(** X18. A file that can be read and in which no line starts with [@file ]
    (the word and one space) comes back from [processFileIncludes] as it is,
    line for line, without an error; nothing is printed and the snippet
    extractor plays no part. *)
Theorem processFileIncludes_plain (path : string) (lines : list string) (w : World) :
  ReadFileAsLines path = (lines, None) ->
  Forall (fun line => HasPrefix line "@file " = false) lines ->
  processFileIncludes path w = (Ret (lines, None), w).
Proof.
  intros Hread Hplain. unfold processFileIncludes. rewrite Hread.
  rewrite processFileIncludes_loop_run. clear Hread.
  assert (Hnone : include_error (filepath_Dir path) lines = None /\
                  flat_map (expand_line (filepath_Dir path)) lines = lines).
  { induction Hplain as [|line rest Hline _ IH]; [auto|]. simpl.
    unfold expand_line at 1. rewrite Hline. destruct IH as [-> ->]. auto. }
  destruct Hnone as [-> ->]. reflexivity.
Qed.

Lemma loadSoContributorsMust_loop_returns (lines : list string) : forall cs w r w',
  loadSoContributorsMust_loop lines cs w = (r, w') ->
  (exists msg, r = Panic msg) \/
  (r = Ret (cs ++ map contributor_of (List.filter is_listed lines)) /\
   Forall good_line lines).
Proof.
  induction lines as [|line lines IH]; intros cs w r w' Hrun; simpl in Hrun; unfold_M.
  - inversion Hrun; subst. right. simpl. rewrite app_nil_r. auto.
  - unfold good_line, contributor_of, is_listed, line_name in *. simpl.
    destruct (Atoi line) as [id [e|]] eqn:Hid; simpl in *;
      [inversion Hrun; subst; left; eauto|].
    unfold PanicIf in Hrun. unfold_M.
    destruct (String.eqb (soUserIDToNameMap id) "") eqn:Hname;
      [inversion Hrun; subst; left; eauto|].
    apply String.eqb_neq in Hname.
    destruct (String.eqb (soUserIDToNameMap id) "user_deleted") eqn:Hdel; simpl.
    + apply String.eqb_eq in Hdel.
      destruct (IH _ _ _ _ Hrun) as [Hp|[Hr Hall]]; [left; exact Hp|].
      right. split; [exact Hr|]. constructor; [|exact Hall].
      rewrite Hid. simpl. split; [reflexivity|]. split; [exact Hname|]. intros Hne.
      contradiction.
    + destruct (PathUnescape (soUserIDToNameMap id)) as [name [e|]] eqn:Hun; simpl in Hrun;
        [inversion Hrun; subst; left; eauto|].
      destruct (IH _ _ _ _ Hrun) as [Hp|[Hr Hall]]; [left; exact Hp|].
      right. split.
      * rewrite Hr, <- app_assoc. simpl. rewrite Hid. simpl. rewrite Hun. reflexivity.
      * constructor; [|exact Hall]. rewrite Hid. simpl. rewrite Hun. auto.
Qed.

(** X19. When [loadSoContributorsMust] returns, the file was read, every
    line of it is a number whose user is in the table (and, unless deleted,
    has a name that can be unescaped), and the book has got new contributors
    in place of those it had: one per line whose user is not
    [user_deleted] (ID from the line, URL part from the table, name
    unescaped), no more and no fewer, in the order of their names, given
    that [sort.Slice] sorts.  Nothing else in the heap has changed. *)
Theorem loadSoContributorsMust_returns (book : loc) (path : string) (w w' : World) :
  sorts_by_name ->
  loadSoContributorsMust book path w = (Ret tt, w') ->
  exists (lines : list string) (bk : Book.t) (cs : list SoContributor),
    ReadFileAsLines path = (lines, None) /\
    Forall good_line lines /\
    books w !! book = Some bk /\
    w' = set_books (<[book := Book.with_SoContributors cs bk]> (books w)) w /\
    cs ≡ₚ map contributor_of (List.filter is_listed lines) /\
    name_sorted cs.
Proof.
  intros Hsort.
  unfold loadSoContributorsMust. destruct (ReadFileAsLines path) as [lines [e|]];
    unfold_M; simpl; intros Hrun; [discriminate|].
  destruct (loadSoContributorsMust_loop lines [] w) as [o w1] eqn:E.
  pose proof (loadSoContributorsMust_loop_frame _ _ _ _ _ E) as ->.
  destruct (loadSoContributorsMust_loop_returns _ _ _ _ _ E) as [[msg ->]|[-> Hall]];
    [discriminate|].
  simpl in Hrun. unfold update_book in Hrun.
  destruct (books w !! book) as [bk|] eqn:Hb; [|discriminate].
  inversion Hrun; subst w'.
  destruct (Hsort (map contributor_of (List.filter is_listed lines))) as [Hperm Hsorted].
  exists lines, bk, (sort_Slice (map contributor_of (List.filter is_listed lines)) by_name).
  split; [reflexivity|]. split; [exact Hall|]. split; [reflexivity|].
  split; [reflexivity|]. split; [exact Hperm | exact Hsorted].
Qed.

(** X20. [loadSoContributorsMust] either returns or panics, it never exits;
    and when it panics (the file cannot be read, a line is not a number, an
    ID is not in the table, a name cannot be unescaped, or the book pointer
    is nil) it leaves everything as it was: the contributors of the book
    are not partly replaced. *)
Theorem loadSoContributorsMust_panics_clean (book : loc) (path : string) (w w' : World)
    (r : outcome unit) :
  loadSoContributorsMust book path w = (r, w') ->
  r <> Ret tt ->
  w' = w /\ exists msg, r = Panic msg.
Proof.
  unfold loadSoContributorsMust. destruct (ReadFileAsLines path) as [lines [e|]];
    unfold_M; simpl; intros Hrun Hfail.
  - inversion Hrun; subst. eauto.
  - destruct (loadSoContributorsMust_loop lines [] w) as [o w1] eqn:E.
    pose proof (loadSoContributorsMust_loop_frame _ _ _ _ _ E) as ->.
    destruct (loadSoContributorsMust_loop_returns _ _ _ _ _ E) as [[msg ->]|[-> Hall]].
    + inversion Hrun; subst. eauto.
    + simpl in Hrun. unfold update_book in Hrun.
      destruct (books w !! book) as [bk|] eqn:Hb.
      * inversion Hrun; subst. contradiction.
      * inversion Hrun; subst. eauto.
Qed.

Lemma foldl_snoc_map {A B} (f : A -> B) (l : list A) : forall acc,
  foldl (fun (acc : list B) x => acc ++ [f x]) acc l = acc ++ map f l.
Proof.
  induction l as [|x l IH]; intros acc; simpl; [now rewrite app_nil_r|].
  rewrite IH, <- app_assoc. reflexivity.
Qed.

(** X21. The markdown of the Contributors chapter is empty exactly when the
    book has no contributor.  Otherwise it is three header lines followed by
    one bullet per contributor, in the order of the list, joined by line
    feeds; the link of a bullet is [soContributorURL] of the ID and the
    unescaped name, not the URL part of the table. *)
Theorem genContributorsMarkdown_lines (cs : list SoContributor) :
  (genContributorsMarkdown cs = "" <-> cs = []) /\
  (cs <> [] ->
   genContributorsMarkdown cs =
   Join ([ "Contributors from [GitHub](https://github.com/essentialbooks/books/graphs/contributors)";
           "";
           "Contributors from Stack Overflow:" ] ++ map contributor_bullet cs) nl).
Proof.
  assert (Hne : cs <> [] ->
    genContributorsMarkdown cs =
    Join ([ "Contributors from [GitHub](https://github.com/essentialbooks/books/graphs/contributors)";
            "";
            "Contributors from Stack Overflow:" ] ++ map contributor_bullet cs) nl).
  { intros Hcs. unfold genContributorsMarkdown.
    rewrite bool_decide_eq_false_2
      by (unfold len; destruct cs; [contradiction|simpl; lia]).
    cbv zeta. now rewrite (foldl_snoc_map contributor_bullet). }
  split; [|exact Hne]. split.
  - intros Hempty. destruct cs as [|c cs]; [reflexivity|].
    rewrite Hne in Hempty by discriminate. discriminate.
  - intros ->. reflexivity.
Qed.

(** *** Links of a parsed book *)

Lemma string_app_cons (x : ascii) (a b : string) : String x a +:+ b = String x (a +:+ b).
Proof. reflexivity. Qed.

Lemma string_app_assoc (a b c : string) : (a +:+ b) +:+ c = a +:+ (b +:+ c).
Proof.
  induction a as [|x a IH]; [reflexivity|]. now rewrite !string_app_cons, IH.
Qed.

Lemma string_app_inv_head (a b c : string) : a +:+ b = a +:+ c -> b = c.
Proof. apply String.app_inj. Qed.

(** X25. The links of a table of contents are those of the articles.
    After [buildArticleSiblings] on distinct articles, entry [j] of the
    sibling list of any article of the list has the ID, title and number
    [j + 1] of article [j], and the methods [URL], [CanonnicalURL] and
    [destFilePath] answer on the copy what they answer on article [j]
    itself. *)
Theorem sibling_links (arts : list loc) (vals : list Article.t) (w w' : World)
    (i j : nat) (p q : loc) (ai aj s : Article.t) :
  NoDup arts ->
  Forall2 (fun p a => articles w !! p = Some a) arts vals ->
  buildArticleSiblings arts w = (Ret tt, w') ->
  arts !! i = Some p -> arts !! j = Some q ->
  articles w' !! p = Some ai -> articles w' !! q = Some aj ->
  Article.Siblings ai !! j = Some s ->
  Article.ID s = Article.ID aj /\
  Article.Title s = Article.Title aj /\
  Article.No s = Z.of_nat j + 1 /\
  forall u : World,
    Article_URL s u = Article_URL aj u /\
    Article_CanonnicalURL s u = Article_CanonnicalURL aj u /\
    Article_destFilePath s u = Article_destFilePath aj u.
Proof.
  intros Hnd Hvals Hrun Hi Hj Hai Haj Hs.
  destruct (buildArticleSiblings_copies_run arts vals w Hnd Hvals)
    as (w1 & Hrun1 & _ & _ & Hin).
  rewrite Hrun in Hrun1. inversion Hrun1; subst w1. clear Hrun1.
  destruct (Forall2_lookup_l _ _ _ _ _ Hvals Hi) as (a & Ha & _).
  destruct (Forall2_lookup_l _ _ _ _ _ Hvals Hj) as (b & Hb & _).
  destruct (Hin i p a Hi Ha) as (sibs & Hai' & _ & Hsibs).
  destruct (Hin j q b Hj Hb) as (sibs' & Haj' & _ & _).
  assert (ai = Article.with_Siblings sibs a) by congruence. subst ai.
  assert (aj = Article.with_Siblings sibs' b) by congruence. subst aj.
  simpl in Hs. rewrite (Hsibs j b Hb) in Hs. inversion Hs; subst s. clear Hs.
  unfold sibling_copy. simpl. repeat split; reflexivity.
Qed.

(** X26. [ContributorsURL] is not the URL of the Contributors chapter.  For
    a book whose [titleSafe] and [FileNameBase] agree, as parseBook makes
    them, the chapter that [genContributorsChapter] creates answers
    [/essential/<book>/ch-contributors] to [URL], while [ContributorsURL] of
    the book appends to the book URL, which ends in a slash, and answers
    [/essential/<book>//ch-contributors]. *)
Theorem contributors_link_mismatch (book : loc) (w : World) (bk : Book.t) :
  books w !! book = Some bk ->
  Book.titleSafe bk = Book.FileNameBase bk ->
  exists (ch : loc) (w' : World) (c : Chapter.t),
    genContributorsChapter book w = (Ret ch, w') /\
    chapters w' !! ch = Some c /\
    Chapter_URL c w' =
      (Ret ("/essential/" +:+ Book.titleSafe bk +:+ "/ch-contributors"), w') /\
    Book_ContributorsURL bk = "/essential/" +:+ Book.titleSafe bk +:+ "//ch-contributors" /\
    Book_ContributorsURL bk <> "/essential/" +:+ Book.titleSafe bk +:+ "/ch-contributors".
Proof.
  intros Hb Hsafe. unfold genContributorsChapter. unfold_M.
  unfold load_book at 1. rewrite Hb. unfold new_chapter.
  eexists _, _, _. split; [reflexivity|]. simpl.
  split; [rewrite lookup_app_r by lia; rewrite Nat.sub_diag; reflexivity|].
  assert (Hurl : Book_ContributorsURL bk =
                 "/essential/" +:+ Book.titleSafe bk +:+ "//ch-contributors").
  { unfold Book_ContributorsURL, Book_URL.
    rewrite (string_app_assoc "/essential/" (Book.titleSafe bk +:+ "/") "/ch-contributors").
    rewrite (string_app_assoc (Book.titleSafe bk) "/" "/ch-contributors"). reflexivity. }
  split; [|split; [exact Hurl|]].
  - unfold Chapter_URL. unfold_M. simpl. unfold load_book. simpl. rewrite Hb.
    rewrite Hsafe. reflexivity.
  - rewrite Hurl. intros E.
    apply (string_app_inv_head "/essential/") in E.
    apply (string_app_inv_head (Book.titleSafe bk)) in E. discriminate.
Qed.

(** X27. After a call of [parseChapter] that returns [nil], the link
    methods of the chapter and of all its articles are defined (no nil
    pointer is met) and lead into the book: the chapter answers
    [/essential/<book>/ch-<ID>-<slug of the title>] to [URL], each article
    [/essential/<book>/<its file name base>], and [destFilePath] is the
    file of that name with [.html] under the directory of the book. *)
Theorem parsed_chapter_links (chapter : loc) (w w' : World) :
  parseChapter chapter w = (Ret None, w') ->
  exists (c : Chapter.t) (bk : Book.t),
    chapters w' !! chapter = Some c /\
    Chapter_URL c w' =
      (Ret ("/essential/" +:+ Book.FileNameBase bk +:+ "/ch-" +:+ Chapter.ID c +:+ "-" +:+
            MakeURLSafe (Chapter.Title c)), w') /\
    Chapter_destFilePath c w' =
      (Ret (filepath_Join [destEssentialDir; Book.FileNameBase bk;
                           Chapter.FileNameBase c +:+ ".html"]), w') /\
    forall k p, Chapter.Articles c !! k = Some p ->
      exists a, articles w' !! p = Some a /\
        Article_URL a w' =
          (Ret ("/essential/" +:+ Book.FileNameBase bk +:+ "/" +:+ Article.FileNameBase a), w') /\
        Article_CanonnicalURL a w' =
          (Ret ("https://www.programming-books.io" +:+ "/essential/" +:+
                Book.FileNameBase bk +:+ "/" +:+ Article.FileNameBase a), w') /\
        Article_destFilePath a w' =
          (Ret (filepath_Join [destEssentialDir; Book.FileNameBase bk;
                               Article.FileNameBase a +:+ ".html"]), w').
Proof.
  intros Hrun.
  destruct (parseChapter_filled chapter w w' Hrun)
    as (c & b & bk & doc & title & id & arts & Hc & HB & HBk & Hdoc & HT & HI & Hsp & Hch &
        Hbooks & Hbuilt).
  eexists _, bk. split; [exact Hch|].
  assert (Hbk' : books w' !! b = Some bk) by (rewrite Hbooks; exact HBk).
  split; [|split].
  - unfold Chapter_URL. unfold_M. simpl. unfold load_book. rewrite Hbk'. reflexivity.
  - unfold Chapter_destFilePath. unfold_M. simpl. unfold load_book. rewrite Hbk'.
    reflexivity.
  - simpl. intros k p Hk.
    destruct (proj2 (proj2 Hbuilt) k p Hk) as (a & Ha & _ & Hchap & _).
    exists a. split; [exact Ha|].
    assert (Hurl : Article_URL a w' =
              (Ret ("/essential/" +:+ Book.FileNameBase bk +:+ "/" +:+ Article.FileNameBase a),
               w')).
    { unfold Article_URL. unfold_M. rewrite Hchap. simpl. unfold load_chapter.
      rewrite Hch. simpl. unfold load_book. rewrite Hbk'. reflexivity. }
    split; [exact Hurl|]. split.
    + unfold Article_CanonnicalURL. unfold_M. rewrite Hurl. reflexivity.
    + unfold Article_destFilePath, Article_Book. unfold_M. rewrite Hchap. simpl.
      unfold load_chapter. rewrite Hch. simpl. unfold load_book. rewrite Hbk'. reflexivity.
Qed.

(** ** The generator *)

Section PageProofs.
Context `{Renderers}.

(** *** Templates and files *)

Ltac unfold_R :=
  unfold R_PanicIfErr in *;
  unfold mbind, R_mbind, R_bind, mret, R_mret, R_ret, R_panic, R_exit in *.

Lemma parsed_paths_app evs1 evs2 :
  parsed_paths (evs1 ++ evs2) = parsed_paths evs1 ++ parsed_paths evs2.
Proof. unfold parsed_paths. apply omap_app. Qed.

Lemma template_ref_name name ref : template_ref name = Some ref -> name = ref_name ref.
Proof.
  unfold template_ref.
  repeat match goal with
         | |- context [String.eqb name ?x] =>
             destruct (String.eqb_spec name x) as [->|_];
             [intros E; inversion E; subst; reflexivity|]
         end.
  discriminate.
Qed.

Lemma read_write_ref ref ref' t s :
  read_ref ref' (store_ref ref t s) = if decide (ref' = ref) then t else read_ref ref' s.
Proof. destruct ref, ref'; reflexivity. Qed.

(** What a call of [loadTemplateMust] does: a template that is loaded is
    handed back without any call; one that is not is parsed, once. *)
Lemma loadTemplateMust_run (name : string) (s : Site) :
  loadTemplateMust name s =
  match template_ref name with
  | None =>
      (Exit 1, mkSite (heap s) (indexTmpl s) (bookIndexTmpl s) (chapterTmpl s)
                      (articleTmpl s) (aboutTmpl s)
                      (events s ++ [EFatalf ("unknown template '" +:+ name +:+ "'" +:+ nl)]))
  | Some ref =>
      match read_ref ref s with
      | Some t => (Ret (Some t), s)
      | None =>
          let s1 := mkSite (heap s) (indexTmpl s) (bookIndexTmpl s) (chapterTmpl s)
                           (articleTmpl s) (aboutTmpl s)
                           (events s ++ [EParseFiles (tmplPath name)]) in
          match ParseFiles (tmplPath name) with
          | (_, Some e) => (Panic e, s1)
          | (t, None) => (Ret t, store_ref ref t s1)
          end
      end
  end.
Proof.
  unfold loadTemplateMust. destruct (template_ref name) as [ref|]; [|reflexivity].
  unfold loadTemplateHelperMust. destruct (read_ref ref s) as [t|]; [reflexivity|].
  unfold_R. unfold emit. cbv zeta.
  destruct (ParseFiles (tmplPath name)) as [t [e|]]; reflexivity.
Qed.

Lemma count_articles_returns (bs : list loc) : forall w,
  count_articles bs w = (Ret tt, snd (count_articles bs w)).
Proof. induction bs as [|b bs IH]; intros w; simpl; [reflexivity|]. now rewrite IH. Qed.

Lemma lift_run {A} (m : M A) (s : Site) :
  lift m s = (fst (m (heap s)), with_heap (snd (m (heap s))) s).
Proof. unfold lift, with_heap. destruct (m (heap s)); reflexivity. Qed.

Lemma execTemplateToFileSilentMust_run name data path s :
  execTemplateToFileSilentMust name data path s = page_run name data path s.
Proof.
  unfold execTemplateToFileSilentMust, page_run, createDirForFileMust. unfold_R.
  unfold emit at 1. fold (add_events [EMkdirAll (filepath_Dir path)] s).
  destruct (MkdirAll (filepath_Dir path)) as [e|]; [reflexivity|].
  destruct (loadTemplateMust name _) as [[tmpl|msg|code] s1]; [|reflexivity|reflexivity].
  unfold emit at 1. fold (add_events [ECreate path] s1).
  destruct (Create path) as [e|]; [reflexivity|].
  destruct tmpl as [t|]; [|reflexivity].
  cbn [heap add_events]. destruct (Execute t data (heap s1)) as [[output err] counted].
  rewrite lift_run, count_articles_returns. cbn [fst snd heap add_events with_heap].
  destruct err as [e|];
    unfold emit, add_events, with_heap; simpl; rewrite <- app_assoc; reflexivity.
Qed.

Lemma books_cached_refl (bs : list Book.t) : books_cached bs bs.
Proof.
  apply Forall2_same_length_lookup. split; [reflexivity|].
  intros i x y Hx Hy. assert (y = x) by congruence. subst y.
  exists (Book.cachedArticlesCount x). now destruct x.
Qed.

Lemma books_cached_trans (b1 b2 b3 : list Book.t) :
  books_cached b1 b2 -> books_cached b2 b3 -> books_cached b1 b3.
Proof.
  intros H12 H23. revert b3 H23.
  induction H12 as [|x y l k [n ->] _ IH]; intros b3 H23.
  - inversion H23; subst. constructor.
  - inversion H23 as [|? z ? k' [m Hz] Hrest]; subst.
    constructor; [|now apply IH]. exists m. now destruct x.
Qed.

Lemma books_cached_lookup (bs bs' : list Book.t) (b : loc) :
  books_cached bs bs' ->
  match bs !! b with
  | Some bk => exists n, bs' !! b = Some (Book.with_cachedArticlesCount n bk)
  | None => bs' !! b = None
  end.
Proof.
  intros Hc. destruct (bs !! b) as [bk|] eqn:Hb.
  - destruct (Forall2_lookup_l _ _ _ _ _ Hc Hb) as (bk' & Hb' & n & ->). eauto.
  - apply lookup_ge_None. rewrite <- (Forall2_length _ _ _ Hc). now apply lookup_ge_None.
Qed.

Lemma caches_only_refl (w : World) : caches_only w w.
Proof. unfold caches_only. auto using books_cached_refl. Qed.

Lemma caches_only_trans (w1 w2 w3 : World) :
  caches_only w1 w2 -> caches_only w2 w3 -> caches_only w1 w3.
Proof.
  intros (Ha & Hc & Ho & He & Hb) (Ha' & Hc' & Ho' & He' & Hb').
  unfold caches_only. repeat split; try congruence.
  eapply books_cached_trans; eauto.
Qed.

Lemma ArticlesCount_loop_heap (chs : list loc) : forall n w,
  snd (ArticlesCount_loop chs n w) = w.
Proof.
  induction chs as [|ch chs IH]; intros n w; simpl; unfold_M; [reflexivity|].
  unfold load_chapter. destruct (chapters w !! ch); [apply IH | reflexivity].
Qed.

(** [Book.ArticlesCount] writes the cache of its book and nothing else. *)
Lemma ArticlesCount_caches (b : loc) (w : World) : caches_only w (snd (ArticlesCount b w)).
Proof.
  unfold ArticlesCount. unfold_M. unfold load_book.
  destruct (books w !! b) as [bk|] eqn:Hb; [|apply caches_only_refl].
  destruct (negb (Z.eqb (Book.cachedArticlesCount bk) 0)); [apply caches_only_refl|].
  pose proof (ArticlesCount_loop_heap (Book.Chapters bk) 0 w) as Hloop.
  destruct (ArticlesCount_loop (Book.Chapters bk) 0 w) as [[n|msg|code] w1];
    simpl in Hloop; subst w1; [|apply caches_only_refl|apply caches_only_refl].
  unfold update_book. rewrite Hb. cbn [snd].
  unfold caches_only. cbn [articles chapters books stdout softErrors].
  repeat split; auto.
  apply Forall2_same_length_lookup. split; [now rewrite length_insert|].
  intros i x y Hx Hy. destruct (decide (i = b)) as [->|Hne].
  - rewrite list_lookup_insert_eq in Hy by (now apply lookup_lt_Some in Hb).
    assert (x = bk) by congruence. subst x. inversion Hy; subst y. eauto.
  - rewrite list_lookup_insert_ne in Hy by congruence.
    assert (y = x) by congruence. subst y.
    exists (Book.cachedArticlesCount x). now destruct x.
Qed.

Lemma count_articles_caches (bs : list loc) : forall w,
  caches_only w (snd (count_articles bs w)).
Proof.
  induction bs as [|b bs IH]; intros w; simpl; [apply caches_only_refl|].
  eapply caches_only_trans; [apply ArticlesCount_caches | apply IH].
Qed.

Lemma read_ref_add_events ref evs s : read_ref ref (add_events evs s) = read_ref ref s.
Proof. destruct ref; reflexivity. Qed.

Lemma read_ref_with_heap ref w s : read_ref ref (with_heap w s) = read_ref ref s.
Proof. destruct ref; reflexivity. Qed.

(** The template that [loadTemplateMust] hands back is the one that the
    package variable of that name holds afterwards. *)
Lemma loadTemplateMust_loaded name s tmpl s' :
  loadTemplateMust name s = (Ret tmpl, s') ->
  exists ref, template_ref name = Some ref /\ read_ref ref s' = tmpl.
Proof.
  rewrite loadTemplateMust_run. destruct (template_ref name) as [ref|]; [|discriminate].
  destruct (read_ref ref s) as [t|] eqn:Hslot.
  - intros E; inversion E; subst. eauto.
  - cbv zeta. destruct (ParseFiles (tmplPath name)) as [t [e|]]; [discriminate|].
    intros E; injection E as <- <-. exists ref. split; [reflexivity|].
    rewrite read_write_ref. now rewrite decide_True.
Qed.

Lemma loadTemplateMust_heap name s o s' :
  loadTemplateMust name s = (o, s') ->
  heap s' = heap s /\ exists evs, events s' = events s ++ evs /\
    forall e, e ∈ evs -> (exists p, e = EParseFiles p) \/ (exists m, e = EFatalf m).
Proof.
  rewrite loadTemplateMust_run. destruct (template_ref name) as [ref|].
  - destruct (read_ref ref s) as [t|].
    + intros E; inversion E; subst. split; [reflexivity|]. exists [].
      rewrite app_nil_r. split; [reflexivity|]. intros e He. now apply not_elem_of_nil in He.
    + cbv zeta. destruct (ParseFiles (tmplPath name)) as [t [e|]]; intros E;
        inversion E; subst; (split; [destruct ref; reflexivity|]);
        (exists [EParseFiles (tmplPath name)]; split; [destruct ref; reflexivity|]);
        intros e' He; apply list_elem_of_singleton in He; subst; eauto.
  - intros E; inversion E; subst. split; [reflexivity|]. eexists. split; [reflexivity|].
    intros e' He; apply list_elem_of_singleton in He; subst; eauto.
Qed.

(** X22. An unknown template name ends the process: [loadTemplateMust]
    reports it through [log.Fatalf] and exits with status 1, before any
    template file is parsed.  [execTemplateToFileSilentMust] checks the name
    only after it has made the destination directory: with an unknown name
    and a directory that can be made, it calls [os.MkdirAll], then exits
    with status 1, and creates no file. *)
Theorem unknown_template_exits (name : string) (data : Data) (path : string) (s : Site) :
  template_ref name = None ->
  let fatal := EFatalf ("unknown template '" +:+ name +:+ "'" +:+ nl) in
  loadTemplateMust name s = (Exit 1, add_events [fatal] s) /\
  (MkdirAll (filepath_Dir path) = None ->
   execTemplateToFileSilentMust name data path s =
     (Exit 1, add_events [EMkdirAll (filepath_Dir path); fatal] s)).
Proof.
  intros Href fatal. split.
  - rewrite loadTemplateMust_run, Href. reflexivity.
  - intros Hdir. rewrite execTemplateToFileSilentMust_run. unfold page_run.
    rewrite Hdir. cbv zeta. rewrite loadTemplateMust_run, Href.
    unfold add_events. simpl. rewrite <- app_assoc. reflexivity.
Qed.

(** What a page run does to the heap: nothing, unless the template is
    executed. *)
Lemma page_run_caches name data path s :
  caches_only (heap s) (heap (snd (page_run name data path s))).
Proof.
  unfold page_run. cbv zeta.
  destruct (MkdirAll (filepath_Dir path)); [apply caches_only_refl|].
  destruct (loadTemplateMust name _) as [o1 s1] eqn:Hload.
  destruct (loadTemplateMust_heap _ _ _ _ Hload) as [Hheap _]. simpl in Hheap.
  destruct o1 as [tmpl|msg|code]; cbn [snd]; [|rewrite Hheap; apply caches_only_refl..].
  destruct (Create path); [cbn [snd heap add_events]; rewrite Hheap; apply caches_only_refl|].
  destruct tmpl as [t|]; [|cbn [snd heap add_events]; rewrite Hheap; apply caches_only_refl].
  cbn [heap add_events]. destruct (Execute t data (heap s1)) as [[output err] counted].
  cbn [snd heap add_events with_heap]. rewrite Hheap. apply count_articles_caches.
Qed.

(** X23. [execTemplateToFileSilentMust] writes to the heap only by
    executing the template, and all that this can change is the article
    count cached in books: articles, chapters and every other field of a
    book are as before.  It closes every file it has created: when
    [os.Create] succeeds, the last call it makes is the [Close] of that
    file, also when executing the template fails and the function panics;
    when [os.Create] fails or is not reached, nothing is closed.  When it
    returns, the template that the package variable for the name now holds
    was executed on the heap as it was when the call began, without
    error, its output was written to the file, and the heap is what the
    template's calls of [ArticlesCount] have made of it. *)
Theorem page_file_closed (name : string) (data : Data) (path : string) (s s' : Site)
    (o : outcome unit) :
  execTemplateToFileSilentMust name data path s = (o, s') ->
  caches_only (heap s) (heap s') /\
  exists evs, events s' = events s ++ evs /\
    ((forall output, EExecute path output ∉ evs) -> heap s' = heap s) /\
    (ECreate path ∈ evs -> Create path = None -> last evs = Some (EClose path)) /\
    (EClose path ∈ evs -> ECreate path ∈ evs /\ Create path = None) /\
    (o = Ret tt ->
     exists pre ref t output counted,
       template_ref name = Some ref /\ read_ref ref s' = Some t /\
       evs = pre ++ [ECreate path; EExecute path output; EClose path] /\
       Execute t data (heap s) = (output, None, counted) /\
       heap s' = snd (count_articles counted (heap s))).
Proof.
  rewrite execTemplateToFileSilentMust_run. intros Hrun. split.
  { pose proof (page_run_caches name data path s) as Hc. now rewrite Hrun in Hc. }
  revert Hrun. unfold page_run. cbv zeta.
  destruct (MkdirAll (filepath_Dir path)) as [e|].
  { intros E; inversion E; subst. eexists. split; [reflexivity|].
    split; [reflexivity|].
    split; [|split]; try discriminate; intros Hin; apply list_elem_of_singleton in Hin;
      discriminate. }
  destruct (loadTemplateMust name _) as [o1 s1] eqn:Hload.
  destruct (loadTemplateMust_heap _ _ _ _ Hload) as (Hheap & evs1 & Hev1 & Hkinds).
  simpl in Hheap, Hev1.
  assert (Hno : forall e, e ∈ EMkdirAll (filepath_Dir path) :: evs1 ->
                          e <> ECreate path /\ e <> EClose path).
  { intros e He. apply elem_of_cons in He as [->|He]; [split; discriminate|].
    destruct (Hkinds e He) as [[p ->]|[m ->]]; split; discriminate. }
  assert (Hearly : forall o0, o0 <> Ret tt -> (o0, s1) = (o, s') ->
    exists evs, events s' = events s ++ evs /\
      ((forall output, EExecute path output ∉ evs) -> heap s' = heap s) /\
      (ECreate path ∈ evs -> Create path = None -> last evs = Some (EClose path)) /\
      (EClose path ∈ evs -> ECreate path ∈ evs /\ Create path = None) /\
      (o = Ret tt ->
       exists pre ref t output counted,
         template_ref name = Some ref /\ read_ref ref s' = Some t /\
         evs = pre ++ [ECreate path; EExecute path output; EClose path] /\
         Execute t data (heap s) = (output, None, counted) /\
         heap s' = snd (count_articles counted (heap s)))).
  { intros o0 Hne E. inversion E; subst.
    exists (EMkdirAll (filepath_Dir path) :: evs1).
    split; [rewrite Hev1, <- app_assoc; reflexivity|].
    split; [intros _; exact Hheap|].
    split; [intros Hin; destruct (Hno _ Hin) as [Hc _]; now contradiction Hc|].
    split; [intros Hin; destruct (Hno _ Hin) as [_ Hc]; now contradiction Hc|].
    intros ->. now contradiction Hne. }
  destruct o1 as [tmpl|msg|code]; [|apply Hearly; discriminate|apply Hearly; discriminate].
  clear Hearly.
  destruct (loadTemplateMust_loaded _ _ _ _ Hload) as (ref & Href & Hslot).
  destruct (Create path) as [e|] eqn:Hcreate.
  { intros E; inversion E; subst.
    exists (EMkdirAll (filepath_Dir path) :: evs1 ++ [ECreate path]). simpl.
    split; [rewrite Hev1, <- !app_assoc; reflexivity|].
    split; [intros _; exact Hheap|].
    split; [discriminate|]. split; [|discriminate].
    intros Hin. apply elem_of_cons in Hin as [Hin|Hin]; [discriminate|].
    apply elem_of_app in Hin as [Hin|Hin].
    - destruct (Hno (EClose path)) as [_ Hc]; [now apply list_elem_of_further|].
      now contradiction Hc.
    - apply list_elem_of_singleton in Hin. discriminate. }
  destruct tmpl as [t|].
  - cbn [heap add_events]. rewrite Hheap.
    destruct (Execute t data (heap s)) as [[output err] counted] eqn:Hexec.
    intros E; inversion E; subst.
    exists ((EMkdirAll (filepath_Dir path) :: evs1) ++
            [ECreate path; EExecute path output; EClose path]).
    simpl. split; [rewrite Hev1, <- !app_assoc; reflexivity|].
    split; [|split; [|split]].
    + intros Hnone. exfalso. apply (Hnone output).
      apply list_elem_of_further, elem_of_app. right.
      apply list_elem_of_further, list_elem_of_here.
    + intros _ _. change (EMkdirAll (filepath_Dir path) ::
                          evs1 ++ [ECreate path; EExecute path output; EClose path])
        with ((EMkdirAll (filepath_Dir path) :: evs1) ++
              [ECreate path; EExecute path output] ++ [EClose path]).
      rewrite app_assoc. apply last_snoc.
    + intros _. split; [|reflexivity].
      apply list_elem_of_further, elem_of_app. right. apply list_elem_of_here.
    + destruct err as [e|]; [discriminate|]. intros _.
      exists (EMkdirAll (filepath_Dir path) :: evs1), ref, t, output, counted.
      split; [exact Href|]. split; [|auto].
      destruct ref; exact Hslot.
  - intros E; inversion E; subst.
    exists ((EMkdirAll (filepath_Dir path) :: evs1) ++ [ECreate path; EClose path]).
    simpl. split; [rewrite Hev1, <- !app_assoc; reflexivity|].
    split; [intros _; exact Hheap|].
    split; [|split; [|discriminate]].
    + intros _ _. change (EMkdirAll (filepath_Dir path) :: evs1 ++ [ECreate path; EClose path])
        with ((EMkdirAll (filepath_Dir path) :: evs1) ++ [ECreate path] ++ [EClose path]).
      rewrite app_assoc. apply last_snoc.
    + intros _. split; [|reflexivity].
      apply list_elem_of_further, elem_of_app. right. apply list_elem_of_here.
Qed.

Lemma all_refs_complete ref : ref ∈ all_refs.
Proof. unfold all_refs. destruct ref; set_solver. Qed.

Lemma NoDup_fmap_injective {A B} (f : A -> B) (l : list A) (x y : A) :
  NoDup (map f l) -> x ∈ l -> y ∈ l -> f x = f y -> x = y.
Proof.
  induction l as [|z l IH]; intros Hnd Hx Hy Hf; [now apply not_elem_of_nil in Hx|].
  simpl in Hnd. apply NoDup_cons in Hnd as [Hz Hnd].
  apply elem_of_cons in Hx as [->|Hx]; apply elem_of_cons in Hy as [->|Hy]; auto.
  - exfalso. apply Hz. rewrite Hf. now apply (list_elem_of_fmap_2 f).
  - exfalso. apply Hz. rewrite <- Hf. now apply (list_elem_of_fmap_2 f).
Qed.

Lemma cache_inv_add evs s :
  parsed_paths evs = [] -> cache_inv s -> cache_inv (add_events evs s).
Proof.
  intros Hnone (Hnd & Hnil & Hsub). unfold cache_inv, add_events. simpl.
  rewrite parsed_paths_app, Hnone, app_nil_r.
  split; [exact Hnd|]. split; [|exact Hsub].
  intros ref Href. apply Hnil. destruct ref; exact Href.
Qed.

Lemma loadTemplateMust_cache (name : string) (s s' : Site) (o : outcome (option Template)) :
  (forall p, ParseFiles p <> (None, None)) ->
  NoDup (map (fun r => tmplPath (ref_name r)) all_refs) ->
  cache_inv s ->
  loadTemplateMust name s = (o, s') ->
  NoDup (parsed_paths (events s')) /\
  (forall p, p ∈ parsed_paths (events s') -> p ∈ map (fun r => tmplPath (ref_name r)) all_refs) /\
  (forall t, o = Ret t -> cache_inv s').
Proof.
  intros Hnonnil Hinj (Hnd & Hnil & Hsub). rewrite loadTemplateMust_run.
  destruct (template_ref name) as [ref|] eqn:Href.
  - apply template_ref_name in Href. subst name.
    destruct (read_ref ref s) as [t|] eqn:Hslot.
    + intros E; inversion E; subst. split; [exact Hnd|]. split; [exact Hsub|].
      intros _ _. split; [exact Hnd|]. split; [exact Hnil|exact Hsub].
    + cbv zeta.
      assert (Hnd1 : NoDup (parsed_paths (events s ++ [EParseFiles (tmplPath (ref_name ref))]))).
      { rewrite parsed_paths_app. simpl. apply NoDup_app. split; [exact Hnd|].
        split; [|apply NoDup_singleton].
        intros p Hp Hp'. apply list_elem_of_singleton in Hp'. subst p.
        now apply (Hnil ref Hslot). }
      assert (Hsub1 : forall p,
                p ∈ parsed_paths (events s ++ [EParseFiles (tmplPath (ref_name ref))]) ->
                p ∈ map (fun r => tmplPath (ref_name r)) all_refs).
      { intros p Hp. rewrite parsed_paths_app in Hp. apply elem_of_app in Hp as [Hp|Hp].
        - now apply Hsub.
        - simpl in Hp. apply list_elem_of_singleton in Hp. subst p.
          apply (list_elem_of_fmap_2 (fun r => tmplPath (ref_name r))), all_refs_complete. }
      destruct (ParseFiles (tmplPath (ref_name ref))) as [t [e|]] eqn:Hparse; intros E;
        injection E as <- <-.
      * split; [exact Hnd1|]. split; [exact Hsub1|]. discriminate.
      * assert (Hev : forall s0, events (store_ref ref t s0) = events s0)
          by (intros s0; destruct ref; reflexivity).
        rewrite Hev. simpl. split; [exact Hnd1|]. split; [exact Hsub1|].
        intros _ _. unfold cache_inv. rewrite Hev. simpl.
        split; [exact Hnd1|]. split; [|exact Hsub1].
        intros ref' Href'. rewrite read_write_ref in Href'.
        destruct (decide (ref' = ref)) as [->|Hne].
        -- subst t. exfalso. now apply (Hnonnil (tmplPath (ref_name ref))).
        -- rewrite parsed_paths_app. simpl. intros Hin.
           apply elem_of_app in Hin as [Hin|Hin].
           ++ apply (Hnil ref'); [|exact Hin]. destruct ref'; exact Href'.
           ++ apply list_elem_of_singleton in Hin. apply Hne.
              eapply (NoDup_fmap_injective (fun r => tmplPath (ref_name r)));
                eauto using all_refs_complete.
  - intros E; inversion E; subst. simpl. rewrite parsed_paths_app. simpl.
    rewrite app_nil_r. split; [exact Hnd|]. split; [exact Hsub|]. discriminate.
Qed.

Lemma page_run_cache (name : string) (data : Data) (path : string) (s s' : Site)
    (o : outcome unit) :
  (forall p, ParseFiles p <> (None, None)) ->
  NoDup (map (fun r => tmplPath (ref_name r)) all_refs) ->
  cache_inv s ->
  page_run name data path s = (o, s') ->
  NoDup (parsed_paths (events s')) /\
  (forall p, p ∈ parsed_paths (events s') -> p ∈ map (fun r => tmplPath (ref_name r)) all_refs) /\
  (o = Ret tt -> cache_inv s').
Proof.
  intros Hnonnil Hinj Hinv. unfold page_run. cbv zeta.
  pose proof (cache_inv_add [EMkdirAll (filepath_Dir path)] s eq_refl Hinv) as Hinv0.
  destruct (MkdirAll (filepath_Dir path)) as [e|].
  { intros E; inversion E; subst. destruct Hinv0 as (Hnd & _ & Hsub).
    split; [exact Hnd|]. split; [exact Hsub|]. discriminate. }
  destruct (loadTemplateMust name _) as [o1 s1] eqn:Hload.
  destruct (loadTemplateMust_cache _ _ _ _ Hnonnil Hinj Hinv0 Hload) as (Hnd1 & Hsub1 & Hinv1).
  destruct o1 as [tmpl|msg|code];
    [|intros E; inversion E; subst; split; [exact Hnd1|]; split; [exact Hsub1|]; discriminate
     |intros E; inversion E; subst; split; [exact Hnd1|]; split; [exact Hsub1|]; discriminate].
  specialize (Hinv1 tmpl eq_refl).
  assert (Hlater : forall evs, parsed_paths evs = [] ->
            NoDup (parsed_paths (events (add_events evs s1))) /\
            (forall p, p ∈ parsed_paths (events (add_events evs s1)) ->
                       p ∈ map (fun r => tmplPath (ref_name r)) all_refs) /\
            cache_inv (add_events evs s1)).
  { intros evs Hevs. pose proof (cache_inv_add evs s1 Hevs Hinv1) as Hc.
    destruct Hc as (Hc1 & Hc2 & Hc3). repeat split; auto. }
  destruct (Create path) as [e|].
  { intros E; inversion E; subst. destruct (Hlater [ECreate path] eq_refl) as (? & ? & ?).
    split; [assumption|]. split; [assumption|]. discriminate. }
  destruct tmpl as [t|].
  - cbn [heap add_events]. destruct (Execute t data (heap s1)) as [[output err] counted].
    intros E; inversion E; subst.
    destruct (Hlater [ECreate path; EExecute path output; EClose path] eq_refl)
      as (Hn & Hs & Hc).
    unfold add_events, with_heap in *. simpl in *. rewrite <- app_assoc. simpl.
    split; [exact Hn|]. split; [exact Hs|]. intros _.
    destruct Hc as (Hc1 & Hc2 & Hc3). split; [exact Hc1|]. split; [|exact Hc3].
    intros ref Href. apply Hc2. destruct ref; exact Href.
  - intros E; inversion E; subst.
    destruct (Hlater [ECreate path; EClose path] eq_refl) as (Hn & Hs & Hc).
    unfold add_events in *. simpl in *. rewrite <- app_assoc. simpl.
    split; [exact Hn|]. split; [exact Hs|]. discriminate.
Qed.

(** X24. Each template file is parsed at most once.  Starting with no
    template loaded, however many pages are written and in whatever order,
    and however the run ends, no path is passed to [template.ParseFiles]
    twice, so there are at most five such calls.  This needs what the Go
    library guarantees: [ParseFiles] does not answer a nil template without
    an error, and the five template names give five different paths. *)
Theorem templates_parsed_once (jobs : list (string * Data * string)) (w : World)
    (o : outcome unit) (s' : Site) :
  (forall p, ParseFiles p <> (None, None)) ->
  NoDup (map (fun r => tmplPath (ref_name r)) all_refs) ->
  renders jobs (fresh_site w) = (o, s') ->
  NoDup (parsed_paths (events s')) /\ (length (parsed_paths (events s')) <= 5)%nat.
Proof.
  intros Hnonnil Hinj Hrun.
  assert (Hgen : forall jobs s o s', cache_inv s -> renders jobs s = (o, s') ->
            NoDup (parsed_paths (events s')) /\
            forall p, p ∈ parsed_paths (events s') ->
                      p ∈ map (fun r => tmplPath (ref_name r)) all_refs).
  { clear jobs w o s' Hrun.
    induction jobs as [|[[name data] path] rest IH]; intros s o s' Hinv Hrun; simpl in Hrun.
    - unfold_R. inversion Hrun; subst. destruct Hinv as (Hnd & _ & Hsub). auto.
    - unfold_R. rewrite execTemplateToFileSilentMust_run in Hrun.
      destruct (page_run name data path s) as [o1 s1] eqn:Hpage.
      destruct (page_run_cache _ _ _ _ _ _ Hnonnil Hinj Hinv Hpage) as (Hnd1 & Hsub1 & Hinv1).
      destruct o1 as [[]|msg|code]; [|inversion Hrun; subst; auto|inversion Hrun; subst; auto].
      apply (IH s1 o s' (Hinv1 eq_refl) Hrun). }
  destruct (Hgen jobs (fresh_site w) o s') as [Hnd Hsub]; [|exact Hrun|].
  { split; [constructor|]. split; intros; simpl; [apply not_elem_of_nil|].
    now apply not_elem_of_nil in H1. }
  split; [exact Hnd|].
  change 5%nat with (length (map (fun r => tmplPath (ref_name r)) all_refs)).
  apply submseteq_length, NoDup_submseteq; assumption.
Qed.

(** *** Rendering an article *)

Ltac unfold_R' :=
  unfold R_PanicIfErr in *;
  unfold mbind, R_mbind, R_bind, mret, R_mret, R_ret, R_panic, R_exit in *.

Lemma genBookArticle_split (article : loc) (s : Site) :
  genBookArticle article s =
  match render_body article (heap s) with
  | (Ret path, w) => page_run "article.tmpl.html" (DArticle article) path (with_heap w s)
  | (Panic msg, w) => (Panic msg, with_heap w s)
  | (Exit code, w) => (Exit code, with_heap w s)
  end.
Proof.
  unfold genBookArticle, render_body. unfold_R'. unfold_M.
  rewrite lift_run.
  destruct (load_article article (heap s)) as [[a|msg|code] w1]; cbn [fst snd];
    [|reflexivity|reflexivity].
  destruct (String.eqb (Article.BodyHTML a) "").
  - rewrite lift_run. cbn [heap with_heap].
    destruct (Article_Book a w1) as [[b|msg|code] w2]; cbn [fst snd];
      [|reflexivity|reflexivity].
    rewrite lift_run. cbn [heap with_heap].
    destruct (deref load_book b w2) as [[book|msg|code] w3]; cbn [fst snd];
      [|reflexivity|reflexivity].
    rewrite lift_run. cbn [heap with_heap].
    destruct (update_article article _ w3) as [[[]|msg|code] w4]; cbn [fst snd];
      [|reflexivity|reflexivity].
    rewrite lift_run. cbn [heap with_heap].
    destruct (load_article article w4) as [[a'|msg|code] w5]; cbn [fst snd];
      [|reflexivity|reflexivity].
    rewrite lift_run. cbn [heap with_heap].
    destruct (Article_destFilePath a' w5) as [[path|msg|code] w6]; cbn [fst snd];
      [|reflexivity|reflexivity].
    apply execTemplateToFileSilentMust_run.
  - rewrite lift_run. cbn [heap with_heap].
    destruct (load_article article w1) as [[a'|msg|code] w5]; cbn [fst snd];
      [|reflexivity|reflexivity].
    rewrite lift_run. cbn [heap with_heap].
    destruct (Article_destFilePath a' w5) as [[path|msg|code] w6]; cbn [fst snd];
      [|reflexivity|reflexivity].
    apply execTemplateToFileSilentMust_run.
Qed.

(** The link methods read the heap only. *)
Lemma Article_destFilePath_pure (a : Article.t) (w : World) r (w' : World) :
  Article_destFilePath a w = (r, w') -> w' = w.
Proof.
  unfold Article_destFilePath, Article_Book. unfold_M. unfold deref.
  destruct (Article.Chapter a); [|intros E; now inversion E].
  unfold load_chapter. destruct (chapters w !! _) as [c|]; [|intros E; now inversion E].
  destruct (Chapter.Book c); [|intros E; now inversion E].
  unfold load_book. destruct (books w !! _); intros E; now inversion E.
Qed.

Lemma render_body_spec (article : loc) (a : Article.t) (w : World) r (w' : World) :
  articles w !! article = Some a ->
  render_body article w = (r, w') ->
  body_rendered article a w r w'.
Proof.
  intros Ha Hrun. unfold render_body in Hrun. unfold_M.
  unfold load_article at 1 in Hrun. rewrite Ha in Hrun.
  assert (Hsame : forall r0, (forall path, r0 <> Ret path) \/ Article.BodyHTML a <> "" ->
                             body_rendered article a w r0 w).
  { intros r0 Hwhy. unfold body_rendered. repeat split; auto. exists a.
    split; [exact Ha|]. split; [now destruct a|]. split; [auto|].
    intros Hempty [path ->]. destruct Hwhy as [Hne|Hne]; [now contradiction (Hne path)|].
    contradiction. }
  destruct (String.eqb_spec (Article.BodyHTML a) "") as [Hempty|Hfull].
  - unfold Article_Book in Hrun. unfold_M. unfold deref in Hrun.
    destruct (Article.Chapter a) as [ch|] eqn:Hch;
      [|inversion Hrun; subst; apply Hsame; left; discriminate].
    unfold load_chapter in Hrun.
    destruct (chapters w !! ch) as [c|] eqn:Hc;
      [|inversion Hrun; subst; apply Hsame; left; discriminate].
    destruct (Chapter.Book c) as [b|] eqn:Hb;
      [|inversion Hrun; subst; apply Hsame; left; discriminate].
    unfold load_book in Hrun.
    destruct (books w !! b) as [bk|] eqn:Hbk;
      [|inversion Hrun; subst; apply Hsame; left; discriminate].
    unfold update_article in Hrun. rewrite Ha in Hrun.
    unfold load_article at 1 in Hrun. cbn [articles] in Hrun.
    rewrite list_lookup_insert_eq in Hrun by (now apply lookup_lt_Some in Ha).
    match type of Hrun with
    | Article_destFilePath ?a1 ?w1 = _ =>
        pose proof (Article_destFilePath_pure a1 w1 _ _ Hrun) as ->
    end.
    unfold body_rendered. cbn [chapters books articles].
    split; [reflexivity|]. split; [reflexivity|].
    split; [intros p Hp; now rewrite list_lookup_insert_ne by congruence|].
    eexists. split; [apply list_lookup_insert_eq; now apply lookup_lt_Some in Ha|].
    split; [reflexivity|]. split; [intros Hne; contradiction|].
    intros _ _. exists ch, c, b, bk. repeat split; auto.
  - unfold load_article at 1 in Hrun. rewrite Ha in Hrun.
    pose proof (Article_destFilePath_pure _ _ _ _ Hrun) as ->.
    apply Hsame. right. exact Hfull.
Qed.


(** *** The pages of a chapter *)

Lemma created_files_app evs1 evs2 :
  created_files (evs1 ++ evs2) = created_files evs1 ++ created_files evs2.
Proof. unfold created_files. apply omap_app. Qed.

Lemma created_files_none (evs : list Event) :
  (forall e, e ∈ evs -> (exists p, e = EParseFiles p) \/ (exists m, e = EFatalf m)) ->
  created_files evs = [].
Proof.
  induction evs as [|e evs IH]; intros Hall; [reflexivity|].
  simpl. destruct (Hall e (list_elem_of_here _ _)) as [[p ->]|[m ->]]; simpl;
    apply IH; intros e' He'; apply Hall; now apply list_elem_of_further.
Qed.

Lemma bodies_only_refl (w : World) : bodies_only w w.
Proof.
  split; [reflexivity|]. split; [apply books_cached_refl|]. split; [reflexivity|].
  intros p a Ha. exists a. split; [exact Ha|]. now destruct a.
Qed.

Lemma bodies_only_caches (w w' : World) : caches_only w w' -> bodies_only w w'.
Proof.
  intros (Ha & Hc & _ & _ & Hb). split; [exact Hc|]. split; [exact Hb|].
  rewrite Ha. split; [reflexivity|].
  intros p a Hp. exists a. split; [exact Hp|]. now destruct a.
Qed.

Lemma bodies_only_trans (w1 w2 w3 : World) :
  bodies_only w1 w2 -> bodies_only w2 w3 -> bodies_only w1 w3.
Proof.
  intros (Hc & Hb & Hl & Ha) (Hc' & Hb' & Hl' & Ha').
  split; [congruence|]. split; [eapply books_cached_trans; eauto|]. split; [congruence|].
  intros p a Hp. destruct (Ha p a Hp) as (a2 & Hp2 & E2).
  destruct (Ha' p a2 Hp2) as (a3 & Hp3 & E3).
  exists a3. split; [exact Hp3|]. rewrite E3 at 1. rewrite E2. now destruct a.
Qed.

(** The destination of an article depends on its chapter and file name base,
    and on the chapters and books of the heap. *)
Lemma Article_destFilePath_frame (a a' : Article.t) (w w' : World) :
  chapters w' = chapters w -> books_cached (books w) (books w') ->
  Article.Chapter a' = Article.Chapter a ->
  Article.FileNameBase a' = Article.FileNameBase a ->
  fst (Article_destFilePath a' w') = fst (Article_destFilePath a w).
Proof.
  intros Hc Hb Hch Hf.
  unfold Article_destFilePath, Article_Book. unfold_M. unfold deref.
  rewrite Hch, Hf. destruct (Article.Chapter a); [|reflexivity].
  unfold load_chapter. rewrite Hc. destruct (chapters w !! _) as [c|]; [|reflexivity].
  destruct (Chapter.Book c) as [b|]; [|reflexivity].
  unfold load_book. pose proof (books_cached_lookup _ _ b Hb) as Hlook.
  destruct (books w !! b) as [bk|]; [destruct Hlook as [cnt Hlook]|]; rewrite Hlook; reflexivity.
Qed.

Lemma Chapter_destFilePath_pure (c : Chapter.t) (w : World) r (w' : World) :
  Chapter_destFilePath c w = (r, w') -> w' = w.
Proof.
  unfold Chapter_destFilePath. unfold_M. unfold deref.
  destruct (Chapter.Book c); [|intros E; now inversion E].
  unfold load_book. destruct (books w !! _); intros E; now inversion E.
Qed.

Lemma Chapter_destFilePath_frame (c : Chapter.t) (w w' : World) :
  books_cached (books w) (books w') ->
  fst (Chapter_destFilePath c w') = fst (Chapter_destFilePath c w).
Proof.
  intros Hb. unfold Chapter_destFilePath. unfold_M. unfold deref.
  destruct (Chapter.Book c) as [b|]; [|reflexivity].
  unfold load_book. pose proof (books_cached_lookup _ _ b Hb) as Hlook.
  destruct (books w !! b) as [bk|]; [destruct Hlook as [cnt Hlook]|]; rewrite Hlook; reflexivity.
Qed.

(** A page that is written creates its file and no other. *)
Lemma page_run_created name data path s s' :
  page_run name data path s = (Ret tt, s') ->
  caches_only (heap s) (heap s') /\
  created_files (events s') = created_files (events s) ++ [path].
Proof.
  intros Hrun. split.
  { pose proof (page_run_caches name data path s) as Hh. now rewrite Hrun in Hh. }
  unfold page_run in Hrun. cbv zeta in Hrun.
  destruct (MkdirAll (filepath_Dir path)); [discriminate|].
  destruct (loadTemplateMust name _) as [o1 s1] eqn:Hload.
  destruct (loadTemplateMust_heap _ _ _ _ Hload) as (_ & evs & Hev & Hkind).
  destruct o1 as [tmpl|msg|code]; [|discriminate|discriminate].
  destruct (Create path); [discriminate|].
  destruct tmpl as [t|]; [|discriminate].
  cbn [heap add_events] in Hrun.
  destruct (Execute t data (heap s1)) as [[output [e|]] counted]; [discriminate|].
  inversion Hrun; subst s'. cbn [events add_events with_heap].
  rewrite Hev. cbn [events add_events].
  rewrite !created_files_app, (created_files_none evs Hkind). simpl.
  rewrite !app_nil_r. reflexivity.
Qed.

(** A sequence that returns: its first part returned. *)
Lemma bind_returns {A B} (m : M A) (f : A -> M B) (w : World) (b : B) (w' : World) :
  (m ≫= f) w = (Ret b, w') ->
  exists a w1, m w = (Ret a, w1) /\ f a w1 = (Ret b, w').
Proof.
  unfold_M. destruct (m w) as [[a|msg|code] w1]; [eauto|discriminate|discriminate].
Qed.

(** The destination that [render_body] answers is that of the article as it
    is afterwards. *)
Lemma render_body_dest (article : loc) (w : World) (path : string) (w' : World) :
  render_body article w = (Ret path, w') ->
  exists a', articles w' !! article = Some a' /\
             fst (Article_destFilePath a' w') = Ret path.
Proof.
  unfold render_body. intros Hrun.
  apply bind_returns in Hrun as (a & w1 & _ & Hrun).
  apply bind_returns in Hrun as (u & w2 & _ & Hrun).
  apply bind_returns in Hrun as (a' & w3 & Hload & Hrun).
  unfold load_article in Hload. destruct (articles w2 !! article) as [a''|] eqn:Ha';
    [|discriminate].
  inversion Hload; subst a'' w3.
  pose proof (Article_destFilePath_pure _ _ _ _ Hrun) as Hw. subst w'.
  exists a'. split; [exact Ha'|]. now rewrite Hrun.
Qed.

(** A call of [genBookArticle] that returns has written the page of the
    article, at the destination the article had before the call. *)
Lemma genBookArticle_page (article : loc) (s s' : Site) :
  genBookArticle article s = (Ret tt, s') ->
  exists a path,
    articles (heap s) !! article = Some a /\
    fst (Article_destFilePath a (heap s)) = Ret path /\
    bodies_only (heap s) (heap s') /\
    created_files (events s') = created_files (events s) ++ [path].
Proof.
  intros Hrun. rewrite genBookArticle_split in Hrun.
  destruct (render_body article (heap s)) as [r w1] eqn:Hbody.
  destruct r as [path|msg|code]; [|discriminate|discriminate].
  destruct (articles (heap s) !! article) as [a|] eqn:Ha.
  2:{ unfold render_body in Hbody. unfold_M. unfold load_article at 1 in Hbody.
      rewrite Ha in Hbody. discriminate. }
  destruct (render_body_spec article a (heap s) _ w1 Ha Hbody)
    as (Hc & Hb & Hothers & a' & Ha' & Hfields & _).
  destruct (render_body_dest article (heap s) path w1 Hbody) as (a'' & Ha'' & Hdest).
  assert (a'' = a') by congruence. subst a''.
  destruct (page_run_created _ _ _ _ _ Hrun) as [Hheap Hcreated].
  cbn [heap with_heap events] in Hheap, Hcreated.
  destruct Hheap as (Harts & Hchs & _ & _ & Hbooks).
  exists a, path. split; [reflexivity|]. split.
  { rewrite <- Hdest. symmetry. apply Article_destFilePath_frame; auto.
    - rewrite Hb. apply books_cached_refl.
    - rewrite Hfields. now destruct a.
    - rewrite Hfields. now destruct a. }
  split; [|exact Hcreated].
  split; [congruence|]. split; [rewrite <- Hb; exact Hbooks|]. rewrite Harts. split.
  { destruct (decide (article < length (articles (heap s)))%nat) as [Hlt|Hge].
    - apply Nat.le_antisymm; apply Nat.nlt_ge; intros Hlen.
      + destruct (lookup_lt_is_Some_2 (articles w1) (length (articles (heap s))) Hlen)
          as [x Hx].
        rewrite Hothers in Hx by lia.
        apply lookup_lt_Some in Hx. lia.
      + destruct (decide (length (articles w1) = article)) as [E|NE].
        * apply lookup_lt_Some in Ha'. lia.
        * destruct (lookup_lt_is_Some_2 (articles (heap s)) (length (articles w1)) Hlen)
            as [x Hx].
          rewrite <- Hothers in Hx by exact NE.
          apply lookup_lt_Some in Hx. lia.
    - apply lookup_lt_Some in Ha. contradiction. }
  intros p b Hp. destruct (decide (p = article)) as [->|Hne].
  - assert (b = a) by congruence. subst b. exists a'. split; [exact Ha' | exact Hfields].
  - exists b. split; [rewrite Hothers by exact Hne; exact Hp | now destruct b].
Qed.

(** The article pages of a chapter, one per entry of its list. *)
Lemma genBookChapter_loop_pages (arts : list loc) (s s' : Site) :
  genBookChapter_loop arts s = (Ret tt, s') ->
  bodies_only (heap s) (heap s') /\
  exists paths,
    Forall2 (fun p path =>
               exists a, articles (heap s) !! p = Some a /\
                         fst (Article_destFilePath a (heap s)) = Ret path) arts paths /\
    created_files (events s') = created_files (events s) ++ paths.
Proof.
  revert s. induction arts as [|p rest IH]; intros s Hrun.
  - inversion Hrun; subst s'. split; [apply bodies_only_refl|].
    exists []. split; [constructor | now rewrite app_nil_r].
  - simpl in Hrun. unfold mbind, R_mbind, R_bind in Hrun.
    destruct (genBookArticle p s) as [[[]|msg|code] s1] eqn:Hart;
      [|discriminate|discriminate].
    destruct (genBookArticle_page p s s1 Hart) as (a & path & Ha & Hdest & Hkept & Hcr).
    destruct (IH s1 Hrun) as (Hkept' & paths & Hall & Hcr').
    split; [eapply bodies_only_trans; eauto|].
    exists (path :: paths). split.
    + constructor; [eauto|].
      eapply Forall2_impl; [exact Hall|].
      intros q qpath (a1 & Ha1 & Hd1). simpl in Ha1, Hd1.
      destruct Hkept as (Hc & Hb & Hl & Hfwd).
      assert (Hq : is_Some (articles (heap s) !! q)).
      { apply lookup_lt_is_Some. rewrite <- Hl. now apply lookup_lt_Some in Ha1. }
      destruct Hq as [a0 Ha0]. destruct (Hfwd q a0 Ha0) as (a1' & Ha1' & E).
      assert (a1' = a1) by congruence. subst a1'.
      exists a0. split; [exact Ha0|]. rewrite <- Hd1. symmetry.
      apply Article_destFilePath_frame; auto; rewrite E; now destruct a0.
    + rewrite Hcr', Hcr, <- app_assoc. reflexivity.
Qed.

Lemma lift_load_chapter (chapter : loc) (s : Site) :
  lift (load_chapter chapter) s =
  match chapters (heap s) !! chapter with
  | Some c => (Ret c, s)
  | None => (Panic nilDeref, s)
  end.
Proof.
  unfold lift, load_chapter. destruct (chapters (heap s) !! chapter); now destruct s.
Qed.

Lemma lift_Chapter_destFilePath (c : Chapter.t) (s : Site) :
  lift (Chapter_destFilePath c) s = (fst (Chapter_destFilePath c (heap s)), s).
Proof.
  unfold lift. destruct (Chapter_destFilePath c (heap s)) as [r w] eqn:Hdest.
  pose proof (Chapter_destFilePath_pure _ _ _ _ Hdest) as Hw. subst w. now destruct s.
Qed.

(** X29. A call of [genBookChapter] that returns has created, in this
    order and no other file: the page of every article of the chapter, in
    the order of the chapter's list, each at [destFilePath] of the article,
    and then the page of the chapter at [destFilePath] of the chapter.  The
    chapter page comes last, so it exists only when all article pages were
    written.  On the heap nothing has changed but the [BodyHTML] of
    articles and the article counts that executing the templates makes
    books cache. *)
Theorem genBookChapter_pages (chapter : loc) (s s' : Site) :
  genBookChapter chapter s = (Ret tt, s') ->
  exists (c : Chapter.t) (paths : list string) (cpath : string),
    chapters (heap s) !! chapter = Some c /\
    Forall2 (fun p path =>
               exists a, articles (heap s) !! p = Some a /\
                         fst (Article_destFilePath a (heap s)) = Ret path)
            (Chapter.Articles c) paths /\
    fst (Chapter_destFilePath c (heap s)) = Ret cpath /\
    created_files (events s') = created_files (events s) ++ paths ++ [cpath] /\
    bodies_only (heap s) (heap s').
Proof.
  intros Hrun. unfold genBookChapter in Hrun.
  unfold mbind, R_mbind, R_bind in Hrun. rewrite lift_load_chapter in Hrun.
  destruct (chapters (heap s) !! chapter) as [c|] eqn:Hc; [|discriminate].
  destruct (genBookChapter_loop (Chapter.Articles c) s) as [[[]|msg|code] s1] eqn:Hloop;
    [|discriminate|discriminate].
  destruct (genBookChapter_loop_pages _ _ _ Hloop) as (Hkept & paths & Hall & Hcr).
  pose proof Hkept as (Hch & Hb & _ & _).
  rewrite lift_load_chapter, Hch, Hc, lift_Chapter_destFilePath in Hrun.
  rewrite (Chapter_destFilePath_frame c (heap s) (heap s1) Hb) in Hrun.
  destruct (fst (Chapter_destFilePath c (heap s))) as [cpath|msg|code] eqn:Hdest;
    [|discriminate|discriminate].
  rewrite execTemplateToFileSilentMust_run in Hrun.
  destruct (page_run_created _ _ _ _ _ Hrun) as [Hheap Hcreated].
  exists c, paths, cpath. split; [reflexivity|]. split; [exact Hall|].
  split; [exact Hdest|].
  split; [rewrite Hcreated, Hcr, <- app_assoc; reflexivity|].
  eapply bodies_only_trans; [exact Hkept|]. now apply bodies_only_caches.
Qed.

End PageProofs.

End Proofs.

(** ** The pipeline on the small book *)
(** An include that resolves is expanded in place; one that does not leaves
    the directive line in the body. *)
Example include_expanded :
  fst (@parsed_doc Demo.soft "books/go/020-flags/010-parse.md") =
  [mkKV "Id" "44"; mkKV "Title" "Parse";
   mkKV "Body" ("see" +:+ nl +:+ "package main" +:+ nl +:+ "func main() {}")].
Proof. vm_compute. reflexivity. Qed.

Example include_kept :
  fst (@parsed_doc Demo.soft "books/inc/010-a/010-x.md") =
  [mkKV "Id" "5"; mkKV "Title" "X"; mkKV "Body" ("see" +:+ nl +:+ "@file missing.go")].
Proof. vm_compute. reflexivity. Qed.

Lemma siblings_mark_self_witness :
  let w' := snd (@parseChapter Demo.soft 0%nat Demo.intro_heap) in
  exists c, chapters w' !! 0%nat = Some c /\
    forall i p, Chapter.Articles c !! i = Some p ->
      exists a, articles w' !! p = Some a /\
        length (Article.Siblings a) = length (Chapter.Articles c) /\
        (forall j s, Article.Siblings a !! j = Some s ->
                     Article.IsCurrent s = bool_decide (j = i)) /\
        (exists s, Article.Siblings a !! i = Some s /\
                   Article.IsCurrent s = true /\
                   Article.ID s = Article.ID a /\
                   Article.No s = Article.No a /\
                   Article.sourceFilePath s = Article.sourceFilePath a).
Proof.
  intros w'.
  apply (@siblings_mark_self Demo.soft 0%nat Demo.intro_heap w').
  vm_compute. reflexivity.
Defined.

Lemma ArticlesCount_memoized_witness :
  exists w1,
    ArticlesCount 0%nat Demo.pair_heap = (Ret 4, w1) /\
    forall (w2 : World) (bk2 : Book.t),
      books w2 !! 0%nat = Some bk2 ->
      Book.cachedArticlesCount bk2 = 4 ->
      ArticlesCount 0%nat w2 = (Ret 4, w2).
Proof.
  destruct (ArticlesCount_memoized 0%nat Demo.pair_heap Demo.book_twins)
    as (Hfirst & Hnext & _).
  - reflexivity.
  - reflexivity.
  - constructor; [eexists; reflexivity|]. constructor; [eexists; reflexivity|]. constructor.
  - vm_compute. discriminate.
  - eexists. split; [exact Hfirst|].
    intros w2 bk2 Hb Hc. apply (Hnext w2 bk2 Hb Hc). vm_compute. discriminate.
Defined.

Lemma twins_book_view : book_view Demo.twins_heap [0%nat; 1%nat] twins_view.
Proof.
  constructor; [split; [reflexivity|]|].
  - constructor; [reflexivity|]. constructor; [reflexivity|]. constructor.
  - constructor; [split; [reflexivity|constructor]|constructor].
Qed.

Lemma pair_book_view : book_view Demo.pair_heap [0%nat; 1%nat] pair_view.
Proof.
  constructor; [split; [reflexivity|]|].
  - constructor; [reflexivity|]. constructor; [reflexivity|]. constructor.
  - constructor; [split; [reflexivity|constructor]|constructor].
Qed.

Lemma ensureUniqueIds_duplicate_chapter_witness :
  exists (i j : nat) (c c2 : Chapter.t) (avals avals2 : list Article.t),
    (i < j)%nat /\ twins_view !! i = Some (c2, avals2) /\ twins_view !! j = Some (c, avals) /\
    Chapter.ID c2 = Chapter.ID c /\
    NoDup (chapter_ids (take j twins_view)) /\
    let errs := article_errors [] (take j twins_view) in
    (errs = [] <-> NoDup (map Article.ID (concat (map snd (take j twins_view))))) /\
    (@softErrorMode Demo.soft = true \/ errs = [] ->
     @ensureUniqueIds Demo.soft 0%nat Demo.twins_heap =
       (Exit 1, add_stdout (collision_lines c c2) (add_softErrors errs Demo.twins_heap))) /\
    (@softErrorMode Demo.soft = false ->
     forall e rest, errs = e :: rest ->
       @ensureUniqueIds Demo.soft 0%nat Demo.twins_heap = (Panic e, Demo.twins_heap)).
Proof.
  apply (@ensureUniqueIds_duplicate_chapter Demo.soft 0%nat Demo.twins_heap Demo.book_twins
           twins_view eq_refl twins_book_view).
  apply (bool_decide_unpack _). vm_compute. exact I.
Defined.

(** What the run on [twins] is, in soft error mode: the article error is
    recorded, the clash of the two chapters is printed, and the process
    exits with status 1. *)
Example twins_soft_run :
  @ensureUniqueIds Demo.soft 0%nat Demo.twins_heap =
  (Exit 1,
   add_stdout (collision_lines (Demo.chapter_b "1") Demo.chapter_a)
     (add_softErrors [dup_error Demo.article_y Demo.article_x] Demo.twins_heap)).
Proof. vm_compute. reflexivity. Qed.

(** In strict mode too, when no article ID is repeated before the clash:
    the clash is printed and the process exits with status 1. *)
Example clash_strict_run :
  let w := mkWorld [Demo.article_x] [DemoSite.chapter_one; Demo.chapter_b "1"]
                   [Demo.book_twins] [] [] in
  @ensureUniqueIds Demo.strict 0%nat w =
  (Exit 1, add_stdout (collision_lines (Demo.chapter_b "1") DemoSite.chapter_one) w).
Proof. vm_compute. reflexivity. Qed.

Lemma ensureUniqueIds_duplicate_article_witness :
  @ensureUniqueIds Demo.soft 0%nat Demo.pair_heap =
  (Ret tt,
   mkWorld (articles Demo.pair_heap) (chapters Demo.pair_heap)
           [Book.with_knownUrls ["ch-1-a"; "a-7-x"; "ch-2-b"] Demo.book_twins]
           []
           ["Duplicate article id: '7', in: books/twins/010-a/020-y.md and books/twins/010-a/010-x.md"]).
Proof.
  rewrite (@ensureUniqueIds_duplicate_article Demo.soft 0%nat Demo.pair_heap Demo.book_twins
             pair_view eq_refl eq_refl pair_book_view).
  - vm_compute. reflexivity.
  - apply (bool_decide_unpack _). vm_compute. exact I.
Defined.

Lemma parseArticle_example_witness :
  exists a,
    @parseArticle Demo.soft "books/go/010-intro/010-hello.md" emptyWorld =
      (Ret (Some 0%nat, None), add_article a emptyWorld) /\
    Article.ID a = "42" /\ Article.Title a = "Intro" /\
    Article.BodyMarkdown a = "hello" /\ Article.FileNameBase a = "a-42-intro".
Proof.
  destruct (@parseArticle_example Demo.soft "books/go/010-intro/010-hello.md" emptyWorld)
    as (a & Hrun & Hid & Ht & Hb & Hf & _).
  - vm_compute. reflexivity.
  - vm_compute. reflexivity.
  - exists a. repeat split; assumption.
Defined.

Lemma parseArticle_body_witness :
  exists r w' p a,
    @parseArticle Demo.soft "books/go/010-intro/020-world.MD" emptyWorld = (Ret r, w') /\
    r = (Some p, None) /\ articles w' !! p = Some a /\ Article.BodyHTML a = "<p>w</p>".
Proof.
  destruct (@parseArticle_body Demo.soft "books/go/010-intro/020-world.MD" emptyWorld
              [mkKV "Id" "43"; mkKV "Title" "World"; mkKV "BodyHtml" "<p>w</p>"] "43")
    as (r & w' & Hrun & Hcase).
  - vm_compute. reflexivity.
  - reflexivity.
  - reflexivity.
  - simpl in Hcase. destruct Hcase as (p & a & Hr & Ha & Hh).
    exists r, w', p, a. auto.
Defined.

Lemma space_in_ID_rejected_witness :
  @parseArticle Demo.soft "books/sp/010-a b/010-x.md" emptyWorld =
    (Ret (None, Some "parseArticle('books/sp/010-a b/010-x.md'), res.ID = '4 2' has space in it"),
     emptyWorld) /\
  (exists w',
     @parseChapter Demo.soft 0%nat Demo.sp_heap =
     (Ret (Some "parseChapter('books/sp/010-a b/000-index.md'), chapter.ID = '1 2' has space in it"),
      w')) /\
  (exists c, chapters (snd (@parseChapter Demo.soft 0%nat Demo.intro_heap)) !! 0%nat = Some c /\
             Contains (Chapter.ID c) " " = false).
Proof.
  destruct (@space_in_ID_rejected Demo.soft) as (Hart & Hch & Hok).
  split; [|split].
  - rewrite (Hart "books/sp/010-a b/010-x.md" emptyWorld
               [mkKV "Id" "4 2"; mkKV "Title" "X"; mkKV "Body" "x"] "4 2");
      vm_compute; reflexivity.
  - destruct (Hch 0%nat Demo.sp_heap
                (Chapter.mk "" (Some 0%nat) "010-a b" "" [] "" "" [] 0 "") 0%nat
                (Book.mk "sp" "sp" "Essential sp" "sp" [] "books/sp" "www/essential/sp"
                         [] 0 "" [] "")
                [mkKV "Title" "A"; mkKV "Id" "1 2"] None "A" "1 2"
                eq_refl eq_refl eq_refl) as (w' & Hrun).
    + vm_compute. reflexivity.
    + left. reflexivity.
    + reflexivity.
    + reflexivity.
    + reflexivity.
    + exists w'. rewrite Hrun. reflexivity.
  - destruct (Hok 0%nat Demo.intro_heap (snd (@parseChapter Demo.soft 0%nat Demo.intro_heap)))
      as (c & Hc & Hsp & _); [vm_compute; reflexivity|].
    exists c. auto.
Defined.

Lemma parseBook_numbering_witness :
  let w' := world (@parseBook Demo.soft "go" Demo.in_turn emptyWorld) in
  exists bk, books w' !! 0%nat = Some bk /\
    length (Book.Chapters bk) = 3%nat /\
    forall i ch, Book.Chapters bk !! i = Some ch ->
      exists c, chapters w' !! ch = Some c /\ Chapter.No c = Z.of_nat i + 1 /\
        forall k p, Chapter.Articles c !! k = Some p ->
          exists a, articles w' !! p = Some a /\ Article.No a = Z.of_nat k + 1.
Proof.
  intros w'.
  destruct (@parseBook_numbering Demo.soft "go" Demo.in_turn emptyWorld 0%nat None)
    as (bk & Hbk & Hlen & Hall).
  - vm_compute. reflexivity.
  - exists bk. split; [exact Hbk|]. split; [exact Hlen|].
    intros i ch Hi. destruct (Hall i ch Hi) as (c & Hc & Hno & Harts & _). eauto.
Defined.

(** On the book [go], run with the goroutines in turn: the articles of the
    first chapter come from its two article files, in the order of the
    listing, the index file left out. *)
Example go_intro_articles :
  let w' := world (@parseBook Demo.soft "go" Demo.in_turn emptyWorld) in
  (c ← chapters w' !! 0%nat;
   mapM (fun p => Article.sourceFilePath <$> articles w' !! p) (Chapter.Articles c)) =
  Some ["books/go/010-intro/010-hello.md"; "books/go/010-intro/020-world.MD"].
Proof. vm_compute. reflexivity. Qed.

(** ** Where the code departs from the claims *)
(** C2 does not hold as stated.  In strict mode, on the book [twins], whose
    two chapters share the ID [1] and whose first chapter has two articles
    with the ID [7], validation panics on the second article: the chapters
    are never reported, on the hand-made heap as in the whole pipeline. *)
Lemma duplicate_chapter_not_reported :
  @ensureUniqueIds Demo.strict 0%nat Demo.twins_heap =
    (Panic "Duplicate article id: '7', in: books/twins/010-a/020-y.md and books/twins/010-a/010-x.md",
     Demo.twins_heap) /\
  let s := @parseBook Demo.strict "twins" Demo.in_turn emptyWorld in
  map Chapter.ID (chapters (world s)) = ["1"; "1"; ""] /\
  process s =
    Panicked "Duplicate article id: '7', in: books/twins/010-a/020-y.md and books/twins/010-a/010-x.md" /\
  stdout (world s) = ["Parsing book twins" +:+ nl].
Proof. vm_compute. repeat split; reflexivity. Qed.

(** C3 does not hold as stated.  With two articles sharing an ID, validation
    goes on only in soft mode and only if no two chapters collide: on
    [twins] it exits, in soft mode too, and stores no manifest; on [pair],
    whose chapter IDs are distinct, it panics in strict mode. *)
Lemma duplicate_article_stops_validation :
  (exists w',
     @ensureUniqueIds Demo.soft 0%nat Demo.twins_heap = (Exit 1, w') /\
     map Book.knownUrls (books w') = [[]]) /\
  @ensureUniqueIds Demo.strict 0%nat Demo.pair_heap =
    (Panic "Duplicate article id: '7', in: books/twins/010-a/020-y.md and books/twins/010-a/010-x.md",
     Demo.pair_heap).
Proof. split; [eexists; split|]; vm_compute; reflexivity. Qed.

(** C7 does not hold as stated.  An article whose ID contains a tab is
    parsed without error: the check is for the space character only. *)
Lemma tab_in_ID_accepted :
  exists p w' a,
    @parseArticle Demo.soft "books/tab/010-a/010-x.md" emptyWorld = (Ret (Some p, None), w') /\
    articles w' !! p = Some a /\
    has_whitespace (Article.ID a) = true /\
    Contains (Article.ID a) " " = false.
Proof. eexists _, _, _. vm_compute. repeat split; reflexivity. Qed.

(** C9, where the code fails it.  On the book [bad], whose first chapter has
    an article without [Id], parseBook returns the error of that chapter
    when the goroutines run one after the other, and returns no error when
    the second goroutine stores its [nil] into the shared [err] between the
    store and the test of the first.  On the book [untitled], whose only
    chapter has no [Title], the chapter keeps the empty ID, which is also
    the ID of the contributors chapter: validation exits and the recorded
    error reaches no caller. *)
Theorem parseBook_error_not_reported :
  main (@parseBook Demo.soft "bad" Demo.in_turn emptyWorld) =
    MReturned (Some 0%nat)
      (Some "parseArticle('books/bad/010-a/010-x.md'), err: 'key 'Id' not found'") /\
  main (@parseBook Demo.soft "bad" Demo.interleaved emptyWorld) = MReturned (Some 0%nat) None /\
  let s := @parseBook Demo.soft "untitled" Demo.in_turn emptyWorld in
  process s = Exited 1 /\
  main s = MPost /\
  err2 s = Some "parseChapter('books/untitled/010-a/000-index.md'), missing Title, err: 'key 'Title' not found'" /\
  map Chapter.ID (chapters (world s)) = [""; ""].
Proof. vm_compute. repeat split; reflexivity. Qed.

(** ** More runs on the small files *)
Lemma parseBook_returns_after_join_witness :
  let s := @parseBook Demo.soft "go" Demo.in_turn emptyWorld in
  main s = MReturned (Some 0%nat) None /\
  @unfinished s = 0 /\ sem s = 0 /\ wg s = 0.
Proof.
  intros s. split; [vm_compute; reflexivity|].
  destruct (@parseBook_returns_after_join Demo.soft "go" Demo.in_turn emptyWorld 0%nat None)
    as (Hu & _ & Hs & Hw & _); [vm_compute; reflexivity|]. auto.
Defined.

Lemma parseBook_no_deadlock_witness :
  let s := @parseBook Demo.soft "go" [0; 0; 0]%nat emptyWorld in
  1 <= @getAlmostMaxProcs Demo.soft /\ ~ halted s /\
  exists t s', @step Demo.soft t s = Some s'.
Proof.
  intros s.
  assert (Hlive : ~ halted s).
  { intros [Hp|(b & e & Hm)]; [apply Hp; vm_compute; reflexivity|].
    vm_compute in Hm. discriminate. }
  split; [vm_compute; discriminate|]. split; [exact Hlive|].
  apply (@parseBook_no_deadlock Demo.soft "go" [0; 0; 0]%nat emptyWorld);
    [vm_compute; discriminate|exact Hlive].
Defined.

Lemma parseBook_can_finish_witness :
  1 <= @getAlmostMaxProcs Demo.soft /\
  exists more,
    (length more <= 36)%nat /\
    halted (@parseBook Demo.soft "go" ([0; 0; 0]%nat ++ more) emptyWorld).
Proof.
  split; [vm_compute; discriminate|].
  apply (@parseBook_can_finish Demo.soft "go" [0; 0; 0]%nat emptyWorld).
  vm_compute; discriminate.
Defined.

Lemma parseBook_book_needs_clean_listing_witness :
  main (@parseBook Demo.soft "go" Demo.in_turn emptyWorld) = MReturned (Some 0%nat) None /\
  snd (@book_listing Demo.soft "go") = None /\
  forallb (@allowed_entry Demo.soft) (fst (@book_listing Demo.soft "go")) = true.
Proof.
  split; [vm_compute; reflexivity|].
  apply (@parseBook_book_needs_clean_listing Demo.soft "go" Demo.in_turn emptyWorld 0%nat None).
  vm_compute. reflexivity.
Defined.

Lemma parseBook_unreadable_dir_witness :
  let s := @parseBook Demo.soft "nowhere" [1; 0; 2; 0]%nat emptyWorld in
  main s = MReturned None (Some "open books/nowhere: no such file or directory") /\
  workers s = [] /\ chapters (world s) = [].
Proof.
  intros s.
  destruct (@parseBook_unreadable_dir Demo.soft "nowhere" [1; 0; 2; 0]%nat emptyWorld
              "open books/nowhere: no such file or directory")
    as (Hm & _ & Hw & Hc & _).
  - vm_compute. reflexivity.
  - simpl. auto.
  - auto.
Defined.

Lemma clean_book_view : book_view DemoSite.clean_heap [0%nat; 1%nat] DemoSite.clean_view.
Proof.
  constructor; [split; [reflexivity|]|].
  - constructor; [reflexivity|]. constructor.
  - constructor; [split; [reflexivity|constructor]|constructor].
Qed.

Lemma ensureUniqueIds_valid_book_witness :
  @ensureUniqueIds Demo.strict 0%nat DemoSite.clean_heap =
    (Ret tt,
     mkWorld (articles DemoSite.clean_heap) (chapters DemoSite.clean_heap)
             [Book.with_knownUrls ["ch-1-a"; "a-7-x"; "ch-2-b"] Demo.book_twins] [] []).
Proof.
  destruct (@ensureUniqueIds_valid_book Demo.strict 0%nat DemoSite.clean_heap Demo.book_twins
              DemoSite.clean_view eq_refl clean_book_view) as [Hrun _].
  - apply (bool_decide_unpack _). vm_compute. exact I.
  - apply (bool_decide_unpack _). vm_compute. exact I.
  - rewrite Hrun. vm_compute. reflexivity.
Defined.

Lemma parseArticle_article_or_error_witness :
  fst (@parseArticle Demo.soft "books/go/010-intro/010-hello.md" emptyWorld) =
    Ret (Some 0%nat, None) /\
  exists a,
    articles (snd (@parseArticle Demo.soft "books/go/010-intro/010-hello.md" emptyWorld)) =
      [a] /\
    @parsed_article Demo.soft "books/go/010-intro/010-hello.md" a.
Proof.
  split; [vm_compute; reflexivity|].
  destruct (@parseArticle_article_or_error Demo.soft "books/go/010-intro/010-hello.md"
              emptyWorld
              (snd (@parseArticle Demo.soft "books/go/010-intro/010-hello.md" emptyWorld))
              (Some 0%nat) None)
    as (_ & _ & _ & _ & a & Ha & Hparsed).
  - vm_compute. reflexivity.
  - exists a. split; [exact Ha | exact Hparsed].
Defined.

Lemma parseArticle_unreadable_witness :
  @parseArticle Demo.strict "books/go/none.md" emptyWorld =
    (Panic "open books/go/none.md: no such file or directory",
     mkWorld [] [] [] ["Error parsing KV file: 'books/go/none.md'" +:+ nl] []) /\
  fst (@parseArticle Demo.soft "books/go/none.md" emptyWorld) =
    Ret (None, Some "open books/go/none.md: no such file or directory").
Proof.
  split.
  - rewrite (@parseArticle_unreadable Demo.strict "books/go/none.md" emptyWorld []
               "open books/go/none.md: no such file or directory"); [|vm_compute; reflexivity].
    vm_compute. reflexivity.
  - rewrite (@parseArticle_unreadable Demo.soft "books/go/none.md" emptyWorld []
               "open books/go/none.md: no such file or directory"); [|vm_compute; reflexivity].
    reflexivity.
Defined.

Lemma parseArticle_missing_id_witness :
  exists w',
    @parseArticle Demo.soft "books/bad/010-a/010-x.md" emptyWorld =
      (Ret (None, Some "parseArticle('books/bad/010-a/010-x.md'), err: 'key 'Id' not found'"),
       w') /\
    stdout w' = [] /\ softErrors w' = [] /\ chapters w' = [] /\ books w' = [].
Proof.
  destruct (@parseArticle_missing_id Demo.soft "books/bad/010-a/010-x.md" emptyWorld
              [mkKV "Title" "no id"; mkKV "Body" "b"] "" "key 'Id' not found")
    as (w' & Hrun & Hout & Herr & Hch & Hb & _); try (vm_compute; reflexivity).
  exists w'. split; [exact Hrun|]. auto.
Defined.

Lemma parseArticle_default_title_witness :
  exists w',
    @parseArticle DemoSite.env "books/go/010-intro/030-untitled.md" emptyWorld =
      (Ret (Some 0%nat, None), w') /\
    (Article.Title <$> articles w' !! 0%nat) = Some "No Title" /\
    (Article.FileNameBase <$> articles w' !! 0%nat) = Some "a-45-no-title".
Proof.
  eexists. split.
  - apply (@parseArticle_default_title DemoSite.env "books/go/010-intro/030-untitled.md"
             emptyWorld [mkKV "Id" "45"; mkKV "Body" "b"] "45" "b");
      vm_compute; reflexivity.
  - vm_compute. split; reflexivity.
Defined.

Lemma parseChapter_all_or_nothing_witness :
  let w := mkWorld [] [Chapter.mk "" (Some 0%nat) "010-a" "" [] "" "" [] 1 ""]
                   (books DemoSite.bad_heap) [] [] in
  fst (@parseChapter Demo.soft 0%nat w) =
    Ret (Some "parseArticle('books/bad/010-a/010-x.md'), err: 'key 'Id' not found'") /\
  (exists c1, chapters (snd (@parseChapter Demo.soft 0%nat w)) !! 0%nat = Some c1 /\
     Chapter.Articles c1 = [] /\ Chapter.ChapterDir c1 = "010-a" /\
     Chapter.Book c1 = Some 0%nat /\ Chapter.No c1 = 1) /\
  books (snd (@parseChapter Demo.soft 0%nat w)) = books w.
Proof.
  intros w. split; [vm_compute; reflexivity|].
  destruct (@parseChapter_all_or_nothing Demo.soft 0%nat w
              (snd (@parseChapter Demo.soft 0%nat w))
              (Ret (Some "parseArticle('books/bad/010-a/010-x.md'), err: 'key 'Id' not found'"))
              (Chapter.mk "" (Some 0%nat) "010-a" "" [] "" "" [] 1 ""))
    as (Hc & _ & Hb & _).
  - vm_compute. reflexivity.
  - reflexivity.
  - discriminate.
  - split; [exact Hc | exact Hb].
Defined.

Lemma parseChapter_success_witness :
  exists c1 arts,
    chapters (snd (@parseChapter Demo.soft 0%nat Demo.intro_heap)) !! 0%nat = Some c1 /\
    Chapter.ID c1 = "1" /\ Chapter.Title c1 = "Intro" /\
    Chapter.FileNameBase c1 = "ch-1-intro" /\
    Chapter.Articles c1 = arts /\ length arts = 2%nat.
Proof.
  destruct (@parseChapter_success Demo.soft 0%nat Demo.intro_heap
              (snd (@parseChapter Demo.soft 0%nat Demo.intro_heap)))
    as (c & b & bk & doc & title & id & arts & Hc & Hb & Hbk & Hdoc & Ht & Hi & Hsp & Hc1 & Hlen).
  - vm_compute. reflexivity.
  - injection Hc as <-. injection Hb as <-. injection Hbk as <-.
    subst doc. vm_compute in Ht. injection Ht as <-.
    vm_compute in Hi. injection Hi as <-.
    eexists. exists arts. split; [exact Hc1|].
    repeat split. exact Hlen.
Defined.

Lemma parseChapter_missing_title_witness :
  exists w',
    @parseChapter Demo.soft 0%nat DemoSite.untitled_heap =
      (Ret (Some "parseChapter('books/untitled/010-a/000-index.md'), missing Title, err: 'key 'Title' not found'"),
       w') /\
    (Chapter.ID <$> chapters w' !! 0%nat) = Some "" /\
    articles w' = [].
Proof.
  destruct (@parseChapter_missing_title Demo.soft 0%nat DemoSite.untitled_heap
              (Chapter.mk "" (Some 0%nat) "010-a" "" [] "" "" [] 0 "") 0%nat
              (Book.mk "untitled" "untitled" "Essential untitled" "untitled" []
                       "books/untitled" "www/essential/untitled" [] 0 "" [] "")
              "" "key 'Title' not found")
    as (w' & Hrun & Hc & Ha & _); try (vm_compute; reflexivity).
  exists w'. split; [exact Hrun|]. split; [rewrite Hc; reflexivity | exact Ha].
Defined.

Lemma parseChapter_no_article_files_witness :
  exists w' c1,
    @parseChapter Demo.soft 0%nat DemoSite.bad_heap = (Ret None, w') /\
    chapters w' !! 0%nat = Some c1 /\
    Chapter.Articles c1 = [] /\ Chapter.ID c1 = "2" /\ Chapter.Title c1 = "B".
Proof.
  destruct (@parseChapter_no_article_files Demo.soft 0%nat DemoSite.bad_heap
              (Chapter.mk "" (Some 0%nat) "020-b" "" [] "" "" [] 0 "") 0%nat
              (Book.mk "bad" "bad" "Essential bad" "bad" [] "books/bad" "www/essential/bad"
                       [] 0 "" [] "")
              "B" "2")
    as (w' & Hrun & c1 & Hc & Hrest); try (vm_compute; reflexivity).
  exists w', c1. split; [exact Hrun|]. split; [exact Hc | exact Hrest].
Defined.

Lemma buildArticleSiblings_copies_witness :
  exists w' sibs,
    @buildArticleSiblings [0%nat; 1%nat] Demo.twins_heap = (Ret tt, w') /\
    articles w' !! 1%nat = Some (Article.with_Siblings sibs Demo.article_y) /\
    sibs !! 0%nat = Some (sibling_copy 1 0 Demo.article_x) /\
    sibs !! 1%nat = Some (sibling_copy 1 1 Demo.article_y).
Proof.
  destruct (buildArticleSiblings_copies [0%nat; 1%nat] [Demo.article_x; Demo.article_y]
              Demo.twins_heap)
    as (w' & Hrun & _ & _ & Hin).
  - apply (bool_decide_unpack _). vm_compute. exact I.
  - repeat constructor.
  - destruct (Hin 1%nat 1%nat Demo.article_y eq_refl eq_refl) as (sibs & Hp & _ & Hs).
    exists w', sibs. split; [exact Hrun|]. split; [exact Hp|].
    split; [apply (Hs 0%nat) | apply (Hs 1%nat)]; reflexivity.
Defined.

Lemma processFileIncludes_plain_witness :
  @processFileIncludes Demo.soft "books/go/010-intro/010-hello.md" emptyWorld =
    (Ret (["Id: 42"; "Title: Intro"; "Body: hello"], None), emptyWorld).
Proof.
  apply (@processFileIncludes_plain Demo.soft).
  - vm_compute. reflexivity.
  - repeat constructor.
Defined.

(** The order of strings is transitive. *)
Lemma string_compare_trans (a : string) : forall b c,
  String.compare a b <> Gt -> String.compare b c <> Gt -> String.compare a c <> Gt.
Proof.
  induction a as [|x a IH]; intros [|y b] [|z c]; simpl; try congruence.
  unfold Ascii.compare.
  destruct (N.compare_spec (N_of_ascii x) (N_of_ascii y));
    destruct (N.compare_spec (N_of_ascii y) (N_of_ascii z));
    destruct (N.compare_spec (N_of_ascii x) (N_of_ascii z));
    try congruence; try lia; apply IH.
Qed.

Lemma ltb_false_compare (a b : string) : String.ltb b a = false <-> String.compare a b <> Gt.
Proof.
  unfold String.ltb. rewrite (String.compare_antisym a b).
  destruct (String.compare b a); simpl; split; congruence.
Qed.

(** The merge sort of the small file system sorts by name. *)
Lemma demo_sorts_by_name : @sorts_by_name DemoSite.env.
Proof.
  intros l. split; [apply merge_sort_Permutation|].
  unfold name_sorted. apply StronglySorted_merge_sort.
  - intros a b c Hab Hbc. unfold by_name in *. apply ltb_false_compare.
    apply ltb_false_compare in Hab, Hbc. eapply string_compare_trans; eauto.
  - intros a b. unfold by_name. rewrite !ltb_false_compare.
    rewrite (String.compare_antisym (soName b) (soName a)).
    destruct (String.compare (soName a) (soName b)); simpl; [left|left|right]; congruence.
Qed.

Lemma loadSoContributorsMust_returns_witness :
  exists cs,
    (Book.SoContributors <$>
       books (snd (@loadSoContributorsMust DemoSite.env 0%nat "books/go/so_more.txt"
                     Demo.intro_heap)) !! 0%nat) = Some cs /\
    cs ≡ₚ [mkSoContributor 7 "zoe" "zoe"; mkSoContributor 8 "ann" "ann"] /\
    name_sorted cs /\
    cs = [mkSoContributor 8 "ann" "ann"; mkSoContributor 7 "zoe" "zoe"].
Proof.
  destruct (@loadSoContributorsMust_returns DemoSite.env 0%nat "books/go/so_more.txt"
              Demo.intro_heap
              (snd (@loadSoContributorsMust DemoSite.env 0%nat "books/go/so_more.txt"
                      Demo.intro_heap))
              demo_sorts_by_name)
    as (lines & bk & cs & Hread & _ & Hbk & Hw & Hperm & Hsorted).
  - vm_compute. reflexivity.
  - exists cs. vm_compute in Hread. injection Hread as <-.
    split; [rewrite Hw; reflexivity|]. split; [exact Hperm|]. split; [exact Hsorted|].
    vm_compute in Hbk. injection Hbk as <-. vm_compute in Hw. now injection Hw as <-.
Defined.

Lemma loadSoContributorsMust_panics_clean_witness :
  fst (@loadSoContributorsMust Demo.soft 0%nat "books/go/none.txt" Demo.intro_heap) =
    Panic "open books/go/none.txt: no such file or directory" /\
  snd (@loadSoContributorsMust Demo.soft 0%nat "books/go/none.txt" Demo.intro_heap) =
    Demo.intro_heap.
Proof.
  split; [vm_compute; reflexivity|].
  destruct (@loadSoContributorsMust_panics_clean Demo.soft 0%nat "books/go/none.txt"
              Demo.intro_heap
              (snd (@loadSoContributorsMust Demo.soft 0%nat "books/go/none.txt"
                      Demo.intro_heap))
              (Panic "open books/go/none.txt: no such file or directory"))
    as (Hw & _).
  - vm_compute. reflexivity.
  - discriminate.
  - exact Hw.
Defined.

Lemma unknown_template_exits_witness :
  @execTemplateToFileSilentMust Demo.soft DemoSite.renderers "toc.tmpl.html" DNil
     "www/toc.html" (@fresh_site DemoSite.renderers emptyWorld) =
    (Exit 1,
     @mkSite DemoSite.renderers emptyWorld None None None None None
       [EMkdirAll "www"; EFatalf ("unknown template 'toc.tmpl.html'" +:+ nl)]).
Proof.
  destruct (@unknown_template_exits Demo.soft DemoSite.renderers "toc.tmpl.html" DNil
              "www/toc.html" (@fresh_site DemoSite.renderers emptyWorld) eq_refl)
    as [_ Hexec].
  rewrite Hexec; reflexivity.
Defined.

Lemma page_file_closed_witness :
  let s := @fresh_site DemoSite.renderers Demo.pair_heap in
  let run := @execTemplateToFileSilentMust Demo.soft DemoSite.renderers "chapter.tmpl.html"
               (DChapter 0%nat) "www/c.html" s in
  fst run = Ret tt /\
  caches_only Demo.pair_heap (heap (snd run)) /\
  (Book.cachedArticlesCount <$> books (heap (snd run)) !! 0%nat) = Some 4 /\
  last (events (snd run)) = Some (EClose "www/c.html").
Proof.
  intros s run. split; [vm_compute; reflexivity|].
  destruct (@page_file_closed Demo.soft DemoSite.renderers "chapter.tmpl.html"
              (DChapter 0%nat) "www/c.html" s (snd run) (fst run))
    as (Hcaches & evs & Hev & _ & Hclose & _ & Hret).
  - vm_compute. reflexivity.
  - split; [exact Hcaches|].
    destruct Hret as (pre & ref & t & output & counted & _ & _ & _ & Hexec & Hheap);
      [vm_compute; reflexivity|].
    split.
    + rewrite Hheap. vm_compute in Hexec. injection Hexec as <- <-.
      vm_compute. reflexivity.
    + rewrite Hev. cbn [events s fresh_site app]. apply Hclose; [|reflexivity].
      vm_compute in Hev. subst evs.
      apply (bool_decide_unpack _). vm_compute. exact I.
Defined.

Lemma demo_parseFiles_not_nil (p : string) : DemoSite.parseFiles p <> (None, None).
Proof. unfold DemoSite.parseFiles. destruct (Demo.assoc p DemoSite.templates); discriminate. Qed.

Lemma templates_parsed_once_witness :
  let jobs := [("index.tmpl.html", DNil, "www/index.html");
               ("chapter.tmpl.html", DChapter 0%nat, "www/c.html");
               ("index.tmpl.html", DNil, "www/again.html");
               ("about.tmpl.html", DNil, "www/about.html");
               ("chapter.tmpl.html", DChapter 1%nat, "www/d.html")] in
  let run := @renders Demo.soft DemoSite.renderers jobs
               (@fresh_site DemoSite.renderers emptyWorld) in
  fst run = Panic "open books_html/about.tmpl.html: no such file or directory" /\
  NoDup (parsed_paths (events (snd run))) /\
  (length (parsed_paths (events (snd run))) <= 5)%nat.
Proof.
  intros jobs run. split; [vm_compute; reflexivity|].
  apply (@templates_parsed_once Demo.soft DemoSite.renderers jobs emptyWorld (fst run) (snd run)).
  - exact demo_parseFiles_not_nil.
  - apply (bool_decide_unpack _). vm_compute. exact I.
  - vm_compute. reflexivity.
Defined.

Lemma sibling_links_witness :
  exists s,
    (Article.Siblings <$>
       articles (snd (@buildArticleSiblings [0%nat; 1%nat] Demo.twins_heap)) !! 1%nat)
      = Some s /\
    forall c, s !! 0%nat = Some c ->
      Article.Title c = "X" /\ Article.No c = 1 /\
      @Article_destFilePath Demo.soft c Demo.twins_heap =
        @Article_destFilePath Demo.soft Demo.article_x Demo.twins_heap.
Proof.
  eexists. split; [vm_compute; reflexivity|].
  intros c Hc.
  destruct (@sibling_links Demo.soft [0%nat; 1%nat] [Demo.article_x; Demo.article_y]
              Demo.twins_heap
              (snd (@buildArticleSiblings [0%nat; 1%nat] Demo.twins_heap))
              1%nat 0%nat 1%nat 0%nat
              _ _ c
              ltac:(apply (bool_decide_unpack _); vm_compute; exact I)
              ltac:(repeat constructor)
              ltac:(vm_compute; reflexivity)
              eq_refl eq_refl
              ltac:(vm_compute; reflexivity)
              ltac:(vm_compute; reflexivity)
              Hc)
    as (_ & Ht & Hn & Hlinks).
  split; [exact Ht|]. split; [exact Hn|].
  destruct (Hlinks Demo.twins_heap) as (_ & _ & Hd).
  rewrite Hd. vm_compute. reflexivity.
Defined.

Lemma contributors_link_mismatch_witness :
  Book_ContributorsURL (Book.mk "go" "go" "Essential go" "go" [] "books/go"
                                "www/essential/go" [] 0 "" [] "") =
    "/essential/go//ch-contributors" /\
  exists ch w' c,
    genContributorsChapter 0%nat Demo.intro_heap = (Ret ch, w') /\
    chapters w' !! ch = Some c /\
    Chapter_URL c w' = (Ret "/essential/go/ch-contributors", w').
Proof.
  destruct (contributors_link_mismatch 0%nat Demo.intro_heap
              (Book.mk "go" "go" "Essential go" "go" [] "books/go" "www/essential/go"
                       [] 0 "" [] "") eq_refl eq_refl)
    as (ch & w' & c & Hrun & Hc & Hurl & Hbook & _).
  split; [exact Hbook|].
  exists ch, w', c. split; [exact Hrun|]. split; [exact Hc | exact Hurl].
Defined.

Lemma parsed_chapter_links_witness :
  let w' := snd (@parseChapter Demo.soft 0%nat Demo.intro_heap) in
  exists c bk,
    chapters w' !! 0%nat = Some c /\
    @Chapter_destFilePath Demo.soft c w' =
      (Ret (@filepath_Join Demo.soft
              [@destEssentialDir Demo.soft; Book.FileNameBase bk;
               Chapter.FileNameBase c +:+ ".html"]), w').
Proof.
  intros w'.
  destruct (@parsed_chapter_links Demo.soft 0%nat Demo.intro_heap w')
    as (c & bk & Hc & _ & Hdest & _).
  - vm_compute. reflexivity.
  - exists c, bk. split; [exact Hc | exact Hdest].
Defined.


Lemma genBookChapter_pages_witness :
  let s := @fresh_site DemoSite.renderers Demo.pair_heap in
  let run := @genBookChapter Demo.soft DemoSite.renderers 0%nat s in
  fst run = Ret tt /\
  (exists c paths cpath,
     chapters (heap s) !! 0%nat = Some c /\
     length paths = length (Chapter.Articles c) /\
     created_files (events (snd run)) = paths ++ [cpath]) /\
  created_files (events (snd run)) =
    ["www/essential/twins/a-7-x.html"; "www/essential/twins/a-7-y.html";
     "www/essential/twins/ch-1-a.html"] /\
  bodies_only Demo.pair_heap (heap (snd run)) /\
  (Article.BodyHTML <$> articles (heap (snd run)) !! 0%nat) = Some "<p>x</p>" /\
  (Book.cachedArticlesCount <$> books (heap (snd run)) !! 0%nat) = Some 4.
Proof.
  intros s run. split; [vm_compute; reflexivity|].
  destruct (@genBookChapter_pages Demo.soft DemoSite.renderers 0%nat s (snd run))
    as (c & paths & cpath & Hc & Hall & _ & Hcreated & Hkept).
  - vm_compute. reflexivity.
  - split.
    { exists c, paths, cpath. split; [exact Hc|].
      split; [symmetry; exact (Forall2_length _ _ _ Hall) | exact Hcreated]. }
    split; [vm_compute; reflexivity|]. split; [exact Hkept|].
    split; vm_compute; reflexivity.
Defined.
